(* ===== verification/_CoqProject ===== *)
-Q . S2P
Prelude.v
CString.v
Log.v
Util.v
Uevent.v
Vector.v
Structs.v
File.v
Parser.v
Cli.v
Conf.v
Blacklist.v
Pgpolicies.v
Options.v
Dict.v
Print.v
Alias.v
Wwids.v
Prkey.v
Dmparser.v
World.v
StructsVec.v
Configure.v
Propsel.v
Config.v
Load.v
Hwtable.v
Coalesce.v
Checker.v
Daemon.v
Wellformed.v
Safety.v
Crc32.v
Ptable.v
Gpt.v
Dasd.v
Kpartx.v
Handlers.v
Commands.v
