(* ===== verification/Prelude.v ===== *)
(** * multipath-tools: a verification library

    multipath-tools manages devices that are reachable over several paths.
    libmultipath discovers paths, groups them into maps and writes the maps as
    device-mapper tables; the daemon multipathd follows uevents, checks the
    paths, tells the kernel which of them work, and keeps maps and kernel in
    step.  This library models the core of both, one file per component, and
    proves what makes them correct.

    ** Files

    Foundations:
    - [Prelude]: record update, tactics, fixed-width arithmetic (u32, s32, u64)
      and list lemmas used everywhere.
    - [CString]: C strings as lists of byte codes, with the functions of the C
      library the program calls.
    - [Log] (src/libmultipath/log.c, log_pthread.c): the ring of log messages,
      and the threads that fill and empty it.
    - [Util] (util.c): buffers, words, reservation keys, bitfields.
    - [Uevent] (uevent.c, and get_uid_attribute_by_attrs of config.c): the
      environment of uevents, and the filtering and merging of the queue.
    - [Vector] (vector.c, vector.h): growable arrays with explicit allocation
      failures; its refinement theorem is why the other files use plain lists.
    - [Structs] (structs.c, structs.h): paths, path groups, maps; searching,
      counting, the feature string.
    - [File] (file.c): opening a file of lines, and reading its lines.

    Configuration:
    - [Parser] (parser.c): tokens, sections and keywords, for any configuration.
    - [Conf] (config.h): the configuration as blocks of options reached by name.
    - [Blacklist] (blacklist.c): lists of patterns and the filters.
    - [Options] (dict.c): the values of options, read and printed.
    - [Dict] (dict.c): the keywords with their handlers.
    - [Print] (print.c): the dump of the configuration, and reading it back.
    - [Config] (config.c): looking up, storing and merging hardware and multipath
      entries.
    - [Load] (load_config of config.c), [Hwtable] (hwtable.c): the whole
      configuration from the files and the built-in table.
    - [Propsel] (propsel.c): the properties of a map and a path from the layers
      of the configuration.

    Maps:
    - [Pgpolicies] (pgpolicies.c, switchgroup.c): grouping paths by policy, the
      order of the groups, the best group.
    - [Alias] (alias.c), [Wwids] (wwids.c), [Prkey] (prkey.c): the files of
      user-friendly names, known WWIDs and reservation keys.
    - [Dmparser] (dmparser.c): device-mapper tables and status lines, printed
      and parsed word by word in a small state and error monad.
    - [World]: the state of the daemon (stores of paths and maps, the two
      vectors of struct vectors, the history of calls that left the program),
      and [env], the answers of kernel, udev, checkers, clock and configuration
      as functions of that history.
    - [StructsVec] (structs_vec.c): which map owns a path, reading a map back
      from the kernel, recovery mode.
    - [Configure] (configure.c, parts of devmapper.c and discovery.c): ordering
      paths over host adapters, setup_map, select_action, domap.
    - [Coalesce] (coalesce_paths of configure.c, should_multipath of wwids.c,
      add_map_with_path of structs_vec.c): making maps out of paths.

    The daemon:
    - [Checker] (check_path and its helpers of multipathd/main.c, io_err_stat.c):
      the path checker, failback, damping of flapping paths, daemon states.
    - [Daemon] (multipathd/main.c, waiter.c): the handlers of uevents, map
      reloads, the timers and the checker loop.  It instantiates the arguments
      of [Checker] (reloading a map, adding a path).
    - [Wellformed], [Safety]: the invariant of the daemon's objects, through
      every function of StructsVec, Configure, Coalesce, Checker and Daemon.
    - [Cli] (multipathd/cli.c, uxsock_trigger of main.c): the words of commands,
      their handlers, the help text, completion, who may run what.
    - [Handlers] (multipathd/cli_handlers.c): what each command does;
      [Commands]: every command but one keeps the invariant of [Safety].

    kpartx:
    - [Crc32] (src/kpartx/crc32.c): the checksums and the loops that fill their
      tables.
    - [Ptable] (dos.c, bsd.c, solaris.c, unixware.c, mac.c, sun.c, ps3.c and
      getblock of kpartx.c), [Gpt] (gpt.c), [Dasd] (dasd.c): reading partition
      tables from a disk.
    - [Kpartx] (kpartx.c, devmapper.c): names and UUIDs of partitions, listing,
      adding, updating and deleting their maps, and the choice of the table.

    ** How the state corresponds to the code

    Paths and maps are shared by pointer in C, so they live in two stores
    ([w_paths], [w_maps]) and are referred to by number; free removes the entry.
    Path groups belong to one map and are values.  A function of the code that
    changes shared state takes and returns a [world].  Each call that leaves the
    program is added to [trace], and its answer is a function of the history up
    to it, so that equal questions may get different answers.  The options of
    struct config, hwentry and mpentry are reached through the names of the
    members (the macros of the code paste them), as functions from that name;
    a handler of a keyword is the function the macro would make.  Files are
    texts, and what system calls on them answer is a record.  Regular
    expressions are a parameter.

    kpartx is a program of its own: its readers are computations on a cache of
    blocks and an array of slices, over a [disk] that may answer anything; its
    maps are a history of changes, and libdevmapper answers from it.  Memory that
    holds no data of the disk cannot be read, and an array has its bounds.

    ** Interfaces

    [Configure] takes what propsel.c selects as [e_select] of [env];
    [Propsel.propsel_selectors] is the value the program gives it.  [Parser] is
    a section over the type of the configuration, which [Dict] instantiates.
    [Checker] takes reloading a map and adding a path as arguments, which
    [Daemon] instantiates.  [Cli] only names the callbacks; [Handlers.call]
    gives them their meaning and [Handlers.command] is the composition.
    [Kpartx.kpartx] composes the readers, which share the type [slice -> Z -> M Z].

    ** Fuel

    A loop over a vector that shrinks while it runs has fuel;
    [Safety.map_timers_end] shows that one more than the length of the vector is
    enough, and [Commands] shows the same of the loops of the commands.
    The loop over logical partitions has [Ptable.EXT_FUEL], which
    [Ptable.readers_stay_inside] shows to be enough; of the loop over contained
    slices one pass is enough ([Kpartx.add_completes]); the loop over the labels
    of a DASD may need any fuel ([Dasd.dasd_never_ends]).  [check_all] has fuel
    too, because reading tables back may add paths while it runs; what is shown
    of it holds for every fuel.  A reply that does not fit its buffer is printed
    again into one of twice the size; [GROW_FUEL] bounds the doublings.  The parser of the configuration gets as much fuel as the
    file has lines, and merging sections as much as there are pairs of them;
    [Dict.config_file_typed] and [Hwtable.load_config_usable] show that
    both end.

    ** What the theorems show

    - Safety of the daemon: no event, timer, check or command leaves a freed
      path or map in the vectors, or a path that belongs to a freed map;
      coalescing keeps this; the handlers' return codes say exactly whether a
      map was removed; the loops that remove maps while they run end; waiting
      for a uevent ends.
    - Clients: lines of clients in any order keep the invariant and are
      answered, but for "add map", which leaks a map (proved in
      [Commands.add_map_leaks]); a client that is not root changes nothing,
      unless it repeats words ([Cli.authorization_bypass]); every line of the
      help text is a line of a command.
    - The kernel is told the truth: the path checker's commands and
      sync_map_state leave the kernel's view of a path equal to the checker's,
      and queueing in the kernel is on exactly when the daemon thinks so; it is
      turned off once, when the retries are used up.
    - Maps are complete: setup_map groups every path exactly once and the table
      it returns is the text of those groups; the grouping policies partition
      the paths by their relation; the best group maximises priority and then
      enabled paths; the table is parsed back to the same map; select_action
      and domap do what they say, with every path locked during a creation.
    - Configuration: whatever the file contains, reading it ends and every option
      has a value of its type; what is printed is read back; with the built-in
      table loading ends and gives a table that can be used; merging sections
      changes the settings of no device; the blacklist in the memory decides as
      the lists of the files; the layers have one precedence for all properties,
      and no property is left undecided.
    - Files: an alias that was given stays, the WWID file is a set, the
      reservation keys are a map.
    - Queues and damping: merging uevents keeps the effect for each path in
      order; log messages leave in the order they came in and none is lost but
      the ones logged into a full ring; flapping paths and the check interval
      behave as documented.
    - Partitions: reading a table ends and stays inside of the buffers, whatever
      the disk holds, but for Macintosh block sizes, GPT headers that are too
      large and the labels of DASDs (the counterexamples are in Ptable, Gpt and
      Dasd); a DOS table with its chains of logical partitions is found as it is
      meant; a GPT is used only if its place, its signature and its
      checksums are right, and the checksums are the ones of the polynomial;
      -l shows what -a makes of slices that lie in no other; -d removes the partitions of its device only; -a
      ends unless a name is taken by another map ([Kpartx.add_loops_forever]).
    - Buffers, vectors and bitfields stay in bounds on their whole domain, and
      where the code does not, the counterexample is proved.

    ** Not modelled

    pathinfo and everything that asks a device (discovery.c, checkers,
    prioritizers), the tables of paths and maps that print.c formats for
    listings (the commands get them as texts), starting and stopping the daemon,
    its sockets, thread creation and signals, the foreign libraries, loop devices
    and the command line of kpartx, and the other programs: multipath,
    mpathpersist with libmpathpersist, and libdmmp.  Threads are atomic steps
    between taking and releasing the lock of struct vectors; the log threads take
    smaller steps.  Memory is assumed to be available except in Vector. *)

From stdpp Require Export base tactics list gmap numbers strings.
From Stdlib Require Export ZArith Lia.

#[global] Open Scope Z_scope.
#[global] Set Default Goal Selector "!".

(** ** Record update

    [r <| f := v |>] is [r] with field [f] set to [v]; [r <| f ::= h |>] is
    [r] with [h] applied to field [f].  A record type takes part through an
    instance of [Eta], the function that rebuilds it from its projections; the
    updater of each field is computed from it by [build_updater]. *)

Class Eta (R : Type) := eta_of : R -> R.
Class Updater {R T : Type} (proj : R -> T) := upd : (T -> T) -> R -> R.
Arguments upd {R T} proj {_} _ _ /.

Ltac build_updater :=
  lazymatch goal with
  | |- @Updater ?R ?T ?proj =>
      let e := constr:(_ : Eta R) in
      let e := eval hnf in e in
      let h := fresh "h" in
      let x := fresh "x" in
      intros h x;
      let b := eval cbv beta in (e x) in
      let b := eval pattern (proj x) in b in
      lazymatch b with
      | ?g _ => let r := eval cbv beta in (g (h (proj x))) in exact r
      end
  end.
#[global] Hint Extern 1 (Updater _) => build_updater : typeclass_instances.

Declare Scope mp_scope.
Delimit Scope mp_scope with mp.
#[warnings="-postfix-notation-not-level-1"]
Notation "r <| f := v |>" := (upd f (fun _ => v) r)
  (at level 12, left associativity, f at level 9, v at level 100,
   format "r  <|  f  :=  v  |>") : mp_scope.
#[warnings="-postfix-notation-not-level-1"]
Notation "r <| f ::= h |>" := (upd f h r)
  (at level 12, left associativity, f at level 9, h at level 100,
   format "r  <|  f  ::=  h  |>") : mp_scope.
#[global] Open Scope mp_scope.

(** ** Tactics *)

(** Turns boolean comparisons in the context and the goal into propositions. *)
Ltac bools :=
  repeat match goal with
  | H : (_ && _)%bool = true |- _ => apply andb_true_iff in H as [? ?]
  | H : (_ || _)%bool = false |- _ => apply orb_false_iff in H as [? ?]
  | H : (_ || _)%bool = true |- _ => apply orb_true_iff in H
  | H : (_ && _)%bool = false |- _ => apply andb_false_iff in H
  | H : negb _ = true |- _ => apply negb_true_iff in H
  | H : negb _ = false |- _ => apply negb_false_iff in H
  | H : bool_decide _ = true |- _ => apply bool_decide_eq_true in H
  | H : bool_decide _ = false |- _ => apply bool_decide_eq_false in H
  | H : (_ <? _) = true |- _ => apply Z.ltb_lt in H
  | H : (_ <? _) = false |- _ => apply Z.ltb_ge in H
  | H : (_ <=? _) = true |- _ => apply Z.leb_le in H
  | H : (_ <=? _) = false |- _ => apply Z.leb_gt in H
  | H : (_ =? _) = true |- _ => apply Z.eqb_eq in H
  | H : (_ =? _) = false |- _ => apply Z.eqb_neq in H
  end.

(** Case analysis on every test of the goal, closing the arithmetic ones. *)
Ltac split_ifs :=
  repeat (case_match; try discriminate; simplify_eq/=; bools; try lia).

(** Case analysis on the conditional of a hypothesis. *)
Ltac split_if_in H :=
  match type of H with
  | context [if ?b then _ else _] => destruct b eqn:?; bools
  end.

(** Goals about the lengths of list expressions. *)
Ltac len :=
  repeat first [ progress cbn [length]
               | rewrite length_app | rewrite length_fmap | rewrite length_take
               | rewrite length_drop | rewrite length_insert | rewrite length_alter
               | rewrite length_reverse | rewrite length_replicate ];
  lia.

(** Appends associated to the right, with the conses outside. *)
Ltac app_norm := repeat progress (rewrite <-?app_assoc; cbn [app]).

(** [lia] on goals made of boolean comparisons. *)
Ltac blia :=
  first
  [ lia
  | repeat match goal with
    | |- context [?x <? ?y] => destruct (Z.ltb_spec x y)
    | |- context [?x <=? ?y] => destruct (Z.leb_spec x y)
    | |- context [?x =? ?y] => destruct (Z.eqb_spec x y)
    | |- context [(?x <? ?y)%nat] => destruct (Nat.ltb_spec x y)
    | |- context [(?x <=? ?y)%nat] => destruct (Nat.leb_spec x y)
    | |- context [(?x =? ?y)%nat] => destruct (Nat.eqb_spec x y)
    end; solve [reflexivity | simpl in *; lia] ].

(** Takes the first conditional of the goal one way, by arithmetic. *)
Ltac if_true :=
  match goal with |- context [if ?b then _ else _] => replace b with true by blia end;
  cbn iota.
Ltac if_false :=
  match goal with |- context [if ?b then _ else _] => replace b with false by blia end;
  cbn iota.

(** Decides a closed proposition by evaluation. *)
Ltac decide_closed := apply (bool_decide_eq_true_1 _); vm_compute; reflexivity.

(** ** Machine integers *)

Definition INT_MAX : Z := 2147483647.
Definition INT_MIN : Z := -2147483648.
Definition UINT_MAX : Z := 4294967295.

(** Conversions to C integer types: two's complement truncation. *)
Definition u8 (z : Z) : Z := z mod 2 ^ 8.
Definition u16 (z : Z) : Z := z mod 2 ^ 16.
Definition u32 (z : Z) : Z := z mod 2 ^ 32.
Definition u64 (z : Z) : Z := z mod 2 ^ 64.
Definition s32 (z : Z) : Z := (z + 2 ^ 31) mod 2 ^ 32 - 2 ^ 31.
Definition s64 (z : Z) : Z := (z + 2 ^ 63) mod 2 ^ 64 - 2 ^ 63.

Definition is_int (z : Z) : Prop := INT_MIN <= z <= INT_MAX.
Definition is_byte (z : Z) : Prop := 0 <= z < 256.

#[export] Instance is_int_dec z : Decision (is_int z).
Proof. unfold is_int. apply _. Defined.
#[export] Instance is_byte_dec z : Decision (is_byte z).
Proof. unfold is_byte. apply _. Defined.

Lemma s32_id z : is_int z -> s32 z = z.
Proof.
  unfold is_int, s32, INT_MIN, INT_MAX. intros H.
  rewrite Z.mod_small by lia. lia.
Qed.

Lemma s32_range z : is_int (s32 z).
Proof.
  unfold is_int, s32, INT_MIN, INT_MAX.
  pose proof (Z.mod_pos_bound (z + 2 ^ 31) (2 ^ 32) ltac:(lia)). lia.
Qed.

Lemma u32_id z : 0 <= z < 2 ^ 32 -> u32 z = z.
Proof. apply Z.mod_small. Qed.

Lemma u32_range z : 0 <= u32 z < 2 ^ 32.
Proof. apply Z.mod_pos_bound. lia. Qed.

Lemma u64_id z : 0 <= z < 2 ^ 64 -> u64 z = z.
Proof. apply Z.mod_small. Qed.

Lemma u64_range z : 0 <= u64 z < 2 ^ 64.
Proof. apply Z.mod_pos_bound. lia. Qed.

Create HintDb cint.
#[export] Hint Resolve s32_range u32_range u64_range : cint.
Create Rewrite HintDb cint_rw.
#[export] Hint Rewrite s32_id u32_id u64_id using (unfold is_int, INT_MIN, INT_MAX in *; lia) : cint_rw.

(** ** Lists *)

(** The longest prefix whose elements all satisfy [p], and the rest. *)
Fixpoint span {A} (p : A -> bool) (l : list A) : list A * list A :=
  match l with
  | [] => ([], [])
  | x :: r => if p x then let '(a, b) := span p r in (x :: a, b) else ([], l)
  end.

Lemma span_app {A} (p : A -> bool) l a b : span p l = (a, b) -> l = a ++ b.
Proof.
  revert a b. induction l as [|x r IH]; simpl; intros a b H; [by simplify_eq|].
  destruct (p x); [|by simplify_eq].
  destruct (span p r) as [a' b'] eqn:E. simplify_eq/=. by rewrite <- (IH a' b).
Qed.

Lemma span_all {A} (p : A -> bool) l a b :
  span p l = (a, b) -> Forall (fun x => p x = true) a.
Proof.
  revert a b. induction l as [|x r IH]; simpl; intros a b H; [by simplify_eq|].
  destruct (p x) eqn:Ex; [|by simplify_eq].
  destruct (span p r) as [a' b'] eqn:E. simplify_eq/=.
  constructor; [done|]. by apply (IH a' b).
Qed.

Lemma span_stop {A} (p : A -> bool) l a x b :
  span p l = (a, x :: b) -> p x = false.
Proof.
  revert a. induction l as [|y r IH]; simpl; intros a H; [by simplify_eq|].
  destruct (p y) eqn:Ey; [|by simplify_eq].
  destruct (span p r) as [a' b'] eqn:E. simplify_eq/=. by apply (IH a').
Qed.

(** [span] splits exactly at the first element that fails [p]. *)
Lemma span_intro {A} (p : A -> bool) a b :
  Forall (fun x => p x = true) a ->
  match b with [] => True | x :: _ => p x = false end ->
  span p (a ++ b) = (a, b).
Proof.
  intros Ha Hb. induction Ha as [|x a Hx _ IH]; simpl.
  - destruct b; simpl; [done|]. by rewrite Hb.
  - by rewrite Hx, IH.
Qed.

Lemma span_whole {A} (p : A -> bool) a :
  Forall (fun x => p x = true) a -> span p a = (a, []).
Proof. intros H. rewrite <-(app_nil_r a) at 1. by apply span_intro. Qed.

Lemma span_length {A} (p : A -> bool) l a b :
  span p l = (a, b) -> (length b <= length l)%nat.
Proof. intros ->%span_app. rewrite length_app. lia. Qed.

(** The elements from the end of [l] backwards to the first that fails [p]
    are dropped. *)
Definition drop_trailing {A} (p : A -> bool) (l : list A) : list A :=
  reverse (snd (span p (reverse l))).

(** [nth] with a default on an index in [Z]. *)
Definition znth {A} (d : A) (l : list A) (i : Z) : A :=
  if i <? 0 then d else nth (Z.to_nat i) l d.

Lemma reverse_snoc_cases {A} (l : list A) : l = [] \/ exists l' x, l = l' ++ [x].
Proof. destruct l using rev_ind; eauto. Qed.

Lemma Forall_lookup_dec {A} (P : A -> Prop) l :
  Forall P l -> forall i x, l !! i = Some x -> P x.
Proof. intros H i x Hi. by eapply Forall_lookup_1. Qed.

(** Lists sorted by a boolean "comes no later than" test, as the loops of the
    C code leave them: every element precedes all the later ones. *)
Fixpoint sortedb {A} (le : A -> A -> bool) (l : list A) : Prop :=
  match l with
  | [] => True
  | x :: r => Forall (fun y => le x y = true) r /\ sortedb le r
  end.

Lemma sortedb_app {A} (le : A -> A -> bool) l1 l2 :
  sortedb le (l1 ++ l2) <->
  sortedb le l1 /\ sortedb le l2 /\
  Forall (fun x => Forall (fun y => le x y = true) l2) l1.
Proof.
  induction l1 as [|x l1 IH]; simpl.
  - split; [intros; repeat split; eauto|tauto].
  - rewrite IH, Forall_app, Forall_cons. tauto.
Qed.

(** Filtering by a boolean test. *)
Lemma filter_none {A} (f : A -> bool) l : Forall (fun x => f x = false) l -> filter f l = [].
Proof.
  induction 1 as [|x l Hx _ IH]; [done|]. rewrite filter_cons_False; [done|].
  intros ?%Is_true_true. congruence.
Qed.

Lemma filter_all {A} (f : A -> bool) l : Forall (fun x => f x = true) l -> filter f l = l.
Proof.
  induction 1 as [|x l Hx _ IH]; [done|]. rewrite filter_cons_True; [by rewrite IH|]. by apply Is_true_true.
Qed.

Lemma filter_consb {A} (f : A -> bool) x l :
  filter f (x :: l) = if f x then x :: filter f l else filter f l.
Proof.
  destruct (f x) eqn:E.
  - rewrite filter_cons_True; [done|]. by apply Is_true_true.
  - rewrite filter_cons_False; [done|]. intros ?%Is_true_true. congruence.
Qed.

(** Splitting a list by a boolean test loses nothing. *)
Lemma filter_split_perm {A} (f : A -> bool) l :
  filter f l ++ filter (fun x => negb (f x)) l ≡ₚ l.
Proof.
  induction l as [|x l IH]; [done|]. rewrite !filter_consb.
  destruct (f x); simpl; [by rewrite IH|]. by rewrite <-Permutation_middle, IH.
Qed.

Lemma forallb_Forall {A} (f : A -> bool) l : forallb f l = true <-> Forall (fun x => f x = true) l.
Proof.
  induction l as [|x l IH]; simpl; [done|]. by rewrite andb_true_iff, Forall_cons, IH.
Qed.

Lemma Forall_filterb {A} (P : A -> Prop) (f : A -> bool) l : Forall P l -> Forall P (filter f l).
Proof. rewrite !Forall_forall. intros H x [_ Hx]%list_elem_of_filter. auto. Qed.

Lemma list_filter_iff_in {A} (f g : A -> bool) (l : list A) :
  (forall x, x ∈ l -> f x = g x) -> filter f l = filter g l.
Proof.
  induction l as [|x l IH]; intros H; [done|]. rewrite !filter_consb, H, IH by set_solver. done.
Qed.
