(* ===== verification/CString.v ===== *)
(** * C strings and the standard C library functions on them

    A C string is the list of its byte codes without the final NUL ([cstr]).
    The functions below are the parts of <string.h>, <ctype.h>, <stdlib.h> and
    <stdio.h> the program calls, with the lemmas its components share. *)

From S2P Require Import Prelude.

Abbreviation cstr := (list Z).

(** String literals: [s "abc"] is the C string of the literal. *)
Definition s (x : string) : cstr :=
  (fun c => Z.of_N (Ascii.N_of_ascii c)) <$> String.list_ascii_of_string x.

Definition strlen (a : cstr) : Z := Z.of_nat (length a).

(** ** Characters *)

Definition isspace (c : Z) : bool := (c =? 32) || ((9 <=? c) && (c <=? 13)).
Definition isdigit (c : Z) : bool := (48 <=? c) && (c <=? 57).
Definition isascii (c : Z) : bool := (0 <=? c) && (c <? 128).
Definition tolower (c : Z) : Z := if (65 <=? c) && (c <=? 90) then c + 32 else c.

(** ** Comparison and search *)

(** The sign of the first difference, as unsigned bytes. *)
Fixpoint strcmp (a b : cstr) : Z :=
  match a, b with
  | [], [] => 0
  | [], y :: _ => - y
  | x :: _, [] => x
  | x :: a', y :: b' => if x =? y then strcmp a' b' else x - y
  end.

(** [!strcmp(a, b)] and [!strncmp(a, b, n)]. *)
Definition streq (a b : cstr) : bool := bool_decide (a = b).
Definition strneq (n : nat) (a b : cstr) : bool := bool_decide (take n a = take n b).

Fixpoint prefixb (a b : cstr) : bool :=
  match a, b with
  | [], _ => true
  | x :: a', y :: b' => (x =? y) && prefixb a' b'
  | _ :: _, [] => false
  end.

(** Index of the first occurrence of a character. *)
Fixpoint strchr (c : Z) (a : cstr) : option nat :=
  match a with
  | [] => None
  | x :: r => if x =? c then Some O else S <$> strchr c r
  end.

(** Index of the first occurrence of a substring. *)
Fixpoint strstr (hay needle : cstr) : option nat :=
  if prefixb needle hay then Some O
  else match hay with
       | [] => None
       | _ :: h => S <$> strstr h needle
       end.

Definition has_strstr (hay needle : cstr) : bool :=
  match strstr hay needle with Some _ => true | None => false end.

Definition in_set (set : cstr) (c : Z) : bool := existsb (Z.eqb c) set.

Definition strspn (a set : cstr) : nat := length (fst (span (in_set set) a)).
(** [c = strpbrk(a, set); if (c) *c = '\0';] *)
Definition cut_at (set a : cstr) : cstr := fst (span (fun c => negb (in_set set c)) a).

(** [strtok_r]: the next token and what is left to scan, or [None] at the end. *)
Definition strtok_r (delim a : cstr) : option (cstr * cstr) :=
  match snd (span (in_set delim) a) with
  | [] => None
  | b => let '(tok, rest) := span (fun c => negb (in_set delim c)) b in
         Some (tok, tail rest)
  end.

(** [strsep]: [None] is the NULL string pointer. *)
Definition strsep (delim : cstr) (a : cstr) : cstr * option cstr :=
  let '(tok, rest) := span (fun c => negb (in_set delim c)) a in
  (tok, match rest with [] => None | _ :: r => Some r end).

(** ** Numbers *)

Definition digit_char (d : Z) : Z := if d <? 10 then 48 + d else 87 + d.

Definition digit_val (c : Z) : option Z :=
  if (48 <=? c) && (c <=? 57) then Some (c - 48)
  else if (97 <=? c) && (c <=? 122) then Some (c - 87)
  else if (65 <=? c) && (c <=? 90) then Some (c - 55)
  else None.

Definition base_digit (base c : Z) : option Z :=
  match digit_val c with
  | Some d => if d <? base then Some d else None
  | None => None
  end.

(** Printing a natural number in a base (as %u and %x do). *)
Fixpoint ntoa_aux (fuel : nat) (base n : Z) : cstr :=
  match fuel with
  | O => []
  | S f => (if n <? base then [] else ntoa_aux f base (n / base)) ++ [digit_char (n mod base)]
  end.
Definition ntoa (base n : Z) : cstr := ntoa_aux (S (Z.to_nat (Z.log2 n))) base n.

(** %d and %i. *)
Definition itoa (n : Z) : cstr := if n <? 0 then 45 :: ntoa 10 (- n) else ntoa 10 n.

(** Accumulates digits; gives the value and the unread rest. *)
Fixpoint scan_digits (base acc : Z) (a : cstr) : Z * cstr :=
  match a with
  | [] => (acc, [])
  | c :: r => match base_digit base c with
              | Some d => scan_digits base (acc * base + d) r
              | None => (acc, a)
              end
  end.

Definition LONG_MAX : Z := 2 ^ 63 - 1.
Definition LONG_MIN : Z := - 2 ^ 63.
Definition ULONG_MAX : Z := 2 ^ 64 - 1.

(** The optional sign of a number: is it negative, and what follows. *)
Definition scan_sign (a : cstr) : bool * cstr :=
  match a with
  | c :: r => if c =? 45 then (true, r) else if c =? 43 then (false, r) else (false, a)
  | [] => (false, [])
  end.

Definition starts_digit (base : Z) (a : cstr) : bool :=
  match a with
  | c :: _ => match base_digit base c with Some _ => true | None => false end
  | [] => false
  end.

(** [strtol]/[strtoul] in base 10: the value and the rest; [None] when there is
    no digit (the C functions then give 0 and leave the end pointer at the
    start of the string). *)
Definition strtol10 (a : cstr) : option (Z * cstr) :=
  let '(neg, b) := scan_sign (snd (span isspace a)) in
  if starts_digit 10 b then
    let '(v, r) := scan_digits 10 0 b in
    Some (if neg then Z.max LONG_MIN (- v) else Z.min LONG_MAX v, r)
  else None.

Definition strtoul10 (a : cstr) : option (Z * cstr) :=
  let '(neg, b) := scan_sign (snd (span isspace a)) in
  if starts_digit 10 b then
    let '(v, r) := scan_digits 10 0 b in
    Some (if ULONG_MAX <? v then ULONG_MAX else if neg then u64 (- v) else v, r)
  else None.

(** [atoi]: [strtol] converted to [int]; 0 when there is no number. *)
Definition atoi (a : cstr) : Z :=
  match strtol10 a with Some (v, _) => s32 v | None => 0 end.

(** The [%d] conversion of [sscanf]. *)
Definition scan_int (a : cstr) : option (Z * cstr) :=
  match strtol10 a with Some (v, r) => Some (s32 v, r) | None => None end.

(** ** Lemmas: comparison and search *)

Definition nul_free (a : cstr) : Prop := Forall (fun c => 0 < c) a.

#[export] Instance nul_free_dec a : Decision (nul_free a).
Proof. unfold nul_free. apply _. Defined.

Lemma strcmp_eq a b : nul_free a -> nul_free b -> strcmp a b = 0 <-> a = b.
Proof.
  intros Ha. revert b. induction Ha as [|x a Hx Ha IH]; intros b Hb.
  - destruct Hb as [|y b Hy Hb]; simpl; split; (done || lia).
  - destruct Hb as [|y b Hy Hb]; simpl; [split; (done || lia)|].
    destruct (Z.eqb_spec x y) as [->|]; [rewrite (IH b Hb); naive_solver|].
    split; [lia|naive_solver].
Qed.

Lemma strcmp_refl a : strcmp a a = 0.
Proof. induction a as [|x a IH]; simpl; [done|]. by rewrite Z.eqb_refl. Qed.

Lemma strcmp_antisym a b : strcmp b a = - strcmp a b.
Proof.
  revert b. induction a as [|x a IH]; intros [|y b]; simpl; try lia.
  rewrite (Z.eqb_sym y x). destruct (Z.eqb_spec x y); [apply IH|lia].
Qed.

Lemma strcmp_lt_trans a b c :
  nul_free a -> nul_free b -> nul_free c ->
  strcmp a b < 0 -> strcmp b c < 0 -> strcmp a c < 0.
Proof.
  intros Ha. revert b c. induction Ha as [|x a Hx Ha IH]; intros b c Hb Hc H1 H2.
  - destruct Hc as [|z c Hz Hc]; simpl in *; [|lia].
    destruct Hb as [|y b Hy Hb]; simpl in *; lia.
  - destruct Hb as [|y b Hy Hb]; simpl in *; [lia|].
    destruct Hc as [|z c Hz Hc]; simpl in *; [lia|].
    revert H1 H2.
    destruct (Z.eqb_spec x y), (Z.eqb_spec y z), (Z.eqb_spec x z); subst;
      intros; try lia; eauto.
Qed.

Lemma streq_eq a b : streq a b = true <-> a = b.
Proof. apply bool_decide_eq_true. Qed.

Lemma streq_refl a : streq a a = true.
Proof. by apply streq_eq. Qed.

Lemma prefixb_spec a b : prefixb a b = true <-> exists c, b = a ++ c.
Proof.
  revert b. induction a as [|x a IH]; intros b; simpl; [naive_solver|].
  destruct b as [|y b]; simpl; [naive_solver|].
  rewrite andb_true_iff, Z.eqb_eq, IH. naive_solver.
Qed.

Lemma prefixb_app a b : prefixb a (a ++ b) = true.
Proof. apply prefixb_spec. eauto. Qed.

Lemma strstr_prefix hay needle : prefixb needle hay = true -> strstr hay needle = Some O.
Proof. intros H. destruct hay; simpl; by rewrite H. Qed.

Lemma strstr_Some hay needle i :
  strstr hay needle = Some i -> exists r, hay = take i hay ++ needle ++ r.
Proof.
  revert i. induction hay as [|x hay IH]; intros i; simpl.
  - destruct (prefixb needle []) eqn:E; [|done]. intros [= <-].
    apply prefixb_spec in E as [r Hr]. by exists r.
  - destruct (prefixb needle (x :: hay)) eqn:E.
    + intros [= <-]. apply prefixb_spec in E as [r Hr]. by exists r.
    + destruct (strstr hay needle) as [j|]; simpl; [|done].
      intros ?; simplify_eq/=. destruct (IH j eq_refl) as [r Hr].
      exists r. by rewrite Hr at 1.
Qed.

Lemma has_strstr_spec hay needle :
  has_strstr hay needle = true <-> exists l r, hay = l ++ needle ++ r.
Proof.
  unfold has_strstr. split.
  - destruct (strstr hay needle) as [i|] eqn:E; [|done].
    intros _. apply strstr_Some in E as [r Hr]. eauto.
  - intros (l & r & ->). revert needle. induction l as [|x l IH]; intros needle.
    + simpl app. by rewrite strstr_prefix by apply prefixb_app.
    + change ((x :: l) ++ needle ++ r) with (x :: (l ++ needle ++ r)).
      cbn [strstr]. specialize (IH needle).
      destruct (prefixb _ _), (strstr (l ++ needle ++ r) needle); done.
Qed.

Lemma strchr_Some c a i : strchr c a = Some i ->
  exists r, a = take i a ++ c :: r /\ Forall (fun x => x <> c) (take i a).
Proof.
  revert i. induction a as [|x a IH]; intros i; simpl; [done|].
  destruct (Z.eqb_spec x c) as [->|].
  - intros ?; simplify_eq/=. eauto.
  - destruct (strchr c a) as [j|]; simpl; [|done]. intros ?; simplify_eq/=.
    destruct (IH j eq_refl) as (r & Hr & HF). exists r. rewrite <-Hr. auto.
Qed.

Lemma strchr_first c a b : Forall (fun x => x <> c) a -> strchr c (a ++ c :: b) = Some (length a).
Proof.
  induction 1 as [|x a Hx _ IH]; cbn; [by rewrite Z.eqb_refl|]. rewrite (proj2 (Z.eqb_neq x c) Hx), IH. done.
Qed.

Lemma strchr_None c a : strchr c a = None <-> Forall (fun x => x <> c) a.
Proof.
  induction a as [|x a IH]; simpl; [naive_solver|].
  destruct (Z.eqb_spec x c) as [->|].
  - split; [done|]. intros H; inversion H; naive_solver.
  - rewrite Forall_cons, <-IH. destruct (strchr c a); naive_solver.
Qed.

(** ** Lemmas: tokens *)

Definition no_chars (set : cstr) (a : cstr) : Prop :=
  Forall (fun c => in_set set c = false) a.

#[export] Instance no_chars_dec set a : Decision (no_chars set a).
Proof. unfold no_chars. apply _. Defined.

Lemma no_chars_neg set a :
  no_chars set a <-> Forall (fun c => negb (in_set set c) = true) a.
Proof. apply Forall_iff. intros c. by rewrite negb_true_iff. Qed.

Lemma strtok_r_shorter delim a tok rest :
  strtok_r delim a = Some (tok, rest) -> (length rest < length a)%nat.
Proof.
  unfold strtok_r. destruct (span _ a) as [p b] eqn:E; cbn [snd].
  destruct b as [|x b]; [done|]. apply span_app in E as ->.
  destruct (span _ (x :: b)) as [t r] eqn:E2. intros ?; simplify_eq.
  apply span_app in E2. rewrite length_app. apply (f_equal length) in E2.
  rewrite length_app in E2. destruct r; simpl in *; lia.
Qed.

Lemma strtok_r_tok delim a tok rest :
  strtok_r delim a = Some (tok, rest) -> tok <> [] /\ no_chars delim tok.
Proof.
  unfold strtok_r. destruct (span _ a) as [p b] eqn:E; cbn [snd].
  destruct b as [|x b]; [done|].
  pose proof (span_stop _ _ _ _ _ E) as Hx.
  destruct (span _ (x :: b)) as [t r] eqn:E2. intros ?; simplify_eq.
  split.
  - simpl in E2. rewrite Hx in E2. simpl in E2.
    destruct (span _ b); by simplify_eq.
  - apply no_chars_neg. by eapply span_all.
Qed.

(** A token followed by a delimiter is scanned exactly. *)
Lemma strtok_r_exact delim tok d rest :
  tok <> [] -> no_chars delim tok -> in_set delim d = true ->
  strtok_r delim (tok ++ d :: rest) = Some (tok, rest).
Proof.
  intros Hne Hno Hd. unfold strtok_r.
  destruct tok as [|x tok]; [done|].
  assert (span (in_set delim) ((x :: tok) ++ d :: rest) = ([], (x :: tok) ++ d :: rest)) as ->.
  { simpl. apply Forall_cons_1 in Hno as [-> _]. done. }
  cbn [snd app].
  change (x :: tok ++ d :: rest) with ((x :: tok) ++ d :: rest).
  rewrite span_intro; [done| |by rewrite Hd].
  by apply no_chars_neg.
Qed.

Lemma strtok_r_last delim tok :
  tok <> [] -> no_chars delim tok -> strtok_r delim tok = Some (tok, []).
Proof.
  intros Hne Hno. unfold strtok_r.
  destruct tok as [|x tok]; [done|].
  assert (span (in_set delim) (x :: tok) = ([], x :: tok)) as ->.
  { simpl. apply Forall_cons_1 in Hno as [-> _]. done. }
  cbn [snd].
  rewrite span_whole; [done|]. by apply no_chars_neg.
Qed.

Lemma cut_at_id set a : no_chars set a -> cut_at set a = a.
Proof.
  intros H. unfold cut_at. rewrite span_whole; [done|]. by apply no_chars_neg.
Qed.

Lemma cut_at_app set a c r :
  no_chars set a -> in_set set c = true -> cut_at set (a ++ c :: r) = a.
Proof.
  intros H Hc. unfold cut_at. rewrite span_intro; [done| |by rewrite Hc].
  by apply no_chars_neg.
Qed.

(** ** Lemmas: numbers *)

Definition good_base (base : Z) : Prop := 2 <= base <= 16.

Lemma base_digit_char base d :
  good_base base -> 0 <= d < base -> base_digit base (digit_char d) = Some d.
Proof.
  unfold good_base, base_digit, digit_val, digit_char. intros Hb Hd.
  destruct (Z.ltb_spec d 10).
  - replace ((48 <=? 48 + d) && (48 + d <=? 57)) with true by lia.
    replace (48 + d - 48) with d by lia. by replace (d <? base) with true by lia.
  - replace ((48 <=? 87 + d) && (87 + d <=? 57)) with false by lia.
    replace ((97 <=? 87 + d) && (87 + d <=? 122)) with true by lia.
    replace (87 + d - 87) with d by lia. by replace (d <? base) with true by lia.
Qed.

Lemma ntoa_aux_scan fuel base n acc rest :
  good_base base -> 0 <= n -> n < base ^ Z.of_nat fuel -> (0 < fuel)%nat ->
  exists k, 0 < k /\ scan_digits base acc (ntoa_aux fuel base n ++ rest) =
            scan_digits base (acc * k + n) rest.
Proof.
  intros Hb. revert n acc rest.
  induction fuel as [|f IH]; intros n acc rest Hn Hlt Hf; [lia|].
  assert (2 <= base) by (unfold good_base in Hb; lia).
  simpl ntoa_aux. rewrite <-app_assoc.
  destruct (Z.ltb_spec n base).
  - exists base. split; [lia|]. simpl.
    rewrite base_digit_char by (try done; apply Z.mod_pos_bound; lia).
    by rewrite Z.mod_small by lia.
  - assert (0 < f)%nat.
    { destruct f; [|lia]. change (Z.of_nat 1) with 1 in Hlt. lia. }
    destruct (IH (n / base) acc ([digit_char (n mod base)] ++ rest)) as (k & Hk & ->);
      [by apply Z.div_pos; lia| |done|].
    { rewrite Nat2Z.inj_succ, Z.pow_succ_r in Hlt by lia.
      apply Z.div_lt_upper_bound; lia. }
    exists (k * base). split; [lia|]. simpl.
    rewrite base_digit_char by (try done; apply Z.mod_pos_bound; lia).
    f_equal. pose proof (Z.div_mod n base). lia.
Qed.

Lemma ntoa_fuel base n : 2 <= base -> 0 <= n ->
  n < base ^ Z.of_nat (S (Z.to_nat (Z.log2 n))).
Proof.
  intros Hb Hn. destruct (Z.eq_dec n 0) as [->|Hz].
  - simpl. lia.
  - rewrite Nat2Z.inj_succ, Z2Nat.id by apply Z.log2_nonneg.
    apply Z.lt_le_trans with (2 ^ Z.succ (Z.log2 n)).
    + apply Z.log2_spec. lia.
    + apply Z.pow_le_mono_l. lia.
Qed.

(** What [ntoa] prints, [scan_digits] reads back. *)
Lemma scan_digits_ntoa base n rest :
  good_base base -> 0 <= n ->
  scan_digits base 0 (ntoa base n ++ rest) = scan_digits base n rest.
Proof.
  intros Hb Hn. unfold ntoa.
  destruct (ntoa_aux_scan (S (Z.to_nat (Z.log2 n))) base n 0 rest) as (k & _ & ->);
    [done|done| |lia|done].
  apply ntoa_fuel; [unfold good_base in Hb; lia|done].
Qed.

Lemma ntoa_aux_chars fuel base n :
  good_base base -> 0 <= n ->
  Forall (fun c => exists d, 0 <= d < base /\ c = digit_char d) (ntoa_aux fuel base n).
Proof.
  intros Hb. assert (2 <= base) by (unfold good_base in Hb; lia).
  revert n. induction fuel as [|f IH]; intros n Hn; simpl; [done|].
  apply Forall_app; split.
  - destruct (Z.ltb_spec n base); [done|]. apply IH, Z.div_pos; lia.
  - repeat constructor. exists (n mod base). split; [apply Z.mod_pos_bound; lia|done].
Qed.

Lemma ntoa_aux_length fuel base n k : 2 <= base -> 0 <= n < base ^ Z.of_nat k ->
  (0 < k)%nat -> (length (ntoa_aux fuel base n) <= k)%nat.
Proof.
  intros Hb. revert n k. induction fuel as [|f IH]; intros n k Hn Hk; simpl; [lia|].
  rewrite length_app. simpl. destruct (Z.ltb_spec n base); simpl; [lia|].
  destruct k as [|[|k]]; [lia|change (Z.of_nat 1) with 1 in Hn; lia|].
  assert (length (ntoa_aux f base (n / base)) <= S k)%nat; [|lia].
  apply IH; [|lia]. split; [apply Z.div_pos; lia|].
  apply Z.div_lt_upper_bound; [lia|].
  rewrite (Nat2Z.inj_succ (S k)), Z.pow_succ_r in Hn by lia. lia.
Qed.

Lemma ntoa_not_nil base n : ntoa base n <> [].
Proof. unfold ntoa. simpl. by intros []%app_eq_nil. Qed.

Lemma ntoa_head base n : good_base base -> 0 <= n ->
  exists d r, 0 <= d < base /\ ntoa base n = digit_char d :: r.
Proof.
  intros Hb Hn. pose proof (ntoa_aux_chars (S (Z.to_nat (Z.log2 n))) base n Hb Hn) as H.
  pose proof (ntoa_not_nil base n) as Hne. unfold ntoa in *.
  destruct (ntoa_aux _ _ _) as [|c r]; [done|].
  apply Forall_cons_1 in H as [(d & Hd & ->) _]. eauto.
Qed.

Lemma ntoa_starts_digit base n r :
  good_base base -> 0 <= n -> starts_digit base (ntoa base n ++ r) = true.
Proof.
  intros Hb Hn. destruct (ntoa_head base n Hb Hn) as (d & r' & Hd & ->). simpl.
  by rewrite base_digit_char.
Qed.

Lemma digit_char10_range d : 0 <= d < 10 -> 48 <= digit_char d <= 57.
Proof. unfold digit_char. intros. replace (d <? 10) with true by lia. lia. Qed.

Lemma ntoa10_no_space n r :
  0 <= n -> span isspace (ntoa 10 n ++ r) = ([], ntoa 10 n ++ r).
Proof.
  intros Hn. destruct (ntoa_head 10 n ltac:(unfold good_base; lia) Hn) as (d & r' & Hd & ->).
  simpl. pose proof (digit_char10_range d Hd). unfold isspace.
  by replace ((digit_char d =? 32) || ((9 <=? digit_char d) && (digit_char d <=? 13)))
    with false by lia.
Qed.

Lemma ntoa10_scan_sign n r :
  0 <= n -> scan_sign (ntoa 10 n ++ r) = (false, ntoa 10 n ++ r).
Proof.
  intros Hn. destruct (ntoa_head 10 n ltac:(unfold good_base; lia) Hn) as (d & r' & Hd & ->).
  simpl. pose proof (digit_char10_range d Hd).
  replace (digit_char d =? 45) with false by lia.
  by replace (digit_char d =? 43) with false by lia.
Qed.

Lemma scan_digits_stop base acc a : starts_digit base a = false ->
  scan_digits base acc a = (acc, a).
Proof. destruct a as [|c a]; simpl; [done|]. by destruct (base_digit base c). Qed.

Lemma strtol10_ntoa n r :
  0 <= n -> starts_digit 10 r = false ->
  strtol10 (ntoa 10 n ++ r) = Some (Z.min LONG_MAX n, r).
Proof.
  intros Hn Hr. unfold strtol10. rewrite ntoa10_no_space by done. simpl.
  rewrite ntoa10_scan_sign by done.
  assert (good_base 10) by (unfold good_base; lia).
  rewrite ntoa_starts_digit by done.
  by rewrite scan_digits_ntoa, scan_digits_stop by done.
Qed.

Lemma strtoul10_ntoa n r :
  0 <= n <= ULONG_MAX -> starts_digit 10 r = false ->
  strtoul10 (ntoa 10 n ++ r) = Some (n, r).
Proof.
  intros Hn Hr. unfold strtoul10. rewrite ntoa10_no_space by lia. simpl.
  rewrite ntoa10_scan_sign by lia.
  assert (good_base 10) by (unfold good_base; lia).
  rewrite ntoa_starts_digit by (done || lia).
  rewrite scan_digits_ntoa, scan_digits_stop by (done || lia).
  by replace (ULONG_MAX <? n) with false by lia.
Qed.

(** [%d] and [sscanf("%d")] are inverse on [int]. *)
Lemma scan_int_itoa n r :
  is_int n -> starts_digit 10 r = false -> scan_int (itoa n ++ r) = Some (n, r).
Proof.
  intros Hn Hr. unfold scan_int, itoa, is_int, INT_MIN, INT_MAX in *.
  destruct (Z.ltb_spec n 0).
  - unfold strtol10. simpl. rewrite ntoa_starts_digit by (unfold good_base; lia).
    rewrite scan_digits_ntoa, scan_digits_stop by (unfold good_base; done || lia).
    f_equal. f_equal. rewrite Z.max_r by (unfold LONG_MIN; lia).
    rewrite s32_id; unfold is_int, INT_MIN, INT_MAX; lia.
  - rewrite strtol10_ntoa by done. rewrite Z.min_r by (unfold LONG_MAX; lia).
    rewrite s32_id; [done|]. unfold is_int, INT_MIN, INT_MAX; lia.
Qed.

Lemma atoi_scan_int a : atoi a = match scan_int a with Some (v, _) => v | None => 0 end.
Proof. unfold atoi, scan_int. destruct (strtol10 a) as [[v r]|]; done. Qed.

Lemma atoi_itoa n : is_int n -> atoi (itoa n) = n.
Proof.
  intros Hn. rewrite atoi_scan_int, <-(app_nil_r (itoa n)).
  by rewrite scan_int_itoa.
Qed.

(** A printed number has no white space. *)
Lemma itoa_chars n : Forall (fun c => c = 45 \/ 48 <= c <= 57) (itoa n).
Proof.
  unfold itoa. assert (forall m, 0 <= m -> Forall (fun c => c = 45 \/ 48 <= c <= 57) (ntoa 10 m)) as H.
  { intros m Hm. eapply Forall_impl; [by apply ntoa_aux_chars; [unfold good_base; lia|]|].
    simpl. intros c (d & Hd & ->). right. by apply digit_char10_range. }
  destruct (Z.ltb_spec n 0); [constructor; [by left|]|]; apply H; lia.
Qed.

Lemma itoa_not_nil n : itoa n <> [].
Proof. unfold itoa. case_match; [done|apply ntoa_not_nil]. Qed.
