(* ===== verification/Log.v ===== *)
(** * libmultipath/log.c and log_pthread.c: the ring of log messages

    Messages are laid out one after the other in the log area; what the area
    holds is a map from offsets to messages, and a store that would leave the
    area or hit a message has no meaning, [None].  A pointer is an offset from
    [la->start]. *)

From S2P Require Import Prelude CString.

Definition DEFAULT_AREA_SIZE : Z := 16384.
Definition MAX_MSG_SIZE : nat := 256.

(** The sizes of [struct logmsg] and of a pointer on a 64-bit machine. *)
Definition LOGMSG_SIZE : Z := 16.
Definition PTR_SIZE : Z := 8.
Definition ALIGN (len s : Z) : Z := (len + s - 1) / s * s.

Record logmsg := { prio : Z; next : Z; str : cstr }.

Record logarea := { empty : bool; head : Z; tail : Z; size : Z; mem : gmap Z logmsg }.

Definition msg_size (str : cstr) : Z := ALIGN (LOGMSG_SIZE + Z.of_nat (length str) + 1) PTR_SIZE.

(** [n] bytes at [a] are inside the area and hold no message. *)
Definition free_at (la : logarea) (a n : Z) : bool :=
  (0 <=? a) && (a + n <=? size la) &&
  forallb (fun '(b, m) => (a + n <=? b) || (b + msg_size (str m) <=? a)) (map_to_list (mem la)).

Definition put_msg (a : Z) (m : logmsg) (la : logarea) : option logarea :=
  if free_at la a (msg_size (str m))
  then Some {| empty := empty la; head := head la; tail := tail la; size := size la; mem := <[a := m]> (mem la) |}
  else None.

(** Writes the [next] member of the message at [a]; outside of a message it is a header that
    is written. *)
Definition set_next (a b : Z) (la : logarea) : option logarea :=
  match mem la !! a with
  | Some m => Some {| empty := empty la; head := head la; tail := tail la; size := size la;
                      mem := <[a := {| prio := prio m; next := b; str := str m |}]> (mem la) |}
  | None => if free_at la a LOGMSG_SIZE then Some la else None
  end.

Definition move_tail (t : Z) (la : logarea) : logarea :=
  {| empty := empty la; head := head la; tail := t; size := size la; mem := mem la |}.
Definition move_head (h : Z) (la : logarea) : logarea :=
  {| empty := empty la; head := h; tail := tail la; size := size la; mem := mem la |}.
Definition set_empty (b : bool) (la : logarea) : logarea :=
  {| empty := b; head := head la; tail := tail la; size := size la; mem := mem la |}.

(** Memory for the area is assumed to be there. *)
Definition logarea_init (sz : Z) : logarea :=
  {| empty := true; head := 0; tail := 0; size := if sz <? Z.of_nat MAX_MSG_SIZE then DEFAULT_AREA_SIZE else sz; mem := ∅ |}.

(** [text] is what the format gives; [vsnprintf] cuts it. *)
Definition log_enqueue (pr : Z) (text : cstr) (la : logarea) : option (Z * logarea) :=
  let lastmsg := tail la in
  la ← (if empty la then Some la
        else m ← mem la !! lastmsg; Some (move_tail (lastmsg + msg_size (str m)) la));
  let buff := take (MAX_MSG_SIZE - 1) text in
  let len := msg_size buff in
  (* not enough space on tail : rewind *)
  let rewind := (head la <=? tail la) && (size la - tail la <? len) in
  if rewind && (head la =? 0) then Some (1, move_tail lastmsg la)
  else
    let la := if rewind then (let la := move_tail 0 la in if empty la then move_head 0 la else la) else la in
    (* not enough space on head : drop msg *)
    if (tail la <? head la) && (head la - tail la <=? len)
    then Some (1, if empty la then la else move_tail lastmsg la)
    else
      let la := set_empty false la in
      la ← put_msg (tail la) {| prio := pr; next := 0; str := buff |} la;
      la ← set_next lastmsg (tail la) la;
      la ← set_next (tail la) (head la) la;
      Some (0, la).

(** The message that was copied out; [None] is the return code 1. *)
Definition log_dequeue (la : logarea) : option (option (Z * cstr) * logarea) :=
  if empty la then Some (None, la)
  else
    src ← mem la !! head la;
    la' ← (if tail la =? head la then Some (set_empty true la)
           else set_next (tail la) (next src) (move_head (next src) la));
    Some (Some (prio src, str src),
          {| empty := empty la'; head := head la'; tail := tail la'; size := size la'; mem := delete (head la) (mem la') |}).

(** What is passed to syslog; [None] also when the fuel is out. *)
Fixpoint flush_logqueue (fuel : nat) (la : logarea) : option (list (Z * cstr) * logarea) :=
  match fuel with
  | O => None
  | S f =>
      '(m, la) ← log_dequeue la;
      match m with
      | None => Some ([], la)
      | Some m => '(out, la) ← flush_logqueue f la; Some (m :: out, la)
      end
  end.

(** ** The log thread

    [sending] counts the calls of [log_safe] that have put their message in the
    area but have not yet signalled it. *)

Definition LOG_DEBUG : Z := 7.

Inductive log_pc := Waiting | Flushing | Ended.

Record logger := {
  area : logarea; sending : nat; log_messages_pending : bool; logq_running : bool; pc : log_pc;
  syslogged : list (Z * cstr) }.

(** The label of a step is the message that the area has accepted.  A call of
    [pthread_cond_wait] may return without a signal, so the thread can wake up at
    any time; it takes [logq_lock] for one message at a time. *)
Inductive log_step : logger -> list (Z * cstr) -> logger -> Prop :=
  | ls_enqueue p text la n b r c out rc la' : log_enqueue (Z.min p LOG_DEBUG) text la = Some (rc, la') ->
      log_step {| area := la; sending := n; log_messages_pending := b; logq_running := r; pc := c; syslogged := out |}
               (if rc =? 0 then [(Z.min p LOG_DEBUG, take (MAX_MSG_SIZE - 1) text)] else [])
               {| area := la'; sending := S n; log_messages_pending := b; logq_running := r; pc := c; syslogged := out |}
  | ls_signal la n b r c out :
      log_step {| area := la; sending := S n; log_messages_pending := b; logq_running := r; pc := c; syslogged := out |} []
               {| area := la; sending := n; log_messages_pending := true; logq_running := r; pc := c; syslogged := out |}
  | ls_wake la n b r out :
      log_step {| area := la; sending := n; log_messages_pending := b; logq_running := r; pc := Waiting; syslogged := out |} []
               {| area := la; sending := n; log_messages_pending := false; logq_running := r;
                  pc := if r then Flushing else Ended; syslogged := out |}
  | ls_dequeue la n b r out m la' : log_dequeue la = Some (Some m, la') ->
      log_step {| area := la; sending := n; log_messages_pending := b; logq_running := r; pc := Flushing; syslogged := out |} []
               {| area := la'; sending := n; log_messages_pending := b; logq_running := r; pc := Flushing; syslogged := out ++ [m] |}
  | ls_flushed la n b r out la' : log_dequeue la = Some (None, la') ->
      log_step {| area := la; sending := n; log_messages_pending := b; logq_running := r; pc := Flushing; syslogged := out |} []
               {| area := la'; sending := n; log_messages_pending := b; logq_running := r; pc := Waiting; syslogged := out |}
  | ls_stop la n b r c out :
      log_step {| area := la; sending := n; log_messages_pending := b; logq_running := r; pc := c; syslogged := out |} []
               {| area := la; sending := n; log_messages_pending := b; logq_running := false; pc := c; syslogged := out |}.

Inductive log_steps : logger -> list (Z * cstr) -> logger -> Prop :=
  | log_refl L : log_steps L [] L
  | log_more L1 acc L2 x L3 : log_steps L1 acc L2 -> log_step L2 x L3 -> log_steps L1 (acc ++ x) L3.

Definition log_thread_start (sz : Z) : logger :=
  {| area := logarea_init sz; sending := 0; log_messages_pending := false; logq_running := true; pc := Waiting; syslogged := [] |}.

(** ** The queue in the area *)

Definition entry : Type := Z * logmsg.
Definition entry_size (e : entry) : Z := msg_size (str (snd e)).

(** Messages one after the other between two offsets. *)
Fixpoint segment (from : Z) (l : list entry) (to : Z) : Prop :=
  match l with
  | [] => from = to
  | e :: r => fst e = from /\ segment (from + entry_size e) r to
  end.

(** The [next] members lead from one to the next, and from the last to [h]. *)
Fixpoint linked (l : list entry) (h : Z) : Prop :=
  match l with
  | [] => True
  | e :: r => next (snd e) = match r with [] => h | e' :: _ => fst e' end /\ linked r h
  end.

(** The messages follow each other from the head, or go on at the start. *)
Definition layout (la : logarea) (l : list entry) : Prop :=
  (exists e, segment (head la) l e /\ e <= size la) \/
  (exists l1 l2 e1 e2, l = l1 ++ l2 /\ l1 <> [] /\ l2 <> [] /\ segment (head la) l1 e1 /\ e1 <= size la /\
     segment 0 l2 e2 /\ e2 < head la).

(** Room for two of the longest messages; the daemon asks for the default. *)
Definition LARGE_AREA : Z := 2 * ALIGN (LOGMSG_SIZE + Z.of_nat MAX_MSG_SIZE) PTR_SIZE.

Record holds (la : logarea) (l : list entry) : Prop := {
  h_size : LARGE_AREA <= size la;
  h_head : 0 <= head la /\ head la + LOGMSG_SIZE <= size la;
  h_mem : mem la = list_to_map l;
  h_text : Forall (fun e => (length (str (snd e)) < MAX_MSG_SIZE)%nat) l;
  h_empty : empty la = bool_decide (l = []);
  h_tail : tail la = default (head la) (fst <$> last l);
  h_linked : linked l (head la);
  h_layout : layout la l
}.

Definition queue (l : list entry) : list (Z * cstr) := (fun e => (prio (snd e), str (snd e))) <$> l.

(** ** Sizes *)

Lemma msg_size_range t : LOGMSG_SIZE + Z.of_nat (length t) + 1 <= msg_size t <= Z.of_nat (length t) + 24.
Proof.
  unfold msg_size, ALIGN, LOGMSG_SIZE, PTR_SIZE. set (n := Z.of_nat (length t)).
  pose proof (Z.div_mod (16 + n + 1 + 8 - 1) 8). pose proof (Z.mod_pos_bound (16 + n + 1 + 8 - 1) 8). lia.
Qed.

Lemma msg_size_max t : (length t < MAX_MSG_SIZE)%nat -> 16 < msg_size t <= 272.
Proof.
  intros Ht. pose proof (msg_size_range t) as [H1 _]. unfold MAX_MSG_SIZE, LOGMSG_SIZE in *. split; [lia|].
  unfold msg_size, ALIGN, LOGMSG_SIZE, PTR_SIZE in *.
  assert ((16 + Z.of_nat (length t) + 1 + 8 - 1) / 8 < 35) by (apply Z.div_lt_upper_bound; lia). lia.
Qed.

Lemma cut_short (text : cstr) : (length (take (MAX_MSG_SIZE - 1) text) < MAX_MSG_SIZE)%nat.
Proof. rewrite length_take. unfold MAX_MSG_SIZE. lia. Qed.

(** ** Segments *)

Lemma segment_app from l1 l2 to : segment from (l1 ++ l2) to <-> exists mid, segment from l1 mid /\ segment mid l2 to.
Proof.
  revert from. induction l1 as [|e l1 IH]; intros from; cbn [app segment].
  - split; [intros H; by exists from|by intros (? & -> & ?)].
  - rewrite IH. naive_solver.
Qed.

Definition texts_ok (l : list entry) : Prop := Forall (fun e => (length (str (snd e)) < MAX_MSG_SIZE)%nat) l.

Lemma segment_bounds from l to : texts_ok l -> segment from l to -> from <= to /\
  forall e, e ∈ l -> from <= fst e /\ fst e + entry_size e <= to.
Proof.
  intros Hl. revert from. induction Hl as [|e l He _ IH]; intros from; cbn [segment].
  - intros ->. split; [lia|]. by intros e ?%elem_of_nil.
  - intros [<- [H1 H2]%IH]. pose proof (msg_size_max _ He). unfold entry_size in *. split; [lia|].
    intros x [->|Hx]%elem_of_cons; [lia|]. specialize (H2 x Hx). lia.
Qed.

Lemma segment_distinct from l to : texts_ok l -> segment from l to -> NoDup (fst <$> l).
Proof.
  intros Hl. revert from. induction Hl as [|e l He Hl IH]; intros from; cbn [segment]; [constructor|].
  intros [<- Hs]. rewrite fmap_cons. constructor; [|by eapply IH].
  intros (x & Hx & Hin)%list_elem_of_fmap. apply (segment_bounds _ _ _ Hl) in Hs as [_ Hb].
  specialize (Hb x Hin). pose proof (msg_size_max _ He). unfold entry_size in *. lia.
Qed.

(** Only the [next] member of the last message differs. *)
Definition with_next (m : logmsg) (b : Z) : logmsg := {| prio := prio m; next := b; str := str m |}.

Lemma segment_snoc from l t m b to : segment from (l ++ [(t, with_next m b)]) to <-> segment from (l ++ [(t, m)]) to.
Proof. rewrite !segment_app. done. Qed.

Lemma layout_bounds la l : texts_ok l -> 0 <= head la -> layout la l ->
  NoDup (fst <$> l) /\ forall e, e ∈ l -> 0 <= fst e /\ fst e + entry_size e <= size la.
Proof.
  intros Hl H0 [(e & Hs & He)|(l1 & l2 & e1 & e2 & -> & _ & _ & S1 & E1 & S2 & E2)].
  - split; [by eapply segment_distinct|]. intros x Hx. apply (segment_bounds _ _ _ Hl) in Hs as [_ Hb]. specialize (Hb x Hx). lia.
  - unfold texts_ok in Hl. apply Forall_app in Hl as [L1 L2].
    pose proof (segment_bounds _ _ _ L1 S1) as [_ B1]. pose proof (segment_bounds _ _ _ L2 S2) as [_ B2]. split.
    + rewrite fmap_app. apply NoDup_app. split; [by eapply segment_distinct|]. split; [|by eapply segment_distinct].
      intros a (x & -> & Hx)%list_elem_of_fmap (y & Hxy & Hy)%list_elem_of_fmap.
      specialize (B1 x Hx). specialize (B2 y Hy). rewrite Forall_forall in L2. pose proof (msg_size_max _ (L2 y Hy)).
      unfold entry_size in *. lia.
    + intros x [Hx|Hx]%elem_of_app; [specialize (B1 x Hx)|specialize (B2 x Hx)]; pose proof (segment_bounds _ _ _ L1 S1); lia.
Qed.

(** ** Free room *)

Lemma free_at_list la a n l : mem la = list_to_map l -> NoDup (fst <$> l) -> 0 <= a -> a + n <= size la ->
  (forall e, e ∈ l -> a + n <= fst e \/ fst e + entry_size e <= a) -> free_at la a n = true.
Proof.
  intros Hm Hd H0 Hn He. unfold free_at. rewrite (proj2 (Z.leb_le 0 a) H0), (proj2 (Z.leb_le _ _) Hn). cbn [andb].
  apply forallb_forall. intros [b m] Hin%list_elem_of_In%elem_of_map_to_list. rewrite Hm in Hin.
  apply elem_of_list_to_map_2 in Hin. destruct (He _ Hin) as [H|H]; cbn [fst] in *; unfold entry_size in *; cbn [snd] in *.
  - by rewrite (proj2 (Z.leb_le _ _) H).
  - rewrite (proj2 (Z.leb_le _ _) H). apply orb_true_r.
Qed.

Lemma put_msg_list la a m l : mem la = list_to_map l -> NoDup (fst <$> l) -> 0 <= a -> a + msg_size (str m) <= size la ->
  (forall e, e ∈ l -> a + msg_size (str m) <= fst e \/ fst e + entry_size e <= a) -> a ∉ fst <$> l ->
  exists la', put_msg a m la = Some la' /\ mem la' = list_to_map (l ++ [(a, m)]) /\
    empty la' = empty la /\ head la' = head la /\ tail la' = tail la /\ size la' = size la.
Proof.
  intros Hm Hd H0 Hn He Ha. unfold put_msg. rewrite (free_at_list _ _ _ l) by done. eexists. split; [done|]. cbn.
  split; [|done]. by rewrite Hm, list_to_map_snoc.
Qed.

Lemma set_next_last la l t m b : mem la = list_to_map (l ++ [(t, m)]) -> t ∉ fst <$> l ->
  exists la', set_next t b la = Some la' /\ mem la' = list_to_map (l ++ [(t, with_next m b)]) /\
    empty la' = empty la /\ head la' = head la /\ tail la' = tail la /\ size la' = size la.
Proof.
  intros Hm Ht. unfold set_next. rewrite Hm, !list_to_map_snoc, lookup_insert_eq by done. eexists. split; [done|]. cbn.
  split; [|done]. by rewrite insert_insert_eq.
Qed.

(** ** A message is staged *)

Lemma linked_extend l t m a m2 h : linked (l ++ [(t, m)]) h -> linked (l ++ [(t, with_next m a); (a, with_next m2 h)]) h.
Proof.
  induction l as [|e l IH]; cbn [app linked]; [done|]. intros [H1 H2]. split; [|by apply IH].
  destruct l as [|e' l]; [exact H1|exact H1].
Qed.

Lemma stage_spec la l t m a m2 b : mem la = list_to_map (l ++ [(t, m)]) -> NoDup (fst <$> (l ++ [(t, m)])) ->
  a ∉ fst <$> (l ++ [(t, m)]) -> 0 <= a -> a + msg_size (str m2) <= size la ->
  (forall e, e ∈ l ++ [(t, m)] -> a + msg_size (str m2) <= fst e \/ fst e + entry_size e <= a) ->
  exists la1 la2 la3, put_msg a m2 la = Some la1 /\ set_next t a la1 = Some la2 /\ set_next a b la2 = Some la3 /\
    tail la1 = tail la /\ tail la2 = tail la /\ head la2 = head la /\
    mem la3 = list_to_map (l ++ [(t, with_next m a); (a, with_next m2 b)]) /\
    empty la3 = empty la /\ head la3 = head la /\ tail la3 = tail la /\ size la3 = size la.
Proof.
  intros Hm Hd Ha H0 Hn He. destruct (put_msg_list la a m2 _ Hm Hd H0 Hn He Ha) as (la1 & -> & M1 & E1 & D1 & T1 & S1).
  assert (t ∉ fst <$> l) as Ht.
  { rewrite fmap_app in Hd. apply NoDup_app in Hd as (_ & Hd & _). intros H. by apply (Hd t H), list_elem_of_singleton. }
  assert (t <> a) as Hta by (intros ->; apply Ha; rewrite fmap_app; set_solver).
  set (la2 := {| empty := empty la1; head := head la1; tail := tail la1; size := size la1;
      mem := list_to_map (l ++ [(t, with_next m a); (a, m2)]) |}).
  assert (set_next t a la1 = Some la2) as H2.
  { unfold set_next. rewrite M1, (list_to_map_snoc (M := gmap Z)), lookup_insert_ne by done.
    rewrite (list_to_map_snoc (M := gmap Z)), lookup_insert_eq by done. f_equal. f_equal.
    change [(t, with_next m a); (a, m2)] with ([(t, with_next m a)] ++ [(a, m2)]). rewrite app_assoc.
    rewrite (list_to_map_snoc (l ++ _)), (list_to_map_snoc l) by (done || by rewrite fmap_app in *).
    by rewrite insert_insert_ne, insert_insert_eq by done. }
  destruct (set_next_last la2 (l ++ [(t, with_next m a)]) a m2 b)
    as (la3 & H3 & M3 & E3 & D3 & T3 & S3).
  { by rewrite <-app_assoc. }
  { by rewrite fmap_app in *. }
  rewrite <-app_assoc in M3. unfold la2 in E3, D3, T3, S3. cbn [empty head tail size] in E3, D3, T3, S3.
  exists la1, la2, la3. split; [done|]. split; [exact H2|]. split; [exact H3|]. unfold la2. cbn [tail head].
  split_and!; try exact M3; congruence.
Qed.

Lemma holds_same la l a : holds la l -> forall t, tail la = t -> holds (move_tail t (move_tail a la)) l.
Proof. intros H t <-. by destruct la. Qed.

Lemma texts_extend l t m a m2 b c : texts_ok (l ++ [(t, m)]) -> (length (str m2) < MAX_MSG_SIZE)%nat ->
  texts_ok (l ++ [(t, with_next m b); (a, with_next m2 c)]).
Proof. unfold texts_ok. rewrite !Forall_app, !Forall_cons. naive_solver. Qed.

Lemma queue_extend l t m a m2 b c : queue (l ++ [(t, with_next m b); (a, with_next m2 c)]) =
  queue (l ++ [(t, m)]) ++ [(prio m2, str m2)].
Proof. unfold queue. rewrite !fmap_app. cbn. by rewrite <-app_assoc. Qed.

(** The area after a message was staged behind others. *)
Lemma holds_extend la la' l t m a m2 : holds la (l ++ [(t, m)]) -> (length (str m2) < MAX_MSG_SIZE)%nat ->
  empty la' = false -> head la' = head la -> tail la' = a -> size la' = size la ->
  mem la' = list_to_map (l ++ [(t, with_next m a); (a, with_next m2 (head la))]) ->
  layout la' (l ++ [(t, with_next m a); (a, with_next m2 (head la))]) ->
  holds la' (l ++ [(t, with_next m a); (a, with_next m2 (head la))]).
Proof.
  intros [] Hm2 E D T S M L. split; try done; rewrite ?D, ?S; try done.
  - by eapply texts_extend.
  - rewrite E. symmetry. apply bool_decide_eq_false. by destruct l.
  - rewrite T. change ([(t, with_next m a); (a, with_next m2 (head la))]) with ([(t, with_next m a)] ++ [(a, with_next m2 (head la))]).
    by rewrite app_assoc, last_snoc.
  - by apply (linked_extend l t m).
Qed.

(** ** Sending a message *)

Definition accepted (l : list entry) (x : Z * cstr) (rc : Z) (la' : logarea) : Prop :=
  (rc = 0 /\ exists l', holds la' l' /\ queue l' = queue l ++ [x]) \/ (rc = 1 /\ l <> [] /\ holds la' l).

Lemma alone_put pr buff t0 sz : 0 <= t0 -> t0 + msg_size buff <= sz ->
  put_msg t0 {| prio := pr; next := 0; str := buff |} {| empty := false; head := t0; tail := t0; size := sz; mem := ∅ |} =
  Some {| empty := false; head := t0; tail := t0; size := sz; mem := {[t0 := {| prio := pr; next := 0; str := buff |}]} |}.
Proof.
  intros H0 H1. unfold put_msg. rewrite (free_at_list _ _ _ []); [done|done|constructor|done|done|].
  by intros e ?%elem_of_nil.
Qed.

(** The header written at the old place of an empty area does no harm. *)
Lemma alone_next pr buff h t0 sz nx : 0 <= h -> h + LOGMSG_SIZE <= sz -> (t0 = h \/ t0 = 0 /\ msg_size buff <= h) -> 16 < msg_size buff ->
  exists nx', set_next h t0 {| empty := false; head := t0; tail := t0; size := sz; mem := {[t0 := {| prio := pr; next := nx; str := buff |}]} |} =
  Some {| empty := false; head := t0; tail := t0; size := sz; mem := {[t0 := {| prio := pr; next := nx'; str := buff |}]} |}.
Proof.
  intros H0 H1 Ht Hb. unfold set_next. cbn [mem]. destruct (decide (h = t0)) as [->|Hne].
  - rewrite lookup_singleton_eq. exists t0. cbn. by rewrite insert_singleton_eq.
  - destruct Ht as [->|[-> Hlen]]; [done|]. rewrite lookup_singleton_ne by done. exists nx.
    rewrite (free_at_list _ _ _ [(0, {| prio := pr; next := nx; str := buff |})]); [done|..].
    + done.
    + apply NoDup_singleton.
    + done.
    + done.
    + intros e ->%list_elem_of_singleton. right. exact Hlen.
Qed.

Lemma enqueue_first la pr text : holds la [] ->
  exists rc la', log_enqueue pr text la = Some (rc, la') /\ accepted [] (pr, take (MAX_MSG_SIZE - 1) text) rc la'.
Proof.
  intros []. cbn in h_tail0, h_empty0, h_mem0. destruct la as [e h t sz mm]. cbn in *. subst.
  pose proof (cut_short text) as Hcut. unfold log_enqueue. cbn [empty head tail size mbind option_bind].
  set (buff := take _ text) in *. pose proof (msg_size_max buff Hcut) as Hb.
  rewrite (proj2 (Z.leb_le h h)) by lia. cbn [andb]. assert (544 <= sz) as Hsz by exact h_size0. unfold LOGMSG_SIZE in *.
  assert ((sz - h <? msg_size buff) && (h =? 0) = false) as ->.
  { destruct (Z.ltb_spec (sz - h) (msg_size buff)), (Z.eqb_spec h 0); cbn [andb]; lia || done. }
  set (t0 := if sz - h <? msg_size buff then 0 else h).
  assert (0 <= t0 /\ t0 + msg_size buff <= sz /\ (t0 = h \/ t0 = 0 /\ msg_size buff <= h)) as (T0 & T1 & T2)
    by (unfold t0; destruct (Z.ltb_spec (sz - h) (msg_size buff)); lia).
  match goal with |- context [tail ?x <? head ?x] =>
    assert (x = {| empty := true; head := t0; tail := t0; size := sz; mem := ∅ |}) as -> by (unfold t0; by destruct (_ <? _)) end.
  cbn [head tail]. rewrite Z.ltb_irrefl. cbn [andb]. unfold set_empty at 1. cbn [head tail size mem].
  rewrite alone_put by done. cbn [mbind option_bind tail].
  destruct (alone_next pr buff h t0 sz 0) as (nx & ->); [lia|unfold LOGMSG_SIZE; lia|exact T2|lia|].
  cbn [mbind option_bind head tail]. unfold set_next. cbn [mem]. rewrite lookup_singleton_eq.
  eexists 0, _. split; [done|]. left. split; [done|]. exists [(t0, {| prio := pr; next := t0; str := buff |})]. split; [|done].
  split; cbn; try done.
  - unfold LOGMSG_SIZE. lia.
  - by rewrite insert_singleton_eq.
  - apply Forall_singleton. exact Hcut.
  - left. exists (t0 + msg_size buff). split; [done|exact T1].
Qed.

Lemma layout_end la l t m : holds la (l ++ [(t, m)]) ->
  (exists e, segment (head la) (l ++ [(t, m)]) (t + msg_size (str m)) /\ e = t + msg_size (str m) /\ e <= size la /\ head la <= t) \/
  (exists l1 l2 e1, l = l1 ++ l2 /\ l1 <> [] /\ segment (head la) l1 e1 /\ e1 <= size la /\
     segment 0 (l2 ++ [(t, m)]) (t + msg_size (str m)) /\ t + msg_size (str m) < head la).
Proof.
  intros []. destruct h_layout0 as [(e & Hs & He)|(l1 & l2 & e1 & e2 & Hl & N1 & N2 & S1 & E1 & S2 & E2)].
  - left. pose proof Hs as Hs'. apply segment_app in Hs' as (mid & S0 & S1). cbn in S1. destruct S1 as [-> <-].
    exists (mid + msg_size (str m)). split; [exact Hs|]. split; [done|]. split; [exact He|].
    apply Forall_app in h_text0 as [T0 _]. by apply segment_bounds in S0 as [? _].
  - right. destruct l2 as [|x l2 _] using rev_ind; [done|]. rewrite app_assoc in Hl. apply app_inj_tail in Hl as [-> <-].
    pose proof S2 as S2'. apply segment_app in S2' as (mid & S0 & S3). cbn in S3. destruct S3 as [-> <-].
    exists l1, l2, e1. done.
Qed.

Lemma holds_facts la l t m : holds la (l ++ [(t, m)]) ->
  NoDup (fst <$> (l ++ [(t, m)])) /\ (forall e, e ∈ l ++ [(t, m)] -> 0 <= fst e /\ fst e + entry_size e <= size la) /\
  (forall e, e ∈ l ++ [(t, m)] -> 16 < entry_size e <= 272) /\ tail la = t /\ empty la = false /\ mem la !! t = Some m.
Proof.
  intros []. destruct (layout_bounds _ _ h_text0 (proj1 h_head0) h_layout0) as [Hd Hb].
  split; [done|]. split; [done|]. split; [|split; [by rewrite h_tail0, last_snoc|split]].
  - intros e He. rewrite Forall_forall in h_text0. by apply msg_size_max, h_text0.
  - rewrite h_empty0. apply bool_decide_eq_false. by destruct l.
  - rewrite h_mem0, (list_to_map_snoc l), lookup_insert_eq; [done|]. rewrite fmap_app in Hd.
    apply NoDup_app in Hd as (_ & Hd & _). intros H. by apply (Hd t H), list_elem_of_singleton.
Qed.

Lemma staged la l t m a b pr buff : holds la (l ++ [(t, m)]) -> (length buff < MAX_MSG_SIZE)%nat ->
  0 <= b -> b + msg_size buff <= size la ->
  (forall e, e ∈ l ++ [(t, m)] -> b + msg_size buff <= fst e \/ fst e + entry_size e <= b) ->
  (forall la3 m2, str m2 = buff -> head la3 = head la -> size la3 = size la ->
     layout la3 (l ++ [(t, with_next m b); (b, with_next m2 (head la))])) ->
  exists rc la', (la1 ← put_msg b {| prio := pr; next := 0; str := buff |} (set_empty false (move_tail b (move_tail a la)));
    la2 ← set_next t (tail la1) la1; la3 ← set_next (tail la2) (head la2) la2; Some (0, la3)) = Some (rc, la') /\
    accepted (l ++ [(t, m)]) (pr, buff) rc la'.
Proof.
  intros Hh Hcut B0 B1 B2 HL. destruct (holds_facts _ _ _ _ Hh) as (Hd & Hb & Hs & _ & _ & _).
  set (m2 := {| prio := pr; next := 0; str := buff |}). set (la0 := set_empty false (move_tail b (move_tail a la))).
  assert (head la0 = head la /\ tail la0 = b) as [H0 T0] by done.
  destruct (stage_spec la0 l t m b m2 (head la)) as (la1 & la2 & la3 & P1 & P2 & P3 & T1 & T2 & D2 & M3 & E3 & D3 & T3 & S3); try done.
  { apply (h_mem _ _ Hh). }
  { intros (e & -> & He)%list_elem_of_fmap. specialize (B2 e He). specialize (Hb e He). specialize (Hs e He).
    pose proof (msg_size_max buff Hcut). lia. }
  rewrite P1. cbn [mbind option_bind]. rewrite T1, T0, P2. cbn [mbind option_bind]. rewrite T2, D2, T0, H0, P3.
  exists 0, la3. split; [done|]. left. split; [done|].
  exists (l ++ [(t, with_next m b); (b, with_next m2 (head la))]). split; [|apply (queue_extend l t m b m2)].
  apply (holds_extend la la3 l t m b m2); try done. by apply HL.
Qed.

Lemma linear_layout la la3 l t m b m2 : segment (head la) (l ++ [(t, m)]) b -> b + msg_size (str m2) <= size la ->
  head la3 = head la -> size la3 = size la -> layout la3 (l ++ [(t, with_next m b); (b, with_next m2 (head la))]).
Proof.
  intros Hs Hb D S. left. exists (b + msg_size (str m2)). rewrite D, S. split; [|done].
  change [(t, with_next m b); (b, with_next m2 (head la))] with ([(t, with_next m b)] ++ [(b, with_next m2 (head la))]).
  rewrite app_assoc. apply segment_app. exists b. split; [by apply segment_snoc|done].
Qed.

Lemma wrapped_layout la la3 l1 l2 t m a b m2 e1 : l1 <> [] -> segment (head la) l1 e1 -> e1 <= size la ->
  segment 0 (l2 ++ [(t, m)]) a -> b = a -> b + msg_size (str m2) < head la ->
  head la3 = head la -> size la3 = size la -> layout la3 ((l1 ++ l2) ++ [(t, with_next m b); (b, with_next m2 (head la))]).
Proof.
  intros N1 S1 E1 S2 -> Hb D S. right. exists l1, (l2 ++ [(t, with_next m a); (a, with_next m2 (head la))]), e1, (a + msg_size (str m2)).
  rewrite D, S, <-app_assoc. split; [done|]. split; [done|]. split; [by destruct l2|]. split; [done|]. split; [done|].
  split; [|done]. change [(t, with_next m a); (a, with_next m2 (head la))] with ([(t, with_next m a)] ++ [(a, with_next m2 (head la))]).
  rewrite app_assoc. apply segment_app. exists a. split; [by apply segment_snoc|done].
Qed.

Lemma enqueue_behind la l t m pr text : holds la (l ++ [(t, m)]) ->
  exists rc la', log_enqueue pr text la = Some (rc, la') /\ accepted (l ++ [(t, m)]) (pr, take (MAX_MSG_SIZE - 1) text) rc la'.
Proof.
  intros Hh. destruct (holds_facts _ _ _ _ Hh) as (Hd & Hb & Hs & Ht & Hne & Hm).
  pose proof (h_head _ _ Hh) as [H0 H16]. pose proof (h_text _ _ Hh) as Htext. unfold LOGMSG_SIZE in H16.
  unfold log_enqueue. rewrite Hne, Ht, Hm. cbn [mbind option_bind]. pose proof (cut_short text) as Hcut.
  set (buff := take _ text) in *. pose proof (msg_size_max buff Hcut) as Hlen. set (a := t + msg_size (str m)) in *.
  cbn [tail head size move_tail].
  assert (forall rc, rc = 1 -> accepted (l ++ [(t, m)]) (pr, buff) rc (move_tail t (move_tail a la))) as Hdrop.
  { intros rc ->. right. split; [done|]. split; [by destruct l|]. by apply holds_same. }
  destruct (layout_end _ _ _ _ Hh) as [(e & Hseg & Hea & He & Hht)|(l1 & l2 & e1 & -> & N1 & S1 & E1 & S2 & Hat)];
    fold a in Hseg || fold a in S2; [fold a in Hea; rewrite Hea in He|fold a in Hat].
  - pose proof (segment_bounds _ _ _ Htext Hseg) as [Hha Hin].
    rewrite (proj2 (Z.leb_le _ _) Hha). cbn [andb].
    destruct (Z.ltb_spec (size la - a) (msg_size buff)) as [Hlt|Hge]; cbn [andb].
    + destruct (Z.eqb_spec (head la) 0) as [Hz|Hnz]; [eauto|].
      change (empty (move_tail 0 (move_tail a la))) with (empty la). rewrite Hne.
      change (tail (move_tail 0 (move_tail a la))) with 0. change (head (move_tail 0 (move_tail a la))) with (head la).
      destruct (Z.ltb_spec 0 (head la)); [|lia]. destruct (Z.leb_spec (head la - 0) (msg_size buff)); cbn [andb].
      { change (empty (move_tail 0 (move_tail a la))) with (empty la). rewrite Hne. eauto. }
      apply (staged la l t m a 0 pr buff); try done; [lia|intros x Hx; specialize (Hin x Hx); lia|].
      intros la3 m2 E2 D S. right. exists (l ++ [(t, with_next m 0)]), [(0, with_next m2 (head la))], a, (0 + msg_size (str m2)).
      rewrite D, S, <-app_assoc, E2. split; [done|]. split; [by destruct l|]. split; [done|].
      split; [by apply segment_snoc|]. split; [done|]. split; [split; [done|]; unfold entry_size; cbn [snd with_next str segment]; by rewrite E2|lia].
    + change (tail (move_tail a la)) with a. change (head (move_tail a la)) with (head la).
      destruct (Z.ltb_spec a (head la)); [lia|]. cbn [andb].
      apply (staged la l t m a a pr buff); try done; [lia|lia|intros x Hx; specialize (Hin x Hx); lia|].
      intros la3 m2 E2 D S. apply linear_layout; [exact Hseg|rewrite E2; lia|done|done].
  - rewrite (proj2 (Z.leb_gt _ _) Hat). cbn [andb].
    change (tail (move_tail a la)) with a. change (head (move_tail a la)) with (head la). change (empty (move_tail a la)) with (empty la).
    destruct (Z.ltb_spec a (head la)); [|lia]. cbn [andb].
    rewrite Hne. destruct (Z.leb_spec (head la - a) (msg_size buff)); [eauto|].
    unfold texts_ok in *. rewrite <-app_assoc in Htext. apply Forall_app in Htext as [T1 T2].
    pose proof (segment_bounds _ _ _ T1 S1) as [B1 I1]. pose proof (segment_bounds _ _ _ T2 S2) as [B2 I2].
    apply (staged la (l1 ++ l2) t m a a pr buff); try done; [lia| |].
    { intros x Hx. rewrite <-app_assoc in Hx. apply elem_of_app in Hx as [Hx|Hx]; [specialize (I1 x Hx)|specialize (I2 x Hx)]; lia. }
    intros la3 m2 E2 D S. apply (wrapped_layout la la3 l1 l2 t m a a m2 e1); try done. rewrite E2. lia.
Qed.

(** ** Taking a message out *)

Lemma holds_init sz : sz < Z.of_nat MAX_MSG_SIZE \/ LARGE_AREA <= sz -> holds (logarea_init sz) [].
Proof.
  intros Hsz. unfold logarea_init. assert (LARGE_AREA = 544) as HL by done. rewrite HL in Hsz.
  assert (exists n, (if sz <? Z.of_nat MAX_MSG_SIZE then DEFAULT_AREA_SIZE else sz) = n /\ 544 <= n) as (n & -> & Hn).
  { eexists. split; [done|]. destruct (Z.ltb_spec sz (Z.of_nat MAX_MSG_SIZE)); unfold DEFAULT_AREA_SIZE; lia. }
  split; cbn [empty head tail size mem]; try done.
  - unfold LOGMSG_SIZE. lia.
  - left. exists 0. split; [done|]. cbn. lia.
Qed.

(** The rest of the messages, the last of which leads to the new head. *)
Lemma linked_rest l t m h b : linked (l ++ [(t, m)]) h -> linked (l ++ [(t, with_next m b)]) b.
Proof.
  induction l as [|e l IH]; cbn [app linked]; [done|]. intros [H1 H2]. split; [|by apply IH]. by destruct l.
Qed.

Lemma delete_first l (a : Z) (m : logmsg) : NoDup (fst <$> (a, m) :: l) ->
  delete a (list_to_map ((a, m) :: l) : gmap Z logmsg) = list_to_map l.
Proof.
  rewrite fmap_cons. intros [Hn _]%NoDup_cons. cbn [list_to_map foldr fst snd]. apply delete_insert_id.
  by apply not_elem_of_list_to_map.
Qed.

Lemma layout_rest la la' a m l t mt b : layout la ((a, m) :: l ++ [(t, mt)]) -> 0 <= head la -> texts_ok ((a, m) :: l ++ [(t, mt)]) ->
  head la' = fst (default (t, mt) (hd_error (l ++ [(t, mt)]))) -> size la' = size la ->
  layout la' (l ++ [(t, with_next mt b)]).
Proof.
  intros HL H0 HT D S. destruct HL as [(e & [Ha Hs] & He)|(l1 & l2 & e1 & e2 & Hl & N1 & N2 & S1 & E1 & S2 & E2)].
  - left. exists e. rewrite S. split; [|done]. apply segment_snoc.
    assert (head la' = head la + entry_size (a, m)) as ->; [|done].
    rewrite D. destruct l as [|x l]; destruct Hs as [Hx _]; cbn in *; lia.
  - destruct l1 as [|x l1]; [done|]. injection Hl as <- Hl. destruct S1 as [Ha S1].
    pose proof (msg_size_max _ (Forall_inv HT)) as Hm.
    destruct l1 as [|y l1].
    + cbn in Hl. left. exists e2. rewrite S. split; [|cbn [segment] in S1; unfold entry_size in *; lia].
      rewrite <-Hl in S2. apply segment_snoc. assert (head la' = 0) as ->; [|done].
      rewrite D. destruct l as [|z l]; destruct S2 as [Hz _]; cbn in *; lia.
    + destruct l2 as [|z l2 _] using rev_ind; [done|].
      change ((y :: l1) ++ l2 ++ [z]) with (((y :: l1) ++ l2 ++ [z])) in Hl. rewrite app_assoc in Hl.
      apply app_inj_tail in Hl as [-> <-]. right. exists (y :: l1), (l2 ++ [(t, with_next mt b)]), e1, e2.
      assert (head la' = head la + entry_size (a, m)) as Hh by (rewrite D; destruct S1 as [Hy _]; cbn in *; lia).
      rewrite S, Hh, <-app_assoc. split; [done|]. split; [done|]. split; [by destruct l2|]. split; [exact S1|]. split; [done|].
      split; [by apply segment_snoc|]. unfold entry_size. cbn in *. lia.
Qed.

Lemma holds_rest la la' a m l t mt b : holds la ((a, m) :: l ++ [(t, mt)]) ->
  b = fst (default (t, mt) (hd_error (l ++ [(t, mt)]))) -> empty la' = empty la -> head la' = b -> tail la' = tail la ->
  size la' = size la -> mem la' = list_to_map (l ++ [(t, with_next mt b)]) -> holds la' (l ++ [(t, with_next mt b)]).
Proof.
  intros Hh Hb E D T S M. destruct (layout_bounds _ _ (h_text _ _ Hh) (proj1 (h_head _ _ Hh)) (h_layout _ _ Hh)) as [_ Hin].
  pose proof (h_text _ _ Hh) as Ht. assert (texts_ok (l ++ [(t, mt)])) as Ht' by by apply Forall_cons in Ht as [_ ?].
  assert (exists e, e ∈ (a, m) :: l ++ [(t, mt)] /\ fst e = b /\ 16 < entry_size e) as (e & He & Heb & Hes).
  { exists (default (t, mt) (hd_error (l ++ [(t, mt)]))). rewrite Hb.
    assert (default (t, mt) (hd_error (l ++ [(t, mt)])) ∈ l ++ [(t, mt)]) as Hd by (destruct l; cbn; set_solver).
    split; [by right|]. split; [done|]. unfold texts_ok in Ht'. rewrite Forall_forall in Ht'.
    by apply msg_size_max, Ht'. }
  specialize (Hin e He). rewrite Heb in Hin. split; rewrite ?D, ?S.
  - apply (h_size _ _ Hh).
  - unfold LOGMSG_SIZE. lia.
  - done.
  - unfold texts_ok in Ht'. rewrite Forall_app in *. split; [tauto|]. destruct Ht' as [_ Ht1%Forall_inv]. by apply Forall_singleton.
  - rewrite E, (h_empty _ _ Hh), !bool_decide_false; [done|by destruct l|done].
  - rewrite T, (h_tail _ _ Hh), app_comm_cons, !last_snoc. done.
  - pose proof (h_linked _ _ Hh) as [_ Hl]. by eapply linked_rest.
  - eapply layout_rest; [apply (h_layout _ _ Hh)|apply (h_head _ _ Hh)|exact Ht|by rewrite D|exact S].
Qed.

Lemma dequeue_spec la l : holds la l -> exists la', log_dequeue la = Some (match l with [] => None | e :: _ => Some (prio (snd e), str (snd e)) end, la') /\
  exists l', holds la' l' /\ queue l' = drop 1 (queue l).
Proof.
  intros Hh. unfold log_dequeue. rewrite (h_empty _ _ Hh). destruct l as [|[a m] l].
  { exists la. split; [done|]. by exists []. }
  rewrite bool_decide_false by done.
  destruct (layout_bounds _ _ (h_text _ _ Hh) (proj1 (h_head _ _ Hh)) (h_layout _ _ Hh)) as [Hd Hb].
  assert (head la = a) as Hhd.
  { destruct (h_layout _ _ Hh) as [(e & [Ha _] & _)|(l1 & l2 & e1 & e2 & Hl & N1 & _ & S1 & _)]; [by cbn in Ha|].
    destruct l1 as [|x l1]; [done|]. injection Hl as <- _. by destruct S1. }
  assert (mem la !! a = Some m) as Hm by (rewrite (h_mem _ _ Hh); cbn; by rewrite lookup_insert_eq).
  rewrite Hhd, Hm. cbn [mbind option_bind]. pose proof (h_head _ _ Hh) as [H0 H16]. rewrite Hhd in H0, H16.
  destruct l as [|[t mt] l _] using rev_ind.
  - assert (tail la = a) as Ht by (by rewrite (h_tail _ _ Hh)). rewrite Ht, Z.eqb_refl. cbn [mbind option_bind].
    eexists. split; [done|]. exists []. split; [|done]. split; cbn [empty head tail size mem set_empty]; try done.
    + apply (h_size _ _ Hh).
    + rewrite Hhd. done.
    + rewrite (h_mem _ _ Hh). by apply delete_first.
    + by rewrite Ht.
    + left. exists (head la). split; [done|]. cbn. unfold LOGMSG_SIZE in H16. lia.
  - assert (tail la = t) as Ht by (by rewrite (h_tail _ _ Hh), app_comm_cons, last_snoc). rewrite Ht.
    pose proof Hd as Hd'. rewrite app_comm_cons in Hd. rewrite fmap_app in Hd. apply NoDup_app in Hd as (_ & Hnt & _).
    assert (t ∉ fst <$> (a, m) :: l) as Htn by (intros H; by apply (Hnt t H), list_elem_of_singleton).
    assert (t <> a) as Hta by (intros ->; apply Htn; by left).
    rewrite (proj2 (Z.eqb_neq t a) Hta). set (b := next m).
    assert (b = fst (default (t, mt) (hd_error (l ++ [(t, mt)])))) as Hbn.
    { pose proof (h_linked _ _ Hh) as [Hn _]. unfold b. cbn [snd] in Hn. rewrite Hn. by destruct l. }
    destruct (set_next_last (move_head b la) ((a, m) :: l) t mt b) as (la1 & -> & M1 & E1 & D1 & T1 & S1); [apply (h_mem _ _ Hh)|done|].
    cbn [mbind option_bind]. eexists. split; [done|]. exists (l ++ [(t, with_next mt b)]). split.
    + apply holds_rest with (la := la) (a := a) (m := m) (mt := mt); cbn [empty head tail size mem]; try done.
      rewrite M1. cbn [app]. apply delete_first. by rewrite app_comm_cons, fmap_app in *.
    + unfold queue. cbn [fmap list_fmap drop]. by rewrite !fmap_app.
Qed.

Lemma enqueue_accepts la l pr text : holds la l ->
  exists rc la', log_enqueue pr text la = Some (rc, la') /\ accepted l (pr, take (MAX_MSG_SIZE - 1) text) rc la'.
Proof.
  intros Hh. destruct l as [|[t m] l _] using rev_ind; [by apply enqueue_first|by apply enqueue_behind].
Qed.

Lemma queue_nil l : queue l = [] -> l = [].
Proof. by destruct l. Qed.

Lemma queue_cons e l : queue (e :: l) = (prio (snd e), str (snd e)) :: queue l.
Proof. done. Qed.

Lemma flush_spec fuel la l : holds la l -> (length (queue l) < fuel)%nat ->
  exists la', flush_logqueue fuel la = Some (queue l, la') /\ holds la' [].
Proof.
  revert la l. induction fuel as [|f IH]; intros la l Hh Hf; [lia|]. cbn [flush_logqueue].
  destruct (dequeue_spec la l Hh) as (la' & -> & l' & Hh' & Hq). cbn [mbind option_bind].
  destruct l as [|e l]; [exists la'; split; [done|by rewrite (queue_nil l' Hq) in Hh']|].
  rewrite queue_cons in Hq, Hf. cbn [length] in Hf. change (queue l' = queue l) in Hq.
  destruct (IH la' l' Hh') as (la2 & -> & H2); [rewrite Hq; lia|]. cbn [mbind option_bind].
  exists la2. split; [|done]. by rewrite queue_cons, Hq.
Qed.

(** ** The log thread *)

(** The messages that the area has accepted are those passed to syslog and, behind
    them, those still in the area; and when there are some of these, the thread
    does not sleep unless a call is about to wake it up. *)
Definition delivering (acc : list (Z * cstr)) (L : logger) : Prop :=
  exists l, holds (area L) l /\ syslogged L ++ queue l = acc /\
    (pc L = Waiting -> l <> [] -> log_messages_pending L = true \/ (0 < sending L)%nat).

Lemma log_step_delivering acc L x L' : delivering acc L -> log_step L x L' -> delivering (acc ++ x) L'.
Proof.
  intros (l & Hh & Hq & Hp) Hs. destruct Hs as [p text la n b r c out rc la' He|la n b r c out|la n b r out|la n b r out m la' Hd
    |la n b r out la' Hd|la n b r c out]; cbn [area sending log_messages_pending pc syslogged] in *; rewrite ?app_nil_r.
  - destruct (enqueue_accepts la l (Z.min p LOG_DEBUG) text Hh) as (rc' & la2 & He' & Hacc). rewrite He in He'.
    injection He' as <- <-. destruct Hacc as [(-> & l' & Hh' & Hq')|(-> & Hl & Hh')].
    + exists l'. split; [done|]. split; [cbn [syslogged]; by rewrite Hq', app_assoc, Hq|]. intros _ _. right. cbn. lia.
    + exists l. split; [done|]. split; [cbn [syslogged Z.eqb]; by rewrite app_nil_r|]. intros _ _. right. cbn. lia.
  - exists l. split; [done|]. split; [done|]. by left.
  - exists l. split; [done|]. split; [done|]. by destruct r.
  - destruct (dequeue_spec la l Hh) as (la2 & Hd' & l' & Hh' & Hq'). rewrite Hd in Hd'. destruct l as [|e l]; [done|].
    injection Hd' as -> <-. exists l'. split; [done|]. split; [|done]. rewrite Hq', queue_cons. rewrite queue_cons in Hq.
    cbn [syslogged]. change (drop 1 (_ :: queue l)) with (queue l). by rewrite <-app_assoc.
  - destruct (dequeue_spec la l Hh) as (la2 & Hd' & l' & Hh' & Hq'). rewrite Hd in Hd'. destruct l as [|e l]; [|done].
    injection Hd' as <-. exists l'. pose proof (queue_nil l' Hq'); subst l'. split; [done|]. by split.
  - exists l. by split.
Qed.

Lemma start_delivering sz : sz < Z.of_nat MAX_MSG_SIZE \/ LARGE_AREA <= sz -> delivering [] (log_thread_start sz).
Proof. intros Hsz. exists []. split; [by apply holds_init|]. by split. Qed.

(** ** Properties *)

(** C10: The ring of log messages is a bounded first-in first-out queue: when the area
    holds the messages [l], enqueueing one cuts it to the size of a message and either puts it behind the others or, when the area is not empty,
    drops it and leaves the others as they were; it never writes outside of the area or over
    a message that is still to be sent, also when it goes on at the start of the area;
    dequeueing gives the oldest message; and emptying the area, which ends,
    passes on all of its messages in their order. *)
Theorem log_area_fifo la l pr text fuel (Hh : holds la l) (Hf : (length (queue l) < fuel)%nat) :
  (exists rc la', log_enqueue pr text la = Some (rc, la') /\
     ((rc = 0 /\ exists l', holds la' l' /\ queue l' = queue l ++ [(pr, take (MAX_MSG_SIZE - 1) text)]) \/
      (rc = 1 /\ l <> [] /\ holds la' l))) /\
  (exists la', log_dequeue la = Some (hd_error (queue l), la') /\ exists l', holds la' l' /\ queue l' = drop 1 (queue l)) /\
  (exists la', flush_logqueue fuel la = Some (queue l, la') /\ holds la' []).
Proof.
  split; [by apply enqueue_accepts|]. split; [|by apply flush_spec].
  destruct (dequeue_spec la l Hh) as (la' & -> & Hl). exists la'. by destruct l.
Qed.


(** ** Concrete runs *)

Lemma log_area_fifo_witness : exists la', flush_logqueue 1 (logarea_init 0) = Some ([], la') /\ holds la' [].
Proof.
  apply (log_area_fifo (logarea_init 0) [] 3 (s "x") 1).
  - apply holds_init. by left.
  - by repeat constructor.
Defined.

(** The third message finds no room; when the first is out, the fourth goes to the start of the area. *)
Definition long_text (c : Z) : cstr := replicate 255 c.

Example wraps_and_drops :
  (la ← snd <$> log_enqueue 3 (long_text 97) (logarea_init 560);
   la ← snd <$> log_enqueue 4 (long_text 98) la;
   '(r1, la) ← log_enqueue 5 (long_text 99) la;
   la ← snd <$> log_dequeue la;
   '(r2, la) ← log_enqueue 6 (s "d") la;
   '(out, la) ← flush_logqueue 3 la;
   Some (r1, r2, tail la, out)) = Some (1, 0, 0, [(4, long_text 98); (6, (s "d"))]).
Proof. vm_compute. reflexivity. Qed.

