(* ===== verification/Util.v ===== *)
(** * libmultipath/util.c and util.h: string, number and bitfield helpers

    Buffers are lists of bytes of fixed length; a write outside the buffer is
    [None] (undefined behaviour in C), so that the theorems can exclude it. *)

From S2P Require Import Prelude CString.

(** ** Bounded string copies *)

Definition bset (buf : list Z) (pos : nat) (c : Z) : option (list Z) :=
  if (pos <? length buf)%nat then Some (<[pos := c]> buf) else None.

(** The C string a buffer holds: its bytes up to the first NUL. *)
Definition cstr_of (buf : list Z) : cstr := fst (span (fun c => negb (c =? 0)) buf).

(** The shared copy loop of [strlcpy] and [strlcat]:
    [while ((ch = *src++)) { if (bytes + 1 < size) *dst++ = ch; bytes++; }]. *)
Fixpoint copy_loop (dst : list Z) (pos : nat) (src : cstr) (bytes size : nat)
  : option (list Z * nat * nat) :=
  match src with
  | [] => Some (dst, pos, bytes)
  | ch :: src' =>
      if (bytes + 1 <? size)%nat then
        dst' ← bset dst pos ch; copy_loop dst' (S pos) src' (S bytes) size
      else copy_loop dst pos src' (S bytes) size
  end.

Definition strlcpy (dst : list Z) (src : cstr) (size : nat) : option (list Z * nat) :=
  '(dst', pos, bytes) ← copy_loop dst 0 src 0 size;
  if (size =? 0)%nat then Some (dst', bytes)
  else dst'' ← bset dst' pos 0; Some (dst'', bytes).

(** [while (bytes < size && *dst) { dst++; bytes++; }]; reading past the end of
    the buffer is [None]. *)
Fixpoint skip_to_nul (dst : list Z) (bytes size : nat) : option nat :=
  if (bytes <? size)%nat then
    match dst with
    | [] => None
    | c :: dst' => if c =? 0 then Some bytes else skip_to_nul dst' (S bytes) size
    end
  else Some bytes.

Definition strlcat (dst : list Z) (src : cstr) (size : nat) : option (list Z * nat) :=
  bytes ← skip_to_nul dst 0 size;
  if (bytes =? size)%nat then Some (dst, (bytes + length src)%nat)
  else
    '(dst', pos, bytes') ← copy_loop dst bytes src bytes size;
    dst'' ← bset dst' pos 0;
    Some (dst'', bytes').

(** ** Trimming and base names *)

(** The loop [for (i = strlen(str) - 1; i != -1 && isspace(str[i]); i--)]; the
    argument and the result are [i + 1]. *)
Fixpoint chop_index (str : cstr) (i : nat) : nat :=
  match i with
  | O => O
  | S j => if isspace (nth j str 0) then chop_index str j else S j
  end.

Definition strchop (str : cstr) : cstr * nat :=
  let i := chop_index str (length str) in (take i str, i).

(** [basename]: what follows the last slash. *)
Definition basename (filename : cstr) : cstr :=
  reverse (fst (span (fun c => negb (c =? 47)) (reverse filename))).

(** [size] is a [size_t]: [size - 2] wraps around. The result is the buffer and
    the returned length. *)
Definition basenamecpy (src : option cstr) (dst : option (list Z)) (size : nat)
  : option (option (list Z) * Z) :=
  match src, dst with
  | Some src, Some d =>
      if (length src =? 0)%nat then Some (dst, 0)
      else
        let p := basename src in
        let n := chop_index p (length p) in          (* e - p + 1 *)
        if (n =? 0)%nat || (u64 (Z.of_nat size - 2) <? Z.of_nat n - 1)
        then Some (dst, 0)
        else
          '(d', _) ← strlcpy d p (n + 1);
          Some (Some d', strlen (cstr_of d'))
  | _, _ => Some (dst, 0)
  end.

(** ** Words *)

(** [get_next_string]: the next non-empty [strsep] field. *)
Fixpoint get_next_string_loop (fuel : nat) (temp : option cstr) (split_char : cstr)
  : option cstr * option cstr :=
  match fuel with
  | O => (None, temp)
  | S f =>
      match temp with
      | None => (None, None)
      | Some a =>
          let '(token, temp') := strsep split_char a in
          match token with
          | [] => get_next_string_loop f temp' split_char
          | _ => (Some token, temp')
          end
      end
  end.

Definition get_next_string (temp : option cstr) (split_char : cstr)
  : option cstr * option cstr :=
  get_next_string_loop (match temp with Some a => S (S (length a)) | None => 1 end)
    temp split_char.

Definition is_blank (c : Z) : bool := c =? 32.

(** [get_word(sentence, word)]: the amount to advance by and the word; [want]
    is false for a NULL [word].  The word is a fresh copy, trimmed by
    [strchop]; at the end of the sentence the returned amount is 0. *)
Definition get_word (sentence : cstr) (want : bool) : nat * option cstr :=
  let '(blanks, rest) := span is_blank sentence in
  let skip := length blanks in
  match rest with
  | [] => (0%nat, None)
  | _ =>
      let '(w, p) := span (fun c => negb (is_blank c)) rest in
      let len := length w in
      if negb want then ((skip + len)%nat, None)
      else
        let word := fst (strchop w) in
        match p with
        | [] => (0%nat, Some word)
        | _ => ((skip + len)%nat, Some word)
        end
  end.

(** ** Device names and numbers *)

(** The pair is the (possibly modified) name and the offset of the result in it. *)
Definition convert_dev (name : option cstr) (is_path_device : bool) : option (cstr * nat) :=
  match name with
  | None => None
  | Some name =>
      let name :=
        if is_path_device then
          match strstr name (s "cciss/") with
          | Some i => <[(i + 5)%nat := 33]> name
          | None => name
          end
        else name in
      Some (name, if strneq 5 name (s "/dev/") && (5 <? strlen name) then 5%nat else 0%nat)
  end.

(** The [makedev] of the C library, on 32-bit major and minor numbers. *)
Definition makedev (maj min : Z) : Z :=
  Z.lor (Z.lor (Z.shiftl (Z.land (u32 maj) 4294963200) 32)
               (Z.shiftl (Z.land (u32 maj) 4095) 8))
        (Z.lor (Z.shiftl (Z.land (u32 min) 4294967040) 12) (Z.land (u32 min) 255)).

Definition parse_devt (dev_t : cstr) : Z :=
  match scan_int dev_t with
  | Some (maj, c :: r) =>
      if c =? 58 then
        match scan_int r with
        | Some (min, _) => makedev maj min
        | None => 0
        end
      else 0
  | _ => 0
  end.

(** [sysname] is udev's device lookup by number. *)
Definition devt2devname (sysname : Z -> option cstr) (devname : option (list Z))
    (devname_len : nat) (devt : option cstr) : option (option (list Z) * Z) :=
  match devname, devt with
  | Some buf, Some devt =>
      if (devname_len =? 0)%nat then Some (devname, 1)
      else
        match sysname (parse_devt devt) with
        | None => Some (devname, 1)
        | Some name =>
            '(buf', r) ← strlcpy buf name devname_len;
            Some (Some buf', if (r <? devname_len)%nat then 0 else 1)
        end
  | _, _ => Some (devname, 1)
  end.

(** ** Kernel version *)

(** [release] is the string [uname] reports; at most three fields are used.
    The arithmetic is that of [int]. *)
Fixpoint version_loop (n : nat) (t : cstr) (r : Z) : Z :=
  match n with
  | O => r
  | S m =>
      match strtok_r (s ".") t with
      | Some (tok, rest) => version_loop m rest (s32 (r * 256 + atoi tok))
      | None => version_loop m [] (s32 (r * 256))
      end
  end.

Definition linux_version_code (release : cstr) : Z := version_loop 3 release 0.

Definition KERNEL_VERSION (a b c : Z) : Z := a * 65536 + b * 256 + c.

(** ** Persistent reservation keys *)

Definition MPATH_F_APTPL_MASK : Z := 1.

Definition is_hex (c : Z) : bool := in_set (s "0123456789aAbBcCdDeEfF") c.

Definition parse_prkey (ptr : option cstr) : option Z :=
  match ptr with
  | None => None
  | Some p =>
      let p := match p with c :: r => if c =? 48 then r else p | [] => p end in
      let p := match p with c :: r => if (c =? 120) || (c =? 88) then r else p | [] => p end in
      match p with
      | [] => None
      | _ =>
          if 16 <? strlen p then None
          else if negb (Z.of_nat (strspn p (s "0123456789aAbBcCdDeEfF")) =? strlen p) then None
          else Some (fst (scan_digits 16 0 p))
      end
  end.

(** The key and the flags; the code stores the flags even when the key is bad. *)
Definition parse_prkey_flags (ptr : cstr) : option Z * Z :=
  match strchr 58 ptr with
  | Some i =>
      let flagstr := drop (S i) ptr in
      (parse_prkey (Some (take i ptr)),
       if (strlen flagstr =? 5) && streq flagstr (s "aptpl") then MPATH_F_APTPL_MASK else 0)
  | None => (parse_prkey (Some ptr), 0)
  end.

(** ** Writing and resource limits *)

Inductive wresult := Wrote (n : nat) | WIntr | WError (errno : Z).

(** [safe_write] against the successive answers of [write(2)]: the return
    value with the bytes that went out, [None] while more answers are needed. *)
Fixpoint safe_write (answers : list wresult) (buf : list Z) : option (Z * list Z) :=
  match buf with
  | [] => Some (0, [])
  | _ =>
      match answers with
      | [] => None
      | WIntr :: rest => safe_write rest buf
      | WError e :: _ => Some (- e, [])
      | Wrote n :: rest =>
          '(r, out) ← safe_write rest (drop n buf);
          Some (r, take n buf ++ out)
      end
  end.

(** [set_max_fds]: the limits passed to [setrlimit], if it is called.
    [cur] is what [getrlimit] gives, [None] when it fails. *)
Definition set_max_fds (max_fds : Z) (cur : option (Z * Z)) : option (Z * Z) :=
  if max_fds =? 0 then None
  else
    let '(rlim_cur, rlim_max) := match cur with Some l => l | None => (0, 0) end in
    if rlim_cur <? max_fds
    then Some (max_fds, if rlim_max <? max_fds then max_fds else rlim_max)
    else None.

(** ** systemd units *)

Definition PATH_MAX : Z := 4096.
Definition PATH_SIZE : Z := 512.

(** [snprintf] into a buffer of [n] bytes keeps at most [n - 1] of them. *)
Definition truncate (n : Z) (a : cstr) : cstr := take (Z.to_nat (n - 1)) a.

Section Systemd.
Variable opendir : cstr -> option (list cstr).   (* the entries of a directory *)
Variable stat : cstr -> bool.                    (* does the file exist? *)

Definition wants_service (path service d_name : cstr) : bool :=
  if streq d_name (s ".") || streq d_name (s "..") then false
  else if strlen d_name <? 6 then false
  else
    let p := drop (length d_name - 6) d_name in
    if negb (streq p (s ".wants")) then false
    else
      let file := path ++ s "/" ++ d_name ++ s "/" ++ service in
      (strlen file <? PATH_MAX) && stat file.

Definition systemd_service_enabled_in (prefix : cstr) : Z :=
  let service := s "multipathd.service" in
  let path := truncate PATH_SIZE (prefix ++ s "/systemd/system") in
  match opendir path with
  | None => 0
  | Some entries => if existsb (wants_service path service) entries then 1 else 0
  end.

Definition systemd_service_enabled : Z :=
  let found := systemd_service_enabled_in (s "/etc") in
  let found := if found =? 0 then systemd_service_enabled_in (s "/usr/lib") else found in
  let found := if found =? 0 then systemd_service_enabled_in (s "/lib") else found in
  if found =? 0 then systemd_service_enabled_in (s "/run") else found.
End Systemd.

(** ** Bitfields *)

Definition bits_per_slot : Z := 64.

Record bitfield := { bf_len : Z; bf_bits : list Z }.

Definition alloc_bitfield (maxbit : Z) : option bitfield :=
  if maxbit =? 0 then None
  else
    let n := (maxbit - 1) / bits_per_slot + 1 in
    Some {| bf_len := maxbit; bf_bits := replicate (Z.to_nat n) 0 |}.

Definition slot_index (bit : Z) : nat := Z.to_nat (bit / bits_per_slot).

Definition is_bit_set_in_bitfield (bit : Z) (bf : bitfield) : bool :=
  if bf_len bf <=? bit then false
  else negb (Z.land (nth (slot_index bit) (bf_bits bf) 0)
                    (Z.shiftl 1 (bit mod bits_per_slot)) =? 0).

Definition set_bit_in_bitfield (bit : Z) (bf : bitfield) : bitfield :=
  if bf_len bf <=? bit then bf
  else {| bf_len := bf_len bf;
          bf_bits := alter (fun w => Z.lor w (Z.shiftl 1 (bit mod bits_per_slot)))
                           (slot_index bit) (bf_bits bf) |}.

Definition clear_bit_in_bitfield (bit : Z) (bf : bitfield) : bitfield :=
  if bf_len bf <=? bit then bf
  else {| bf_len := bf_len bf;
          bf_bits := alter (fun w => Z.ldiff w (Z.shiftl 1 (bit mod bits_per_slot)))
                           (slot_index bit) (bf_bits bf) |}.

(** ** Lemmas: bounded copies *)

Lemma copy_loop_full dst pos src bytes size :
  (size <= bytes + 1)%nat ->
  copy_loop dst pos src bytes size = Some (dst, pos, (bytes + length src)%nat).
Proof.
  revert bytes. induction src as [|ch src IH]; intros bytes H; simpl.
  - by rewrite Nat.add_0_r.
  - replace (bytes + 1 <? size)%nat with false by (symmetry; apply Nat.ltb_ge; lia).
    rewrite IH by lia. do 2 f_equal. lia.
Qed.

(** The copy loop writes a prefix of [src] at [pos] and keeps the rest. *)
Lemma copy_loop_spec dst pos src size :
  (pos < size <= length dst)%nat ->
  let n := Nat.min (length src) (size - 1 - pos) in
  copy_loop dst pos src pos size =
  Some (take pos dst ++ take n src ++ drop (pos + n) dst, (pos + n)%nat,
        (pos + length src)%nat).
Proof.
  revert dst pos. induction src as [|ch src IH]; intros dst pos H n; cbn [copy_loop].
  - subst n. simpl. by rewrite !Nat.add_0_r, take_drop.
  - destruct (Nat.ltb_spec (pos + 1) size) as [Hlt|Hge].
    + unfold bset. replace (pos <? length dst)%nat with true by (symmetry; apply Nat.ltb_lt; lia).
      cbn [mbind option_bind]. rewrite IH by (rewrite length_insert; lia).
      subst n. replace (Nat.min (length (ch :: src)) (size - 1 - pos)) with
        (S (Nat.min (length src) (size - 1 - S pos))) by (cbn [length]; lia).
      set (m := Nat.min _ _). f_equal. f_equal; [f_equal|]; [|lia|cbn [length]; lia].
      rewrite (insert_take_drop dst pos ch) by lia.
      rewrite take_app, firstn_length_le by lia.
      rewrite take_take, Nat.min_r by lia.
      replace (S pos - pos)%nat with 1%nat by lia. cbn [take].
      rewrite drop_app, firstn_length_le by lia.
      rewrite (drop_ge (take pos dst)) by (rewrite length_take; lia).
      replace (S pos + m - pos)%nat with (S m) by lia.
      cbn [drop]. rewrite drop_drop, <-app_assoc. simpl. do 3 f_equal. f_equal. lia.
    + rewrite copy_loop_full by lia. subst n.
      replace (Nat.min (length (ch :: src)) (size - 1 - pos)) with 0%nat by lia.
      simpl. rewrite Nat.add_0_r, take_drop. do 2 f_equal. lia.
Qed.

Lemma cstr_of_app a b : nul_free a -> cstr_of (a ++ 0 :: b) = a.
Proof.
  intros H. unfold cstr_of. rewrite span_intro; [done| |done].
  eapply Forall_impl; [exact H|]. simpl. intros c Hc. lia.
Qed.

Lemma cstr_of_split buf : (length (cstr_of buf) < length buf)%nat ->
  exists r, buf = cstr_of buf ++ 0 :: r.
Proof.
  intros H. unfold cstr_of in *. destruct (span _ buf) as [a b] eqn:E. simpl in *.
  pose proof (span_app _ _ _ _ E) as ->. destruct b as [|x b].
  - rewrite app_nil_r in H. lia.
  - apply span_stop in E. assert (x = 0) as -> by lia. eauto.
Qed.

Lemma nul_free_take n a : nul_free a -> nul_free (take n a).
Proof. apply Forall_take. Qed.

Lemma skip_to_nul_spec a r k size :
  nul_free a -> (k + length a < size)%nat ->
  skip_to_nul (a ++ 0 :: r) k size = Some (k + length a)%nat.
Proof.
  intros Ha. revert k. induction Ha as [|c a Hc _ IH]; intros k H; simpl in *.
  - replace (k <? size)%nat with true by (symmetry; apply Nat.ltb_lt; lia).
    f_equal. lia.
  - replace (k <? size)%nat with true by (symmetry; apply Nat.ltb_lt; lia).
    replace (c =? 0) with false by lia. rewrite IH by lia. f_equal. lia.
Qed.

Section Copies.
Context (dst : list Z) (src : cstr) (size : nat)
        (Hsize : (0 < size <= length dst)%nat) (Hsrc : nul_free src).

(** Writing a NUL-terminated result of [n] further bytes at [pos]. *)
Lemma copy_then_nul pos :
  nul_free (take pos dst) -> (pos < size)%nat ->
  exists dst',
    ('(dst', p, b) ← copy_loop dst pos src pos size;
     dst'' ← bset dst' p 0; Some (dst'', b)) = Some (dst', (pos + length src)%nat) /\
    length dst' = length dst /\
    cstr_of dst' = take pos dst ++ take (size - 1 - pos) src /\
    drop size dst' = drop size dst.
Proof.
  intros Hpre Hpos. rewrite copy_loop_spec by lia.
  set (n := Nat.min (length src) (size - 1 - pos)).
  assert (length (take pos dst ++ take n src) = pos + n)%nat as Hlen.
  { rewrite length_app, !length_take. lia. }
  assert (length (take pos dst ++ take n src ++ drop (pos + n) dst) = length dst) as Hall.
  { rewrite !length_app, !length_take, length_drop. lia. }
  simpl. unfold bset. rewrite Hall.
  replace (pos + n <? length dst)%nat with true by (symmetry; apply Nat.ltb_lt; lia).
  eexists. split; [reflexivity|]. split; [by rewrite length_insert|].
  rewrite app_assoc, insert_app_r_alt by lia. rewrite Hlen, Nat.sub_diag.
  destruct (drop (pos + n) dst) as [|x r] eqn:Hd.
  { apply (f_equal length) in Hd. rewrite length_drop in Hd. simpl in Hd. lia. }
  simpl. split.
  - rewrite cstr_of_app by (apply Forall_app; split; [done|by apply nul_free_take]).
    f_equal. unfold n. destruct (decide (length src <= size - 1 - pos)%nat).
    + by rewrite Nat.min_l, !take_ge by lia.
    + by rewrite Nat.min_r by lia.
  - rewrite drop_app, drop_ge by (rewrite Hlen; lia).
    rewrite Hlen. replace (size - (pos + n))%nat with (S (size - 1 - (pos + n))) by lia.
    replace (drop size dst) with (drop (size - (pos + n)) (drop (pos + n) dst))
      by (rewrite drop_drop; f_equal; lia).
    rewrite Hd. by replace (size - (pos + n))%nat with (S (size - 1 - (pos + n))) by lia.
Qed.
End Copies.

Lemma strlcpy_ok dst src size :
  (0 < size <= length dst)%nat -> nul_free src ->
  exists dst', strlcpy dst src size = Some (dst', length src) /\
    length dst' = length dst /\ cstr_of dst' = take (size - 1) src /\
    drop size dst' = drop size dst.
Proof.
  intros Hsize Hsrc. unfold strlcpy.
  replace (size =? 0)%nat with false by (symmetry; apply Nat.eqb_neq; lia).
  destruct (copy_then_nul dst src size Hsize Hsrc 0) as (dst' & H1 & H2 & H3 & H4);
    [apply Forall_nil_2|lia|].
  exists dst'. rewrite Nat.sub_0_r in H3. repeat split; try done.
Qed.

Lemma cstr_of_nul_free buf : Forall is_byte buf -> nul_free (cstr_of buf).
Proof.
  intros Hb. unfold cstr_of. destruct (span _ buf) as [a b] eqn:E. simpl.
  pose proof (span_all _ _ _ _ E) as Ha. apply span_app in E as ->.
  apply Forall_app in Hb as [Hb _]. unfold nul_free. rewrite Forall_forall in *.
  intros x Hx.
  specialize (Ha x Hx). specialize (Hb x Hx). unfold is_byte in Hb. simpl in Ha. lia.
Qed.

Lemma strlcat_ok dst src size :
  (length (cstr_of dst) < size <= length dst)%nat -> nul_free src -> Forall is_byte dst ->
  exists dst', strlcat dst src size = Some (dst', (length (cstr_of dst) + length src)%nat) /\
    length dst' = length dst /\ cstr_of dst' = take (size - 1) (cstr_of dst ++ src) /\
    drop size dst' = drop size dst.
Proof.
  intros Hsize Hsrc Hdst. unfold strlcat.
  destruct (cstr_of_split dst) as [r Hr]; [lia|].
  pose proof (cstr_of_nul_free dst Hdst) as Hfree.
  remember (cstr_of dst) as a eqn:Ha.
  assert (skip_to_nul dst 0 size = Some (length a)) as ->.
  { rewrite Hr, skip_to_nul_spec by (done || lia). done. }
  assert (take (length a) dst = a) as Ht.
  { rewrite Hr, take_app_le, take_ge by lia. done. }
  cbn [mbind option_bind].
  replace (length a =? size)%nat with false by (symmetry; apply Nat.eqb_neq; lia).
  destruct (copy_then_nul dst src size ltac:(lia) Hsrc (length a))
    as (dst' & H1 & H2 & H3 & H4); [by rewrite Ht|lia|].
  exists dst'. rewrite Ht in H3. repeat split; try done.
  by rewrite H3, take_app, (take_ge a) by lia.
Qed.

(** ** Lemmas: trimming and words *)

Lemma chop_index_spec str i : (i <= length str)%nat ->
  (chop_index str i <= i)%nat /\
  (forall j, (chop_index str i <= j < i)%nat -> isspace (nth j str 0) = true) /\
  (chop_index str i = O \/ isspace (nth (chop_index str i - 1) str 0) = false).
Proof.
  induction i as [|i IH]; intros Hi; simpl.
  - split; [lia|]. split; [intros; lia|by left].
  - destruct (isspace (nth i str 0)) eqn:E.
    + destruct IH as (H1 & H2 & H3); [lia|]. split; [lia|]. split; [|done].
      intros j Hj. destruct (decide (j = i)) as [->|]; [done|]. apply H2. lia.
    + split; [lia|]. split; [intros; lia|]. right.
      by replace (S i - 1)%nat with i by lia.
Qed.

Lemma chop_index_id str :
  last str <> None -> (forall c, last str = Some c -> isspace c = false) ->
  chop_index str (length str) = length str.
Proof.
  intros Hne H. destruct str as [|x str] using rev_ind; [done|].
  rewrite length_app, Nat.add_1_r. simpl.
  rewrite nth_middle. by rewrite (H x) by apply last_snoc.
Qed.

(** A word has neither blanks (so that it ends at one) nor trailing white space. *)
Definition is_word (w : cstr) : Prop :=
  w <> [] /\ Forall (fun c => isspace c = false) w.

#[export] Instance is_word_dec w : Decision (is_word w).
Proof. unfold is_word. apply _. Defined.

Lemma strchop_word w : is_word w -> fst (strchop w) = w.
Proof.
  intros [Hne Hw]. unfold strchop. cbn [fst].
  rewrite chop_index_id, take_ge; [done|lia|..].
  - destruct w using rev_ind; [done|]. by rewrite last_snoc.
  - intros c Hc. rewrite Forall_forall in Hw. apply Hw.
    by apply last_Some_elem_of.
Qed.

Lemma word_not_blank w : Forall (fun c => isspace c = false) w ->
  Forall (fun c => negb (is_blank c) = true) w.
Proof.
  intros H. eapply Forall_impl; [exact H|]. simpl. intros c.
  unfold isspace, is_blank. lia.
Qed.

Lemma get_word_more k w r want : is_word w ->
  get_word (replicate k 32 ++ w ++ 32 :: r) want =
  ((k + length w)%nat, if want then Some w else None).
Proof.
  intros Hw. unfold get_word. rewrite span_intro; cycle 1.
  { by apply Forall_replicate. }
  { destruct Hw as [Hne Hw]. destruct w as [|x w]; [done|].
    apply word_not_blank, Forall_cons_1 in Hw as [Hx _]. simpl.
    by apply negb_true_iff in Hx. }
  pose proof Hw as [Hne Hs]. destruct w as [|x w]; [done|].
  cbn [app]. change (x :: w ++ 32 :: r) with ((x :: w) ++ 32 :: r).
  rewrite span_intro; [|by apply word_not_blank|done].
  rewrite length_replicate. destruct want; simpl negb; cbv iota; [|done].
  by rewrite strchop_word.
Qed.

Lemma get_word_last k w : is_word w ->
  get_word (replicate k 32 ++ w) true = (0%nat, Some w).
Proof.
  intros Hw. unfold get_word. rewrite span_intro; cycle 1.
  { by apply Forall_replicate. }
  { destruct Hw as [Hne Hw]. destruct w as [|x w]; [done|].
    apply word_not_blank, Forall_cons_1 in Hw as [Hx _]. simpl.
    by apply negb_true_iff in Hx. }
  pose proof Hw as [Hne Hs]. destruct w as [|x w]; [done|].
  rewrite span_whole by (by apply word_not_blank).
  simpl negb; cbv iota. by rewrite strchop_word.
Qed.

(** ** Lemmas: bitfields *)

Definition bitfield_wf (bf : bitfield) : Prop :=
  0 < bf_len bf /\
  Z.of_nat (length (bf_bits bf)) = (bf_len bf - 1) / bits_per_slot + 1 /\
  Forall (fun w => 0 <= w) (bf_bits bf).

Lemma alloc_bitfield_wf n bf : 0 < n -> alloc_bitfield n = Some bf -> bitfield_wf bf.
Proof.
  unfold alloc_bitfield, bitfield_wf. intros Hn. replace (n =? 0) with false by lia.
  intros [= <-]. simpl. split; [done|]. split.
  - rewrite length_replicate, Z2Nat.id; [done|].
    pose proof (Z.div_pos (n - 1) bits_per_slot). unfold bits_per_slot in *. lia.
  - by apply Forall_replicate.
Qed.

Lemma slot_index_lt bit bf : bitfield_wf bf -> 0 <= bit < bf_len bf ->
  (slot_index bit < length (bf_bits bf))%nat.
Proof.
  intros (H1 & H2 & _) Hb. unfold slot_index, bits_per_slot in *.
  pose proof (Z.div_le_mono bit (bf_len bf - 1) 64).
  pose proof (Z.div_pos bit 64). lia.
Qed.

Lemma land_bit_test w k : 0 <= w -> 0 <= k ->
  negb (Z.land w (Z.shiftl 1 k) =? 0) = Z.testbit w k.
Proof.
  intros Hw Hk. rewrite Z.shiftl_1_l.
  replace (Z.land w (2 ^ k)) with (if Z.testbit w k then 2 ^ k else 0).
  - pose proof (Z.pow_pos_nonneg 2 k). destruct (Z.testbit w k); lia.
  - apply Z.bits_inj'. intros j Hj. rewrite Z.land_spec, Z.pow2_bits_eqb by done.
    destruct (Z.eqb_spec k j) as [->|].
    + destruct (Z.testbit w j); [by rewrite Z.pow2_bits_true|by rewrite Z.bits_0].
    + rewrite andb_false_r. destruct (Z.testbit w k); [|by rewrite Z.bits_0].
      by apply Z.pow2_bits_false.
Qed.

Lemma is_bit_set_testbit bit bf : bitfield_wf bf -> 0 <= bit ->
  is_bit_set_in_bitfield bit bf =
  (bit <? bf_len bf) && Z.testbit (nth (slot_index bit) (bf_bits bf) 0) (bit mod bits_per_slot).
Proof.
  intros (_ & _ & Hw) Hb. unfold is_bit_set_in_bitfield.
  destruct (Z.leb_spec (bf_len bf) bit).
  - by replace (bit <? bf_len bf) with false by lia.
  - replace (bit <? bf_len bf) with true by lia. apply land_bit_test.
    + destruct (nth_in_or_default (slot_index bit) (bf_bits bf) 0) as [Hin| ->]; [|lia].
      rewrite Forall_forall in Hw. apply Hw. by apply list_elem_of_In.
    + apply Z.mod_pos_bound. unfold bits_per_slot. lia.
Qed.

Lemma nth_alter (f : Z -> Z) l i j : (i < length l)%nat ->
  nth j (alter f i l) 0 = if decide (i = j) then f (nth j l 0) else nth j l 0.
Proof.
  intros Hi. rewrite !nth_lookup. case_decide as Hd.
  - subst j. rewrite list_lookup_alter_eq. destruct (lookup_lt_is_Some_2 l i Hi) as [x ->]. done.
  - by rewrite list_lookup_alter_ne.
Qed.

Lemma set_bit_wf bit bf : bitfield_wf bf -> bitfield_wf (set_bit_in_bitfield bit bf).
Proof.
  intros (H1 & H2 & H3). unfold set_bit_in_bitfield. case_match; [done|].
  split; [done|]. split; simpl; [by rewrite length_alter|].
  apply Forall_alter; [done|]. intros x _ Hx. apply Z.lor_nonneg. split; [done|].
  apply Z.shiftl_nonneg. lia.
Qed.

Lemma slot_bit_inj i j : 0 <= i -> 0 <= j ->
  slot_index i = slot_index j -> i mod bits_per_slot = j mod bits_per_slot -> i = j.
Proof.
  unfold slot_index, bits_per_slot. intros Hi Hj H1 H2.
  pose proof (Z.div_pos i 64). pose proof (Z.div_pos j 64).
  apply Z2Nat.inj in H1; [|lia..].
  rewrite (Z.div_mod i 64), (Z.div_mod j 64) by lia. lia.
Qed.

Lemma is_bit_set_set i j bf : bitfield_wf bf -> 0 <= i < bf_len bf -> 0 <= j ->
  is_bit_set_in_bitfield j (set_bit_in_bitfield i bf) =
  (j =? i) || is_bit_set_in_bitfield j bf.
Proof.
  intros Hwf Hi Hj. rewrite !is_bit_set_testbit by eauto using set_bit_wf.
  pose proof (slot_index_lt i bf Hwf Hi) as Hlt.
  unfold set_bit_in_bitfield. replace (bf_len bf <=? i) with false by lia. simpl.
  rewrite nth_alter by done.
  pose proof (Z.mod_pos_bound i bits_per_slot). pose proof (Z.mod_pos_bound j bits_per_slot).
  case_decide as Hd.
  - rewrite Z.lor_spec, Z.shiftl_1_l, Z.pow2_bits_eqb by (unfold bits_per_slot in *; lia).
    destruct (Z.eqb_spec (i mod bits_per_slot) (j mod bits_per_slot)).
    + assert (i = j) as -> by (apply slot_bit_inj; done || lia). rewrite Z.eqb_refl.
      rewrite orb_true_r. by replace (j <? bf_len bf) with true by lia.
    + replace (j =? i) with false by (symmetry; apply Z.eqb_neq; congruence).
      by rewrite orb_false_r.
  - by replace (j =? i) with false by (symmetry; apply Z.eqb_neq; congruence).
Qed.

Lemma is_bit_set_clear i j bf : bitfield_wf bf -> 0 <= i < bf_len bf -> 0 <= j ->
  is_bit_set_in_bitfield j (clear_bit_in_bitfield i bf) =
  negb (j =? i) && is_bit_set_in_bitfield j bf.
Proof.
  intros Hwf Hi Hj.
  assert (bitfield_wf (clear_bit_in_bitfield i bf)) as Hwf'.
  { destruct Hwf as (H1 & H2 & H3). unfold clear_bit_in_bitfield. case_match; [done|].
    split; [done|]. split; simpl; [by rewrite length_alter|].
    apply Forall_alter; [done|]. intros x _ Hx. apply Z.ldiff_nonneg. by left. }
  rewrite !is_bit_set_testbit by done.
  pose proof (slot_index_lt i bf Hwf Hi) as Hlt.
  unfold clear_bit_in_bitfield. replace (bf_len bf <=? i) with false by lia. simpl.
  rewrite nth_alter by done.
  pose proof (Z.mod_pos_bound i bits_per_slot). pose proof (Z.mod_pos_bound j bits_per_slot).
  case_decide as Hd.
  - rewrite Z.ldiff_spec, Z.shiftl_1_l, Z.pow2_bits_eqb by (unfold bits_per_slot in *; lia).
    destruct (Z.eqb_spec (i mod bits_per_slot) (j mod bits_per_slot)).
    + assert (i = j) as -> by (apply slot_bit_inj; done || lia). rewrite Z.eqb_refl.
      by rewrite !andb_false_r.
    + replace (j =? i) with false by (symmetry; apply Z.eqb_neq; congruence).
      by rewrite andb_true_r.
  - by replace (j =? i) with false by (symmetry; apply Z.eqb_neq; congruence).
Qed.

Lemma is_bit_set_alloc n bf j : 0 < n -> 0 <= j -> alloc_bitfield n = Some bf ->
  is_bit_set_in_bitfield j bf = false.
Proof.
  intros Hn Hj H. rewrite is_bit_set_testbit by eauto using alloc_bitfield_wf.
  unfold alloc_bitfield in H. replace (n =? 0) with false in H by lia.
  simplify_eq. simpl. rewrite nth_lookup.
  destruct (replicate _ 0 !! slot_index j) as [x|] eqn:E; simpl.
  - apply lookup_replicate in E as [-> _]. by rewrite Z.bits_0, andb_false_r.
  - by rewrite Z.bits_0, andb_false_r.
Qed.

(** ** Lemmas: reservation keys *)

Definition is_base_digit (base c : Z) : bool :=
  match base_digit base c with Some _ => true | None => false end.

Lemma is_hex_base_digit c : is_hex c = is_base_digit 16 c.
Proof.
  destruct (decide (0 <= c < 128)) as [Hc|Hc].
  - assert (forallb (fun n => Bool.eqb (is_hex (Z.of_nat n)) (is_base_digit 16 (Z.of_nat n)))
              (seq 0 128) = true) as H by (vm_compute; reflexivity).
    rewrite forallb_forall in H. specialize (H (Z.to_nat c)).
    rewrite Z2Nat.id in H by lia. apply eqb_prop, H, in_seq. lia.
  - transitivity false.
    + apply not_true_iff_false. intros (x & Hx & E)%existsb_exists. apply Z.eqb_eq in E as ->.
      assert (Forall (fun x => 0 <= x < 128) (s "0123456789aAbBcCdDeEfF")) as H
        by (decide_closed).
      rewrite Forall_forall in H. apply Hc, H. by apply list_elem_of_In.
    + unfold is_base_digit, base_digit, digit_val. repeat case_match; bools; lia || done.
Qed.

Lemma is_hex_digit c d : base_digit 16 c = Some d -> is_hex c = true.
Proof. intros H. rewrite is_hex_base_digit. unfold is_base_digit. by rewrite H. Qed.

Lemma base_digit_bound base c d : base_digit base c = Some d -> 0 <= d < base.
Proof.
  unfold base_digit, digit_val. intros H.
  repeat (case_match; simplify_eq; bools); lia.
Qed.

Lemma hex_is_digit c : is_hex c = true -> exists d, base_digit 16 c = Some d /\ 0 <= d < 16.
Proof.
  rewrite is_hex_base_digit. unfold is_base_digit.
  destruct (base_digit 16 c) as [d|] eqn:E; [|done].
  intros _. exists d. split; [done|]. by apply base_digit_bound in E.
Qed.

Lemma scan_hex_bound p acc : Forall (fun c => is_hex c = true) p -> 0 <= acc ->
  0 <= fst (scan_digits 16 acc p) < (acc + 1) * 16 ^ Z.of_nat (length p).
Proof.
  intros Hp. revert acc. induction Hp as [|c p Hc Hp IH]; intros acc Hacc; cbn [scan_digits length].
  - simpl. lia.
  - destruct (hex_is_digit c Hc) as (d & -> & Hd).
    specialize (IH (acc * 16 + d) ltac:(lia)). split; [lia|].
    rewrite Nat2Z.inj_succ, Z.pow_succ_r by lia.
    pose proof (Z.pow_pos_nonneg 16 (Z.of_nat (length p))). nia.
Qed.

Lemma strspn_all p : Z.of_nat (strspn p (s "0123456789aAbBcCdDeEfF")) = strlen p ->
  Forall (fun c => is_hex c = true) p.
Proof.
  unfold strspn, strlen. intros H. destruct (span _ p) as [a b] eqn:E. simpl in H.
  pose proof (span_all _ _ _ _ E) as Ha. apply span_app in E as ->.
  rewrite length_app in H. destruct b; [by rewrite app_nil_r|simpl in H; lia].
Qed.

Lemma strspn_all_intro p : Forall (fun c => is_hex c = true) p ->
  Z.of_nat (strspn p (s "0123456789aAbBcCdDeEfF")) = strlen p.
Proof. intros H. unfold strspn. by rewrite span_whole. Qed.

Lemma parse_prkey_range p v : parse_prkey p = Some v -> 0 <= v < 2 ^ 64.
Proof.
  unfold parse_prkey. destruct p as [p|]; [|done].
  set (p1 := match p with c :: r => if c =? 48 then r else p | [] => p end).
  set (p2 := match p1 with c :: r => if (c =? 120) || (c =? 88) then r else p1 | [] => p1 end).
  destruct p2 as [|c r] eqn:E; [done|]. rewrite <-E.
  destruct (16 <? strlen p2) eqn:Hl; [done|].
  destruct (_ =? strlen p2) eqn:Hs; simpl; [|done]. intros [= <-].
  apply Z.eqb_eq, strspn_all in Hs.
  pose proof (scan_hex_bound p2 0 Hs ltac:(lia)) as Hb.
  pose proof (Z.pow_le_mono_r 16 (Z.of_nat (length p2)) 16). unfold strlen in Hl. lia.
Qed.

(** The form the program itself prints a key in: [0x] and lower-case digits. *)
Definition print_prkey (k : Z) : cstr := s "0x" ++ ntoa 16 k.

Lemma parse_print_prkey k : 0 <= k < 2 ^ 64 -> parse_prkey (Some (print_prkey k)) = Some k.
Proof.
  intros Hk. unfold parse_prkey, print_prkey. cbn [s fmap list_fmap app
    String.list_ascii_of_string]. simpl.
  destruct (ntoa_head 16 k) as (d & r & Hd & Hr); [unfold good_base; lia|lia|].
  rewrite Hr. rewrite <-Hr.
  assert (length (ntoa 16 k) <= 16)%nat as Hlen.
  { apply ntoa_aux_length; lia. }
  assert (Forall (fun c => is_hex c = true) (ntoa 16 k)) as Hhex.
  { eapply Forall_impl; [apply (ntoa_aux_chars _ 16 k); unfold good_base; lia|].
    simpl. intros c (e & He & ->).
    eapply is_hex_digit, base_digit_char; unfold good_base; lia. }
  replace (16 <? strlen (ntoa 16 k)) with false by (unfold strlen; lia).
  rewrite strspn_all_intro, Z.eqb_refl by done. simpl.
  rewrite <-(app_nil_r (ntoa 16 k)), scan_digits_ntoa; [done|unfold good_base; lia|lia].
Qed.

(** ** Properties *)

(** The bounded copies are memory safe and exact.  With a destination of at
    least [size] bytes, [strlcpy] writes only inside the first [size] bytes,
    leaves a NUL-terminated copy of the source cut to [size - 1] characters and
    returns the source's full length; [strlcat] does the same for the old
    content followed by the source. *)
Theorem bounded_copies dst src size :
  (0 < size <= length dst)%nat -> nul_free src -> Forall is_byte dst ->
  (exists d, strlcpy dst src size = Some (d, length src) /\
     length d = length dst /\ cstr_of d = take (size - 1) src /\
     drop size d = drop size dst) /\
  ((length (cstr_of dst) < size)%nat ->
   exists d, strlcat dst src size = Some (d, (length (cstr_of dst) + length src)%nat) /\
     length d = length dst /\ cstr_of d = take (size - 1) (cstr_of dst ++ src) /\
     drop size d = drop size dst).
Proof.
  intros Hsize Hsrc Hdst. split.
  - by apply strlcpy_ok.
  - intros Hlen. apply strlcat_ok; (done || lia).
Qed.

Lemma bounded_copies_witness :
  strlcpy [9; 9; 9; 9] (s "abcd") 3 = Some ([97; 98; 0; 9], 4%nat) /\
  exists d, strlcpy [9; 9; 9; 9] (s "abcd") 3 = Some (d, 4%nat) /\
    cstr_of d = s "ab" /\ drop 3 d = [9].
Proof.
  split; [reflexivity|].
  destruct (bounded_copies [9; 9; 9; 9] (s "abcd") 3) as [(d & H1 & _ & H2 & H3) _].
  - simpl. lia.
  - decide_closed.
  - decide_closed.
  - exists d. split; [exact H1|]. split; [exact H2|exact H3].
Defined.

(** A base name is copied only when it fits: for a destination of at least
    two bytes [basenamecpy] never writes past [size], and what it reports is the
    length of the trimmed base name it stored, or 0 with the buffer untouched. *)
Theorem basenamecpy_safe src dst size :
  (2 <= size <= length dst)%nat -> nul_free src -> Z.of_nat size < 2 ^ 64 ->
  exists d r, basenamecpy (Some src) (Some dst) size = Some (Some d, r) /\
    length d = length dst /\ drop size d = drop size dst /\
    ((r = 0 /\ d = dst) \/
     (cstr_of d = fst (strchop (basename src)) /\ r = strlen (cstr_of d) /\
      0 < r < Z.of_nat size)).
Proof.
  intros Hsize Hsrc Hmax. unfold basenamecpy.
  destruct (length src =? 0)%nat; [eauto 10|].
  set (p := basename src). set (n := chop_index p (length p)).
  destruct (chop_index_spec p (length p)) as (Hn & _ & _); [lia|]. fold n in Hn.
  assert (nul_free p) as Hp.
  { subst p. unfold basename. destruct (span _ (reverse src)) as [a b] eqn:E.
    apply span_app in E. simpl.
    apply (f_equal reverse) in E. rewrite reverse_involutive, reverse_app in E.
    unfold nul_free in Hsrc. rewrite E in Hsrc. apply Forall_app in Hsrc as [_ Hsrc].
    exact Hsrc. }
  unfold u64. rewrite Z.mod_small by lia.
  destruct ((n =? 0)%nat || _) eqn:Hc; [eauto 10|].
  apply orb_false_iff in Hc as [Hc1 Hc2].
  apply Nat.eqb_neq in Hc1. apply Z.ltb_ge in Hc2.
  destruct (strlcpy_ok dst p (n + 1)) as (d & -> & H1 & H2 & H3); [lia|done|].
  simpl. exists d, (strlen (cstr_of d)). split; [done|]. split; [done|].
  replace (n + 1 - 1)%nat with n in H2 by lia. split.
  - replace size with ((n + 1) + (size - (n + 1)))%nat by lia.
    by rewrite <-(drop_drop d), <-(drop_drop dst), H3.
  - right. split; [done|]. split; [done|]. rewrite H2. unfold strlen.
    rewrite length_take. lia.
Qed.

Lemma basenamecpy_safe_witness :
  exists d r, basenamecpy (Some (s "foo/bar ")) (Some (replicate 4 7)) 4 = Some (Some d, r) /\
    cstr_of d = s "bar" /\ r = 3.
Proof.
  destruct (basenamecpy_safe (s "foo/bar ") (replicate 4 7) 4)
    as (d & r & H & _ & _ & [(-> & ->)|(H1 & H2 & _)]).
  - simpl. lia.
  - decide_closed.
  - lia.
  - vm_compute in H. discriminate H.
  - exists d, r. split; [exact H|]. split; [exact H1|]. rewrite H2, H1. reflexivity.
Defined.

(** For a destination of one byte the size check of [basenamecpy] wraps
    around ([size - 2] is unsigned) and lets the copy run past the buffer. *)
Theorem basenamecpy_size_one_overflows c :
  isspace c = false -> c <> 47 -> basenamecpy (Some [c]) (Some [0]) 1 = None.
Proof.
  intros Hc Hs. unfold basenamecpy, basename. simpl.
  replace (c =? 47) with false by lia. simpl. by rewrite Hc.
Qed.

Lemma basenamecpy_size_one_overflows_witness :
  isspace 97 = false /\ basenamecpy (Some (s "a")) (Some [0]) 1 = None.
Proof. split; [reflexivity|]. apply (basenamecpy_size_one_overflows 97); [reflexivity|lia]. Defined.

(** Bitfields behave as sets of the bits below their length: a new field is
    empty, setting or clearing a bit changes that bit only, and accesses at or
    beyond the length neither read as set nor change anything. *)
Theorem bitfield_laws n bf i j :
  0 < n -> alloc_bitfield n = Some bf -> 0 <= i -> 0 <= j ->
  forall b, bitfield_wf b -> bf_len b = n ->
  is_bit_set_in_bitfield j bf = false /\
  is_bit_set_in_bitfield j (set_bit_in_bitfield i b) =
    ((i <? n) && (j =? i) || is_bit_set_in_bitfield j b) /\
  is_bit_set_in_bitfield j (clear_bit_in_bitfield i b) =
    (negb ((i <? n) && (j =? i)) && is_bit_set_in_bitfield j b) /\
  (n <= j -> is_bit_set_in_bitfield j b = false).
Proof.
  intros Hn Ha Hi Hj b Hb Hl. split; [by eapply is_bit_set_alloc|].
  assert (n <= j -> is_bit_set_in_bitfield j b = false) as Hout.
  { intros H. unfold is_bit_set_in_bitfield. by replace (bf_len b <=? j) with true by lia. }
  destruct (Z.ltb_spec i n); simpl.
  - rewrite is_bit_set_set, is_bit_set_clear by (done || lia). done.
  - unfold set_bit_in_bitfield, clear_bit_in_bitfield.
    by replace (bf_len b <=? i) with true by lia.
Qed.

Lemma bitfield_laws_witness :
  exists bf, alloc_bitfield 70 = Some bf /\
    is_bit_set_in_bitfield 65 (set_bit_in_bitfield 65 bf) = true /\
    is_bit_set_in_bitfield 64 (set_bit_in_bitfield 65 bf) = false.
Proof.
  destruct (alloc_bitfield 70) as [bf|] eqn:E; [|discriminate E].
  exists bf. split; [reflexivity|].
  assert (bitfield_wf bf) as Hwf by (apply (alloc_bitfield_wf 70); [lia|exact E]).
  assert (bf_len bf = 70) as Hl by (vm_compute in E; injection E as <-; reflexivity).
  destruct (bitfield_laws 70 bf 65 65 ltac:(lia) E ltac:(lia) ltac:(lia) bf Hwf Hl)
    as (_ & -> & _).
  destruct (bitfield_laws 70 bf 65 64 ltac:(lia) E ltac:(lia) ltac:(lia) bf Hwf Hl)
    as (-> & -> & _).
  split; reflexivity.
Defined.

(** Every key the program can print is read back unchanged by [parse_prkey],
    and whatever [parse_prkey] accepts is a 64-bit value. *)
Theorem prkey_roundtrip :
  (forall k, 0 <= k < 2 ^ 64 -> parse_prkey (Some (print_prkey k)) = Some k) /\
  (forall p k, parse_prkey p = Some k -> 0 <= k < 2 ^ 64).
Proof. split; [apply parse_print_prkey|apply parse_prkey_range]. Qed.
