(* ===== verification/Uevent.v ===== *)
(** * libmultipath/uevent.c: reading, filtering and merging uevents

    A uevent holds its environment strings; the queue between the listening and
    the servicing thread is a list, oldest first. What the configuration says
    about devices is a parameter: [blacklisted] is [filter_devnode], [uid_attrs]
    the list of UID attributes. *)

From Equations Require Import Equations.
From S2P Require Import Prelude CString.

Definition HOTPLUG_BUFFER_SIZE : nat := 2048.
Definition HOTPLUG_NUM_ENVP : nat := 32.
Definition OBJECT_SIZE : nat := 512.
Definition UUID_PREFIX : cstr := s "mpath-".

Record uevent := {
  ue_devpath : cstr; ue_action : cstr; ue_kernel : cstr;
  ue_wwid : option cstr; ue_envp : list cstr }.

#[export] Instance eta_uevent : Eta uevent := fun x => {|
  ue_devpath := ue_devpath x; ue_action := ue_action x; ue_kernel := ue_kernel x;
  ue_wwid := ue_wwid x; ue_envp := ue_envp x |}.

#[export] Instance uevent_dec : EqDecision uevent.
Proof. solve_decision. Defined.

(** ** The environment of a uevent *)

Definition uevent_get_env_var (u : uevent) (attr : cstr) : option cstr :=
  if (length attr =? 0)%nat then None
  else match List.find (fun var => (length attr <? length var)%nat && strneq (length attr) var attr &&
                                   bool_decide (nth_error var (length attr) = Some 61)) (ue_envp u) with
       | Some var => Some (drop (S (length attr)) var)
       | None => None
       end.

Definition uevent_get_env_positive_int (u : uevent) (attr : cstr) : Z :=
  match uevent_get_env_var u attr with
  | None | Some [] => -1
  | Some p => match strtoul10 p with
              | Some (v, []) => if s32 v <? 0 then -1 else s32 v
              | _ => -1
              end
  end.

Definition uevent_get_major (u : uevent) : Z := uevent_get_env_positive_int u (s "MAJOR").
Definition uevent_get_minor (u : uevent) : Z := uevent_get_env_positive_int u (s "MINOR").
Definition uevent_get_disk_ro (u : uevent) : Z := uevent_get_env_positive_int u (s "DISK_RO").
Definition uevent_get_dm_name (u : uevent) : option cstr := uevent_get_env_var u (s "DM_NAME").
Definition uevent_get_dm_path (u : uevent) : option cstr := uevent_get_env_var u (s "DM_PATH").
Definition uevent_get_dm_action (u : uevent) : option cstr := uevent_get_env_var u (s "DM_ACTION").

Definition uevent_is_mpath (u : uevent) : bool :=
  match uevent_get_env_var u (s "DM_UUID") with
  | None => false
  | Some uuid => strneq (length UUID_PREFIX) uuid UUID_PREFIX && (length UUID_PREFIX <? length uuid)%nat
  end.

(** ** Reading a uevent from udev *)

(** The position of the last [c] in the string. *)
Fixpoint strrchr (c : Z) (a : cstr) : option nat :=
  match a with
  | [] => None
  | x :: r => match strrchr c r with
              | Some i => Some (S i)
              | None => if x =? c then Some O else None
              end
  end.

Definition BUFFER_END : nat := HOTPLUG_BUFFER_SIZE + OBJECT_SIZE - 1.

(** The properties go one after another into the buffer; the result is the list
    of environment strings and the first free byte. *)
Fixpoint fill_env (props : list (option cstr * option cstr)) (envp : list cstr) (pos : nat)
  : list cstr * nat :=
  match props with
  | [] => (envp, pos)
  | (name, value) :: r =>
      let var := default (s "(null)") name ++ [61] ++ default (s "(null)") value in
      if (BUFFER_END <=? pos + length var)%nat then (envp, pos)
      else
        let envp := envp ++ [var] in
        let pos := (pos + length var + 1)%nat in
        if (length envp =? HOTPLUG_NUM_ENVP - 1)%nat then (envp, pos) else fill_env r envp pos
  end.

(** The last environment string of the name wins. *)
Definition last_env (envp : list cstr) (name : cstr) : option cstr :=
  foldl (fun acc var => if prefixb (name ++ [61]) var then Some (drop (S (length name)) var) else acc)
        None envp.

(** [None] when a necessary field is missing.  A devpath without a slash has no
    kernel name, which the source leaves a null pointer. *)
Definition uevent_from_udev_device (props : list (option cstr * option cstr)) : option uevent :=
  let envp := fst (fill_env props [] 0) in
  devpath ← last_env envp (s "DEVPATH");
  action ← last_env envp (s "ACTION");
  slash ← strrchr 47 devpath;
  Some {| ue_devpath := devpath; ue_action := action; ue_kernel := drop (S slash) devpath;
          ue_wwid := None; ue_envp := envp |}.

(** ** Filtering and merging *)

Section Queue.
Variable blacklisted : cstr -> bool.
Variable uid_attrs : list cstr.

(** [get_uid_attribute_by_attrs]: the attribute of the first matching record. *)
Definition get_uid_attribute_by_attrs (dev : cstr) : option cstr :=
  match List.find (fun att => match strrchr 58 att with
                              | Some col => strneq col dev att
                              | None => false
                              end) uid_attrs with
  | Some att => match strrchr 58 att with Some col => Some (drop (S col) att) | None => None end
  | None => None
  end.

Definition uevent_get_wwid (u : uevent) : uevent :=
  match get_uid_attribute_by_attrs (ue_kernel u) with
  | None => u
  | Some attr => match uevent_get_env_var u attr with
                 | Some v => u <| ue_wwid := Some v |>
                 | None => u
                 end
  end.

Definition uevent_need_merge : bool := (0 <? length uid_attrs)%nat.

Definition is_dm (u : uevent) : bool := strneq 3 (ue_kernel u) (s "dm-").

Definition uevent_can_discard (u : uevent) : bool := negb (is_dm u) && blacklisted (ue_kernel u).

Definition uevent_can_filter (earlier later : uevent) : bool :=
  (streq (ue_kernel earlier) (ue_kernel later) && streq (ue_action later) (s "remove") && negb (is_dm later)) ||
  (streq (ue_kernel earlier) (ue_kernel later) && streq (ue_action earlier) (s "change") &&
   streq (ue_action later) (s "add") && negb (is_dm later)).

Definition merge_need_stop (earlier later : uevent) : bool :=
  if is_dm later then true
  else match ue_wwid earlier, ue_wwid later with
       | Some a, Some b =>
           streq a b && negb (streq (ue_action earlier) (ue_action later)) &&
           negb (streq (ue_action earlier) (s "change")) && negb (streq (ue_action later) (s "change"))
       | _, _ => true
       end.

Definition uevent_can_merge (earlier later : uevent) : bool :=
  match ue_wwid earlier, ue_wwid later with
  | Some a, Some b =>
      streq a b && streq (ue_action earlier) (ue_action later) &&
      negb (strneq 6 (ue_action earlier) (s "change")) && negb (is_dm earlier)
  | _, _ => false
  end.

(** Every event is looked at by itself. *)
Definition uevent_prepare (q : list uevent) : list uevent :=
  (fun u => if negb (is_dm u) && uevent_need_merge then uevent_get_wwid u else u) <$>
  filter (fun u => negb (uevent_can_discard u)) q.

(** [before] is the queue in front of [later], last event first. *)
Definition uevent_filter (later : uevent) (before : list uevent) : list uevent :=
  filter (fun earlier => negb (uevent_can_filter earlier later)) before.

(** What stays in front of [later], and the merged events in front of [acc],
    in their order. *)
Fixpoint uevent_merge (later : uevent) (before : list uevent) (acc : list uevent)
  : list uevent * list uevent :=
  match before with
  | [] => ([], acc)
  | earlier :: r =>
      if merge_need_stop earlier later then (before, acc)
      else if uevent_can_merge earlier later then uevent_merge later r (earlier :: acc)
      else let '(kept, acc) := uevent_merge later r acc in (earlier :: kept, acc)
  end.

Lemma uevent_merge_length later before : forall acc,
  (length (fst (uevent_merge later before acc)) <= length before)%nat.
Proof.
  induction before as [|e r IH]; intros acc; cbn; [done|]. case_match; [done|]. case_match.
  - specialize (IH (e :: acc)). lia.
  - specialize (IH acc). destruct (uevent_merge later r acc). cbn in *. lia.
Qed.

(** An event of the queue with its merged events. *)
Record entry := { en_event : uevent; en_merged : list uevent }.

Definition merge_step (later : uevent) (before : list uevent) : list uevent * list uevent :=
  let before := uevent_filter later before in
  if uevent_need_merge then uevent_merge later before [] else (before, []).

Lemma merge_step_length later before :
  (length (fst (merge_step later before)) <= length before)%nat.
Proof.
  unfold merge_step. assert (length (uevent_filter later before) <= length before)%nat as H
    by apply length_filter. case_match; [|done].
  etrans; [apply uevent_merge_length|done].
Qed.

Equations merge_loop (before : list uevent) (done : list entry) : list entry by wf (length before) lt :=
  merge_loop [] done := done;
  merge_loop (later :: before) done :=
    merge_loop (fst (merge_step later before))
      ({| en_event := later; en_merged := snd (merge_step later before) |} :: done).
Next Obligation. intros later before _ _. cbn [length]. pose proof (merge_step_length later before) as H. lia. Qed.

Definition merge_uevq (q : list uevent) : list entry := merge_loop (reverse (uevent_prepare q)) [].

(** The order in which [service_uevq] and [uev_trigger] treat the events. *)
Definition serviced (q : list entry) : list uevent := q ≫= fun e => en_merged e ++ [en_event e].
End Queue.

(** ** Lemmas: the queue is refined *)

(** The events of a device that add or remove it. *)
Definition moves (k : cstr) (u : uevent) : bool :=
  streq (ue_kernel u) k && negb (streq (ue_action u) (s "change")).

(** [r] stands for the queue [p]: no event is new or doubled, a missing one was
    made obsolete, the device-mapper events are all there in order, and the
    events that add or remove a device keep their order and the last one. *)
Definition stands_for (r p : list uevent) : Prop :=
  r ⊆+ p /\
  (forall u, u ∈ p -> u ∈ r \/ exists v, v ∈ p /\ uevent_can_filter u v = true) /\
  filter is_dm r = filter is_dm p /\
  (forall k, sublist (filter (moves k) r) (filter (moves k) p)) /\
  (forall k, last (filter (moves k) r) = last (filter (moves k) p)).

(** One device carries one WWID. *)
Definition one_wwid (q : list uevent) : Prop :=
  forall u v, u ∈ q -> v ∈ q -> ue_kernel u = ue_kernel v -> ue_wwid u = ue_wwid v.

Lemma stands_for_refl p : stands_for p p.
Proof. split_and!; try done. auto. Qed.

Lemma stands_for_trans p q r : stands_for r q -> stands_for q p -> stands_for r p.
Proof.
  intros (A1 & A2 & A3 & A4 & A5) (B1 & B2 & B3 & B4 & B5).
  split; [by etrans|]. split.
  { intros u [Hu|Hu]%B2; [|by right]. apply A2 in Hu as [Hu|(v & Hv & Hf)]; [by left|right].
    exists v. split; [exact (elem_of_submseteq _ _ _ Hv B1)|done]. }
  split; [by rewrite A3|]. split; [intros k; etrans; [apply A4|apply B4]|]. intros k. by rewrite A5.
Qed.

Lemma filter_appb {A} (f : A -> bool) l1 l2 : filter f (l1 ++ l2) = filter f l1 ++ filter f l2.
Proof. apply filter_app. Qed.

Lemma filter_reverseb {A} (f : A -> bool) (l : list A) : filter f (reverse l) = reverse (filter f l).
Proof.
  induction l as [|x l IH]; [done|]. rewrite reverse_cons, filter_appb, IH, !filter_consb.
  destruct (f x); cbn [filter list_filter]; [by rewrite reverse_cons|by rewrite app_nil_r].
Qed.

Lemma stands_for_app r p t : stands_for r p -> stands_for (r ++ t) (p ++ t).
Proof.
  intros (A1 & A2 & A3 & A4 & A5). split; [by apply submseteq_app|]. split.
  { intros u [[Hu|(v & Hv & Hf)]%A2|Hu]%elem_of_app; [left; set_solver|right|left; set_solver].
    exists v. set_solver. }
  split; [by rewrite !filter_appb, A3|]. split.
  - intros k. rewrite !filter_appb. by apply sublist_app.
  - intros k. rewrite !filter_appb, !last_app. by rewrite A5.
Qed.

Lemma can_filter_cases e l : uevent_can_filter e l = true ->
  ue_kernel e = ue_kernel l /\ is_dm l = false /\
  (ue_action l = s "remove" \/ ue_action e = s "change").
Proof.
  unfold uevent_can_filter. rewrite orb_true_iff, !andb_true_iff, !negb_true_iff, !streq_eq. naive_solver.
Qed.

Lemma is_dm_kernel u v : ue_kernel u = ue_kernel v -> is_dm u = is_dm v.
Proof. unfold is_dm. by intros ->. Qed.

Lemma filter_filter_neg {A} (f g : A -> bool) (l : list A) :
  (forall x, f x = true -> g x = false) -> filter f (filter (fun x => negb (g x)) l) = filter f l.
Proof.
  intros H. induction l as [|x l IH]; [done|]. rewrite (filter_consb (fun x => negb (g x))).
  destruct (g x) eqn:Hg; cbn [negb].
  - rewrite IH, (filter_consb f). destruct (f x) eqn:Hf; [|done]. by rewrite H in Hg.
  - rewrite !(filter_consb f), IH. done.
Qed.

(** Filtering by one later event. *)
Lemma uevent_filter_stands later before :
  stands_for (reverse (uevent_filter later before) ++ [later]) (reverse before ++ [later]).
Proof.
  pose (ok := fun e => negb (uevent_can_filter e later)).
  assert (reverse (uevent_filter later before) = filter ok (reverse before)) as ->.
  { by rewrite filter_reverseb. }
  set (l := reverse before).
  split; [apply submseteq_app; [apply sublist_submseteq; apply sublist_filter|done]|]. split.
  { intros u [Hu|Hu]%elem_of_app; [|left; set_solver]. destruct (uevent_can_filter u later) eqn:Hf.
    - right. exists later. split; [set_solver|done].
    - left. apply elem_of_app. left. apply list_elem_of_filter. split; [|done]. unfold ok. by rewrite Hf. }
  split.
  { rewrite !filter_appb. f_equal. apply filter_filter_neg. intros e He.
    destruct (uevent_can_filter e later) eqn:Hf; [|done]. apply can_filter_cases in Hf as (Hk & Hd & _).
    by rewrite (is_dm_kernel _ _ Hk), Hd in He. }
  assert (forall k, moves k later = true \/ filter (moves k) (filter ok l) = filter (moves k) l) as Hkey.
  { intros k. destruct (moves k later) eqn:Hm; [by left|right]. apply filter_filter_neg. intros e He.
    destruct (uevent_can_filter e later) eqn:Hf; [|done]. apply can_filter_cases in Hf as (Hk & _ & Ha).
    unfold moves in *. rewrite Hk in He. destruct Ha as [Ha|Ha]; [|by rewrite Ha, andb_false_r in He].
    rewrite Ha in Hm. apply andb_true_iff in He as [He _]. by rewrite He in Hm. }
  split; intros k; rewrite !filter_appb.
  - apply sublist_app; [|done]. destruct (Hkey k) as [_|Heq]; [|by rewrite Heq].
    clear. induction l as [|e l IH]; [done|]. rewrite (filter_consb ok), (filter_consb (moves k) e l).
    destruct (ok e); [rewrite filter_consb|]; destruct (moves k e); by try constructor.
  - rewrite !last_app. destruct (Hkey k) as [Hm|Heq]; [|by rewrite Heq].
    rewrite (filter_consb (moves k) later), Hm. done.
Qed.

(** ** Lemmas: merging keeps the order of each device *)

Lemma uevent_merge_perm later before : forall acc kept acc', uevent_merge later before acc = (kept, acc') ->
  kept ++ acc' ≡ₚ before ++ acc.
Proof.
  induction before as [|e r IH]; intros acc kept acc' H; cbn in H; [by simplify_eq|].
  case_match; [by simplify_eq|]. case_match.
  - apply IH in H. rewrite H. cbn. by rewrite Permutation_middle.
  - destruct (uevent_merge later r acc) as [kept1 acc1] eqn:Hm. simplify_eq. cbn.
    constructor. by apply (IH acc).
Qed.

(** Events that cannot be merged stay in front. *)
Lemma uevent_merge_skip (f : uevent -> bool) later before : forall acc kept acc',
  uevent_merge later before acc = (kept, acc') ->
  (forall x, x ∈ before -> f x = true -> uevent_can_merge x later = false) ->
  filter f kept = filter f before /\ filter f acc' = filter f acc.
Proof.
  induction before as [|e r IH]; intros acc kept acc' H Hf; cbn in H; [by simplify_eq|].
  case_match; [by simplify_eq|]. destruct (uevent_can_merge e later) eqn:Hm.
  - apply IH in H as [H1 H2]; [|intros x Hx; apply Hf; by right].
    rewrite H1, H2, !filter_consb. destruct (f e) eqn:He; [|done].
    rewrite Hf in Hm; [done|by left|done].
  - destruct (uevent_merge later r acc) as [kept1 acc1] eqn:Hr. simplify_eq.
    apply IH in Hr as [H1 H2]; [|intros x Hx; apply Hf; by right].
    by rewrite !filter_consb, H1.
Qed.

Lemma can_merge_inv e l : uevent_can_merge e l = true ->
  is_Some (ue_wwid e) /\ ue_wwid e = ue_wwid l /\ ue_action e = ue_action l /\
  strneq 6 (ue_action e) (s "change") = false /\ is_dm e = false.
Proof.
  unfold uevent_can_merge. destruct (ue_wwid e), (ue_wwid l); try done.
  rewrite !andb_true_iff, !negb_true_iff, !streq_eq. intros [[[-> ->] ?] ?]. by split_and!.
Qed.

(** An event passed over without a stop shares its device with no merged one. *)
Lemma passed_over k e x later : moves k e = true -> moves k x = true ->
  ue_wwid e = ue_wwid x -> merge_need_stop e later = false -> uevent_can_merge e later = false ->
  uevent_can_merge x later = false.
Proof.
  intros He Hx Hw Hs Hm. destruct (uevent_can_merge x later) eqn:Hmx; [|done].
  apply can_merge_inv in Hmx as (Hsome & Hwx & Ha & Hc & Hd).
  unfold moves in He, Hx. apply andb_true_iff in He as [Hk He], Hx as [Hk' Hx].
  apply streq_eq in Hk, Hk'. rewrite negb_true_iff in He, Hx.
  unfold merge_need_stop in Hs. destruct (is_dm later); [done|].
  unfold uevent_can_merge in Hm. rewrite Hw, Hwx in *. destruct Hsome as [id Hid]. rewrite Hid in *.
  rewrite <-Hwx, streq_refl in *. cbn [andb] in *.
  rewrite (is_dm_kernel e x), Hd in Hm by congruence.
  rewrite <-Ha in *. rewrite Hx, He in Hs. cbn [negb andb] in Hs. rewrite !andb_true_r in Hs.
  apply negb_false_iff, streq_eq in Hs. rewrite Hs, streq_refl, Hc in Hm. done.
Qed.

Lemma uevent_merge_key k later before : forall acc kept acc',
  uevent_merge later before acc = (kept, acc') -> one_wwid before ->
  filter (moves k) (reverse kept ++ acc') = filter (moves k) (reverse before ++ acc).
Proof.
  induction before as [|e r IH]; intros acc kept acc' H Hw; cbn in H; [by simplify_eq|].
  assert (one_wwid r) as Hwr by (intros u v Hu Hv; apply Hw; by right).
  destruct (merge_need_stop e later) eqn:Hs; [by simplify_eq|].
  destruct (uevent_can_merge e later) eqn:Hm.
  - apply IH in H; [|done]. rewrite H, reverse_cons. by rewrite <-(assoc_L (++)).
  - destruct (uevent_merge later r acc) as [kept1 acc1] eqn:Hr. simplify_eq.
    rewrite !reverse_cons, <-!(assoc_L (++)), !filter_appb.
    destruct (moves k e) eqn:He.
    + apply (uevent_merge_skip (moves k)) in Hr as [H1 H2].
      * rewrite H2, !filter_reverseb, H1. done.
      * intros x Hx Hk. eapply passed_over; [exact He|exact Hk| |done|done].
        apply Hw; [by left|by right|]. unfold moves in *. 
        apply andb_true_iff in He as [He%streq_eq _], Hk as [Hk%streq_eq _]. congruence.
    + apply IH in Hr; [|done]. rewrite !filter_appb in Hr. rewrite (filter_consb (moves k) e), He. exact Hr.
Qed.

Lemma uevent_merge_stands later before kept merged : uevent_merge later before [] = (kept, merged) ->
  one_wwid before -> stands_for (reverse kept ++ merged) (reverse before).
Proof.
  intros H Hw. pose proof (uevent_merge_perm _ _ _ _ _ H) as HP. rewrite app_nil_r in HP.
  assert (reverse kept ++ merged ≡ₚ reverse before) as HP' by by rewrite !reverse_Permutation.
  assert (forall k, filter (moves k) (reverse kept ++ merged) = filter (moves k) (reverse before)) as Hk.
  { intros k. rewrite (uevent_merge_key k _ _ _ _ _ H Hw). by rewrite app_nil_r. }
  split_and!.
  - by rewrite HP'.
  - intros u Hu. left. by rewrite HP'.
  - apply (uevent_merge_skip is_dm) in H as [H1 H2].
    + by rewrite filter_appb, !filter_reverseb, H1, H2, app_nil_r.
    + intros x _ Hx. destruct (uevent_can_merge x later) eqn:Hm; [|done].
      apply can_merge_inv in Hm as (_ & _ & _ & _ & Hd). by rewrite Hx in Hd.
  - intros k. by rewrite Hk.
  - intros k. by rewrite Hk.
Qed.

Lemma one_wwid_submseteq p q : one_wwid p -> q ⊆+ p -> one_wwid q.
Proof. intros H Hs u v Hu Hv. apply H; by eapply elem_of_submseteq. Qed.

Lemma serviced_app a b : serviced (a ++ b) = serviced a ++ serviced b.
Proof. unfold serviced. by rewrite bind_app. Qed.

(** One step of the loop. *)
Lemma merge_step_stands uid_attrs later before : one_wwid (later :: before) ->
  stands_for (reverse (fst (merge_step uid_attrs later before)) ++
              snd (merge_step uid_attrs later before) ++ [later]) (reverse (later :: before)).
Proof.
  intros Hw. rewrite reverse_cons. unfold merge_step.
  pose proof (uevent_filter_stands later before) as Hf.
  destruct (uevent_need_merge uid_attrs); cbn [fst snd]; [|done].
  destruct (uevent_merge later (uevent_filter later before) []) as [kept merged] eqn:Hm. cbn [fst snd].
  eapply stands_for_trans; [|exact Hf]. rewrite (assoc_L (++)). apply stands_for_app.
  eapply uevent_merge_stands; [exact Hm|]. eapply one_wwid_submseteq; [exact Hw|].
  apply submseteq_cons, sublist_submseteq, sublist_filter.
Qed.

Lemma merge_loop_stands uid_attrs before done_ : one_wwid before ->
  stands_for (serviced (merge_loop uid_attrs before done_)) (reverse before ++ serviced done_).
Proof.
  apply (merge_loop_elim uid_attrs (fun before done_ r =>
    one_wwid before -> stands_for (serviced r) (reverse before ++ serviced done_))); clear.
  { intros done_ _. apply stands_for_refl. }
  intros later before done_ IH Hw. pose proof (merge_step_stands uid_attrs later before Hw) as Hstep.
  eapply stands_for_trans; [apply IH|].
  - eapply one_wwid_submseteq; [exact Hw|]. destruct Hstep as (Hs & _).
    rewrite <-(reverse_Permutation (later :: before)), <-Hs.
    rewrite reverse_Permutation. by apply submseteq_inserts_r.
  - apply (stands_for_app _ _ (serviced done_)) in Hstep. rewrite <-!(assoc_L (++)) in Hstep.
    unfold serviced at 1. rewrite bind_cons. cbn [en_merged en_event].
    rewrite <-!(assoc_L (++)). exact Hstep.
Qed.

(** ** Correctness of the queue *)

(** C12: merging and filtering a queue of uevents changes nothing that matters: no
    event is invented or handled twice, an event is dropped only when a later one
    of its device makes it obsolete, all device-mapper events are handled in
    their order, and the additions and removals of every device that stay are in
    their order with the last one among them, so that each device ends up in the
    state its last event asked for.  Devices are taken to report one WWID. *)
Theorem merge_uevq_faithful blacklisted uid_attrs q :
  one_wwid (uevent_prepare blacklisted uid_attrs q) ->
  stands_for (serviced (merge_uevq blacklisted uid_attrs q)) (uevent_prepare blacklisted uid_attrs q).
Proof.
  intros Hw. unfold merge_uevq.
  pose proof (merge_loop_stands uid_attrs (reverse (uevent_prepare blacklisted uid_attrs q)) []) as H.
  rewrite reverse_involutive, app_nil_r in H. apply H.
  eapply one_wwid_submseteq; [exact Hw|]. by rewrite reverse_Permutation.
Qed.

Definition env_text (x : option cstr * option cstr) : cstr :=
  default (s "(null)") (fst x) ++ [61] ++ default (s "(null)") (snd x).

Lemma fill_env_spec props : forall envp0 pos0 envp pos, fill_env props envp0 pos0 = (envp, pos) ->
  (length envp0 < HOTPLUG_NUM_ENVP - 1)%nat -> (pos0 <= S BUFFER_END)%nat ->
  (length envp <= HOTPLUG_NUM_ENVP - 1)%nat /\ (pos <= S BUFFER_END)%nat /\
  (pos + sum_list ((fun v => length v + 1)%nat <$> envp0) =
   pos0 + sum_list ((fun v => length v + 1)%nat <$> envp))%nat /\
  exists k, envp = envp0 ++ (env_text <$> take k props).
Proof.
  induction props as [|[name value] r IH]; intros envp0 pos0 envp pos H Hn Hp; cbn [fill_env] in H.
  { simplify_eq. split_and!; [lia|lia|lia|]. exists 0%nat. by rewrite app_nil_r. }
  change (default _ name ++ _) with (env_text (name, value)) in H.
  destruct (Nat.leb_spec BUFFER_END (pos0 + length (env_text (name, value)))) as [Hb|Hb].
  { simplify_eq. split_and!; [lia|lia|lia|]. exists 0%nat. by rewrite app_nil_r. }
  assert (sum_list ((fun v => length v + 1)%nat <$> envp0 ++ [env_text (name, value)]) =
    sum_list ((fun v => length v + 1)%nat <$> envp0) + length (env_text (name, value)) + 1)%nat as Hsum.
  { rewrite fmap_app. induction ((fun v => length v + 1)%nat <$> envp0); cbn in *; lia. }
  assert (length (envp0 ++ [env_text (name, value)]) = S (length envp0)) as Hlen by (len; lia).
  destruct (Nat.eqb_spec (length (envp0 ++ [env_text (name, value)])) (HOTPLUG_NUM_ENVP - 1)) as [He|He].
  - simplify_eq. split_and!; [lia|lia|lia|]. by exists 1%nat.
  - apply IH in H as (H1 & H2 & H3 & k & ->); [|lia|lia].
    split_and!; [done|done|lia|]. exists (S k). by rewrite <-(assoc_L (++)).
Qed.

(** C26: reading a uevent stays inside its buffers: at most 31 environment strings,
    each the text of a property in the order of the properties, and together with
    their terminators no longer than the buffer. *)
Theorem fill_env_bounded props envp pos :
  fill_env props [] 0 = (envp, pos) ->
  (length envp <= HOTPLUG_NUM_ENVP - 1)%nat /\ (pos <= HOTPLUG_BUFFER_SIZE + OBJECT_SIZE)%nat /\
  pos = sum_list ((fun v => length v + 1)%nat <$> envp) /\
  exists k, envp = env_text <$> take k props.
Proof.
  intros H. destruct (fill_env_spec props [] 0 envp pos H) as (H1 & H2 & H3 & k & Hk); [cbn; lia|cbn; lia|].
  split_and!; [done|done| |by exists k]. cbn in H3. lia.
Qed.

(** ** Witnesses *)

(** sda is added, changed and removed while sdb and sdc of one map are added. *)
Definition sample_queue : list uevent :=
  let ev k a id := {| ue_devpath := []; ue_action := s a; ue_kernel := s k; ue_wwid := None;
                      ue_envp := [s "ID=" ++ s id] |} in
  [ev "sda" "add" "a"; ev "sdb" "add" "b"; ev "sda" "change" "a"; ev "sdc" "add" "b"; ev "sda" "remove" "a"]%string.

Lemma merge_uevq_faithful_witness :
  let r := merge_uevq (fun _ => false) [s "sd:ID"] sample_queue in
  (fun e => (ue_kernel (en_event e), ue_kernel <$> en_merged e)) <$> r =
    [(s "sdc", [s "sdb"]); (s "sda", [])] /\
  stands_for (serviced r) (uevent_prepare (fun _ => false) [s "sd:ID"] sample_queue).
Proof.
  intros r. split; [vm_compute; reflexivity|]. apply merge_uevq_faithful.
  set (q := uevent_prepare _ _ _). vm_compute in q.
  assert (Forall (fun u => Forall (fun v => ue_kernel u = ue_kernel v -> ue_wwid u = ue_wwid v) q) q) as H
    by decide_closed.
  rewrite Forall_forall in H. intros u v Hu Hv. specialize (H u Hu). rewrite Forall_forall in H. by apply H.
Defined.

Lemma fill_env_bounded_witness :
  let props := [(Some (s "ACTION"), Some (s "add")); (Some (s "X"), Some (replicate 2600 97))] in
  fill_env props [] 0 = ([s "ACTION=add"], 11%nat) /\ (length [s "ACTION=add"] <= HOTPLUG_NUM_ENVP - 1)%nat.
Proof.
  intros props. assert (fill_env props [] 0 = ([s "ACTION=add"], 11%nat)) as H by (vm_compute; reflexivity).
  split; [exact H|]. apply (fill_env_bounded props [s "ACTION=add"] 11 H).
Defined.
