(* ===== verification/Vector.v ===== *)
(** * libmultipath/vector.c and vector.h: growable arrays of pointers

    A vector is its [allocated] count and the array behind [slot]; a slot holds
    a pointer or NULL ([None]).  Every call of [REALLOC] is decided by an
    argument [ok], so that the theorems cover memory exhaustion.  Reading or
    writing outside the array is [None].  The other components use plain lists
    for vectors; the refinement theorem below is what justifies it. *)

From S2P Require Import Prelude.

Record vector (A : Type) := mk_vector { allocated : Z; slot : list (option A) }.
Arguments mk_vector {A} _ _.
Arguments allocated {A} _.
Arguments slot {A} _.

Definition VECTOR_DEFAULT_SIZE : Z := 1.
Definition VECTOR_SIZE {A} (v : vector A) : Z := Z.quot (allocated v) VECTOR_DEFAULT_SIZE.

Definition vector_alloc {A} : vector A := mk_vector 0 [].

(** Array accesses as the C code performs them. *)
Definition aget {A} (l : list (option A)) (i : Z) : option (option A) :=
  if i <? 0 then None else l !! Z.to_nat i.

Definition aset {A} (l : list (option A)) (i : Z) (x : option A) : option (list (option A)) :=
  if (0 <=? i) && (i <? Z.of_nat (length l)) then Some (<[Z.to_nat i := x]> l) else None.

Definition VECTOR_SLOT {A} (v : vector A) (e : Z) : option A :=
  if (e <? VECTOR_SIZE v) && (0 <=? e) then default None (aget (slot v) e) else None.

Definition VECTOR_LAST_SLOT {A} (v : vector A) : option A :=
  if 0 <? VECTOR_SIZE v then default None (aget (slot v) (VECTOR_SIZE v - 1)) else None.

(** [realloc] to [n] slots: a shorter array loses its tail, a longer one is
    filled by the caller; here the new slots are NULL as the caller leaves them. *)
Definition resize_slots {A} (n : Z) (l : list (option A)) : list (option A) :=
  take (Z.to_nat n) l ++ replicate (Z.to_nat n - length l) None.

Definition vector_alloc_slot {A} (ok : bool) (v : vector A) : bool * vector A :=
  let new_allocated := allocated v + VECTOR_DEFAULT_SIZE in
  if ok then (true, mk_vector new_allocated (resize_slots new_allocated (slot v)))
  else (false, v).

(** [for (i = hi; i >= lo; i--) slot[i + 1] = slot[i]], [n] iterations down from
    [hi = lo + n - 1]. *)
Fixpoint shift_up {A} (l : list (option A)) (lo : Z) (n : nat) : option (list (option A)) :=
  match n with
  | O => Some l
  | S m => let i := lo + Z.of_nat m in
           x ← aget l i; l' ← aset l (i + 1) x; shift_up l' lo m
  end.

Definition vector_move_up {A} (v : vector A) (src dest : Z) : option (Z * vector A) :=
  if dest =? src then Some (0, v)
  else if (src <? dest) || (allocated v <=? src) then Some (-1, v)
  else
    value ← aget (slot v) src;
    l ← shift_up (slot v) dest (Z.to_nat (src - dest));
    l' ← aset l dest value;
    Some (0, mk_vector (allocated v) l').

Definition vector_insert_slot {A} (ok : bool) (v : vector A) (sl : Z) (value : A)
  : option (option A * vector A) :=
  let '(done, v') := vector_alloc_slot ok v in
  if negb done then Some (None, v')
  else
    l ← shift_up (slot v') sl (Z.to_nat (VECTOR_SIZE v' - 2 - sl + 1));
    l' ← aset l sl (Some value);
    Some (Some value, mk_vector (allocated v') l').

(** [for (i = sl + 1; i < size; i++) slot[i - 1] = slot[i]]. *)
Fixpoint shift_down {A} (l : list (option A)) (i : Z) (n : nat) : option (list (option A)) :=
  match n with
  | O => Some l
  | S m => x ← aget l i; l' ← aset l (i - 1) x; shift_down l' (i + 1) m
  end.

Definition vector_del_slot {A} (ok : bool) (v : vector A) (sl : Z) : option (vector A) :=
  if (allocated v =? 0) || (sl <? 0) || (VECTOR_SIZE v <=? sl) then Some v
  else
    l ← shift_down (slot v) (sl + 1) (Z.to_nat (VECTOR_SIZE v - sl - 1));
    let n := allocated v - VECTOR_DEFAULT_SIZE in
    Some (if n <=? 0 then mk_vector 0 []
          else if ok then mk_vector n (resize_slots n l)
          else mk_vector (n + VECTOR_DEFAULT_SIZE) l).

Section Search.
Context {A : Type} `{EqDecision A}.

Fixpoint find_index (i : Z) (addr : option A) (l : list (option A)) : Z :=
  match l with
  | [] => -1
  | x :: r => if decide (x = addr) then i else find_index (i + 1) addr r
  end.

Definition find_slot (v : vector A) (addr : option A) : Z :=
  find_index 0 addr (take (Z.to_nat (VECTOR_SIZE v)) (slot v)).

(** [slot[size - 1] = value]; [i] is unsigned, so that an empty vector is
    accessed far out of range. *)
Definition vector_set_slot (v : vector A) (value : option A) : option (vector A) :=
  l ← aset (slot v) (u32 (VECTOR_SIZE v - 1)) value;
  Some (mk_vector (allocated v) l).

Definition vector_find_or_add_slot (ok : bool) (v : vector A) (value : A)
  : option (Z * vector A) :=
  let n := find_slot v (Some value) in
  if 0 <=? n then Some (n, v)
  else
    let '(done, v') := vector_alloc_slot ok v in
    if negb done then Some (-1, v')
    else v'' ← vector_set_slot v' (Some value); Some (VECTOR_SIZE v'' - 1, v'').

(** The loop of [vector_repack] from index [i]; each deletion consumes one
    answer of the allocator, and [None] means the answers (or [fuel]) ran out. *)
Fixpoint repack_loop (fuel : nat) (oks : list bool) (v : vector A) (i : Z)
  : option (vector A) :=
  match fuel with
  | O => None
  | S f =>
      if i <? VECTOR_SIZE v then
        x ← aget (slot v) i;
        if (0 <? i) && bool_decide (x = None) then
          match oks with
          | [] => None
          | ok :: oks' => v' ← vector_del_slot ok v i; repack_loop f oks' v' i
          end
        else repack_loop f oks v (i + 1)
      else Some v
  end.

Definition vector_repack (fuel : nat) (oks : list bool) (v : vector A) : option (vector A) :=
  if allocated v =? 0 then Some v else repack_loop fuel oks v 0.

Definition vector_reset (v : vector A) : vector A := mk_vector 0 [].

(** What [vector_foreach_slot] visits: the slots before the first NULL one. *)
Definition vector_foreach_slot (v : vector A) : list A :=
  omap id (fst (span (fun x => bool_decide (is_Some x)) (take (Z.to_nat (VECTOR_SIZE v)) (slot v)))).

(** [vector_foreach_slot_backwards]: from the end down to the first NULL slot. *)
Definition vector_foreach_slot_backwards (v : vector A) : list A :=
  omap id (fst (span (fun x => bool_decide (is_Some x))
                     (reverse (take (Z.to_nat (VECTOR_SIZE v)) (slot v))))).

(** [vector_convert] into a new vector with the conversion [conv]. *)
Fixpoint convert_loop {B} (conv : A -> B) (oks : list bool) (t : vector B) (l : list A)
  : option (vector B) :=
  match l, oks with
  | [], _ => Some t
  | x :: l', ok :: oks' =>
      let '(done, t') := vector_alloc_slot ok t in
      if negb done then None
      else l'' ← aset (slot t') (u32 (VECTOR_SIZE t' - 1)) (Some (conv x));
           convert_loop conv oks' (mk_vector (allocated t') l'') l'
  | _ :: _, [] => None
  end.

Definition vector_convert {B} (conv : A -> B) (oks : list bool) (v : vector A)
  : option (vector B) :=
  convert_loop conv oks vector_alloc (vector_foreach_slot v).
End Search.

(** ** Representation: a vector that holds the list [l], no slot NULL *)

Definition holds {A} (v : vector A) (l : list A) : Prop :=
  allocated v = Z.of_nat (length l) /\ slot v = Some <$> l /\ Z.of_nat (length l) < INT_MAX.

Lemma VECTOR_SIZE_allocated {A} (v : vector A) : VECTOR_SIZE v = allocated v.
Proof. unfold VECTOR_SIZE, VECTOR_DEFAULT_SIZE. apply Z.quot_1_r. Qed.

Lemma aget_nat {A} (l : list (option A)) (i : nat) : aget l (Z.of_nat i) = l !! i.
Proof. unfold aget. if_false. by rewrite Nat2Z.id. Qed.

Lemma aset_nat {A} (l : list (option A)) (i : nat) x :
  (i < length l)%nat -> aset l (Z.of_nat i) x = Some (<[i := x]> l).
Proof. intros H. unfold aset. if_true. by rewrite Nat2Z.id. Qed.

Lemma resize_all {A} (l : list (option A)) :
  resize_slots (Z.of_nat (length l) + 1) l = l ++ [None].
Proof.
  unfold resize_slots. rewrite take_ge by lia.
  by replace (Z.to_nat _ - length l)%nat with 1%nat by lia.
Qed.

(** Shifting up the [length b] slots after [a] overwrites the one after them. *)
Lemma shift_up_app {A} (a b c : list (option A)) x :
  exists y, shift_up (a ++ b ++ x :: c) (Z.of_nat (length a)) (length b) = Some (a ++ y :: b ++ c).
Proof.
  revert x c. induction b as [|z b IH] using rev_ind; intros x c; simpl; [by eexists|].
  rewrite length_app, Nat.add_comm. cbn [length shift_up Nat.add].
  replace (Z.of_nat (length a) + Z.of_nat (length b)) with
    (Z.of_nat (length a + length b)) by lia.
  rewrite aget_nat, <-app_assoc.
  rewrite lookup_app_r, lookup_app_r by lia.
  replace (_ - _ - _)%nat with 0%nat by lia. simpl.
  replace (Z.of_nat (length a + length b) + 1) with
    (Z.of_nat (length (a ++ b ++ [z]) + 0)) by len.
  rewrite aset_nat by len.
  simpl. replace (a ++ b ++ z :: x :: c) with ((a ++ b ++ [z]) ++ x :: c)
    by (by rewrite <-!app_assoc).
  rewrite insert_app_r. simpl.
  replace ((a ++ b ++ [z]) ++ z :: c) with (a ++ b ++ z :: z :: c) by (by rewrite <-!app_assoc).
  destruct (IH z (z :: c)) as [y ->]. exists y. by rewrite <-app_assoc.
Qed.

Lemma shift_down_app {A} (a b : list (option A)) x :
  shift_down (a ++ x :: b) (Z.of_nat (length a) + 1) (length b) =
  Some (a ++ b ++ [default x (last b)]).
Proof.
  revert a x. induction b as [|z b IH]; intros a x; [done|].
  rewrite last_cons. simpl.
  replace (Z.of_nat (length a) + 1) with (Z.of_nat (length a + 1)) by lia.
  rewrite aget_nat, lookup_app_r by lia.
  replace (_ - _)%nat with 1%nat by lia. simpl.
  replace (Z.of_nat (length a + 1) - 1) with (Z.of_nat (length a + 0)) by lia.
  rewrite aset_nat by len. simpl.
  rewrite insert_app_r. simpl.
  specialize (IH (a ++ [z]) z). rewrite <-!app_assoc in IH. simpl in IH.
  replace (Z.of_nat (length a + 1) + 1) with (Z.of_nat (length (a ++ [z])) + 1) by len.
  rewrite IH. by destruct (last b).
Qed.

Lemma holds_size {A} (v : vector A) l : holds v l -> VECTOR_SIZE v = Z.of_nat (length l).
Proof. intros (H & _). by rewrite VECTOR_SIZE_allocated. Qed.

Lemma alloc_holds {A} : holds (@vector_alloc A) [].
Proof. by repeat split. Qed.

(** The result of [vector_alloc_slot] followed by [vector_set_slot]. *)
Lemma push_holds {A} `{EqDecision A} (v : vector A) l x :
  holds v l -> Z.of_nat (length l) + 1 < INT_MAX ->
  exists v', vector_alloc_slot true v = (true, v') /\
    exists v'', vector_set_slot v' (Some x) = Some v'' /\ holds v'' (l ++ [x]).
Proof.
  intros (Ha & Hs & Hm) Hl. eexists. split; [reflexivity|].
  unfold vector_set_slot. rewrite VECTOR_SIZE_allocated. cbn [allocated slot].
  unfold VECTOR_DEFAULT_SIZE. rewrite Ha, Hs.
  replace (Z.of_nat (length l) + 1) with (Z.of_nat (length (Some <$> l)) + 1)
    by len.
  rewrite resize_all, length_fmap.
  rewrite u32_id by (unfold INT_MAX in *; lia).
  replace (Z.of_nat (length l) + 1 - 1) with (Z.of_nat (length (Some <$> l) + 0))
    by len.
  rewrite aset_nat by len.
  cbn [mbind option_bind]. rewrite insert_app_r. eexists. split; [reflexivity|].
  repeat split; simpl; rewrite ?length_app, ?fmap_app; simpl; (done || lia).
Qed.

Lemma del_holds {A} (v : vector A) l1 x l2 ok :
  holds v (l1 ++ x :: l2) ->
  exists v', vector_del_slot ok v (Z.of_nat (length l1)) = Some v' /\
    if ok || (length (l1 ++ l2) =? 0)%nat then holds v' (l1 ++ l2)
    else holds v' (l1 ++ l2 ++ [default x (last l2)]).
Proof.
  intros (Ha & Hs & Hm). unfold vector_del_slot.
  rewrite VECTOR_SIZE_allocated, Ha, Hs, length_app. cbn [length].
  if_false. rewrite fmap_app. cbn [fmap list_fmap].
  pose proof (shift_down_app (Some <$> l1) (Some <$> l2) (Some x)) as Hy.
  rewrite !length_fmap in Hy. unfold VECTOR_DEFAULT_SIZE.
  replace (Z.to_nat _) with (length l2) by lia. rewrite Hy. cbn [mbind option_bind].
  eexists. split; [reflexivity|].
  rewrite length_app in *. simpl in Hm.
  destruct (Z.leb_spec (Z.of_nat (length l1 + S (length l2)) - 1) 0).
  { destruct l1, l2; simpl in *; try lia. rewrite orb_true_r. by repeat split. }
  replace (length l1 + length l2 =? 0)%nat with false by blia. rewrite orb_false_r.
  destruct ok; repeat split; cbn [allocated slot]; try len.
  - unfold resize_slots. rewrite !length_app, !length_fmap. cbn [length].
    replace (Z.to_nat _) with (length l1 + length l2)%nat by lia.
    replace (_ - _)%nat with 0%nat by lia. simpl.
    rewrite app_nil_r, app_assoc, take_app_le, fmap_app by len.
    by rewrite take_ge by len.
  - rewrite !fmap_app. do 2 f_equal. simpl. rewrite fmap_last. by destruct (last l2).
Qed.

Lemma shift_up_holds {A} (a b : list A) (c : list (option A)) x :
  exists y, shift_up ((Some <$> a) ++ (Some <$> b) ++ x :: c) (Z.of_nat (length a)) (length b)
  = Some ((Some <$> a) ++ y :: (Some <$> b) ++ c).
Proof.
  destruct (shift_up_app (Some <$> a) (Some <$> b) c x) as [y Hy].
  rewrite !length_fmap in Hy. eauto.
Qed.

Lemma insert_holds {A} (v : vector A) l1 l2 x :
  holds v (l1 ++ l2) -> Z.of_nat (length (l1 ++ l2)) + 1 < INT_MAX ->
  exists v', vector_insert_slot true v (Z.of_nat (length l1)) x = Some (Some x, v') /\
    holds v' (l1 ++ x :: l2).
Proof.
  intros (Ha & Hs & Hm) Hl. unfold vector_insert_slot, vector_alloc_slot. cbn [negb].
  rewrite VECTOR_SIZE_allocated. cbn [allocated slot]. unfold VECTOR_DEFAULT_SIZE.
  rewrite Ha, Hs. replace (Z.of_nat (length (l1 ++ l2)) + 1) with
    (Z.of_nat (length (Some <$> l1 ++ l2)) + 1) by len.
  rewrite resize_all, fmap_app, <-app_assoc.
  replace (Z.to_nat _) with (length l2) by len.
  destruct (shift_up_holds l1 l2 [] None) as [y ->]. cbn [mbind option_bind].
  replace (Z.of_nat (length l1)) with (Z.of_nat (length (Some <$> l1) + 0)) by len.
  rewrite aset_nat by len. cbn [mbind option_bind]. rewrite insert_app_r. simpl.
  eexists. split; [reflexivity|]. rewrite length_app in Hl.
  repeat split; cbn [allocated slot].
  - len.
  - by rewrite fmap_app, app_nil_r.
  - len.
Qed.

Lemma move_up_holds {A} (v : vector A) a b x c :
  holds v (a ++ b ++ x :: c) ->
  exists v', vector_move_up v (Z.of_nat (length (a ++ b))) (Z.of_nat (length a)) = Some (0, v') /\
    holds v' (a ++ x :: b ++ c).
Proof.
  intros (Ha & Hs & Hm). unfold vector_move_up.
  destruct (Z.eqb_spec (Z.of_nat (length a)) (Z.of_nat (length (a ++ b)))) as [He|He].
  { rewrite length_app in He. destruct b; [|simpl in *; lia].
    exists v. by repeat split. }
  rewrite Ha. rewrite !length_app in *. cbn [length] in *. if_false.
  rewrite aget_nat, Hs, !fmap_app, lookup_app_r, lookup_app_r by len.
  rewrite !length_fmap, fmap_cons. replace (_ - _ - _)%nat with 0%nat by lia.
  cbn [lookup list_lookup mbind option_bind].
  replace (Z.to_nat _) with (length b) by lia.
  destruct (shift_up_holds a b (Some <$> c) (Some x)) as [y ->]. cbn [mbind option_bind].
  replace (Z.of_nat (length a)) with (Z.of_nat (length (Some <$> a) + 0)) by len.
  rewrite aset_nat by len. cbn [mbind option_bind]. rewrite insert_app_r. simpl.
  eexists. split; [reflexivity|]. repeat split; cbn [allocated slot].
  - len.
  - by rewrite !fmap_app, fmap_cons, fmap_app.
  - len.
Qed.

(** Deleting a slot of an array that may hold NULL slots. *)
Lemma del_raw {A} (v : vector A) a x b :
  a <> [] -> slot v = a ++ x :: b -> allocated v = Z.of_nat (length (slot v)) ->
  vector_del_slot true v (Z.of_nat (length a)) =
  Some (mk_vector (Z.of_nat (length (a ++ b))) (a ++ b)).
Proof.
  intros Hne Hs Ha. unfold vector_del_slot. rewrite VECTOR_SIZE_allocated, Ha, Hs.
  assert (0 < length a)%nat by (destruct a; simpl; (done || lia)).
  rewrite !length_app. cbn [length]. if_false.
  replace (Z.to_nat _) with (length b) by lia. rewrite shift_down_app.
  cbn [mbind option_bind]. unfold VECTOR_DEFAULT_SIZE. if_false.
  do 2 f_equal; [lia|]. unfold resize_slots.
  replace (Z.to_nat _) with (length (a ++ b)) by len.
  rewrite app_assoc, take_app_length, (length_app (a ++ b)).
  replace (_ - _)%nat with 0%nat by (simpl; lia). apply app_nil_r.
Qed.

Lemma repack_first {A} `{EqDecision A} f oks (v : vector A) x l :
  slot v = x :: l -> 0 < VECTOR_SIZE v ->
  repack_loop (S f) oks v 0 = repack_loop f oks v 1.
Proof. intros Hs Hv. cbn [repack_loop]. if_true. by rewrite Hs. Qed.

Lemma repack_loop_spec {A} `{EqDecision A} fuel n (v : vector A) a b :
  a <> [] -> slot v = a ++ b -> allocated v = Z.of_nat (length (slot v)) ->
  (length b < fuel)%nat -> (length b <= n)%nat ->
  repack_loop fuel (replicate n true) v (Z.of_nat (length a)) =
  Some (mk_vector (Z.of_nat (length (a ++ filter is_Some b))) (a ++ filter is_Some b)).
Proof.
  revert n v a b. induction fuel as [|f IH]; intros n v a b Hne Hs Ha Hf Hn; [lia|].
  assert (0 < length a)%nat by (destruct a; simpl; (done || lia)).
  cbn [repack_loop]. rewrite VECTOR_SIZE_allocated, Ha, Hs, length_app.
  destruct b as [|x b].
  - if_false. rewrite filter_nil, app_nil_r in *. destruct v. simpl in *. by subst.
  - cbn [length] in *. if_true. rewrite aget_nat, lookup_app_r, Nat.sub_diag by lia.
    change ((x :: b) !! 0%nat) with (Some x). cbn [mbind option_bind].
    replace (0 <? _) with true by blia.
    destruct x as [x|].
    + rewrite bool_decide_false by done. cbn [andb].
      rewrite filter_cons_True by eauto.
      replace (Z.of_nat (length a) + 1) with (Z.of_nat (length (a ++ [Some x]))) by len.
      rewrite (IH n v (a ++ [Some x]) b); rewrite <-?app_assoc; (done || lia || by destruct a).
    + rewrite bool_decide_true by done. cbn [andb].
      destruct n as [|n]; [lia|]. cbn [replicate].
      rewrite (del_raw v a None b) by (done || rewrite Ha, Hs; done).
      cbn [mbind option_bind]. rewrite filter_cons_False by (by intros [? [=]]).
      rewrite (IH n _ a b); (done || lia).
Qed.

Lemma find_index_spec {A} `{EqDecision A} i x (l : list (option A)) :
  0 <= i ->
  match find_index i x l with
  | Z0 | Zpos _ => exists k : nat, find_index i x l = i + Z.of_nat k /\ l !! k = Some x /\
                     forall j, (j < k)%nat -> l !! j <> Some x
  | Zneg _ => find_index i x l = -1 /\ x ∉ l
  end.
Proof.
  revert i. induction l as [|y l IH]; intros i Hi; cbn [find_index].
  { split; [done|set_solver]. }
  destruct (decide (y = x)) as [->|Hne].
  - assert (exists k : nat, i = i + Z.of_nat k /\ (x :: l) !! k = Some x /\
      forall j, (j < k)%nat -> (x :: l) !! j <> Some x) by (exists 0%nat; repeat split; lia).
    destruct i; (done || lia).
  - specialize (IH (i + 1) ltac:(lia)).
    assert ((exists k : nat, find_index (i + 1) x l = i + 1 + Z.of_nat k /\ l !! k = Some x /\
      forall j, (j < k)%nat -> l !! j <> Some x) ->
      exists k : nat, find_index (i + 1) x l = i + Z.of_nat k /\ (y :: l) !! k = Some x /\
      forall j, (j < k)%nat -> (y :: l) !! j <> Some x) as Hlift.
    { intros (k & H1 & H2 & H3). exists (S k). split; [lia|]. split; [done|].
      intros [|j] Hj; simpl; [congruence|]. apply H3. lia. }
    destruct (find_index (i + 1) x l) eqn:E; try by apply Hlift.
    destruct IH as [? Hnot]. split; [done|]. intros [?|?]%elem_of_cons; congruence.
Qed.

Lemma foreach_holds {A} (v : vector A) l : holds v l -> vector_foreach_slot v = l.
Proof.
  intros Hh. unfold vector_foreach_slot. rewrite (holds_size v l Hh).
  destruct Hh as (_ & -> & _). rewrite take_ge by len.
  rewrite span_whole.
  - simpl. induction l as [|x l IH]; simpl; [done|by f_equal].
  - apply Forall_fmap, Forall_true. intros x. by apply bool_decide_eq_true.
Qed.

(** * Properties *)

(** C40: Vectors implement lists: on a vector that holds a list and while memory
    lasts, iteration visits the list, appending, inserting, deleting and moving
    a slot up give the vector of the list so changed, and searching finds the
    first position of an element. *)
Theorem vector_refines_list {A} `{EqDecision A} (v : vector A) l1 x l2 y :
  holds v (l1 ++ x :: l2) -> Z.of_nat (length (l1 ++ x :: l2)) + 1 < INT_MAX ->
  vector_foreach_slot v = l1 ++ x :: l2 /\
  (exists v' v'', vector_alloc_slot true v = (true, v') /\
     vector_set_slot v' (Some y) = Some v'' /\ holds v'' ((l1 ++ x :: l2) ++ [y])) /\
  (exists v', vector_insert_slot true v (Z.of_nat (length l1)) y = Some (Some y, v') /\
     holds v' (l1 ++ y :: x :: l2)) /\
  (exists v', vector_del_slot true v (Z.of_nat (length l1)) = Some v' /\ holds v' (l1 ++ l2)) /\
  (forall a b, l1 = a ++ b -> exists v',
     vector_move_up v (Z.of_nat (length l1)) (Z.of_nat (length a)) = Some (0, v') /\
     holds v' (a ++ x :: b ++ l2)) /\
  (x ∉ l1 -> find_slot v (Some x) = Z.of_nat (length l1)).
Proof.
  intros Hh Hl. split; [by apply foreach_holds|]. split.
  { destruct (push_holds v _ y Hh Hl) as (v' & H1 & v'' & H2 & H3). eauto. }
  split; [by apply (insert_holds v l1 (x :: l2))|]. split.
  { destruct (del_holds v l1 x l2 true Hh) as (v' & H1 & H2). eauto. }
  split.
  { intros a b ->. apply move_up_holds. by rewrite <-app_assoc in Hh. }
  intros Hnot. unfold find_slot. rewrite (holds_size _ _ Hh).
  destruct Hh as (_ & -> & _). rewrite take_ge by len.
  pose proof (find_index_spec 0 (Some x) (Some <$> l1 ++ x :: l2) ltac:(lia)) as H.
  assert ((Some <$> l1 ++ x :: l2) !! length l1 = Some (Some x)) as Hx.
  { rewrite list_lookup_fmap, lookup_app_r, Nat.sub_diag by lia. done. }
  assert (forall k : nat, (Some <$> l1 ++ x :: l2) !! k = Some (Some x) ->
    (forall j, (j < k)%nat -> (Some <$> l1 ++ x :: l2) !! j <> Some (Some x)) -> k = length l1) as Hk.
  { intros k Hk Hj. destruct (Nat.lt_trichotomy k (length l1)) as [Hlt|[?|Hgt]]; [|done|].
    - destruct Hnot. rewrite list_lookup_fmap, lookup_app_l in Hk by done.
      apply list_elem_of_lookup. exists k. destruct (l1 !! k); by simplify_eq/=.
    - by destruct (Hj _ Hgt). }
  destruct (find_index _ _ _); [| |destruct H as [_ []]; by apply list_elem_of_lookup_2 in Hx].
  all: destruct H as (k & -> & H1 & H2); rewrite (Hk k H1 H2); lia.
Qed.

Lemma vector_refines_list_witness :
  let v := mk_vector 3 [Some 1; Some 2; Some 3] in
  holds v [1; 2; 3] /\ find_slot v (Some 2) = 1.
Proof.
  assert (holds (mk_vector 3 [Some 1; Some 2; Some 3]) ([1] ++ 2 :: [3])) as H by (by repeat split).
  split; [exact H|].
  apply (vector_refines_list _ [1] 2 [3] 0 H ltac:(vm_compute; reflexivity)).
  apply not_elem_of_cons; split; [discriminate|apply not_elem_of_nil].
Defined.

(** [vector_repack] terminates when memory lasts and drops exactly the NULL
    slots behind the first one, keeping the order of the others. *)
Theorem vector_repack_drops_null {A} `{EqDecision A} (x : option A) l :
  vector_repack (S (S (length l))) (replicate (length l) true)
    (mk_vector (Z.of_nat (length (x :: l))) (x :: l)) =
  Some (mk_vector (Z.of_nat (length (x :: filter is_Some l))) (x :: filter is_Some l)).
Proof.
  unfold vector_repack. cbn [allocated]. if_false.
  rewrite (repack_first _ _ _ x l) by (done || rewrite VECTOR_SIZE_allocated; simpl; lia).
  exact (repack_loop_spec (S (length l)) (length l)
    (mk_vector (Z.of_nat (length (x :: l))) (x :: l)) [x] l ltac:(done) eq_refl eq_refl
    ltac:(lia) ltac:(lia)).
Qed.

(** When the shrinking [REALLOC] of [vector_del_slot] fails, the vector keeps
    its size and its last element twice. *)
Theorem vector_del_slot_oom_duplicates {A} (v : vector A) l1 x l2 :
  holds v (l1 ++ x :: l2) -> (0 < length (l1 ++ l2))%nat ->
  exists v', vector_del_slot false v (Z.of_nat (length l1)) = Some v' /\
    holds v' (l1 ++ l2 ++ [default x (last l2)]).
Proof.
  intros Hh Hl. destruct (del_holds v l1 x l2 false Hh) as (v' & H1 & H2).
  exists v'. split; [done|]. simpl in H2.
  by replace (length (l1 ++ l2) =? 0)%nat with false in H2 by blia.
Qed.
