(* ===== verification/Structs.v ===== *)
(** * libmultipath/structs.h and structs.c: paths, path groups and multipath maps

    Paths are shared between path groups, [mpp->paths] and the path vector, so
    they live in a store and are referred to by pointers ([ptr]).  A path group
    belongs to one map and is a value in its [pg] vector; [None] is a NULL
    vector.  [alloc_pathgroup] never leaves [pgp->paths] NULL and nothing resets
    it, so that it is a plain list.  String fields hold the C string of the
    fixed-size array. *)

From S2P Require Import Prelude CString.

Abbreviation ptr := nat.

(** ** Constants and enumerations *)

Inductive path_check_state :=
  | PATH_WILD | PATH_UNCHECKED | PATH_DOWN | PATH_UP | PATH_SHAKY | PATH_GHOST
  | PATH_PENDING | PATH_TIMEOUT | PATH_REMOVED | PATH_DELAYED.
Inductive pathstates := PSTATE_UNDEF | PSTATE_FAILED | PSTATE_ACTIVE.
Inductive pgstates := PGSTATE_UNDEF | PGSTATE_ENABLED | PGSTATE_DISABLED | PGSTATE_ACTIVE.
(** The functions [pgpolicyfn] may point to. *)
Inductive pgpolicyfn_t :=
  | fn_one_path_per_group | fn_one_group | fn_group_by_serial | fn_group_by_prio
  | fn_group_by_node_name.
Inductive initialized_states :=
  | INIT_NEW | INIT_FAILED | INIT_MISSING_UDEV | INIT_REQUESTED_UDEV | INIT_OK | INIT_REMOVED.

(** What a map needs from the device mapper. *)
Inductive actions :=
  | ACT_UNDEF | ACT_NOTHING | ACT_REJECT | ACT_RELOAD | ACT_SWITCHPG | ACT_RENAME | ACT_CREATE
  | ACT_RESIZE | ACT_FORCERENAME | ACT_DRY_RUN | ACT_IMPOSSIBLE.

#[export] Instance actions_dec : EqDecision actions.
Proof. solve_decision. Defined.
#[export] Instance path_check_state_dec : EqDecision path_check_state.
Proof. solve_decision. Defined.
#[export] Instance pathstates_dec : EqDecision pathstates.
Proof. solve_decision. Defined.
#[export] Instance pgstates_dec : EqDecision pgstates.
Proof. solve_decision. Defined.
#[export] Instance pgpolicyfn_dec : EqDecision pgpolicyfn_t.
Proof. solve_decision. Defined.
#[export] Instance initialized_states_dec : EqDecision initialized_states.
Proof. solve_decision. Defined.

Definition eqb {A} `{EqDecision A} (x y : A) : bool := bool_decide (x = y).

(** Decides the comparisons of constants in the goal and the context. *)
Ltac eqb_eval :=
  repeat match goal with
  | H : context [eqb ?a ?b] |- _ =>
      let v := eval vm_compute in (eqb a b) in
      lazymatch v with true => idtac | false => idtac end; change (eqb a b) with v in H
  | |- context [eqb ?a ?b] =>
      let v := eval vm_compute in (eqb a b) in
      lazymatch v with true => idtac | false => idtac end; change (eqb a b) with v
  end; cbn [andb orb negb] in *.

Definition WWID_SIZE : Z := 128.
Definition SERIAL_SIZE : nat := 128.
Definition NODE_NAME_SIZE : nat := 224.
Definition BLK_DEV_SIZE : nat := 33.
Definition PARAMS_SIZE : nat := 4096.
Definition SLOT_NAME_SIZE : nat := 40.

Definition NO_PATH_RETRY_UNDEF : Z := 0.
Definition NO_PATH_RETRY_FAIL : Z := -1.
Definition NO_PATH_RETRY_QUEUE : Z := -2.

Definition YNU_UNDEF : Z := 0.
Definition YNU_NO : Z := 1.
Definition YNU_YES : Z := 2.
Definition RETAIN_HWHANDLER_ON : Z := YNU_YES.
Definition RETAIN_HWHANDLER_UNDEF : Z := YNU_UNDEF.
Definition DEFERRED_REMOVE_IN_PROGRESS : Z := 3.

Definition YN_NO : Z := 0.
Definition YN_YES : Z := 1.
Definition NU_NO : Z := -1.
Definition NU_UNDEF : Z := 0.
Definition QUE_NO_DAEMON_OFF : Z := YN_NO.
Definition QUE_NO_DAEMON_ON : Z := YN_YES.
Definition QUE_NO_DAEMON_FORCE : Z := 2.
Definition FLUSH_DISABLED : Z := YNU_NO.
Definition FLUSH_ENABLED : Z := YNU_YES.

Definition FAILBACK_UNDEF : Z := 0.
Definition FAILBACK_MANUAL : Z := 1.
Definition FAILBACK_IMMEDIATE : Z := 2.
Definition FAILBACK_FOLLOWOVER : Z := 3.

Definition FIND_MULTIPATHS_UNDEF : Z := YNU_UNDEF.
Definition FIND_MULTIPATHS_OFF : Z := YNU_NO.
Definition FIND_MULTIPATHS_ON : Z := YNU_YES.
Definition FIND_MULTIPATHS_GREEDY : Z := 3.
Definition FIND_MULTIPATHS_SMART : Z := 4.
Definition FIND_MULTIPATHS_STRICT : Z := 5.

Definition PRKEY_SOURCE_NONE : Z := 0.
Definition PRKEY_SOURCE_CONF : Z := 1.
Definition PRKEY_SOURCE_FILE : Z := 2.

Definition ATTR_UID : Z := 0.
Definition ATTR_GID : Z := 1.
Definition ATTR_MODE : Z := 2.

Definition PRIO_UNDEF : Z := -1.
Definition CHECKINT_UNDEF : Z := UINT_MAX.
Definition RR_WEIGHT_NONE : Z := 1.
Definition RR_WEIGHT_PRIO : Z := 2.

Definition SCSI_PROTOCOL_FCP : Z := 0.
Definition SCSI_PROTOCOL_SRP : Z := 4.
Definition SCSI_PROTOCOL_ISCSI : Z := 5.
Definition SCSI_PROTOCOL_SAS : Z := 6.
Definition SCSI_PROTOCOL_UNSPEC : Z := 15.

(** ** Data *)

Record path := {
  dev : cstr; dev_t : cstr; udev : bool;
  wwid : cstr; vendor_id : cstr; product_id : cstr; rev : cstr;
  serial : cstr; tgt_node_name : cstr;
  host_no : Z; proto_id : Z; bus : Z; size : Z;
  checkint : Z; tick : Z;
  state : path_check_state; dmstate : pathstates; chkrstate : path_check_state;
  failcount : Z; priority : Z; pgindex : Z;
  uid_attribute : option cstr; getuid : option cstr;
  checker_selected : bool; prio_selected : bool; fd : Z;
  mpp : option ptr;
  initialized : initialized_states; retriggers : Z;
  path_failures : Z; dis_reinstate_time : Z; disable_reinstate : bool;
  san_path_err_forget_rate : Z;
  io_err_dis_reinstate_time : Z; io_err_disable_reinstate : bool;
  io_err_pathfail_cnt : Z; io_err_pathfail_starttime : Z;
  marginal : bool;
  hwe : option ptr
}.

#[export] Instance eta_path : Eta path := fun x => {|
  dev := dev x; dev_t := dev_t x; udev := udev x;
  wwid := wwid x; vendor_id := vendor_id x; product_id := product_id x; rev := rev x;
  serial := serial x; tgt_node_name := tgt_node_name x;
  host_no := host_no x; proto_id := proto_id x; bus := bus x; size := size x;
  checkint := checkint x; tick := tick x;
  state := state x; dmstate := dmstate x; chkrstate := chkrstate x;
  failcount := failcount x; priority := priority x; pgindex := pgindex x;
  uid_attribute := uid_attribute x; getuid := getuid x;
  checker_selected := checker_selected x; prio_selected := prio_selected x; fd := fd x;
  mpp := mpp x;
  initialized := initialized x; retriggers := retriggers x;
  path_failures := path_failures x; dis_reinstate_time := dis_reinstate_time x;
  disable_reinstate := disable_reinstate x;
  san_path_err_forget_rate := san_path_err_forget_rate x;
  io_err_dis_reinstate_time := io_err_dis_reinstate_time x;
  io_err_disable_reinstate := io_err_disable_reinstate x;
  io_err_pathfail_cnt := io_err_pathfail_cnt x;
  io_err_pathfail_starttime := io_err_pathfail_starttime x;
  marginal := marginal x; hwe := hwe x |}.

(** A fresh path: zeroed memory and the initial values of the C code. *)
Definition alloc_path : path := {|
  dev := []; dev_t := []; udev := false;
  wwid := []; vendor_id := []; product_id := []; rev := [];
  serial := []; tgt_node_name := [];
  host_no := -1; proto_id := SCSI_PROTOCOL_UNSPEC; bus := 0; size := 0;
  checkint := CHECKINT_UNDEF; tick := 0;
  state := PATH_WILD; dmstate := PSTATE_UNDEF; chkrstate := PATH_WILD;
  failcount := 0; priority := PRIO_UNDEF; pgindex := 0;
  uid_attribute := None; getuid := None;
  checker_selected := false; prio_selected := false; fd := -1;
  mpp := None;
  initialized := INIT_NEW; retriggers := 0;
  path_failures := 0; dis_reinstate_time := 0; disable_reinstate := false;
  san_path_err_forget_rate := 0;
  io_err_dis_reinstate_time := 0; io_err_disable_reinstate := false;
  io_err_pathfail_cnt := 0; io_err_pathfail_starttime := 0;
  marginal := false; hwe := None |}.

#[export] Instance path_inhabited : Inhabited path := populate alloc_path.

(** The store of paths; [h !!! p] is what the pointer [p] points to. *)
Abbreviation pheap := (gmap ptr path).

Record pathgroup := {
  pg_id : Z; status : pgstates; g_priority : Z; enabled_paths : Z;
  g_marginal : bool; g_paths : list ptr
}.

#[export] Instance eta_pathgroup : Eta pathgroup := fun x => {|
  pg_id := pg_id x; status := status x; g_priority := g_priority x;
  enabled_paths := enabled_paths x; g_marginal := g_marginal x; g_paths := g_paths x |}.

Definition alloc_pathgroup : pathgroup := {|
  pg_id := 0; status := PGSTATE_UNDEF; g_priority := 0; enabled_paths := 0;
  g_marginal := false; g_paths := [] |}.

Record multipath := {
  m_wwid : cstr; alias_old : cstr; m_alias : cstr; alias_prefix : option cstr;
  pgpolicy : Z; pgpolicyfn : option pgpolicyfn_t; nextpg : Z; bestpg : Z; queuedio : Z;
  wait_for_udev : Z; uev_wait_tick : Z;
  pgfailback : Z; failback_tick : Z; rr_weight : Z;
  no_path_retry : Z; retry_tick : Z; disable_queueing : bool; minio : Z;
  retain_hwhandler : Z; deferred_remove : Z; in_recovery : bool;
  m_san_path_err_threshold : Z; m_san_path_err_forget_rate : Z;
  m_san_path_err_recovery_time : Z;
  marginal_path_err_sample_time : Z; marginal_path_err_rate_threshold : Z;
  marginal_path_err_recheck_gap_time : Z; marginal_path_double_failed_time : Z;
  skip_kpartx : Z; max_sectors_kb : Z; force_udev_reload : bool; force_readonly : bool;
  action : actions; flush_on_last_del : Z; waiter : bool;
  needs_paths_uevent : Z; ghost_delay : Z; ghost_delay_tick : Z;
  m_size : Z; dmi : option (Z * Z);
  m_paths : option (list ptr); pg : option (list pathgroup);
  selector : option cstr; features : option cstr; hwhandler : option cstr;
  m_hwe : option ptr; prflag : bool;
  m_attribute_flags : Z; m_mode : Z; m_uid : Z; m_gid : Z; m_fast_io_fail : Z; m_dev_loss : Z;
  m_prkey_source : Z; m_reservation_key : Z; m_sa_flags : Z; m_all_tg_pt : Z;
  stat_switchgroup : Z; stat_path_failures : Z; stat_map_loads : Z;
  stat_total_queueing_time : Z; stat_queueing_timeouts : Z; stat_map_failures : Z
}.

#[export] Instance eta_multipath : Eta multipath := fun x => {|
  m_wwid := m_wwid x; alias_old := alias_old x; m_alias := m_alias x;
  alias_prefix := alias_prefix x;
  pgpolicy := pgpolicy x; pgpolicyfn := pgpolicyfn x; nextpg := nextpg x; bestpg := bestpg x; queuedio := queuedio x;
  wait_for_udev := wait_for_udev x; uev_wait_tick := uev_wait_tick x;
  pgfailback := pgfailback x; failback_tick := failback_tick x; rr_weight := rr_weight x;
  no_path_retry := no_path_retry x; retry_tick := retry_tick x;
  disable_queueing := disable_queueing x; minio := minio x;
  retain_hwhandler := retain_hwhandler x; deferred_remove := deferred_remove x;
  in_recovery := in_recovery x;
  m_san_path_err_threshold := m_san_path_err_threshold x;
  m_san_path_err_forget_rate := m_san_path_err_forget_rate x;
  m_san_path_err_recovery_time := m_san_path_err_recovery_time x;
  marginal_path_err_sample_time := marginal_path_err_sample_time x;
  marginal_path_err_rate_threshold := marginal_path_err_rate_threshold x;
  marginal_path_err_recheck_gap_time := marginal_path_err_recheck_gap_time x;
  marginal_path_double_failed_time := marginal_path_double_failed_time x;
  skip_kpartx := skip_kpartx x; max_sectors_kb := max_sectors_kb x;
  force_udev_reload := force_udev_reload x; force_readonly := force_readonly x;
  action := action x; flush_on_last_del := flush_on_last_del x; waiter := waiter x;
  needs_paths_uevent := needs_paths_uevent x; ghost_delay := ghost_delay x;
  ghost_delay_tick := ghost_delay_tick x;
  m_size := m_size x; dmi := dmi x; m_paths := m_paths x; pg := pg x;
  selector := selector x; features := features x; hwhandler := hwhandler x;
  m_hwe := m_hwe x; prflag := prflag x;
  m_attribute_flags := m_attribute_flags x; m_mode := m_mode x; m_uid := m_uid x; m_gid := m_gid x;
  m_fast_io_fail := m_fast_io_fail x; m_dev_loss := m_dev_loss x; m_prkey_source := m_prkey_source x;
  m_reservation_key := m_reservation_key x; m_sa_flags := m_sa_flags x; m_all_tg_pt := m_all_tg_pt x;
  stat_switchgroup := stat_switchgroup x; stat_path_failures := stat_path_failures x;
  stat_map_loads := stat_map_loads x;
  stat_total_queueing_time := stat_total_queueing_time x;
  stat_queueing_timeouts := stat_queueing_timeouts x;
  stat_map_failures := stat_map_failures x |}.

Definition alloc_multipath : multipath := {|
  m_wwid := []; alias_old := []; m_alias := []; alias_prefix := None;
  pgpolicy := 0; pgpolicyfn := None; nextpg := 0; bestpg := 1; queuedio := 0;
  wait_for_udev := 0; uev_wait_tick := 0;
  pgfailback := 0; failback_tick := 0; rr_weight := 0;
  no_path_retry := NO_PATH_RETRY_UNDEF; retry_tick := 0; disable_queueing := false; minio := 0;
  retain_hwhandler := 0; deferred_remove := 0; in_recovery := false;
  m_san_path_err_threshold := 0; m_san_path_err_forget_rate := 0;
  m_san_path_err_recovery_time := 0;
  marginal_path_err_sample_time := 0; marginal_path_err_rate_threshold := 0;
  marginal_path_err_recheck_gap_time := 0; marginal_path_double_failed_time := 0;
  skip_kpartx := 0; max_sectors_kb := 0; force_udev_reload := false; force_readonly := false;
  action := ACT_UNDEF; flush_on_last_del := 0; waiter := false;
  needs_paths_uevent := 0; ghost_delay := 0; ghost_delay_tick := 0;
  m_size := 0; dmi := None; m_paths := None; pg := None;
  selector := None; features := None; hwhandler := None;
  m_hwe := None; prflag := false;
  m_attribute_flags := 0; m_mode := 0; m_uid := 0; m_gid := 0; m_fast_io_fail := 0; m_dev_loss := 0;
  m_prkey_source := 0; m_reservation_key := 0; m_sa_flags := 0; m_all_tg_pt := 0;
  stat_switchgroup := 0; stat_path_failures := 0; stat_map_loads := 0;
  stat_total_queueing_time := 0; stat_queueing_timeouts := 0; stat_map_failures := 0 |}.

#[export] Instance multipath_inhabited : Inhabited multipath := populate alloc_multipath.

Abbreviation mheap := (gmap ptr multipath).

Definition marginal_path_check_enabled (m : multipath) : bool :=
  (0 <? marginal_path_double_failed_time m) && (0 <? marginal_path_err_sample_time m) &&
  (0 <? marginal_path_err_recheck_gap_time m) && (0 <=? marginal_path_err_rate_threshold m).

Definition san_path_check_enabled (m : multipath) : bool :=
  (0 <? m_san_path_err_threshold m) && (0 <? m_san_path_err_forget_rate m) &&
  (0 <? m_san_path_err_recovery_time m).

(** What iterating a possibly NULL vector visits. *)
Definition slots {A} (v : option (list A)) : list A := default [] v.

(** ** Releasing *)

(** Closing [fd] and dropping the checker and prioritizer are what is left of
    them here. *)
Definition uninitialize_path (p : path) : path :=
  p <| dmstate := PSTATE_UNDEF |> <| uid_attribute := None |> <| getuid := None |>
    <| checker_selected := false |> <| prio_selected := false |>
    <| fd := if 0 <=? fd p then -1 else fd p |>.

Definition free_multipath_attributes (m : multipath) : multipath :=
  m <| selector := None |> <| features := None |> <| hwhandler := None |>.

(** The paths of a freed map that point back to it lose the pointer. *)
Definition free_multipath_backrefs (m : ptr) (groups : list pathgroup) (h : pheap) : pheap :=
  foldl (fun (h : pheap) g => foldl (fun (h : pheap) (p : ptr) =>
    if bool_decide (mpp (h !!! p) = Some m) then <[p := (h !!! p) <| mpp := None |>]> h else h)
    h (g_paths g)) h groups.

(** ** Storing and searching *)

(** [store_path] fails only for a path without number and name (memory is
    assumed to last; see the Vector component). *)
Definition store_path (h : pheap) (v : list ptr) (p : ptr) : option (list ptr) :=
  if (strlen (dev_t (h !!! p)) =? 0) && (strlen (dev (h !!! p)) =? 0) then None
  else Some (v ++ [p]).

Definition add_pathgroup (groups : list pathgroup) (g : pathgroup) : list pathgroup :=
  groups ++ [g].

Definition find_mp_by_minor (mh : mheap) (mpvec : list ptr) (minor : Z) : option ptr :=
  List.find (fun m => match dmi (mh !!! m) with
                      | Some (_, mi) => mi =? minor
                      | None => false
                      end) mpvec.

Definition find_mp_by_wwid (mh : mheap) (mpvec : list ptr) (w : cstr) : option ptr :=
  List.find (fun m => strneq (Z.to_nat WWID_SIZE) (m_wwid (mh !!! m)) w) mpvec.

Definition find_mp_by_alias (mh : mheap) (mpvec : list ptr) (alias : cstr) : option ptr :=
  if strlen alias =? 0 then None
  else List.find (fun m => (strlen (m_alias (mh !!! m)) =? strlen alias) &&
                           strneq (length alias) (m_alias (mh !!! m)) alias) mpvec.

(** [sscanf(str, "dm-%d", &minor) == 1]; the minor number is compared unsigned. *)
Definition find_mp_by_str (mh : mheap) (mpvec : list ptr) (str : cstr) : option ptr :=
  match (if prefixb (s "dm-") str then scan_int (drop 3 str) else None) with
  | Some (minor, _) => find_mp_by_minor mh mpvec (u32 minor)
  | None => find_mp_by_alias mh mpvec str
  end.

Definition find_path_by_dev (h : pheap) (pathvec : list ptr) (d : cstr) : option ptr :=
  List.find (fun p => streq (dev (h !!! p)) d) pathvec.

Definition find_path_by_devt (h : pheap) (pathvec : list ptr) (d : cstr) : option ptr :=
  List.find (fun p => streq (dev_t (h !!! p)) d) pathvec.

(** ** Counting *)

Definition count_if {A} (f : A -> bool) (l : list A) : Z := Z.of_nat (length (filter f l)).

Definition all_paths (m : multipath) : list ptr := slots (pg m) ≫= g_paths.

Definition do_pathcount (h : pheap) (m : multipath) (states : list path_check_state) : Z :=
  count_if (fun p => existsb (eqb (state (h !!! p))) states) (all_paths m).

Definition pathcount (h : pheap) (m : multipath) (st : path_check_state) : Z :=
  do_pathcount h m [st].

Definition count_active_paths (h : pheap) (m : multipath) : Z :=
  count_if (fun p => eqb (state (h !!! p)) PATH_UP || eqb (state (h !!! p)) PATH_GHOST) (all_paths m).

Definition count_active_pending_paths (h : pheap) (m : multipath) : Z :=
  do_pathcount h m [PATH_UP; PATH_GHOST; PATH_PENDING].

Definition pathcmp (g cg : pathgroup) : Z :=
  Z.of_nat (length (g_paths g)) -
  count_if (fun p => existsb (Nat.eqb p) (g_paths cg)) (g_paths g).

Definition first_path (m : multipath) : option ptr :=
  match slots (pg m) with
  | g :: _ => head (g_paths g)
  | [] => None
  end.

(** ** Feature strings *)

(** The result code and the new string.  The test that should skip an empty
    feature compares with the digit 0, as the code does. *)
Definition add_feature (f : option cstr) (n : option cstr) : Z * option cstr :=
  match n with
  | None => (0, f)
  | Some n =>
      if match n with c :: _ => c =? 48 | [] => false end then (0, f)
      else if bool_decide (is_Some (strchr 32 n)) then (1, f)
      else
        match f with
        | None => (0, Some (s "1 " ++ n))
        | Some fs =>
            if has_strstr fs n then (0, f)
            else
              match strtoul10 fs with
              | None => (1, f)
              | Some (v, e) =>
                  if match e with c :: _ => negb (c =? 32) | [] => false end then (1, f)
                  else
                    let c := s32 (s32 v + 1) in
                    let l := strlen e + strlen n + 2 +
                             (if c <? 10 then 0 else Z.of_nat (length (itoa c)) - 1) in
                    let e := match e with
                             | b :: _ => if b =? 32 then 32 :: snd (span (Z.eqb 32) e) else e
                             | [] => e
                             end in
                    (0, Some (take (Z.to_nat l) (itoa c ++ e ++ s " " ++ n)))
              end
        end
  end.

(** The blanks of [o] that start a further word. *)
Fixpoint count_inner_words (o : cstr) : Z :=
  match o with
  | b :: r =>
      match r with
      | c :: _ => if (b =? 32) && negb (c =? 32) then 1 else 0
      | [] => 0
      end + count_inner_words r
  | [] => 0
  end.

(** How many blanks end the text. *)
Definition trailing_blanks (a : cstr) : nat := length (fst (span (Z.eqb 32) (reverse a))).

(** [None] is the undefined behaviour of copying a negative length (the removed
    text starts inside the feature count). *)
Definition remove_feature (f o : option cstr) : option (Z * option cstr) :=
  match f, o with
  | None, _ => Some (1, f)
  | _, None => Some (0, f)
  | Some fs, Some o =>
      if (strlen o =? 0) || negb (has_strstr fs o) then Some (0, f)
      else
        match strtoul10 fs with
        | None => Some (1, f)
        | Some (v, _) =>
            let o := snd (span (Z.eqb 32) o) in
            if strlen o =? 0 then Some (0, f)
            else
              let d := length o in
              let c := s32 (s32 v - 1) - count_inner_words o in
              if c =? 0 then Some (0, Some (s "0"))
              else
                match strstr fs o with
                | None => Some (0, f)
                | Some e =>
                    match strchr 32 fs with
                    | None => Some (1, f)
                    | Some b =>
                        (* the blank before the first feature *)
                        let p := (b + length (fst (span (Z.eqb 32) (drop b fs))) - 1)%nat in
                        (* back over the blanks before the removed text *)
                        let e' := (e - trailing_blanks (take e fs))%nat in
                        if (e' <? p)%nat then None
                        else
                          let kept := take (e' - p) (drop p fs) in
                          let q := (e + d)%nat in
                          let q' := (q + length (fst (span (Z.eqb 32) (drop q fs))))%nat in
                          let rest := if (q' <? length fs)%nat then drop (q' - 1) fs else [] in
                          Some (0, Some (itoa c ++ kept ++ rest))
                    end
                end
        end
  end.

(** ** Lemmas: searching and counting *)

Lemma find_some_spec {A} (f : A -> bool) l x :
  List.find f l = Some x <->
  exists l1 l2, l = l1 ++ x :: l2 /\ f x = true /\ Forall (fun y => f y = false) l1.
Proof.
  induction l as [|y l IH]; simpl.
  - split; [done|]. intros (l1 & l2 & H & _). by destruct l1.
  - destruct (f y) eqn:E.
    + split.
      * intros [= ->]. exists [], l. auto.
      * intros ([|z l1] & l2 & H & Hx & HF); simplify_eq/=; [done|].
        apply Forall_cons in HF as [HF _]. congruence.
    + rewrite IH. split.
      * intros (l1 & l2 & -> & Hx & HF). exists (y :: l1), l2. auto.
      * intros ([|z l1] & l2 & H & Hx & HF); simplify_eq/=; [congruence|].
        apply Forall_cons in HF as [_ HF]. eauto.
Qed.

Lemma find_in {A} (f : A -> bool) l x : List.find f l = Some x -> x ∈ l /\ f x = true.
Proof. intros (l1 & l2 & -> & Hx & _)%find_some_spec. split; [set_solver|done]. Qed.

Lemma find_none_spec {A} (f : A -> bool) l :
  List.find f l = None <-> Forall (fun y => f y = false) l.
Proof.
  induction l as [|y l IH]; simpl; [by split|].
  rewrite Forall_cons. destruct (f y); naive_solver.
Qed.

Lemma count_if_range {A} (f : A -> bool) l : 0 <= count_if f l <= Z.of_nat (length l).
Proof. unfold count_if. pose proof (length_filter f l). lia. Qed.

Lemma count_if_app {A} (f : A -> bool) l1 l2 : count_if f (l1 ++ l2) = count_if f l1 + count_if f l2.
Proof. unfold count_if. rewrite filter_app. len. Qed.

Lemma count_if_cons {A} (f : A -> bool) x l :
  count_if f (x :: l) = (if f x then 1 else 0) + count_if f l.
Proof.
  unfold count_if. rewrite filter_consb. destruct (f x); [len|done].
Qed.

Lemma count_if_zero {A} (f : A -> bool) l :
  count_if f l = 0 <-> Forall (fun x => f x = false) l.
Proof.
  induction l as [|x l IH]; [by split|].
  rewrite count_if_cons, Forall_cons, <-IH. pose proof (count_if_range f l).
  destruct (f x); [|naive_solver lia]. split; [lia|naive_solver].
Qed.

Lemma count_if_all {A} (f : A -> bool) l :
  count_if f l = Z.of_nat (length l) <-> Forall (fun x => f x = true) l.
Proof.
  induction l as [|x l IH]; [by split|].
  rewrite count_if_cons, Forall_cons, <-IH. pose proof (count_if_range f l). simpl.
  destruct (f x); split; intros; try (split; [done|]); lia || naive_solver lia.
Qed.

Lemma count_if_ext {A} (f g : A -> bool) l :
  Forall (fun x => f x = g x) l -> count_if f l = count_if g l.
Proof. induction 1 as [|x l Hx _ IH]; [done|]. by rewrite !count_if_cons, IH, Hx. Qed.

Lemma count_if_perm {A} (f : A -> bool) l1 l2 : l1 ≡ₚ l2 -> count_if f l1 = count_if f l2.
Proof.
  induction 1 as [|x l1 l2 _ IH|x y l|l1 l2 l3 _ IH1 _ IH2]; rewrite ?count_if_cons; lia.
Qed.

(** ** Lemmas: feature strings *)

(** The text of a feature list: the number of words, then the words. *)
Definition words_text (ws : list cstr) : cstr := ws ≫= (fun w => 32 :: w).
Definition feature_text (ws : list cstr) : cstr := itoa (Z.of_nat (length ws)) ++ words_text ws.

(** A word: printable text without blanks, as a feature name is. *)
Definition is_feature (w : cstr) : Prop := w <> [] /\ Forall (fun c => c <> 32) w.

#[export] Instance is_feature_dec w : Decision (is_feature w).
Proof. unfold is_feature. apply _. Defined.

Lemma strtoul10_feature_text ws :
  Z.of_nat (length ws) < INT_MAX ->
  strtoul10 (feature_text ws) = Some (Z.of_nat (length ws), words_text ws).
Proof.
  intros Hl. unfold feature_text, itoa. if_false.
  apply strtoul10_ntoa; [unfold INT_MAX, ULONG_MAX in *; lia|]. by destruct ws.
Qed.

Lemma strchr_feature w : is_feature w -> strchr 32 w = None.
Proof. intros [_ H]. by apply strchr_None. Qed.

Lemma words_text_app l1 l2 : words_text (l1 ++ l2) = words_text l1 ++ words_text l2.
Proof. apply bind_app. Qed.

Lemma words_text_head ws : Forall is_feature ws ->
  match words_text ws with
  | b :: _ => if b =? 32 then 32 :: snd (span (Z.eqb 32) (words_text ws)) else words_text ws
  | [] => words_text ws
  end = words_text ws.
Proof.
  destruct ws as [|w ws]; intros H; [done|]. apply Forall_cons in H as [[Hw Hc] _].
  destruct w as [|c w]; [done|]. cbn -[Z.eqb]. rewrite Z.eqb_refl.
  apply Forall_cons in Hc as [Hc _]. by destruct (Z.eqb_spec 32 c).
Qed.

Lemma add_feature_text ws n :
  Forall is_feature ws -> is_feature n -> head n <> Some 48 ->
  Z.of_nat (length ws) + 1 < INT_MAX ->
  has_strstr (feature_text ws) n = false ->
  add_feature (Some (feature_text ws)) (Some n) = (0, Some (feature_text (ws ++ [n]))).
Proof.
  intros Hws Hn H0 Hl Hno. unfold add_feature.
  replace (match n with [] => false | c :: _ => c =? 48 end) with false
    by (destruct n as [|c n]; [done|]; simpl in *; destruct (Z.eqb_spec c 48); congruence).
  rewrite strchr_feature, bool_decide_false, Hno by (done || by intros [? ?]).
  rewrite strtoul10_feature_text by lia.
  replace (match words_text ws with [] => false | c :: _ => negb (c =? 32) end) with false
    by (by destruct ws).
  rewrite (s32_id (Z.of_nat _)), s32_id by (unfold is_int, INT_MIN, INT_MAX in *; lia).
  cbn zeta. pose proof (words_text_head ws Hws) as He.
  set (c := Z.of_nat (length ws) + 1) in *.
  assert (itoa c = itoa (Z.of_nat (length (ws ++ [n])))) as Hc by (f_equal; unfold c; len).
  assert (forall e : cstr, e = words_text ws ->
    take (Z.to_nat (strlen (words_text ws) + strlen n + 2 +
      (if c <? 10 then 0 else Z.of_nat (length (itoa c)) - 1))) (itoa c ++ e ++ s " " ++ n) =
    feature_text (ws ++ [n])) as Hmain.
  { intros e ->. rewrite take_ge.
    - unfold feature_text. rewrite <-Hc, words_text_app. unfold words_text at 3. simpl.
      by rewrite app_nil_r.
    - unfold strlen. rewrite !length_app. cbn [s length]. change (length (s " ")) with 1%nat.
      destruct (Z.ltb_spec c 10) as [Hd|Hd]; [|lia].
      replace (length (itoa c)) with 1%nat; [lia|].
      unfold itoa. replace (c <? 0) with false by blia. unfold ntoa.
      cbn [ntoa_aux]. by replace (c <? 10) with true by blia. }
  do 2 f_equal. by apply Hmain.
Qed.

(** A word is first found at the end of a text it does not occur in. *)
Lemma strstr_at_end a w :
  is_feature w -> has_strstr a w = false -> strstr (a ++ 32 :: w) w = Some (S (length a)).
Proof.
  intros [Hw Hc] Hno.
  assert (forall b, has_strstr b w = false -> prefixb w (b ++ 32 :: w) = false) as Hp.
  { intros b Hb. apply not_true_iff_false. intros [r Hr]%prefixb_spec.
    destruct (decide (length b < length w)%nat) as [Hlt|Hge].
    - apply (f_equal (fun l => l !! length b)) in Hr.
      rewrite lookup_app_r, Nat.sub_diag, lookup_app_l in Hr by lia. simpl in Hr.
      eapply Forall_lookup_1 in Hc; [|done]. done.
    - apply (f_equal (take (length b))) in Hr.
      rewrite take_app_length, take_app_ge in Hr by lia. rewrite Hr in Hb.
      assert (has_strstr (w ++ take (length b - length w) r) w = true) as Ht
        by (apply has_strstr_spec; by exists [], (take (length b - length w) r)).
      congruence. }
  induction a as [|x a IH].
  - specialize (Hp [] Hno). destruct w as [|c w]; [done|]. simpl in *. rewrite Hp.
    rewrite Z.eqb_refl. simpl. rewrite (proj2 (prefixb_spec w w)); [done|]. exists []. by rewrite app_nil_r.
  - specialize (Hp (x :: a) Hno). cbn [app strstr length] in *. rewrite Hp.
    rewrite IH; [done|]. apply not_true_iff_false. intros (l & r & ->)%has_strstr_spec.
    assert (has_strstr (x :: l ++ w ++ r) w = true) by (apply has_strstr_spec; by exists (x :: l), r).
    congruence.
Qed.

Lemma count_inner_words_feature w : is_feature w -> count_inner_words w = 0.
Proof.
  intros [_ H]. induction H as [|c w Hc _ IH]; [done|]. cbn [count_inner_words].
  rewrite IH. replace (c =? 32) with false by lia. by destruct w.
Qed.

Lemma feature_no_lead w r : is_feature w -> span (Z.eqb 32) (w ++ r) = ([], w ++ r).
Proof.
  intros [Hw Hc]. destruct w as [|c w]; [done|]. cbn -[Z.eqb].
  apply Forall_cons in Hc as [Hc _]. by destruct (Z.eqb_spec 32 c).
Qed.

Lemma trailing_blank_one a c : c <> 32 -> trailing_blanks (a ++ [c; 32]) = 1%nat.
Proof.
  intros Hc. unfold trailing_blanks.
  replace (a ++ [c; 32]) with ((a ++ [c]) ++ [32]) by (by rewrite <-app_assoc).
  rewrite !reverse_app. cbn -[Z.eqb].
  rewrite Z.eqb_refl. by destruct (Z.eqb_spec 32 c).
Qed.

Lemma feature_last w : is_feature w -> exists a c, w = a ++ [c] /\ c <> 32.
Proof.
  intros [Hw Hc]. destruct w as [|c a _] using rev_ind; [done|].
  apply Forall_app in Hc as [_ Hc]. apply Forall_cons in Hc as [Hc _]. eauto.
Qed.

Lemma itoa_no_blank n : Forall (fun c => c <> 32) (itoa n).
Proof. eapply Forall_impl; [apply itoa_chars|]. simpl. lia. Qed.

(** The last word of a feature list is removed with the blank before it. *)
Lemma remove_feature_text ws n :
  Forall is_feature ws -> is_feature n -> Z.of_nat (length ws) + 1 < INT_MAX ->
  has_strstr (itoa (Z.of_nat (length ws) + 1) ++ words_text ws) n = false ->
  remove_feature (Some (feature_text (ws ++ [n]))) (Some n) = Some (0, Some (feature_text ws)).
Proof.
  intros Hws Hn Hl Hno. unfold remove_feature.
  set (num := itoa (Z.of_nat (length ws) + 1)) in *.
  assert (feature_text (ws ++ [n]) = (num ++ words_text ws) ++ 32 :: n) as Hf.
  { unfold feature_text, num. rewrite words_text_app. unfold words_text at 2. simpl.
    rewrite app_nil_r, <-app_assoc. do 2 f_equal. len. }
  pose proof (strstr_at_end _ _ Hn Hno) as Hs. rewrite <-Hf in Hs.
  replace (strlen n =? 0) with false by (destruct Hn; destruct n; [done|]; unfold strlen; blia).
  unfold has_strstr. rewrite Hs. cbn [negb orb].
  rewrite strtoul10_feature_text by len.
  pose proof (feature_no_lead n [] Hn) as Hnl. rewrite app_nil_r in Hnl.
  rewrite Hnl. cbn [snd].
  replace (strlen n =? 0) with false by (destruct Hn; destruct n; [done|]; unfold strlen; blia).
  rewrite count_inner_words_feature by done.
  rewrite (s32_id (Z.of_nat _)) by (unfold is_int, INT_MIN, INT_MAX in *; len).
  rewrite s32_id by (unfold is_int, INT_MIN, INT_MAX in *; len).
  replace (Z.of_nat (length (ws ++ [n])) - 1 - 0) with (Z.of_nat (length ws)) by len.
  destruct ws as [|w ws]; [done|].
  replace (Z.of_nat (length (w :: ws)) =? 0) with false by blia. rewrite Hs.
  assert (exists w' r, words_text (w :: ws) = 32 :: w' ++ r /\ is_feature w') as (w' & r & Hwt & Hw').
  { exists w, (words_text ws). apply Forall_cons in Hws as [? _]. done. }
  assert (strchr 32 (feature_text ((w :: ws) ++ [n])) = Some (length num)) as ->.
  { rewrite Hf, Hwt, <-app_assoc. cbn [app]. apply strchr_first, itoa_no_blank. }
  set (a := num ++ words_text (w :: ws)) in *.
  assert (take (S (length a)) (feature_text ((w :: ws) ++ [n])) = a ++ [32]) as ->.
  { rewrite Hf. replace (a ++ 32 :: n) with ((a ++ [32]) ++ n) by (by rewrite <-app_assoc).
    replace (S (length a)) with (length (a ++ [32])) by len. apply take_app_length. }
  assert (trailing_blanks (a ++ [32]) = 1%nat) as ->.
  { assert (exists l c, words_text (w :: ws) = l ++ [c] /\ c <> 32) as (l & c & Hlc & Hc).
    { destruct (reverse_snoc_cases (w :: ws)) as [|(l & x & Hx)]; [done|].
      rewrite Hx in Hws. apply Forall_app in Hws as [_ Hws]. apply Forall_cons in Hws as [Hx' _].
      destruct (feature_last x Hx') as (y & c & -> & Hc).
      exists (words_text l ++ 32 :: y), c. rewrite Hx, words_text_app. unfold words_text at 2. simpl.
      by rewrite app_nil_r, <-app_assoc. }
    unfold a. rewrite Hlc, !app_assoc, <-(app_assoc _ [c] [32]). by apply trailing_blank_one. }
  assert (drop (length num) (feature_text ((w :: ws) ++ [n])) = 32 :: w' ++ r ++ 32 :: n) as Hdrop.
  { rewrite Hf. unfold a. rewrite <-app_assoc, drop_app_length, Hwt. simpl. by rewrite <-app_assoc. }
  rewrite Hdrop. cbn [span]. rewrite Z.eqb_refl, feature_no_lead by done. cbn [fst length].
  replace (length num + 1 - 1)%nat with (length num) by lia. rewrite Hdrop.
  assert (length a = length num + S (length w' + length r))%nat as Hla
    by (unfold a; rewrite Hwt; len).
  replace (S (length a) - 1 <? length num)%nat with false by (symmetry; apply Nat.ltb_ge; lia).
  rewrite drop_ge by (rewrite Hf; len). cbn [span fst length].
  rewrite (proj2 (Nat.ltb_ge _ _)) by (rewrite Hf; len).
  rewrite app_nil_r. unfold feature_text. rewrite Hwt. do 4 f_equal.
  replace (32 :: w' ++ r ++ 32 :: n) with ((32 :: w' ++ r) ++ 32 :: n)
    by (simpl; by rewrite <-app_assoc).
  apply take_app_length'. simpl. rewrite length_app. lia.
Qed.

(** * Properties *)

(** Feature strings keep their count: adding a new single-word feature to a
    list of words appends it and increments the leading number, adding one that
    is there changes nothing, and removing the added word restores the list. *)
Theorem feature_roundtrip ws n :
  Forall is_feature ws -> is_feature n -> head n <> Some 48 ->
  Z.of_nat (length ws) + 1 < INT_MAX ->
  has_strstr (feature_text ws) n = false ->
  has_strstr (itoa (Z.of_nat (length ws) + 1) ++ words_text ws) n = false ->
  add_feature (Some (feature_text ws)) (Some n) = (0, Some (feature_text (ws ++ [n]))) /\
  add_feature (Some (feature_text (ws ++ [n]))) (Some n) = (0, Some (feature_text (ws ++ [n]))) /\
  remove_feature (Some (feature_text (ws ++ [n]))) (Some n) = Some (0, Some (feature_text ws)).
Proof.
  intros Hws Hn H0 Hl Hno1 Hno2. split; [by apply add_feature_text|].
  split; [|by apply remove_feature_text].
  unfold add_feature.
  replace (match n with [] => false | c :: _ => c =? 48 end) with false
    by (destruct n as [|c n]; [done|]; simpl in *; destruct (Z.eqb_spec c 48); congruence).
  rewrite strchr_feature, bool_decide_false by (done || by intros [? ?]).
  assert (has_strstr (feature_text (ws ++ [n])) n = true) as ->; [|done].
  apply has_strstr_spec. exists (itoa (Z.of_nat (length (ws ++ [n]))) ++ words_text ws ++ [32]), [].
  unfold feature_text. rewrite words_text_app. unfold words_text at 2. simpl.
  by rewrite !app_nil_r, <-!app_assoc.
Qed.

Lemma feature_roundtrip_witness :
  feature_text [s "pg_init_retries"; s "50"] = s "2 pg_init_retries 50" /\
  add_feature (Some (s "2 pg_init_retries 50")) (Some (s "queue_if_no_path")) =
    (0, Some (s "3 pg_init_retries 50 queue_if_no_path")) /\
  remove_feature (Some (s "3 pg_init_retries 50 queue_if_no_path")) (Some (s "queue_if_no_path")) =
    Some (0, Some (s "2 pg_init_retries 50")).
Proof.
  split; [reflexivity|].
  destruct (feature_roundtrip [s "pg_init_retries"; s "50"] (s "queue_if_no_path"))
    as (H1 & _ & H2).
  - decide_closed.
  - decide_closed.
  - discriminate.
  - vm_compute. reflexivity.
  - reflexivity.
  - reflexivity.
  - split; [exact H1|exact H2].
Defined.

(** Removing a word that is a proper prefix of an earlier feature damages the
    feature list. *)
Example remove_feature_prefix_word :
  remove_feature (Some (s "3 abc ab b")) (Some (s "ab")) = Some (0, Some (s "2bc ab b")).
Proof. reflexivity. Qed.

(** An empty feature is not skipped when the list is still NULL. *)
Example add_feature_empty : add_feature None (Some []) = (0, Some (s "1 ")).
Proof. reflexivity. Qed.
