(* ===== verification/File.v ===== *)
(** * libmultipath/file.c: opening a file of lines, and the standard library's
    reading of lines

    A file is its text, one integer per byte.  What the system calls on it answer
    is a record [io]. *)

From S2P Require Import Prelude CString.

Definition LINE_MAX : nat := 2048.

(** ** Opening *)

(** What the system calls answer: can the file be opened (and is it writable),
    do streams, seeks, truncation and renames succeed?  A write to a file that
    holds [text] succeeds when [io_write text]. *)
Record io := { io_open : option bool; io_fdopen : bool; io_flush : bool; io_write : cstr -> bool;
               io_seek : bool; io_read : bool; io_truncate : bool; io_mkstemp : bool; io_rename : bool }.

(** Everything works. *)
Definition io_good : io :=
  {| io_open := Some true; io_fdopen := true; io_flush := true; io_write := fun _ => true; io_seek := true;
     io_read := true; io_truncate := true; io_mkstemp := true; io_rename := true |}.

Definition open_file (o : io) (header text : cstr) : option (bool * cstr) :=
  can_write ← io_open o;
  match text with
  | [] => if (can_write : bool) && io_write o [] then Some (can_write, header) else None
  | _ => Some (can_write, text)
  end.

(** The directories [ensure_directories_exist] makes, up to the first that
    cannot be made, and its return code: leading slashes are skipped, and every
    further slash ends a directory.  [mkdir] tells whether a directory can be
    made or is there. *)
Fixpoint dirs_loop (mkdir : cstr -> bool) (before rest : cstr) : Z * list cstr :=
  match rest with
  | [] => (0, [])
  | c :: r =>
      if c =? 47
      then if mkdir before then let '(rc, made) := dirs_loop mkdir (before ++ [c]) r in (rc, before :: made) else (-1, [])
      else dirs_loop mkdir (before ++ [c]) r
  end.

Definition ensure_directories_exist (mkdir : cstr -> bool) (str : cstr) : Z * list cstr :=
  let n := strspn str [47] in dirs_loop mkdir (take n str) (drop n str).

(** ** Lines *)

(** [fgets] with a buffer of [n] bytes. *)
Definition fgets (n : nat) (text : cstr) : cstr * cstr :=
  let len := match strchr 10 text with Some p => S p | None => length text end in
  let k := Nat.min (n - 1) len in
  (take k text, drop k text).

Fixpoint lines_of (fuel n : nat) (text : cstr) : list cstr :=
  match fuel, text with
  | S f, _ :: _ => let '(line, rest) := fgets n text in line :: lines_of f n rest
  | _, _ => []
  end.

(** Every line has at least one character. *)
Definition file_lines (n : nat) (text : cstr) : list cstr := lines_of (length text) n text.

(** ** Appending a line *)

Definition ends_line (text : cstr) : Prop := text = [] \/ last text = Some 10.

#[export] Instance ends_line_dec text : Decision (ends_line text).
Proof. unfold ends_line. apply _. Defined.

Lemma fgets_rest n text : (2 <= n)%nat -> text <> [] ->
  (length (snd (fgets n text)) < length text)%nat /\ fst (fgets n text) ++ snd (fgets n text) = text.
Proof.
  intros Hn Ht. unfold fgets. cbn [fst snd]. split; [|apply take_drop].
  assert (0 < length text)%nat by (destruct text; [done|cbn; lia]).
  rewrite length_drop. destruct (strchr 10 text); lia.
Qed.

Lemma lines_of_fuel n : (2 <= n)%nat -> forall f g text, (length text <= f)%nat -> (length text <= g)%nat ->
  lines_of f n text = lines_of g n text.
Proof.
  intros Hn f. induction f as [|f IH]; intros g text Hf Hg.
  - destruct text; [by destruct g|cbn in Hf; lia].
  - destruct text as [|x t]; [by destruct g|]. destruct g as [|g]; [cbn in Hg; lia|]. cbn [lines_of].
    destruct (fgets_rest n (x :: t) Hn ltac:(done)) as [H _]. destruct (fgets n (x :: t)) as [l r]. cbn [snd] in H.
    f_equal. apply IH; cbn [length] in *; lia.
Qed.

Lemma file_lines_cons n text : (2 <= n)%nat -> text <> [] ->
  file_lines n text = fst (fgets n text) :: file_lines n (snd (fgets n text)).
Proof.
  intros Hn Ht. unfold file_lines. destruct (fgets_rest n text Hn Ht) as [H _].
  destruct text as [|x t]; [done|]. cbn [length lines_of]. destruct (fgets n (x :: t)) as [l r]. cbn [fst snd] in *.
  f_equal. apply lines_of_fuel; cbn [length] in *; lia.
Qed.

Lemma length_file_lines n text : (2 <= n)%nat -> (length (file_lines n text) <= length text)%nat.
Proof.
  intros Hn. remember (length text) as k eqn:Hk. revert text Hk.
  induction k as [k IH] using lt_wf_ind. intros text ->. destruct (decide (text = [])) as [->|Ht]; [done|].
  rewrite file_lines_cons by done. destruct (fgets_rest n text Hn Ht) as [H _].
  specialize (IH _ H _ eq_refl). cbn [length]. lia.
Qed.

Lemma strchr_in c a : c ∈ a -> exists p, strchr c a = Some p /\ (p < length a)%nat.
Proof.
  intros Hc. destruct (strchr c a) as [p|] eqn:H.
  - exists p. split; [done|]. apply strchr_Some in H as (r & Ha & _). apply (f_equal length) in Ha.
    rewrite length_app, length_take in Ha. cbn [length] in Ha. lia.
  - apply strchr_None in H. rewrite Forall_forall in H. by destruct (H c Hc).
Qed.

Lemma strchr_app_in c a b : c ∈ a -> strchr c (a ++ b) = strchr c a.
Proof.
  induction a as [|x a IH]; [by intros ?%elem_of_nil|]. intros Hc. cbn. destruct (Z.eqb_spec x c); [done|].
  apply elem_of_cons in Hc as [->|Hc]; [done|]. by rewrite IH.
Qed.

Lemma last_in {A} (l : list A) x : last l = Some x -> x ∈ l.
Proof. intros [l' ->]%last_Some. set_solver. Qed.

Lemma file_lines_app n text line : (2 <= n)%nat -> ends_line text ->
  file_lines n (text ++ line) = file_lines n text ++ file_lines n line.
Proof.
  intros Hn. remember (length text) as k eqn:Hk. revert text Hk.
  induction k as [k IH] using lt_wf_ind. intros text -> Hend.
  destruct (decide (text = [])) as [->|Ht]; [done|]. destruct Hend as [?|Hlast]; [done|].
  pose proof (last_in _ _ Hlast) as Hin. destruct (strchr_in 10 text Hin) as (p & Hp & Hlt).
  rewrite (file_lines_cons n (text ++ line)) by (done || by destruct text).
  rewrite (file_lines_cons n text) by done. cbn [app]. destruct (fgets_rest n text Hn Ht) as [Hshort _].
  assert (fgets n (text ++ line) = (fst (fgets n text), snd (fgets n text) ++ line)) as ->.
  { unfold fgets. rewrite strchr_app_in, Hp by done. cbn [fst snd].
    rewrite take_app_le, drop_app_le by lia. done. }
  cbn [fst snd]. f_equal. eapply (IH _ Hshort); [done|].
  unfold fgets. cbn [snd]. rewrite Hp. set (k := Nat.min (n - 1) (S p)).
  destruct (decide (drop k text = [])) as [He|He]; [by left|right].
  rewrite <-Hlast. rewrite <-(take_drop k text) at 2. rewrite last_app. by destruct (last (drop k text)) eqn:E; [|apply last_None in E].
Qed.

Lemma strchr_skip c a r : c ∉ a -> strchr c (a ++ c :: r) = Some (length a).
Proof.
  induction a as [|x a IH]; cbn; [by rewrite Z.eqb_refl|]. intros [Hx Ha]%not_elem_of_cons.
  rewrite (proj2 (Z.eqb_neq x c)) by done. by rewrite IH.
Qed.

Lemma fgets_line n body rest : 10 ∉ body -> (length body + 1 < n)%nat -> fgets n (body ++ 10 :: rest) = (body ++ [10], rest).
Proof.
  intros Hb Hn. unfold fgets. rewrite strchr_skip by done. rewrite Nat.min_r by lia.
  replace (body ++ 10 :: rest) with ((body ++ [10]) ++ rest) by by rewrite <-(assoc_L (++)).
  replace (S (length body)) with (length (body ++ [10])) by (rewrite length_app; cbn; lia).
  by rewrite take_app_length, drop_app_length.
Qed.

Lemma one_line n body : (2 <= n)%nat -> (length body + 1 < n)%nat -> 10 ∉ body -> file_lines n (body ++ [10]) = [body ++ [10]].
Proof.
  intros Hn Hlen Hb. rewrite file_lines_cons by (done || by destruct body). by rewrite fgets_line by done.
Qed.

Lemma file_lines_sub n text line : (2 <= n)%nat -> line ∈ file_lines n text -> line ⊆ text.
Proof.
  intros Hn. remember (length text) as k eqn:Hk. revert text Hk.
  induction k as [k IH] using lt_wf_ind. intros text -> Hl. destruct (decide (text = [])) as [->|Ht].
  { by apply elem_of_nil in Hl. }
  rewrite file_lines_cons in Hl by done. destruct (fgets_rest n text Hn Ht) as [Hs He].
  rewrite <-He. apply elem_of_cons in Hl as [->|Hl]; [set_solver|]. specialize (IH _ Hs _ eq_refl Hl). set_solver.
Qed.

Lemma nul_free_sub a b : a ⊆ b -> nul_free b -> nul_free a.
Proof. unfold nul_free. rewrite !Forall_forall. auto. Qed.

(** The file after [open_file]. *)
Definition opened (header text : cstr) : cstr := match text with [] => header | _ => text end.

Lemma opened_ends header text : last header = Some 10 -> ends_line text -> ends_line (opened header text).
Proof. destruct text; [|done]. by right. Qed.

Lemma open_file_opened o header text cw text1 : open_file o header text = Some (cw, text1) -> text1 = opened header text.
Proof.
  unfold open_file. destruct (io_open o) as [w|]; [|done]. destruct text as [|c t].
  - cbn [mbind option_bind]. by destruct (w && io_write o []); intros [= _ <-].
  - by intros [= _ <-].
Qed.

(** ** Searching a file block by block *)

Definition BLOCK : nat := 4096.

(** [read] of a block at [start], and the C string in it. *)
Definition read_block (text : cstr) (start : nat) : cstr := take BLOCK (drop start text).

(** Index of the last occurrence of a character. *)
Fixpoint strrchr (c : Z) (a : cstr) : option nat :=
  match a with
  | [] => None
  | x :: r => match strrchr c r with
              | Some p => Some (S p)
              | None => if x =? c then Some O else None
              end
  end.

Inductive block_result := FoundAt (start p : nat) | NotFound | ReadError.

(** The loop of [do_remove_wwid] and [do_prkey]: each block begins after the last
    newline of the block before; [find] looks at the C string in a block.  [None]
    when the fuel is used up. *)
Fixpoint scan_blocks (fuel : nat) (o : io) (text : cstr) (find : cstr -> option nat) (start : nat) : option block_result :=
  match fuel with
  | O => None
  | S f =>
      if negb (io_seek o && io_read o) then Some ReadError
      else
        let block := read_block text start in
        let buf := cut_at [0] block in
        if (length block =? 0)%nat then Some NotFound
        else
          match find buf with
          | Some p => Some (FoundAt start p)
          | None =>
              match strrchr 10 buf with
              | None => Some NotFound
              | Some p => scan_blocks f o text find (start + p + 1)
              end
          end
  end.

Definition scan_file (o : io) (text : cstr) (find : cstr -> option nat) : option block_result :=
  scan_blocks (S (length text)) o text find 0.

(** *** Substrings *)

Lemma strstr_found hay needle i : strstr hay needle = Some i ->
  prefixb needle (drop i hay) = true /\ forall j, (j < i)%nat -> prefixb needle (drop j hay) = false.
Proof.
  revert i. induction hay as [|x hay IH]; intros i; cbn [strstr].
  - destruct (prefixb needle []) eqn:E; [|done]. intros [= <-]. split; [done|lia].
  - destruct (prefixb needle (x :: hay)) eqn:E; [intros [= <-]; split; [done|lia]|].
    destruct (strstr hay needle) as [j|]; [|done]. intros [= <-]. destruct (IH j eq_refl) as [H1 H2].
    split; [done|]. intros [|k] Hk; [done|]. apply H2. lia.
Qed.

Lemma strstr_none hay needle : strstr hay needle = None -> forall j, needle <> [] -> prefixb needle (drop j hay) = false.
Proof.
  induction hay as [|x hay IH]; cbn [strstr]; intros H j Hne.
  - rewrite drop_nil. by destruct needle.
  - destruct (prefixb needle (x :: hay)) eqn:E; [done|]. destruct (strstr hay needle); [done|].
    destruct j as [|j]; [done|]. by apply IH.
Qed.

Lemma strstr_first hay needle i : prefixb needle (drop i hay) = true ->
  (forall j, (j < i)%nat -> prefixb needle (drop j hay) = false) -> (i <= length hay)%nat -> strstr hay needle = Some i.
Proof.
  revert i. induction hay as [|x hay IH]; intros i H1 H2 Hi; cbn [length] in Hi.
  - assert (i = O) as -> by lia. cbn in *. by rewrite H1.
  - cbn [strstr]. destruct i as [|i]; [cbn [drop] in H1; by rewrite H1|].
    pose proof (H2 O ltac:(lia)) as H0. cbn [drop] in H0. rewrite H0, (IH i); [done|done| |lia].
    intros j Hj. apply (H2 (S j)). lia.
Qed.

Lemma strstr_absent hay needle : (forall j, prefixb needle (drop j hay) = false) -> strstr hay needle = None.
Proof.
  intros H. destruct (strstr hay needle) as [i|] eqn:E; [|done]. apply strstr_found in E as [E _]. by rewrite H in E.
Qed.

Lemma prefixb_take needle n a : prefixb needle (take n a) = true <-> prefixb needle a = true /\ (length needle <= Nat.min n (length a))%nat.
Proof.
  rewrite !prefixb_spec. split.
  - intros [c Hc]. split.
    + exists (c ++ drop n a). rewrite (assoc_L (++)), <-Hc. by rewrite take_drop.
    + apply (f_equal length) in Hc. rewrite length_take, length_app in Hc. lia.
  - intros [[c ->] Hn]. exists (take (n - length needle) c). rewrite length_app in Hn. by rewrite take_app_ge by lia.
Qed.

Lemma strrchr_Some c a i : strrchr c a = Some i ->
  a !! i = Some c /\ forall j, (i < j)%nat -> a !! j <> Some c.
Proof.
  revert i. induction a as [|x a IH]; intros i; cbn [strrchr]; [done|].
  destruct (strrchr c a) as [p|] eqn:E.
  - intros [= <-]. destruct (IH p eq_refl) as [H1 H2]. split; [done|]. intros [|j] Hj; [lia|]. apply H2. lia.
  - destruct (Z.eqb_spec x c) as [->|]; [|done]. intros [= <-]. split; [done|].
    intros [|j] Hj; [lia|]. cbn. clear -E. revert j E. induction a as [|y a IH]; intros j E; [done|]. cbn [strrchr] in E.
    destruct (strrchr c a); [done|]. destruct (Z.eqb_spec y c); [done|]. destruct j; cbn; [congruence|]. by apply IH.
Qed.

Lemma strrchr_None c a : strrchr c a = None -> c ∉ a.
Proof.
  induction a as [|x a IH]; cbn [strrchr]; [intros _ ?%elem_of_nil; done|]. destruct (strrchr c a); [done|].
  destruct (Z.eqb_spec x c); [done|]. intros _ [?|?]%elem_of_cons; [done|by apply IH].
Qed.

(** *** The blocks find what the file holds *)

(** Every full block has a newline. *)
Definition short_lines (text : cstr) : Prop :=
  forall i, (i + BLOCK <= length text)%nat -> 10 ∈ read_block text i.

Lemma block_text text start : nul_free text -> cut_at [0] (read_block text start) = read_block text start.
Proof.
  intros H. apply cut_at_id. apply Forall_take, Forall_drop. eapply Forall_impl; [exact H|].
  intros c Hc. unfold in_set. cbn [existsb]. rewrite orb_false_r. apply Z.eqb_neq. cbn in Hc. lia.
Qed.

Section Blocks.
Context (o : io) (text : cstr) (find : cstr -> option nat) (k : nat) (body : cstr).
Context (Hseek : io_seek o = true) (Hread : io_read o = true) (Hnul : nul_free text) (Hshort : short_lines text).
Context (Hbody : 10 ∉ body) (Hfind : forall buf, find buf = (fun p => p + k)%nat <$> strstr buf (body ++ [10])).

Abbreviation needle := (body ++ [10]).

(** An occurrence ends with the first newline after its begin. *)
Lemma occurrence_ends a i j : prefixb needle (drop i a) = true -> (i <= j)%nat -> a !! j = Some 10 ->
  (i + length body <= j)%nat.
Proof using Hbody.
  intros [c Hc]%prefixb_spec Hij Hj. destruct (decide (j < i + length body)%nat) as [Hlt|]; [|lia]. exfalso. apply Hbody.
  assert (drop i a !! (j - i)%nat = Some 10) as H by (rewrite lookup_drop, <-Hj; f_equal; lia).
  rewrite Hc, <-(assoc_L (++)), lookup_app_l in H by lia. by apply list_elem_of_lookup_2 in H.
Qed.

Lemma occurrence_in_block start p : prefixb needle (drop p (read_block text start)) = true <->
  prefixb needle (drop (start + p) text) = true /\ (p + length needle <= BLOCK)%nat.
Proof using Type.
  unfold read_block. rewrite skipn_firstn_comm, drop_drop, prefixb_take. split.
  - intros [H Hl]. split; [exact H|]. clear -Hl. rewrite length_app in Hl |- *. cbn [length] in Hl |- *. lia.
  - intros [H Hl]. split; [exact H|]. apply prefixb_spec in H as [c Hc]. apply (f_equal length) in Hc.
    rewrite length_app in Hc. clear -Hl Hc. lia.
Qed.

Lemma occurrence_newline p : prefixb needle (drop p text) = true -> 10 ∈ drop p text.
Proof using Type. intros [c ->]%prefixb_spec. apply elem_of_app. left. apply elem_of_app. right. by left. Qed.

(** No occurrence up to the last newline of a block without one. *)
Lemma no_occurrence_before start q : (forall j, (j < start)%nat -> prefixb needle (drop j text) = false) ->
  strstr (read_block text start) needle = None -> strrchr 10 (read_block text start) = Some q ->
  (start + q < length text)%nat /\ text !! (start + q)%nat = Some 10 /\
  forall j, (j < start + q + 1)%nat -> prefixb needle (drop j text) = false.
Proof using Hbody Hfind.
  intros Hno Hnone [Hq _]%strrchr_Some. pose proof (lookup_lt_Some _ _ _ Hq) as Hlt.
  unfold read_block in Hlt, Hq. rewrite length_take, length_drop in Hlt.
  rewrite lookup_take_lt, lookup_drop in Hq by lia. split_and!; [lia|done|].
  intros j Hj. destruct (decide (j < start)%nat); [by apply Hno|]. destruct (prefixb needle (drop j text)) eqn:E; [|done].
  pose proof (occurrence_ends text j (start + q) E ltac:(lia) Hq) as He.
  pose proof (strstr_none _ _ Hnone (j - start) ltac:(by destruct body)) as Hn.
  rewrite (proj2 (occurrence_in_block start (j - start))) in Hn; [done|].
  replace (start + (j - start))%nat with j by lia. split; [done|]. rewrite length_app. cbn [length]. lia.
Qed.

Lemma scan_blocks_spec fuel : forall start, (length text < fuel + start)%nat -> (start <= length text)%nat ->
  (forall j, (j < start)%nat -> prefixb needle (drop j text) = false) ->
  start = O \/ (exists b', start = S b' /\ text !! b' = Some 10) ->
  (strstr text needle = None /\ scan_blocks fuel o text find start = Some NotFound) \/
  exists b q, strstr text needle = Some (b + q)%nat /\ scan_blocks fuel o text find start = Some (FoundAt b (q + k)%nat) /\
    (b = O \/ exists b', b = S b' /\ text !! b' = Some 10) /\ (q < BLOCK)%nat.
Proof using Hseek Hread Hnul Hshort Hbody Hfind.
  induction fuel as [|f IH]; intros start Hfuel Hstart Hno Hbegin; [lia|]. cbn [scan_blocks]. rewrite Hseek, Hread.
  cbn [negb andb]. cbn zeta. rewrite block_text, Hfind by done. destruct (Nat.eqb_spec (length (read_block text start)) 0) as [H0|H0].
  { left. split; [|done]. unfold read_block in H0. rewrite length_take, length_drop in H0.
    apply strstr_absent. intros j. destruct (decide (j < start)%nat); [by apply Hno|].
    rewrite drop_ge by (unfold BLOCK in H0; lia). by destruct body. }
  destruct (strstr (read_block text start) needle) as [q|] eqn:Hs; cbn [fmap option_fmap option_map].
  - right. exists start, q. apply strstr_found in Hs as [Hq Hbefore]. apply occurrence_in_block in Hq as [Hq Hlen].
    split_and!; [|done|done|rewrite length_app in Hlen; cbn [length] in Hlen; lia]. apply strstr_first; [done| |].
    + intros j Hj. destruct (decide (j < start)%nat); [by apply Hno|]. destruct (prefixb needle (drop j text)) eqn:E; [|done].
      pose proof (Hbefore (j - start)%nat ltac:(lia)) as Hn.
      rewrite (proj2 (occurrence_in_block start (j - start))) in Hn; [done|].
      replace (start + (j - start))%nat with j by lia. split; [done|lia].
    + destruct (decide (start + q <= length text)%nat); [done|]. rewrite drop_ge in Hq by lia. by destruct body.
  - destruct (strrchr 10 (read_block text start)) as [q|] eqn:Hr.
    + destruct (no_occurrence_before start q Hno Hs Hr) as (Hlt & Hq & Hno').
      apply IH; [lia|lia|done|]. right. exists (start + q)%nat. split; [lia|done].
    + left. split; [|done]. apply strrchr_None in Hr. apply strstr_absent. intros j.
      destruct (decide (j < start)%nat); [by apply Hno|]. destruct (prefixb needle (drop j text)) eqn:E; [|done]. exfalso. apply Hr.
      destruct (decide (start + BLOCK <= length text)%nat) as [Hb|Hb]; [by apply Hshort|].
      apply occurrence_newline in E. unfold read_block. rewrite take_ge by (rewrite length_drop; lia).
      replace j with (start + (j - start))%nat in E by lia. rewrite <-drop_drop in E. rewrite <-(take_drop (j - start) (drop start text)). apply elem_of_app. by right.
Qed.

Lemma scan_file_spec :
  (strstr text needle = None /\ scan_file o text find = Some NotFound) \/
  exists b q, strstr text needle = Some (b + q)%nat /\ scan_file o text find = Some (FoundAt b (q + k)%nat) /\
    (b = O \/ exists b', b = S b' /\ text !! b' = Some 10) /\ (q < BLOCK)%nat.
Proof using Hseek Hread Hnul Hshort Hbody Hfind. apply scan_blocks_spec; [lia|lia|lia|by left]. Qed.

End Blocks.

(** ** Files made of lines *)

Definition proper_line (l : cstr) : Prop :=
  exists b, l = b ++ [10] /\ (10 ∉ b) /\ nul_free b /\ (length b + 1 < LINE_MAX)%nat.

Lemma line_end_unique (a b x y : cstr) : (10 ∉ a) -> (10 ∉ b) -> a ++ 10 :: x = b ++ 10 :: y -> a = b /\ x = y.
Proof.
  intros Ha Hb H. pose proof (f_equal (strchr 10) H) as Hs. rewrite !strchr_skip in Hs by done. injection Hs as Hs.
  apply app_inj_1 in H as [-> [= ->]]; done.
Qed.

Lemma strstr_skip a rest needle : (forall j, (j < length a)%nat -> prefixb needle (drop j (a ++ rest)) = false) ->
  strstr (a ++ rest) needle = (fun p => length a + p)%nat <$> strstr rest needle.
Proof.
  induction a as [|x a IH]; intros H; [cbn; by destruct (strstr rest needle)|]. cbn [app strstr].
  pose proof (H O ltac:(cbn; lia)) as H0. cbn [drop app] in H0. rewrite H0, IH.
  - by destruct (strstr rest needle).
  - intros j Hj. apply (H (S j)). cbn. lia.
Qed.

(** An occurrence that begins in a line is an end of the line. *)
Lemma occurrence_in_line b more body j : (10 ∉ b) -> (10 ∉ body) -> (j <= length b)%nat ->
  prefixb (body ++ [10]) (drop j (b ++ 10 :: more)) = true <-> drop j b = body.
Proof.
  intros Hb Hbody Hj. rewrite drop_app_le by done. split.
  - intros [c Hc]%prefixb_spec. rewrite <-(assoc_L (++)) in Hc. apply line_end_unique in Hc as [? _]; [done| |done].
    intros Hin. apply Hb. rewrite <-(take_drop j b). apply elem_of_app. by right.
  - intros ->. replace (body ++ 10 :: more) with ((body ++ [10]) ++ more) by by rewrite <-(assoc_L (++)). apply prefixb_app.
Qed.

Lemma strstr_in_line b more body : (10 ∉ b) -> (10 ∉ body) ->
  (exists pre, b = pre ++ body /\ strstr (b ++ 10 :: more) (body ++ [10]) = Some (length pre)) \/
  (forall pre, b <> pre ++ body) /\
  strstr (b ++ 10 :: more) (body ++ [10]) = (fun p => S (length b) + p)%nat <$> strstr more (body ++ [10]).
Proof.
  intros Hb Hbody. destruct (decide (length body <= length b /\ drop (length b - length body) b = body)%nat) as [[Hl Hd]|Hno].
  - left. exists (take (length b - length body) b). split; [rewrite <-Hd at 2; by rewrite take_drop|].
    rewrite length_take, Nat.min_l by lia. apply strstr_first; [by apply occurrence_in_line; [..|lia|]| |rewrite length_app; cbn; lia].
    intros j Hj. destruct (prefixb _ _) eqn:E; [|done]. apply occurrence_in_line in E; [|done|done|lia].
    apply (f_equal length) in E. rewrite length_drop in E. lia.
  - right. assert (forall pre, b <> pre ++ body) as Hpre.
    { intros pre ->. apply Hno. rewrite length_app. split; [lia|].
      replace (length pre + length body - length body)%nat with (length pre) by lia. by rewrite drop_app_length. }
    split; [done|]. replace (b ++ 10 :: more) with ((b ++ [10]) ++ more) by by rewrite <-(assoc_L (++)).
    rewrite strstr_skip; [rewrite length_app; cbn [length]; by rewrite Nat.add_1_r|].
    intros j Hj. rewrite length_app in Hj. cbn [length] in Hj. rewrite <-(assoc_L (++)). cbn [app].
    destruct (prefixb _ _) eqn:E; [|done]. apply occurrence_in_line in E; [|done|done|lia].
    by destruct (Hpre (take j b)); rewrite <-E, take_drop.
Qed.

Section Lines.
Context {A : Type} (f : A -> cstr).

Lemma proper_line_not_nil l : proper_line l -> l <> [].
Proof using Type. intros (b & -> & _). by destruct b. Qed.

Lemma lines_short lines : Forall (fun l => proper_line (f l)) lines -> short_lines (lines ≫= f).
Proof using Type.
  induction 1 as [|l lines Hl _ IH]; intros i Hi; [unfold BLOCK in Hi; cbn in Hi; lia|]. cbn [mbind list_bind] in *.
  destruct Hl as (b & Hl & _ & _ & Hlen). rewrite Hl in *. unfold LINE_MAX in Hlen.
  set (t := b ++ [10]) in *. assert (length t = length b + 1)%nat as Ht by (unfold t; by rewrite length_app).
  rewrite length_app in Hi. unfold read_block. destruct (decide (i < length t)%nat).
  - rewrite drop_app_le, take_app_ge by (rewrite ?length_drop; unfold BLOCK; lia). apply elem_of_app. left.
    destruct (decide (drop i t = [])) as [Hd|Hd]; [apply (f_equal length) in Hd; rewrite length_drop in Hd; cbn [length] in Hd; lia|].
    apply last_in. trans (last t); [|unfold t; by rewrite last_snoc]. rewrite <-(take_drop i t) at 2.
    rewrite last_app. by destruct (last (drop i t)) eqn:E; [|apply last_None in E].
  - rewrite drop_app_ge by lia. apply IH. unfold BLOCK in *. lia.
Qed.

Lemma lines_nul_free lines : Forall (fun l => proper_line (f l)) lines -> nul_free (lines ≫= f).
Proof using Type.
  induction 1 as [|l lines (b & Hl & _ & Hn & _) _ IH]; [constructor|]. cbn [mbind list_bind]. rewrite Hl.
  apply Forall_app. split; [|exact IH]. apply Forall_app. split; [done|]. constructor; [lia|constructor].
Qed.

(** The first line that ends with the text. *)
Lemma strstr_in_lines lines body : Forall (fun l => proper_line (f l)) lines -> (10 ∉ body) ->
  match strstr (lines ≫= f) (body ++ [10]) with
  | None => Forall (fun l => forall pre, f l <> pre ++ body ++ [10]) lines
  | Some p => exists l1 l l2 pre, lines = l1 ++ l :: l2 /\ f l = pre ++ body ++ [10] /\ p = (length (l1 ≫= f) + length pre)%nat /\
      Forall (fun l => forall pre, f l <> pre ++ body ++ [10]) l1
  end.
Proof using Type.
  intros HF Hbody. induction HF as [|l lines (b & Hl & Hb & _) _ IH]; [destruct body; constructor|]. cbn [mbind list_bind].
  rewrite Hl, <-(assoc_L (++)). cbn [app].
  destruct (strstr_in_line b (lines ≫= f) body Hb Hbody) as [(pre & -> & ->)|[Hno ->]].
  - exists [], l, lines, pre. split_and!; [done|by rewrite Hl, <-(assoc_L (++))|done|constructor].
  - assert (forall pre, f l <> pre ++ body ++ [10]) as Hno'.
    { intros pre. rewrite Hl, (assoc_L (++)). intros H%app_inv_tail. by apply (Hno pre). }
    destruct (strstr (lines ≫= f) (body ++ [10])) as [p|]; cbn [fmap option_fmap option_map]; [|by constructor].
    destruct IH as (l1 & l0 & l2 & pre & -> & H1 & -> & H3). exists (l :: l1), l0, l2, pre. split_and!; [done|done| |by constructor].
    cbn [mbind list_bind]. rewrite Hl, !length_app. cbn [length]. lia.
Qed.

End Lines.
