(* ===== verification/Parser.v ===== *)
(** * libmultipath/parser.c: reading the configuration file

    A line is split into tokens, a keyword of the tree is looked up and its
    handler is applied to the tokens.  The parser does not know what a handler
    does to the configuration: [C] is the type of the configuration and [D] that
    of the data a keyword prints. *)

From S2P Require Import Prelude CString File.

Definition MAXBUF : nat := 1024.

(** ** Tokens *)

(** [quote_marker] is a token of its own. *)
Inductive token := Quote | Word (w : cstr).

#[export] Instance token_dec : EqDecision token.
Proof. solve_decision. Defined.

Definition is_quote (t : token) : bool := match t with Quote => true | Word _ => false end.

(** What is skipped between tokens. *)
Definition is_gap (c : Z) : bool := isspace c || negb (isascii c).

Definition skip_gap (cp : cstr) : cstr := snd (span is_gap cp).

(** What ends a word outside of quotes. *)
Definition ends_word (c : Z) : bool := is_gap c || (c =? 33) || (c =? 35) || (c =? 123) || (c =? 125).

(** One word; within a string two quotes stand for one. *)
Fixpoint scan_word (in_string : bool) (cp : cstr) : cstr * cstr :=
  match cp with
  | [] => ([], [])
  | c :: r =>
      if c =? 34 then
        match r with
        | d :: r' =>
            if in_string && (d =? 34) then let '(w, rest) := scan_word in_string r' in (34 :: w, rest) else ([], cp)
        | [] => ([], cp)
        end
      else if in_string || negb (ends_word c)
      then let '(w, rest) := scan_word in_string r in (c :: w, rest)
      else ([], cp)
  end.

(** The next token, what follows, and whether a string is open now. *)
Definition next_token (in_string : bool) (cp : cstr) : token * cstr * bool :=
  match cp with
  | c :: r =>
      if (c =? 34) && negb (in_string && bool_decide (head r = Some 34)) then (Quote, r, negb in_string)
      else if negb in_string && ((c =? 123) || (c =? 125)) then (Word [c], r, in_string)
      else let '(w, rest) := scan_word in_string cp in (Word w, rest, in_string)
  | [] => (Word [], [], in_string)
  end.

Fixpoint strvec_loop (fuel : nat) (in_string : bool) (cp : cstr) : list token :=
  match fuel with
  | O => []
  | S f =>
      let '(tok, rest, in_string) := next_token in_string cp in
      let rest := if in_string then rest else skip_gap rest in
      match rest with
      | [] => [tok]
      | c :: _ => if negb in_string && ((c =? 33) || (c =? 35)) then [tok] else tok :: strvec_loop f in_string rest
      end
  end.

(** [None] for a blank line or a comment; every token has a character. *)
Definition alloc_strvec (string : cstr) : option (list token) :=
  match skip_gap string with
  | [] => None
  | c :: r => if (c =? 33) || (c =? 35) then None else Some (strvec_loop (S (length r)) false (c :: r))
  end.

(** The words up to the closing quote. *)
Fixpoint join_words (strvec : list token) (alloc : cstr) : cstr :=
  match strvec with
  | [] | Quote :: _ => alloc
  | Word w :: r => join_words r (match alloc with [] => w | _ => alloc ++ 32 :: w end)
  end.

Definition set_value (strvec : list token) : option cstr :=
  match strvec !! 1%nat with
  | None => None
  | Some (Word []) => None
  | Some (Word w) => Some w
  | Some Quote => Some (join_words (drop 2 strvec) [])
  end.

Definition is_sublevel_keyword (str : cstr) : bool :=
  existsb (streq str) [s "defaults"; s "blacklist"; s "blacklist_exceptions"; s "devices"; s "device";
                       s "multipaths"; s "multipath"].

(** [true] when the line can be handled. *)
Definition validate_config_strvec (strvec : list token) : bool :=
  match strvec with
  | [] => false
  | t :: r =>
      match t with
      | Word (125 :: _) => true
      | Word (123 :: _) => false
      | Word str => is_sublevel_keyword str || negb (bool_decide (r = []))
      | Quote => negb (bool_decide (r = []))
      end
  end.

(** [read_line] leaves the buffer without its line end. *)
Definition chop_line (buf : cstr) : cstr :=
  let '(pre, rest) := span (in_set [10; 13]) buf in pre ++ cut_at [10; 13] rest.

(** ** Keywords *)

Section Keywords.
Context {C D : Type}.

Definition handler_t : Type := C -> list token -> Z * C.
Definition print_t : Type := C -> D -> cstr.

Inductive keyword :=
  Kw (string : cstr) (handler : option handler_t) (print : option print_t) (unique : bool) (sub : option (list keyword)).

Definition kw_string (k : keyword) : cstr := let 'Kw str _ _ _ _ := k in str.
Definition kw_handler (k : keyword) : option handler_t := let 'Kw _ h _ _ _ := k in h.
Definition kw_print (k : keyword) : option print_t := let 'Kw _ _ p _ _ := k in p.
Definition kw_unique (k : keyword) : bool := let 'Kw _ _ _ u _ := k in u.
Definition kw_sub (k : keyword) : option (list keyword) := let 'Kw _ _ _ _ sub := k in sub.

Definition keyword_alloc (keywords : list keyword) (string : cstr) (h : option handler_t) (p : option print_t)
    (unique : bool) : list keyword :=
  keywords ++ [Kw string h p unique None].

(** Adds below the last keyword, [sublevel] levels down. *)
Fixpoint install_at (sublevel : nat) (keywords : list keyword) (string : cstr) (h : option handler_t)
    (p : option print_t) (unique : bool) : option (list keyword) :=
  match last keywords with
  | None => None
  | Some (Kw str lh lp lu sub) =>
      sub' ← (match sublevel with
              | O => Some (keyword_alloc (default [] sub) string h p unique)
              | S n => install_at n (default [] sub) string h p unique
              end);
      Some (take (length keywords - 1) keywords ++ [Kw str lh lp lu (Some sub')])
  end.

(** The keywords and the static variable [sublevel]. *)
Inductive install :=
  | install_keyword_root (string : cstr) (h : option handler_t)
  | install_keyword (string : cstr) (h : option handler_t) (p : option print_t)
  | install_keyword_multi (string : cstr) (h : option handler_t) (p : option print_t)
  | install_sublevel
  | install_sublevel_end.

(** Keywords that cannot be placed are not installed. *)
Definition do_install (st : nat * list keyword) (i : install) : nat * list keyword :=
  let '(sublevel, keywords) := st in
  match i with
  | install_keyword_root str h => (sublevel, keyword_alloc keywords str h None true)
  | install_keyword str h p => (sublevel, default keywords (install_at sublevel keywords str h p true))
  | install_keyword_multi str h p => (sublevel, default keywords (install_at sublevel keywords str h p false))
  | install_sublevel => (S sublevel, keywords)
  | install_sublevel_end => (pred sublevel, keywords)
  end.

(** A keyword, below [v] too, depth first. *)
Fixpoint find_in (name : cstr) (k : keyword) : option keyword :=
  let 'Kw str _ _ _ sub := k in
  if streq str name then Some k
  else match sub with
       | None => None
       | Some l => (fix go (l : list keyword) : option keyword :=
                      match l with
                      | [] => None
                      | k :: r => match find_in name k with Some x => Some x | None => go r end
                      end) l
       end.

Fixpoint find_keyword (v : list keyword) (name : cstr) : option keyword :=
  match v with
  | [] => None
  | k :: r => match find_in name k with Some x => Some x | None => find_keyword r name end
  end.

(** [%k] is the keyword and [%v] its value; without a value nothing is printed. *)
Fixpoint snprint_loop (conf : C) (k : keyword) (print : print_t) (data : D) (fmt : cstr) : option cstr :=
  match fmt with
  | [] => Some []
  | 37 :: 107 :: r => rest ← snprint_loop conf k print data r; Some (kw_string k ++ rest)
  | 37 :: 118 :: r =>
      match print conf data with
      | [] => None
      | v => rest ← snprint_loop conf k print data r; Some (v ++ rest)
      end
  | 37 :: _ :: r => snprint_loop conf k print data r
  | c :: r => rest ← snprint_loop conf k print data r; Some (c :: rest)
  end.

Definition snprint_keyword (conf : C) (fmt : cstr) (k : keyword) (data : D) : cstr :=
  match kw_print k with
  | None => []
  | Some print => default [] (snprint_loop conf k print data fmt)
  end.

(** ** Reading a file *)

Definition is_keyword (str : cstr) (k : keyword) : bool := streq (kw_string k) str.

(** One line that is not the end of a block: the result so far and the
    configuration; [Some sub] when a block is opened. *)
Definition handle_line (keywords : list keyword) (conf : C) (strvec : list token) (str : cstr)
  : Z * C * option (list keyword) :=
  match List.find (is_keyword str) keywords with
  | None => (0, conf, None)
  | Some k =>
      let '(t, conf) := match kw_handler k with Some h => h conf strvec | None => (0, conf) end in
      (t, conf, kw_sub k)
  end.

(** Reads lines until the end of the block; the return code, the configuration
    and the lines left.  Memory is assumed to last, so that [uniques] only
    causes warnings. *)
Fixpoint process_stream (fuel : nat) (kw_level : nat) (keywords : list keyword) (conf : C) (lines : list cstr) (r : Z)
  : option (Z * C * list cstr) :=
  match lines with
  | [] => Some (r, conf, [])
  | buf :: lines =>
      match fuel with
      | O => None
      | S f =>
          match alloc_strvec (chop_line buf) with
          | None => process_stream f kw_level keywords conf lines r
          | Some strvec =>
              if negb (validate_config_strvec strvec) then process_stream f kw_level keywords conf lines r
              else
                let str := match strvec with Word w :: _ => w | _ => [] end in
                if streq str [125] && (0 <? kw_level)%nat then Some (r, conf, lines)
                else
                  let '(t, conf, sub) := handle_line keywords conf strvec str in
                  match sub with
                  | None => process_stream f kw_level keywords conf lines (r + t)
                  | Some sub =>
                      '(r', conf, lines) ← process_stream f (S kw_level) sub conf lines 0;
                      process_stream f kw_level keywords conf lines (r + t + r')
                  end
          end
      end
  end.

(** [None] stands for a file that cannot be opened. *)
Definition process_file (keywords : list keyword) (conf : C) (text : option cstr) : option (Z * C) :=
  match text with
  | None => Some (1, conf)
  | Some text =>
      let lines := file_lines MAXBUF text in
      '(r, conf, _) ← process_stream (length lines) 0 keywords conf lines 0;
      Some (r, conf)
  end.

End Keywords.

Arguments keyword : clear implicits.
Arguments handler_t : clear implicits.
Arguments print_t : clear implicits.
Arguments install : clear implicits.

Example strvec_1 : alloc_strvec (s "  features " ++ 34 :: s "1 queue" ++ 34 :: s " # x") = Some [Word (s "features"); Quote; Word (s "1 queue"); Quote].
Proof. reflexivity. Qed.
Example strvec_2 : alloc_strvec (s "device {") = Some [Word (s "device"); Word (s "{")].
Proof. reflexivity. Qed.

(** ** Lemmas: a printed line is read back *)

(** A word that needs no quotes. *)
Definition plain_char (c : Z) : bool := negb (ends_word c) && negb (c =? 34).
Definition plain_word (w : cstr) : Prop := w <> [] /\ Forall (fun c => plain_char c = true) w.

#[export] Instance plain_word_dec w : Decision (plain_word w).
Proof. unfold plain_word. apply _. Defined.

(** A text between quotes, as [print_str] of dict.c writes it. *)
Fixpoint double_quotes (p : cstr) : cstr :=
  match p with
  | [] => []
  | c :: r => if c =? 34 then 34 :: 34 :: double_quotes r else c :: double_quotes r
  end.

Definition quoted (p : cstr) : cstr := 34 :: double_quotes p ++ [34].

(** The value a text stands for: itself, or what its quotes hold. *)
Inductive value_text : cstr -> cstr -> Prop :=
  | plain_value w : plain_word w -> value_text w w
  | quoted_value p : value_text (quoted p) p.

Lemma plain_not_gap c : plain_char c = true -> is_gap c = false /\ (c =? 33) = false /\ (c =? 35) = false /\
  (c =? 34) = false /\ (c =? 123) = false /\ (c =? 125) = false.
Proof.
  unfold plain_char, ends_word. intros H. apply andb_true_iff in H as [H ->%negb_true_iff].
  apply negb_true_iff in H. rewrite !orb_false_iff in H. tauto.
Qed.

Lemma skip_gap_all g r : Forall (fun c => is_gap c = true) g ->
  match r with [] => True | c :: _ => is_gap c = false end -> skip_gap (g ++ r) = r.
Proof. intros Hg Hr. unfold skip_gap. by rewrite span_intro. Qed.

Lemma skip_gap_id c r : is_gap c = false -> skip_gap (c :: r) = c :: r.
Proof. intros H. by apply (skip_gap_all []). Qed.

(** A word ends at the end of the line or at a blank. *)
Lemma scan_plain w r : Forall (fun c => plain_char c = true) w ->
  match r with [] => True | c :: _ => c = 32 end -> scan_word false (w ++ r) = (w, r).
Proof.
  intros Hw Hr. induction Hw as [|c w Hc _ IH].
  - destruct r as [|c r]; [done|]. by subst c.
  - pose proof (plain_not_gap c Hc) as (_ & _ & _ & Hq & _). cbn [app scan_word]. rewrite Hq, IH.
    unfold plain_char in Hc. apply andb_true_iff in Hc as [-> _]. done.
Qed.

Lemma next_plain w r : plain_word w -> match r with [] => True | c :: _ => c = 32 end ->
  next_token false (w ++ r) = (Word w, r, false).
Proof.
  intros [Hne Hw] Hr. destruct w as [|c w]; [done|].
  pose proof (plain_not_gap c (Forall_inv Hw)) as (_ & _ & _ & Hq & Ho & Hc).
  unfold next_token. cbn [app]. rewrite Hq, Ho, Hc. cbn [andb orb negb].
  change (c :: w ++ r) with ((c :: w) ++ r). by rewrite (scan_plain (c :: w) r Hw Hr).
Qed.

Lemma scan_quoted p : scan_word true (double_quotes p ++ [34]) = (p, [34]).
Proof.
  induction p as [|c p IH]; [done|]. cbn [double_quotes]. destruct (Z.eqb_spec c 34) as [->|Hc].
  - cbn [app scan_word Z.eqb Pos.eqb andb]. by rewrite IH.
  - cbn [app scan_word]. rewrite (proj2 (Z.eqb_neq c 34) Hc), IH. done.
Qed.

Lemma next_quoted p : p <> [] -> next_token true (double_quotes p ++ [34]) = (Word p, [34], true).
Proof.
  intros Hp. unfold next_token. rewrite scan_quoted. destruct p as [|c p]; [done|]. cbn [double_quotes].
  destruct (Z.eqb_spec c 34) as [->|Hc]; [done|].
  cbn [app]. by rewrite (proj2 (Z.eqb_neq c 34) Hc).
Qed.

(** The tokens of a value. *)
Definition value_tokens (v p : cstr) : list token :=
  if bool_decide (v = p) then [Word p] else match p with [] => [Quote; Quote] | _ => [Quote; Word p; Quote] end.

Lemma quoted_longer p : (length p < length (quoted p))%nat.
Proof.
  unfold quoted. cbn. rewrite length_app. cbn.
  assert (length p <= length (double_quotes p))%nat; [|lia].
  induction p as [|c p IH]; [done|]. cbn. destruct (c =? 34); cbn; lia.
Qed.

Lemma value_loop f v p : value_text v p -> (length v < f)%nat -> strvec_loop f false v = value_tokens v p.
Proof.
  unfold value_tokens. intros [w Hw|q] Hf.
  - rewrite bool_decide_eq_true_2 by done. pose proof (next_plain w [] Hw I) as Hn. rewrite app_nil_r in Hn.
    destruct f as [|f]; [lia|]. cbn [strvec_loop]. by rewrite Hn.
  - rewrite bool_decide_eq_false_2 by (intros H; pose proof (quoted_longer q) as Hl; rewrite H in Hl; lia).
    unfold quoted in *. cbn [length] in Hf. rewrite length_app in Hf. cbn [length] in Hf.
    destruct f as [|[|[|f]]]; [lia..|].
    change (strvec_loop (S (S (S f))) false (34 :: double_quotes q ++ [34])) with
      (match double_quotes q ++ [34] with [] => [Quote] | _ => Quote :: strvec_loop (S (S f)) true (double_quotes q ++ [34]) end).
    destruct (decide (q = [])) as [->|Hq]; [done|].
    pose proof (next_quoted q Hq) as Hn. cbn [strvec_loop]. rewrite Hn.
    destruct (double_quotes q ++ [34]) as [|c r] eqn:E; [by destruct (double_quotes q)|]. by destruct q.
Qed.

Lemma value_head v p : value_text v p ->
  exists c r, v = c :: r /\ is_gap c = false /\ (c =? 33) = false /\ (c =? 35) = false.
Proof.
  intros [w [Hne Hw]|q]; [|by exists 34, (double_quotes q ++ [34])].
  destruct w as [|c w]; [done|]. pose proof (plain_not_gap c (Forall_inv Hw)) as (?&?&?&_). eauto 6.
Qed.

Lemma value_long v p : value_text v p -> (1 <= length v)%nat.
Proof. intros (c & r & -> & _)%value_head. cbn. lia. Qed.

Lemma strvec_keyword_value g kw v p : Forall (fun c => is_gap c = true) g -> plain_word kw -> value_text v p ->
  alloc_strvec (g ++ kw ++ 32 :: v) = Some (Word kw :: value_tokens v p).
Proof.
  intros Hg Hkw Hv. pose proof (value_head v p Hv) as (d & r & Hvd & Hd & Hd33 & Hd35).
  assert (skip_gap (32 :: v) = v) as Hskip by (rewrite Hvd; by apply (skip_gap_all [32]); [repeat constructor|]).
  assert (exists c k, kw = c :: k /\ is_gap c = false /\ (c =? 33) = false /\ (c =? 35) = false) as (c & k & Ek & Hc & H33 & H35).
  { destruct Hkw as [Hne Hall]. destruct kw as [|c k]; [done|]. exists c, k.
    pose proof (plain_not_gap c (Forall_inv Hall)). tauto. }
  unfold alloc_strvec. rewrite skip_gap_all; [|done|by rewrite Ek]. rewrite Ek. cbn [app]. rewrite H33, H35. cbn [orb].
  change (c :: k ++ 32 :: v) with ((c :: k) ++ 32 :: v). rewrite <-Ek. f_equal.
  cbn [strvec_loop]. rewrite next_plain, Hskip by done. rewrite Hvd at 1. rewrite Hd33, Hd35. cbn [orb negb andb].
  f_equal. apply value_loop; [done|]. rewrite length_app. cbn [length]. lia.
Qed.

Lemma set_value_keyword kw v p : value_text v p -> set_value (Word kw :: value_tokens v p) = Some p.
Proof.
  unfold value_tokens. intros [w [Hne Hw]|q].
  - rewrite bool_decide_eq_true_2 by done. by destruct w.
  - case_bool_decide as H; [pose proof (quoted_longer q) as Hl; rewrite H in Hl; lia|]. by destruct q.
Qed.

Lemma validate_keyword kw v p : value_text v p -> kw <> [] ->
  validate_config_strvec (Word kw :: value_tokens v p) = negb (bool_decide (head kw = Some 123)).
Proof.
  intros Hv Hkw. assert (value_tokens v p <> []) as Hne.
  { unfold value_tokens. case_bool_decide; [done|]. by destruct p. }
  unfold validate_config_strvec. destruct (value_tokens v p) as [|t r]; [done|]. destruct kw as [|c kw]; [done|].
  rewrite (bool_decide_eq_false_2 (t :: r = [])) by done. cbn [negb head]. rewrite orb_true_r.
  destruct (decide (c = 123)) as [->|Hc]; [done|].
  rewrite bool_decide_eq_false_2 by congruence. cbn [negb].
  repeat (case_match; try done).
Qed.

(** ** Lemmas: the parser returns, and keeps what the handlers keep *)

Section Reading.
Context {C D : Type}.
Implicit Types (conf : C) (keywords : list (keyword C D)).

Lemma process_stream_returns fuel : forall lvl keywords conf lines r, (length lines <= fuel)%nat ->
  exists r' conf' rest, process_stream fuel lvl keywords conf lines r = Some (r', conf', rest) /\
                        rest `suffix_of` lines.
Proof.
  induction fuel as [|f IH]; intros lvl keywords conf [|buf lines] r Hlen; [|cbn in Hlen; lia|..].
  1,2: by exists r, conf, []. cbn [length] in Hlen. cbn [process_stream].
  assert (forall conf r, exists r' conf' rest,
    process_stream f lvl keywords conf lines r = Some (r', conf', rest) /\ rest `suffix_of` buf :: lines) as Hnext.
  { intros conf1 r1. destruct (IH lvl keywords conf1 lines r1) as (r' & conf' & rest & H & Hs); [lia|].
    exists r', conf', rest. split; [done|]. by apply suffix_cons_r. }
  destruct (alloc_strvec (chop_line buf)) as [strvec|]; [|done].
  destruct (negb (validate_config_strvec strvec)); [done|]. cbv zeta.
  destruct (streq _ [125] && (0 <? lvl)%nat); [exists r, conf, lines; split; [done|by apply suffix_cons_r]|].
  destruct (handle_line keywords conf strvec _) as [[t conf1] [sub|]]; [|done].
  destruct (IH (S lvl) sub conf1 lines 0) as (r1 & conf2 & rest1 & H1 & Hs1); [lia|]. rewrite H1. cbn [mbind option_bind].
  destruct (IH lvl keywords conf2 rest1 (r + t + r1)) as (r2 & conf3 & rest2 & H2 & Hs2); [apply suffix_length in Hs1; lia|].
  exists r2, conf3, rest2. split; [done|]. apply suffix_cons_r. by etrans.
Qed.

Lemma process_file_returns keywords conf text : exists r conf', process_file keywords conf text = Some (r, conf').
Proof.
  destruct text as [text|]; [|by exists 1, conf]. unfold process_file. cbv zeta.
  destruct (process_stream_returns (length (file_lines MAXBUF text)) 0 keywords conf (file_lines MAXBUF text) 0)
    as (r & conf' & rest & -> & _); [done|]. by exists r, conf'.
Qed.

(** Every handler, at every level, keeps [P]. *)
Variable P : C -> Prop.

Definition handler_keeps (h : option (handler_t C)) : Prop :=
  match h with Some h => forall conf strvec, P conf -> P (snd (h conf strvec)) | None => True end.

Fixpoint keeps (k : keyword C D) : Prop :=
  let 'Kw _ h _ _ sub := k in
  handler_keeps h /\
  match sub with
  | Some l => (fix go (l : list (keyword C D)) : Prop := match l with [] => True | k :: r => keeps k /\ go r end) l
  | None => True
  end.

Lemma keeps_eq str h p u sub : keeps (Kw str h p u sub) <->
  handler_keeps h /\ (match sub with Some l => Forall keeps l | None => True end).
Proof.
  cbn [keeps]. apply and_iff_compat_l. destruct sub as [l|]; [|done].
  induction l as [|k l IH]; [by split; [constructor|]|]. rewrite Forall_cons. by rewrite IH.
Qed.

Lemma process_stream_keeps fuel : forall lvl keywords conf lines r r' conf' rest,
  Forall keeps keywords -> P conf -> process_stream fuel lvl keywords conf lines r = Some (r', conf', rest) -> P conf'.
Proof.
  induction fuel as [|f IH]; intros lvl keywords conf [|buf lines] r r' conf' rest Hk HP; cbn [process_stream];
    [by intros [= _ <- _]|done|by intros [= _ <- _]|].
  destruct (alloc_strvec (chop_line buf)) as [strvec|]; [|by apply IH].
  destruct (negb (validate_config_strvec strvec)); [by apply IH|]. cbv zeta.
  destruct (streq _ [125] && (0 <? lvl)%nat); [by intros [= _ <- _]|].
  destruct (handle_line keywords conf strvec _) as [[t conf1] sub] eqn:Hline.
  assert (P conf1 /\ match sub with Some l => Forall keeps l | None => True end) as [HP1 Hsub].
  { unfold handle_line in Hline. destruct (List.find _ keywords) as [[str h p u sub0]|] eqn:Hf.
    - apply find_some in Hf as [Hin _]. rewrite Forall_forall in Hk.
      apply list_elem_of_In in Hin. apply Hk, keeps_eq in Hin as [Hh Hs].
      cbn [kw_handler kw_sub] in Hline. destruct h as [h|].
      + specialize (Hh conf strvec HP). destruct (h conf strvec) as [t1 conf2]. by simplify_eq/=.
      + by simplify_eq.
    - by simplify_eq. }
  destruct sub as [sub|]; [|by apply IH].
  destruct (process_stream f (S lvl) sub conf1 lines 0) as [[[r1 conf2] rest1]|] eqn:H1; [|done].
  cbn [mbind option_bind]. apply IH; [done|]. by eapply IH.
Qed.

Lemma process_file_keeps keywords conf text r conf' : Forall keeps keywords -> P conf ->
  process_file keywords conf text = Some (r, conf') -> P conf'.
Proof.
  intros Hk HP. destruct text as [text|]; [|by intros [= _ <-]]. unfold process_file. cbv zeta.
  destruct (process_stream _ _ _ _ _ _) as [[[r1 conf1] rest]|] eqn:H; [|done]. intros [= _ <-].
  by eapply process_stream_keeps.
Qed.

(** The handlers of the installed keywords are those of the list of commands. *)
Definition install_keeps (i : install C D) : Prop :=
  match i with
  | install_keyword_root _ h | install_keyword _ h _ | install_keyword_multi _ h _ => handler_keeps h
  | install_sublevel | install_sublevel_end => True
  end.

Lemma keyword_alloc_keeps keywords str h p u : Forall keeps keywords -> handler_keeps h ->
  Forall keeps (keyword_alloc keywords str h p u).
Proof.
  intros Hk Hh. apply Forall_app. split; [done|]. constructor; [|done]. by apply keeps_eq.
Qed.

Lemma install_at_keeps n : forall keywords str h p u keywords', Forall keeps keywords -> handler_keeps h ->
  install_at n keywords str h p u = Some keywords' -> Forall keeps keywords'.
Proof.
  induction n as [|n IH]; intros keywords str h p u keywords' Hk Hh; cbn [install_at];
    destruct (last keywords) as [[str0 h0 p0 u0 sub0]|] eqn:Hlast; try done;
    apply last_Some in Hlast as [l ->]; apply Forall_app in Hk as [Hl Hlast%Forall_inv];
    apply keeps_eq in Hlast as [Hh0 Hs0]; rewrite length_app, Nat.add_sub, take_app_length;
    assert (Forall keeps (default [] sub0)) as Hd by (by destruct sub0; [|constructor]).
  - cbn [mbind option_bind]. intros [= <-]. apply Forall_app. split; [done|]. constructor; [|done].
    apply keeps_eq. split; [done|]. by apply keyword_alloc_keeps.
  - destruct (install_at n (default [] sub0) str h p u) as [sub'|] eqn:Hsub; [|done].
    cbn [mbind option_bind]. intros [= <-]. apply Forall_app. split; [done|]. constructor; [|done].
    apply keeps_eq. split; [done|]. by eapply IH.
Qed.

Lemma install_keeps_all l st : Forall install_keeps l -> Forall keeps (snd st) ->
  Forall keeps (snd (fold_left do_install l st)).
Proof.
  intros Hl. revert st. induction Hl as [|i l Hi _ IH]; intros [lvl keywords] Hk; [done|].
  cbn [fold_left]. apply IH. cbn [snd] in Hk. destruct i as [str h|str h p|str h p| |]; cbn [do_install snd]; [|..|done|done].
  - by apply keyword_alloc_keeps.
  - destruct (install_at lvl keywords str h p true) eqn:E; [|done]. by eapply install_at_keeps.
  - destruct (install_at lvl keywords str h p false) eqn:E; [|done]. by eapply install_at_keeps.
Qed.

End Reading.

(** ** Lemmas: reading the lines of a block *)

(** The text of a line without its end. *)
Definition line_body (b : cstr) : Prop :=
  b <> [] /\ Forall (fun c => c <> 10 /\ c <> 13) b /\ (length b + 1 < MAXBUF)%nat.

#[export] Instance line_body_dec b : Decision (line_body b).
Proof. unfold line_body. apply _. Defined.

Lemma body_no_newline b : line_body b -> 10 ∉ b.
Proof. intros (_ & H & _) Hin. rewrite Forall_forall in H. by destruct (H 10 Hin). Qed.

Lemma file_lines_bodies bodies : Forall line_body bodies ->
  file_lines MAXBUF (bodies ≫= (fun b => b ++ [10])) = (fun b => b ++ [10]) <$> bodies.
Proof.
  induction 1 as [|b l Hb _ IH]; [done|]. cbn [fmap list_fmap mbind list_bind].
  rewrite file_lines_cons; [|unfold MAXBUF; lia|by destruct b].
  rewrite <-app_assoc. cbn [app].
  rewrite fgets_line; [|by apply body_no_newline|by destruct Hb as (_ & _ & ?)]. cbn [fst snd]. by rewrite IH.
Qed.

Lemma chop_body b : line_body b -> chop_line (b ++ [10]) = b.
Proof.
  intros (Hne & Hb & _). unfold chop_line. destruct b as [|c b]; [done|].
  pose proof (Forall_inv Hb) as [H10 H13]. cbn [app span].
  assert (in_set [10; 13] c = false) as -> by (unfold in_set; cbn; lia).
  cbn [app]. change (c :: b ++ [10]) with ((c :: b) ++ 10 :: []). rewrite cut_at_app; [done| |done].
  eapply Forall_impl; [exact Hb|]. intros x [Hx1 Hx2]. unfold in_set. cbn. lia.
Qed.

Section Runs.
Context {C D : Type}.
Implicit Types (conf : C) (keywords sub : list (keyword C D)) (lines : list cstr).

Lemma process_stream_more f : forall g lvl keywords conf lines r x, (f <= g)%nat ->
  process_stream f lvl keywords conf lines r = Some x -> process_stream g lvl keywords conf lines r = Some x.
Proof.
  induction f as [|f IH]; intros [|g] lvl keywords conf [|buf lines] r x Hfg; try done; try lia.
  cbn [process_stream]. apply le_S_n in Hfg.
  destruct (alloc_strvec (chop_line buf)) as [strvec|]; [|by apply IH].
  destruct (negb (validate_config_strvec strvec)); [by apply IH|]. cbv zeta.
  destruct (streq _ [125] && (0 <? lvl)%nat); [done|].
  destruct (handle_line keywords conf strvec _) as [[t conf1] [sub|]]; [|by apply IH].
  destruct (process_stream f (S lvl) sub conf1 lines 0) as [[[r1 conf2] rest]|] eqn:E; [|done].
  rewrite (IH g _ _ _ _ _ _ Hfg E). cbn [mbind option_bind]. by apply IH.
Qed.

(** Reading [lines] gives [res], with as much fuel as it takes. *)
Definition runs (lvl : nat) keywords conf lines (r : Z) (res : Z * C * list cstr) : Prop :=
  exists f, process_stream f lvl keywords conf lines r = Some res.

Lemma runs_nil lvl keywords conf r : runs lvl keywords conf [] r (r, conf, []).
Proof. by exists 1%nat. Qed.

(** A line that opens no block. *)
Lemma runs_line lvl keywords conf b lines r res kw v p k h :
  line_body b -> (exists g, Forall (fun c => is_gap c = true) g /\ b = g ++ kw ++ 32 :: v) ->
  plain_word kw -> value_text v p ->
  List.find (is_keyword kw) keywords = Some k -> kw_sub k = None -> kw_handler k = Some h ->
  (let '(t, conf1) := h conf (Word kw :: value_tokens v p) in runs lvl keywords conf1 lines (r + t) res) ->
  runs lvl keywords conf ((b ++ [10]) :: lines) r res.
Proof.
  intros Hb (g & Hg & Hbg) Hkw Hv Hfind Hsub Hh Hrest.
  destruct (h conf (Word kw :: value_tokens v p)) as [t conf1] eqn:Ht. destruct Hrest as [f Hf]. exists (S f).
  cbn [process_stream]. rewrite chop_body by done. rewrite Hbg, (strvec_keyword_value g kw v p) by done.
  assert (exists c k', kw = c :: k' /\ c <> 123 /\ c <> 125) as (c & k' & Hkc & H123 & H125).
  { destruct Hkw as [Hne Hw]. destruct kw as [|c k']; [done|]. apply Forall_inv in Hw.
    apply plain_not_gap in Hw as (_ & _ & _ & _ & ?%Z.eqb_neq & ?%Z.eqb_neq). eauto. }
  rewrite validate_keyword by (done || by rewrite Hkc).
  rewrite bool_decide_eq_false_2 by (rewrite Hkc; cbn; congruence). cbn [negb]. cbv zeta.
  assert (streq kw [125] = false) as -> by (apply bool_decide_eq_false_2; rewrite Hkc; congruence).
  cbn [andb]. unfold handle_line. by rewrite Hfind, Hh, Ht, Hsub.
Qed.

(** A line that opens a block: [kw {]. *)
Lemma runs_block lvl keywords conf b lines r res kw k sub r1 conf2 rest :
  line_body b -> (exists g, Forall (fun c => is_gap c = true) g /\ b = g ++ kw ++ [32; 123]) ->
  alloc_strvec b = Some [Word kw; Word [123]] -> head kw <> Some 123 -> head kw <> Some 125 -> kw <> [] ->
  List.find (is_keyword kw) keywords = Some k -> kw_sub k = Some sub ->
  (let '(t, conf1) := match kw_handler k with Some h => h conf [Word kw; Word [123]] | None => (0, conf) end in
   runs (S lvl) sub conf1 lines 0 (r1, conf2, rest) /\ runs lvl keywords conf2 rest (r + t + r1) res) ->
  runs lvl keywords conf ((b ++ [10]) :: lines) r res.
Proof.
  intros Hb (g & Hg & Hbg) Halloc H123 H125 Hne Hfind Hsub Hrest.
  destruct (match kw_handler k with Some h => h conf _ | None => _ end) as [t conf1] eqn:Ht.
  destruct Hrest as [[f1 Hf1] [f2 Hf2]]. exists (S (f1 + f2)).
  cbn [process_stream]. rewrite chop_body, Halloc by done.
  assert (validate_config_strvec [Word kw; Word [123]] = true) as ->.
  { unfold validate_config_strvec. destruct kw as [|c kw]; [done|]. cbn in H123, H125.
    rewrite orb_true_r. repeat (case_match; try done). }
  cbn [negb]. cbv zeta.
  assert (streq kw [125] = false) as -> by (apply bool_decide_eq_false_2; intros ->; done).
  cbn [andb]. unfold handle_line. rewrite Hfind, Ht, Hsub.
  rewrite (process_stream_more f1 (f1 + f2) _ _ _ _ _ _ ltac:(lia) Hf1). cbn [mbind option_bind].
  by apply (process_stream_more f2); [lia|].
Qed.

(** The end of a block. *)
Lemma runs_end lvl keywords conf b lines r : (0 < lvl)%nat -> line_body b -> alloc_strvec b = Some [Word [125]] ->
  runs lvl keywords conf ((b ++ [10]) :: lines) r (r, conf, lines).
Proof.
  intros Hlvl Hb Ha. exists 1%nat. cbn [process_stream]. rewrite chop_body, Ha by done.
  cbn [validate_config_strvec negb]. cbv zeta. change (streq [125] [125]) with true.
  by rewrite (proj2 (Nat.ltb_lt 0 lvl)).
Qed.

Lemma runs_process_file keywords conf bodies r conf' : Forall line_body bodies ->
  runs 0 keywords conf ((fun b => b ++ [10]) <$> bodies) 0 (r, conf', []) ->
  process_file keywords conf (Some (bodies ≫= (fun b => b ++ [10]))) = Some (r, conf').
Proof.
  intros Hb [f Hf]. unfold process_file. cbv zeta. rewrite file_lines_bodies by done.
  set (lines := _ <$> bodies) in *.
  destruct (process_stream_returns (length lines) 0 keywords conf lines 0) as (r1 & conf1 & rest1 & H1 & _); [done|].
  pose proof (process_stream_more _ (Nat.max f (length lines)) _ _ _ _ _ _ (Nat.le_max_r _ _) H1) as H2.
  pose proof (process_stream_more _ (Nat.max f (length lines)) _ _ _ _ _ _ (Nat.le_max_l _ _) Hf) as H3.
  rewrite H1. cbn [mbind option_bind]. congruence.
Qed.

End Runs.
