(* ===== verification/Cli.v ===== *)
(** * multipathd/cli.c: the commands of the daemon

    The words of a command are keys, the sum of their codes is looked up in the
    table of handlers, and [uxsock_trigger] of main.c decides who may run what.
    A handler is named by its callback; what it does is an argument. *)

From S2P Require Import Prelude CString File Parser.

(** ** Codes *)

Definition LIST : Z := Z.shiftl 1 0.
Definition ADD : Z := Z.shiftl 1 1.
Definition DEL : Z := Z.shiftl 1 2.
Definition SWITCH : Z := Z.shiftl 1 3.
Definition SUSPEND : Z := Z.shiftl 1 4.
Definition RESUME : Z := Z.shiftl 1 5.
Definition REINSTATE : Z := Z.shiftl 1 6.
Definition FAIL : Z := Z.shiftl 1 7.
Definition RESIZE : Z := Z.shiftl 1 8.
Definition RESET : Z := Z.shiftl 1 9.
Definition RELOAD : Z := Z.shiftl 1 10.
Definition FORCEQ : Z := Z.shiftl 1 11.
Definition DISABLEQ : Z := Z.shiftl 1 12.
Definition RESTOREQ : Z := Z.shiftl 1 13.
Definition PATHS : Z := Z.shiftl 1 14.
Definition MAPS : Z := Z.shiftl 1 15.
Definition PATH : Z := Z.shiftl 1 16.
Definition MAP : Z := Z.shiftl 1 17.
Definition GROUP : Z := Z.shiftl 1 18.
Definition RECONFIGURE : Z := Z.shiftl 1 19.
Definition DAEMON : Z := Z.shiftl 1 20.
Definition STATUS : Z := Z.shiftl 1 21.
Definition STATS : Z := Z.shiftl 1 22.
Definition TOPOLOGY : Z := Z.shiftl 1 23.
Definition CONFIG : Z := Z.shiftl 1 24.
Definition BLACKLIST : Z := Z.shiftl 1 25.
Definition DEVICES : Z := Z.shiftl 1 26.
Definition RAW : Z := Z.shiftl 1 27.
Definition WILDCARDS : Z := Z.shiftl 1 28.
Definition QUIT : Z := Z.shiftl 1 29.
Definition SHUTDOWN : Z := Z.shiftl 1 30.
Definition GETPRSTATUS : Z := Z.shiftl 1 31.
Definition SETPRSTATUS : Z := Z.shiftl 1 32.
Definition UNSETPRSTATUS : Z := Z.shiftl 1 33.
Definition FMT : Z := Z.shiftl 1 34.
Definition JSON : Z := Z.shiftl 1 35.
Definition GETPRKEY : Z := Z.shiftl 1 36.
Definition SETPRKEY : Z := Z.shiftl 1 37.
Definition UNSETPRKEY : Z := Z.shiftl 1 38.
Definition KEY : Z := Z.shiftl 1 39.
Definition LOCAL : Z := Z.shiftl 1 40.
Definition SETMARGINAL : Z := Z.shiftl 1 41.
Definition UNSETMARGINAL : Z := Z.shiftl 1 42.

Definition ENOMEM : Z := 12.
Definition EAGAIN : Z := 11.
Definition EINVAL : Z := 22.
Definition ETIMEDOUT : Z := 110.
Definition INITIAL_REPLY_LEN : nat := 1200.
Definition MAX_REPLY_LEN : N := 32 * 1024 * 1024.

Inductive callback :=
  | cli_list_paths | cli_list_paths_fmt | cli_list_paths_raw | cli_list_path | cli_list_maps
  | cli_list_status | cli_list_daemon | cli_list_maps_status | cli_list_maps_stats | cli_list_maps_fmt
  | cli_list_maps_raw | cli_list_maps_topology | cli_list_maps_json | cli_list_map_topology
  | cli_list_map_fmt | cli_list_map_json | cli_list_config_local | cli_list_config | cli_list_blacklist
  | cli_list_devices | cli_list_wildcards | cli_reset_maps_stats | cli_reset_map_stats | cli_add_path
  | cli_del_path | cli_add_map | cli_del_map | cli_del_maps | cli_switch_group | cli_reconfigure
  | cli_suspend | cli_resume | cli_resize | cli_reload | cli_reassign | cli_reinstate | cli_fail
  | cli_disable_queueing | cli_restore_queueing | cli_disable_all_queueing | cli_restore_all_queueing
  | cli_quit | cli_shutdown | cli_getprstatus | cli_setprstatus | cli_unsetprstatus | cli_force_no_daemon_q
  | cli_restore_no_daemon_q | cli_getprkey | cli_setprkey | cli_unsetprkey | cli_set_marginal
  | cli_unset_marginal | cli_unset_all_marginal.

#[export] Instance callback_dec : EqDecision callback.
Proof. solve_decision. Defined.

Record key := { k_str : cstr; k_param : option cstr; code : Z; has_param : bool }.
Record handler := { h_fingerprint : Z; locked : bool; fn : option callback }.

#[export] Instance key_dec : EqDecision key.
Proof. solve_decision. Defined.
#[export] Instance handler_dec : EqDecision handler.
Proof. solve_decision. Defined.

(** ** Tables *)

Definition add_key (vec : list key) (str : cstr) (c : Z) (hp : bool) : list key :=
  vec ++ [{| k_str := str; k_param := None; code := c; has_param := hp |}].

Definition add_handler (handlers : list handler) (fp : Z) (f : option callback) : list handler :=
  handlers ++ [{| h_fingerprint := fp; locked := false; fn := f |}].

Definition find_handler (handlers : list handler) (fp : Z) : option handler :=
  List.find (fun h => h_fingerprint h =? fp) handlers.

(** The first handler of the fingerprint gets the function. *)
Fixpoint set_fn (handlers : list handler) (fp : Z) (lock : bool) (f : callback) : Z * list handler :=
  match handlers with
  | [] => (1, [])
  | h :: r =>
      if h_fingerprint h =? fp then (0, {| h_fingerprint := fp; locked := lock; fn := Some f |} :: r)
      else let '(rc, r) := set_fn r fp lock f in (rc, h :: r)
  end.

Definition set_handler_callback (handlers : list handler) (fp : Z) (f : callback) := set_fn handlers fp true f.
Definition set_unlocked_handler_callback (handlers : list handler) (fp : Z) (f : callback) := set_fn handlers fp false f.

Definition key_table : list (string * Z * bool) :=
  ([("list", LIST, false); ("show", LIST, false); ("add", ADD, false); ("remove", DEL, false); ("del", DEL, false);
   ("switch", SWITCH, false); ("switchgroup", SWITCH, false); ("suspend", SUSPEND, false);
   ("resume", RESUME, false); ("reinstate", REINSTATE, false); ("fail", FAIL, false); ("resize", RESIZE, false);
   ("reset", RESET, false); ("reload", RELOAD, false); ("forcequeueing", FORCEQ, false);
   ("disablequeueing", DISABLEQ, false); ("restorequeueing", RESTOREQ, false); ("paths", PATHS, false);
   ("maps", MAPS, false); ("multipaths", MAPS, false); ("path", PATH, true); ("map", MAP, true);
   ("multipath", MAP, true); ("group", GROUP, true); ("reconfigure", RECONFIGURE, false);
   ("daemon", DAEMON, false); ("status", STATUS, false); ("stats", STATS, false); ("topology", TOPOLOGY, false);
   ("config", CONFIG, false); ("blacklist", BLACKLIST, false); ("devices", DEVICES, false); ("raw", RAW, false);
   ("wildcards", WILDCARDS, false); ("quit", QUIT, false); ("exit", QUIT, false); ("shutdown", SHUTDOWN, false);
   ("getprstatus", GETPRSTATUS, false); ("setprstatus", SETPRSTATUS, false);
   ("unsetprstatus", UNSETPRSTATUS, false); ("format", FMT, true); ("json", JSON, false);
   ("getprkey", GETPRKEY, false); ("setprkey", SETPRKEY, false); ("unsetprkey", UNSETPRKEY, false);
   ("key", KEY, true); ("local", LOCAL, false); ("setmarginal", SETMARGINAL, false);
   ("unsetmarginal", UNSETMARGINAL, false)])%string.

Definition load_keys : list key := foldl (fun ks '(str, c, hp) => add_key ks (s str) c hp) [] key_table.

Definition fingerprint_table : list Z :=
  [LIST + PATHS; LIST + PATHS + FMT; LIST + PATHS + RAW + FMT; LIST + PATH; LIST + STATUS; LIST + DAEMON;
   LIST + MAPS; LIST + MAPS + STATUS; LIST + MAPS + STATS; LIST + MAPS + FMT; LIST + MAPS + RAW + FMT;
   LIST + MAPS + TOPOLOGY; LIST + MAPS + JSON; LIST + TOPOLOGY; LIST + MAP + TOPOLOGY; LIST + MAP + JSON;
   LIST + MAP + FMT; LIST + MAP + RAW + FMT; LIST + CONFIG; LIST + CONFIG + LOCAL; LIST + BLACKLIST;
   LIST + DEVICES; LIST + WILDCARDS; RESET + MAPS + STATS; RESET + MAP + STATS; ADD + PATH; DEL + PATH; ADD + MAP;
   DEL + MAP; DEL + MAPS; SWITCH + MAP + GROUP; RECONFIGURE; SUSPEND + MAP; RESUME + MAP; RESIZE + MAP;
   RESET + MAP; RELOAD + MAP; DISABLEQ + MAP; RESTOREQ + MAP; DISABLEQ + MAPS; RESTOREQ + MAPS; REINSTATE + PATH;
   FAIL + PATH; QUIT; SHUTDOWN; GETPRSTATUS + MAP; SETPRSTATUS + MAP; UNSETPRSTATUS + MAP; GETPRKEY + MAP;
   SETPRKEY + MAP + KEY; UNSETPRKEY + MAP; FORCEQ + DAEMON; RESTOREQ + DAEMON; SETMARGINAL + PATH;
   UNSETMARGINAL + PATH; UNSETMARGINAL + MAP].

Definition cli_init : list handler := foldl (fun hs fp => add_handler hs fp None) [] fingerprint_table.

(** Whether it is called with the lock, the fingerprint and the function. *)
Definition callback_table : list (bool * Z * callback) :=
  [(true, LIST + PATHS, cli_list_paths); (true, LIST + PATHS + FMT, cli_list_paths_fmt);
   (true, LIST + PATHS + RAW + FMT, cli_list_paths_raw); (true, LIST + PATH, cli_list_path);
   (true, LIST + MAPS, cli_list_maps); (true, LIST + STATUS, cli_list_status);
   (false, LIST + DAEMON, cli_list_daemon); (true, LIST + MAPS + STATUS, cli_list_maps_status);
   (true, LIST + MAPS + STATS, cli_list_maps_stats); (true, LIST + MAPS + FMT, cli_list_maps_fmt);
   (true, LIST + MAPS + RAW + FMT, cli_list_maps_raw); (true, LIST + MAPS + TOPOLOGY, cli_list_maps_topology);
   (true, LIST + TOPOLOGY, cli_list_maps_topology); (true, LIST + MAPS + JSON, cli_list_maps_json);
   (true, LIST + MAP + TOPOLOGY, cli_list_map_topology); (true, LIST + MAP + FMT, cli_list_map_fmt);
   (true, LIST + MAP + RAW + FMT, cli_list_map_fmt); (true, LIST + MAP + JSON, cli_list_map_json);
   (true, LIST + CONFIG + LOCAL, cli_list_config_local); (true, LIST + CONFIG, cli_list_config);
   (true, LIST + BLACKLIST, cli_list_blacklist); (true, LIST + DEVICES, cli_list_devices);
   (true, LIST + WILDCARDS, cli_list_wildcards); (true, RESET + MAPS + STATS, cli_reset_maps_stats);
   (true, RESET + MAP + STATS, cli_reset_map_stats); (true, ADD + PATH, cli_add_path);
   (true, DEL + PATH, cli_del_path); (true, ADD + MAP, cli_add_map); (true, DEL + MAP, cli_del_map);
   (true, DEL + MAPS, cli_del_maps); (true, SWITCH + MAP + GROUP, cli_switch_group);
   (false, RECONFIGURE, cli_reconfigure); (true, SUSPEND + MAP, cli_suspend); (true, RESUME + MAP, cli_resume);
   (true, RESIZE + MAP, cli_resize); (true, RELOAD + MAP, cli_reload); (true, RESET + MAP, cli_reassign);
   (true, REINSTATE + PATH, cli_reinstate); (true, FAIL + PATH, cli_fail);
   (true, DISABLEQ + MAP, cli_disable_queueing); (true, RESTOREQ + MAP, cli_restore_queueing);
   (true, DISABLEQ + MAPS, cli_disable_all_queueing); (true, RESTOREQ + MAPS, cli_restore_all_queueing);
   (false, QUIT, cli_quit); (false, SHUTDOWN, cli_shutdown); (true, GETPRSTATUS + MAP, cli_getprstatus);
   (true, SETPRSTATUS + MAP, cli_setprstatus); (true, UNSETPRSTATUS + MAP, cli_unsetprstatus);
   (true, FORCEQ + DAEMON, cli_force_no_daemon_q); (true, RESTOREQ + DAEMON, cli_restore_no_daemon_q);
   (true, GETPRKEY + MAP, cli_getprkey); (true, SETPRKEY + MAP + KEY, cli_setprkey);
   (true, UNSETPRKEY + MAP, cli_unsetprkey); (true, SETMARGINAL + PATH, cli_set_marginal);
   (true, UNSETMARGINAL + PATH, cli_unset_marginal); (true, UNSETMARGINAL + MAP, cli_unset_all_marginal)].

(** The table after [uxlsnrloop] of main.c has set the callbacks. *)
Definition daemon_handlers : list handler :=
  foldl (fun hs '(lock, fp, f) =>
    snd (if lock : bool then set_handler_callback hs fp f else set_unlocked_handler_callback hs fp f)) cli_init callback_table.

(** ** Parsing a command *)

(** The first key that is the word, or the only one the word is short for;
    [found] is the one seen before. *)
Fixpoint find_key_loop (keys : list key) (str : cstr) (found : option key) : option key :=
  match keys with
  | [] => found
  | kw :: r =>
      if negb (strneq (length str) (k_str kw) str) then find_key_loop r str found
      else if (length str =? length (k_str kw))%nat then Some kw
      else if (length str <? length (k_str kw))%nat
           then match found with None => find_key_loop r str (Some kw) | Some _ => None end
           else find_key_loop r str found
  end.

Definition find_key (keys : list key) (str : cstr) : option key := find_key_loop keys str None.

(** The parameter of the last key of the command. *)
Definition set_param (cmdvec : list key) (param : cstr) : list key :=
  match last cmdvec with
  | None => cmdvec
  | Some k => take (length cmdvec - 1) cmdvec ++
      [{| k_str := k_str k; k_param := Some param; code := code k; has_param := has_param k |}]
  end.

Section Commands.
Variable keys : list key.

(** [inl] is the error. *)
Fixpoint cmd_words (words : list token) (get_param : bool) (cmdvec : list key) : Z + list key :=
  match words with
  | [] => if get_param then inl EINVAL else inr cmdvec
  | Quote :: r => cmd_words r get_param cmdvec
  | Word w :: r =>
      if get_param then cmd_words r false (set_param cmdvec w)
      else match find_key keys w with
           | None => inl EAGAIN
           | Some kw => cmd_words r (has_param kw)
               (cmdvec ++ [{| k_str := []; k_param := None; code := code kw; has_param := has_param kw |}])
           end
  end.

Definition get_cmdvec (cmd : cstr) : Z + list key :=
  match alloc_strvec cmd with
  | None => inl ENOMEM
  | Some words => cmd_words words false []
  end.

Definition fingerprint (vec : list key) : Z := foldl (fun fp kw => u64 (fp + code kw)) 0 vec.

Definition get_keyparam (v : list key) (c : Z) : option cstr :=
  List.find (fun kw => code kw =? c) v ≫= k_param.

(** ** The help text *)

Variable handlers : list handler.
Variable version : cstr.                                 (* VERSION_STRING *)

Definition genhelp_aliases (i : nat) (refkw : key) : list cstr :=
  omap (fun jk => if (code (snd jk) =? code refkw) && negb (fst jk =? i)%nat then Some (124 :: k_str (snd jk)) else None)
    (zip (seq 0 (length keys)) keys).

(** The keys of a handler: those whose code is in what is left of the
    fingerprint. *)
Fixpoint genhelp_keys (fp : Z) (ks : list (nat * key)) : list cstr :=
  match ks with
  | [] => [[10]]
  | (i, kw) :: r =>
      if Z.land (code kw) fp =? 0 then genhelp_keys fp r
      else (32 :: k_str kw) :: genhelp_aliases i kw ++
           (if has_param kw then [32 :: 36 :: k_str kw] else []) ++ genhelp_keys (fp - code kw) r
  end.

Definition error_text (cmd : cstr) (error : Z) : list cstr :=
  if error =? ENOMEM then [cmd ++ s ": Not enough memory" ++ [10]]
  else if error =? EAGAIN then [cmd ++ s ": not found" ++ [10]]
  else if error =? EINVAL then [cmd ++ s ": Missing argument" ++ [10]]
  else [].

Definition help_pieces (cmd : cstr) (error : Z) : list cstr :=
  error_text cmd error ++ [version; s "CLI commands reference:" ++ [10]] ++
  (handlers ≫= fun h => genhelp_keys (h_fingerprint h) (zip (seq 0 (length keys)) keys)).

(** Printing stops when the length has reached that of the buffer. *)
Fixpoint put_pieces (maxlen : nat) (pieces : list cstr) (reply : cstr) : cstr :=
  match pieces with
  | [] => reply
  | p :: r => let reply := reply ++ p in if (maxlen <=? length reply)%nat then reply else put_pieces maxlen r reply
  end.

Definition do_genhelp (maxlen : nat) (cmd : cstr) (error : Z) : cstr := put_pieces maxlen (help_pieces cmd error) [].

(** The buffer is doubled until the text fits; [None] when it may not grow any
    more ([Some None]) or the fuel is out. *)
Fixpoint genhelp_loop (fuel : nat) (maxlen : nat) (cmd : cstr) (error : Z) : option (option cstr) :=
  match fuel with
  | O => None
  | S f =>
      let reply := do_genhelp maxlen cmd error in
      if (length reply <? maxlen)%nat then Some (Some reply)
      else if (MAX_REPLY_LEN <=? N.of_nat maxlen)%N then Some None
      else genhelp_loop f (maxlen * 2) cmd error
  end.

Definition genhelp_handler (cmd : cstr) (error : Z) : option (option cstr) := genhelp_loop 16 INITIAL_REPLY_LEN cmd error.

(** ** Running a command *)

(** [run] is what a handler returns, with its reply ([None] when its length is
    0); [lock_rc] the result of taking the lock. *)
Variable run : callback -> list key -> Z * option cstr.
Variable lock_rc : Z.

(** The call that was made, the return code and the reply. *)
Record outcome := { ran : option (callback * list key); rc : Z; reply : option cstr }.

Definition help (cmd : cstr) (error : Z) : outcome :=
  match genhelp_handler cmd error with
  | Some (Some text) => {| ran := None; rc := 0; reply := Some text |}
  | _ => {| ran := None; rc := EINVAL; reply := None |}
  end.

Definition parse_cmd (cmd : cstr) : outcome :=
  match get_cmdvec cmd with
  | inl r => help cmd r
  | inr cmdvec =>
      match find_handler handlers (fingerprint cmdvec) with
      | Some {| locked := lock; fn := Some f |} =>
          if lock && negb (lock_rc =? 0) then {| ran := None; rc := lock_rc; reply := None |}
          else let '(r, text) := run f cmdvec in {| ran := Some (f, cmdvec); rc := r; reply := text |}
      | _ => help cmd EINVAL
      end
  end.

Definition uxsock_trigger (str : cstr) (is_root : bool) : outcome :=
  if negb is_root && negb (strneq 4 str (s "list")) && negb (strneq 4 str (s "show"))
  then {| ran := None; rc := 1; reply := Some (s "permission deny: need to be root") |}
  else
    let o := parse_cmd str in
    if 0 <? rc o then {| ran := ran o; rc := 1; reply := Some (if rc o =? ETIMEDOUT then s "timeout" ++ [10] else s "fail" ++ [10]) |}
    else if (rc o =? 0) && bool_decide (reply o = None) then {| ran := ran o; rc := 0; reply := Some (s "ok" ++ [10]) |}
    else o.

(** ** Completion of a command line *)

Definition key_match_fingerprint (kw : key) (fp : Z) : bool := negb (fp =? 0) && (Z.land fp (code kw) =? code kw).

(** The fingerprint of the words before the one to complete; [None] after a key
    that wants a parameter. *)
Definition completed_words (line str : cstr) : option Z :=
  match get_cmdvec line with
  | inl e => if e =? EINVAL then None else Some 0
  | inr v => Some (fingerprint (if (0 <? length str)%nat then take (length v - 1) v else v))
  end.

(** The keys that readline is offered, one for every call. *)
Definition is_candidate (str : cstr) (rlfp : Z) (kw : key) : bool :=
  strneq (length str) (k_str kw) str &&
  negb (key_match_fingerprint kw rlfp && negb match find_key keys str with Some cur => streq (k_str cur) (k_str kw) | None => false end) &&
  existsb (fun h => (rlfp =? 0) || (let nfp := Z.lor rlfp (code kw) in Z.land (h_fingerprint h) nfp =? nfp)) handlers.

Definition key_generator (line str : cstr) : list cstr :=
  match completed_words line str with
  | None => [s "(value)"]
  | Some rlfp => k_str <$> List.filter (is_candidate str rlfp) keys
  end.

End Commands.

(** ** The words of a command *)

Lemma skip_space w r : plain_word w -> skip_gap (32 :: w ++ r) = w ++ r.
Proof.
  intros [Hne Hw]. destruct w as [|c w]; [done|]. pose proof (plain_not_gap c (Forall_inv Hw)) as (Hg & _).
  by apply (skip_gap_all [32]); [repeat constructor|].
Qed.

Definition spaced (ws : list cstr) : cstr := ws ≫= (fun w => 32 :: w).

Lemma words_loop f w ws : plain_word w -> Forall plain_word ws -> (length (w ++ spaced ws) <= f)%nat ->
  strvec_loop f false (w ++ spaced ws) = Word <$> (w :: ws).
Proof.
  revert f w. induction ws as [|w2 ws IH]; intros f w Hw Hws Hf.
  - destruct f as [|f]; [destruct Hw as [Hne _]; destruct w; cbn in Hf; [done|lia]|].
    cbn [strvec_loop]. by rewrite next_plain.
  - apply Forall_cons in Hws as [Hw2 Hws]. destruct f as [|f]; [destruct Hw as [Hne _]; destruct w; cbn in Hf; [done|lia]|].
    cbn [strvec_loop]. rewrite next_plain by done. change (spaced (w2 :: ws)) with (32 :: w2 ++ spaced ws).
    rewrite skip_space by done. destruct (w2 ++ spaced ws) as [|c r] eqn:E.
    { destruct Hw2 as [Hne _]. by destruct w2. }
    assert (plain_char c = true) as Hc.
    { destruct Hw2 as [Hne Hall]. destruct w2 as [|c' w2]; [done|]. injection E as -> _. by apply Forall_inv in Hall. }
    pose proof (plain_not_gap c Hc) as (_ & H33 & H35 & _). rewrite H33, H35. cbn [negb andb orb]. rewrite <-E.
    rewrite IH; [done|done|done|]. change (spaced (w2 :: ws)) with (32 :: w2 ++ spaced ws) in Hf.
    rewrite length_app in Hf. destruct Hw as [Hne _]. destruct w; [done|]. cbn in Hf. lia.
Qed.

Lemma strvec_words w ws : plain_word w -> Forall plain_word ws ->
  alloc_strvec (spaced (w :: ws)) = Some (Word <$> (w :: ws)).
Proof.
  intros Hw Hws. unfold alloc_strvec. change (spaced (w :: ws)) with (32 :: w ++ spaced ws). rewrite skip_space by done.
  destruct (w ++ spaced ws) as [|c r] eqn:E; [destruct Hw as [Hne _]; by destruct w|].
  assert (plain_char c = true) as Hc.
  { destruct Hw as [Hne Hall]. destruct w as [|c' w]; [done|]. injection E as -> _. by apply Forall_inv in Hall. }
  pose proof (plain_not_gap c Hc) as (_ & H33 & H35 & _). rewrite H33, H35. cbn [orb]. rewrite <-E. f_equal.
  apply words_loop; [done|done|]. by rewrite E.
Qed.

(** ** What the keys of a command come from *)

Definition codes (v : list key) : list Z := code <$> v.

Lemma set_param_codes v p : codes (set_param v p) = codes v.
Proof.
  unfold set_param. destruct (last v) as [k|] eqn:E; [|done]. apply last_Some in E as [l ->].
  rewrite length_app, Nat.add_sub, take_app_length. unfold codes. by rewrite !fmap_app.
Qed.

Lemma find_key_spec keys str kw : find_key keys str = Some kw -> kw ∈ keys /\ take (length str) (k_str kw) = str.
Proof.
  unfold find_key. assert (forall found, (forall k, found = Some k -> take (length str) (k_str k) = str) ->
    find_key_loop keys str found = Some kw -> (kw ∈ keys \/ found = Some kw) /\ take (length str) (k_str kw) = str) as H.
  { induction keys as [|k keys IH]; intros found Hf; cbn [find_key_loop]; [intros ->; auto|].
    unfold strneq. case_bool_decide as Hp; cbn [negb].
    - rewrite firstn_all in Hp. destruct (length str =? length (k_str k))%nat; [intros [= <-]; split; [left; by left|done]|].
      destruct (length str <? length (k_str k))%nat.
      + destruct found; [done|]. intros H%IH; [|by intros k' [= <-]]. destruct H as [[H|[= ->]] H2]; (split; [left; set_solver|done]).
      + intros H%IH; [|done]. destruct H as [[H|H] H2]; split; auto. left; by right.
    - intros H%IH; [|done]. destruct H as [[H|H] H2]; split; auto. left; by right. }
  intros Hf. destruct (H None) as [[H1|H1] H2]; try done.
Qed.

Lemma cmd_words_codes keys words gp acc v : cmd_words keys words gp acc = inr v ->
  exists ks, codes v = codes acc ++ (code <$> ks) /\ Forall (fun k => k ∈ keys) ks.
Proof.
  revert gp acc. induction words as [|[|w] words IH]; intros gp acc; cbn [cmd_words].
  - destruct gp; [done|]. intros [= <-]. exists []. by rewrite app_nil_r.
  - apply IH.
  - destruct gp.
    + intros (ks & -> & Hks)%IH. rewrite set_param_codes. by exists ks.
    + destruct (find_key keys w) as [kw|] eqn:E; [|done]. intros (ks & -> & Hks)%IH.
      apply find_key_spec in E as [E _]. exists (kw :: ks). unfold codes. rewrite fmap_app, <-app_assoc. split; [done|by constructor].
Qed.

(** ** Fingerprints *)

(** One bit for every key. *)
Definition one_bit (c : Z) : Prop := exists i, 0 <= i < 64 /\ c = 2 ^ i.

Lemma pow2_inj i j : 0 <= i -> 0 <= j -> 2 ^ i = 2 ^ j -> i = j.
Proof. intros Hi Hj. by apply Z.pow_inj_r. Qed.

Lemma add_new_bit x e : 0 <= e -> Z.testbit x e = false -> forall i, 0 <= i ->
  Z.testbit (x + 2 ^ e) i = Z.testbit x i || (i =? e).
Proof.
  intros He Hx i Hi. assert (Z.land x (2 ^ e) = 0) as H0.
  { apply Z.bits_inj'. intros n Hn. rewrite Z.land_spec, Z.pow2_bits_eqb, Z.bits_0 by done.
    destruct (Z.eqb_spec e n) as [->|]; [by rewrite Hx|apply andb_false_r]. }
  rewrite <-Z.add_lor_land, H0, Z.add_0_r.
  by rewrite Z.lor_spec, Z.pow2_bits_eqb, (Z.eqb_sym e).
Qed.

(** Keys with different codes: the fingerprint is the set of the codes. *)
Lemma fingerprint_bits v : Forall one_bit (codes v) -> NoDup (codes v) -> forall i, 0 <= i ->
  Z.testbit (fingerprint v) i = bool_decide (2 ^ i ∈ codes v).
Proof.
  induction v as [|k v IH] using rev_ind; intros Hv Hd i Hi; [by rewrite Z.bits_0|].
  unfold codes in *. rewrite fmap_app in *. cbn [fmap list_fmap] in *.
  apply Forall_app in Hv as [Hv (e & He & Hk)%Forall_inv]. apply NoDup_app in Hd as (Hd & Hnew & _).
  specialize (IH Hv Hd). unfold fingerprint. rewrite foldl_app. cbn [foldl]. fold (fingerprint v).
  assert (Z.testbit (fingerprint v) e = false) as Hf.
  { rewrite IH by lia. apply bool_decide_eq_false. intros Hin. apply (Hnew _ Hin). rewrite Hk. by left. }
  rewrite Hk. change (u64 (fingerprint v + 2 ^ e)) with ((fingerprint v + 2 ^ e) mod 2 ^ 64).
  assert (2 ^ i ∈ (code <$> v) ++ [2 ^ e] <-> 2 ^ i ∈ (code <$> v) \/ i = e) as Hin.
  { rewrite elem_of_app, list_elem_of_singleton. split; (intros [H|H]; [by left|right]); [by apply pow2_inj; try lia|by subst]. }
  rewrite (bool_decide_ext _ _ Hin), bool_decide_or, <-IH by done.
  destruct (decide (i < 64)).
  - rewrite Z.mod_pow2_bits_low by lia. rewrite add_new_bit by (done || lia). f_equal.
    destruct (Z.eqb_spec i e); [by rewrite bool_decide_true|by rewrite bool_decide_false].
  - rewrite Z.mod_pow2_bits_high by lia. rewrite IH by done. symmetry. apply orb_false_iff. split; apply bool_decide_eq_false; [|lia].
    intros H. rewrite Forall_forall in Hv. destruct (Hv _ H) as (j & Hj & Ej). apply pow2_inj in Ej; lia.
Qed.

Lemma load_keys_bits : Forall (fun k => one_bit (code k)) load_keys.
Proof.
  assert (forallb (fun k => existsb (fun i => code k =? 2 ^ Z.of_nat i) (seq 0 64)) load_keys = true) as H by (vm_compute; reflexivity).
  rewrite forallb_forall in H. apply Forall_forall. intros k Hk%list_elem_of_In. apply H, existsb_exists in Hk as (i & Hi & He).
  apply in_seq in Hi. exists (Z.of_nat i). split; [lia|by apply Z.eqb_eq].
Qed.

(** What may be asked for without being root. *)
Definition listing_callbacks : list callback :=
  [cli_list_paths; cli_list_paths_fmt; cli_list_paths_raw; cli_list_path; cli_list_maps; cli_list_status; cli_list_daemon;
   cli_list_maps_status; cli_list_maps_stats; cli_list_maps_fmt; cli_list_maps_raw; cli_list_maps_topology;
   cli_list_maps_json; cli_list_map_topology; cli_list_map_fmt; cli_list_map_json; cli_list_config_local;
   cli_list_config; cli_list_blacklist; cli_list_devices; cli_list_wildcards].

Lemma list_handlers h f : h ∈ daemon_handlers -> Z.testbit (h_fingerprint h) 0 = true -> fn h = Some f -> f ∈ listing_callbacks.
Proof.
  assert (forallb (fun h => negb (Z.testbit (h_fingerprint h) 0) ||
    match fn h with Some f => bool_decide (f ∈ listing_callbacks) | None => true end) daemon_handlers = true) as H
    by (vm_compute; reflexivity).
  rewrite forallb_forall in H. intros Hh%list_elem_of_In Hb Hf. specialize (H h Hh). rewrite Hb, Hf in H.
  by apply bool_decide_eq_true in H.
Qed.

(** A command that begins with one of the two words. *)
Lemma scan_prefix l t : Forall (fun c => plain_char c = true) l ->
  scan_word false (l ++ t) = (let '(w, r) := scan_word false t in (l ++ w, r)).
Proof.
  intros Hl. induction Hl as [|c l Hc _ IH]; [cbn [app]; by destruct (scan_word false t)|].
  pose proof (plain_not_gap c Hc) as (_ & _ & _ & Hq & _). cbn [app scan_word]. rewrite Hq, IH.
  unfold plain_char in Hc. apply andb_true_iff in Hc as [-> _]. cbn [orb]. by destruct (scan_word false t).
Qed.

Lemma first_token l t words : plain_word l -> alloc_strvec (l ++ t) = Some words -> exists w r, words = Word (l ++ w) :: r.
Proof.
  intros [Hne Hl] H. destruct l as [|c l]; [done|]. pose proof (plain_not_gap c (Forall_inv Hl)) as (Hg & H33 & H35 & Hq & Ho & Hc).
  unfold alloc_strvec in H. cbn [app] in H. rewrite skip_gap_id, H33, H35 in H by done. cbn [orb strvec_loop] in H.
  unfold next_token in H. rewrite Hq, Ho, Hc in H. cbn [andb orb negb] in H.
  change (c :: l ++ t) with ((c :: l) ++ t) in H. rewrite (scan_prefix (c :: l) t Hl) in H.
  destruct (scan_word false t) as [w rest]. exists w.
  destruct (skip_gap rest) as [|d rest']; [injection H as <-; by exists []|].
  destruct ((d =? 33) || (d =? 35)); injection H as <-; eauto.
Qed.

Lemma listing_word w kw : take 4 w = s "list" \/ take 4 w = s "show" -> find_key load_keys w = Some kw -> code kw = LIST.
Proof.
  intros Hw [Hin Hp]%find_key_spec.
  assert (forallb (fun k => negb (bool_decide (take 4 (k_str k) = s "list") || bool_decide (take 4 (k_str k) = s "show"))
    || (code k =? LIST)) load_keys = true) as H by (vm_compute; reflexivity).
  rewrite forallb_forall in H. specialize (H kw ltac:(by apply list_elem_of_In)).
  assert (take 4 (k_str kw) = take 4 w) as Ht.
  { transitivity (take 4 (take (length w) (k_str kw))); [|by rewrite Hp]. rewrite take_take. f_equal.
    destruct w as [|? [|? [|? [|? w]]]]; [by destruct Hw..|done]. }
  rewrite Ht in H. destruct Hw as [Hw|Hw]; rewrite Hw in H; by apply Z.eqb_eq in H.
Qed.

Lemma listing_command str v : strneq 4 str (s "list") || strneq 4 str (s "show") = true ->
  get_cmdvec load_keys str = inr v -> LIST ∈ codes v.
Proof.
  intros Hs. unfold get_cmdvec. destruct (alloc_strvec str) as [words|] eqn:Hw; [|done].
  assert (exists w r, (take 4 w = s "list" \/ take 4 w = s "show") /\ words = Word w :: r) as (w & r & H4 & ->).
  { apply orb_true_iff in Hs. unfold strneq in Hs. rewrite !bool_decide_eq_true in Hs. rewrite <-(take_drop 4 str) in Hw.
    assert (plain_word (s "list") /\ plain_word (s "show")) as [P1 P2] by (split; decide_closed).
    destruct Hs as [Hs|Hs]; rewrite Hs in Hw.
    - apply (first_token (s "list")) in Hw as (w & r & ->); [|done]. exists (s "list" ++ w), r. split; [by left|done].
    - apply (first_token (s "show")) in Hw as (w & r & ->); [|done]. exists (s "show" ++ w), r. split; [by right|done]. }
  cbn [cmd_words]. destruct (find_key load_keys w) as [kw|] eqn:E; [|done]. intros (ks & -> & _)%cmd_words_codes.
  rewrite (listing_word w kw H4 E). set_solver.
Qed.

(** Who is not root may only list: if the words of a command are different
    keys, then for a client that is not root [uxsock_trigger] calls no callback
    but those of the "list" commands - abbreviated, repeated under another name
    or with parameters, in any order. *)
Lemma only_listing handlers_version run lock_rc str f v :
  ran (uxsock_trigger load_keys daemon_handlers handlers_version run lock_rc str false) = Some (f, v) ->
  NoDup (codes v) -> f ∈ listing_callbacks.
Proof.
  unfold uxsock_trigger. intros H Hd. destruct (strneq 4 str (s "list") || strneq 4 str (s "show")) eqn:Hs.
  2: { apply orb_false_iff in Hs as [H1 H2]. rewrite H1, H2 in H. discriminate. }
  assert (ran (parse_cmd load_keys daemon_handlers handlers_version run lock_rc str) = Some (f, v)) as Hr.
  { destruct (negb false && _ && _); [discriminate|]. destruct (0 <? _); [done|]. by destruct (_ && _). }
  clear H. unfold parse_cmd in Hr. destruct (get_cmdvec load_keys str) as [e|cv] eqn:Hcv.
  { unfold help in Hr. by destruct (genhelp_handler _ _ _ _ _) as [[|]|]. }
  pose proof (listing_command str cv Hs Hcv) as Hlist.
  unfold get_cmdvec in Hcv. destruct (alloc_strvec str) as [words|]; [|done]. apply cmd_words_codes in Hcv as (ks & Hc & Hks).
  destruct (find_handler daemon_handlers (fingerprint cv)) as [[fp lock [cb|]]|] eqn:Hf;
    [|by unfold help in Hr; destruct (genhelp_handler _ _ _ _ _) as [[|]|]..].
  destruct (lock && _); [done|]. destruct (run cb cv) as [r t]. injection Hr as <- <-.
  apply find_some in Hf as [Hin%list_elem_of_In Hfp%Z.eqb_eq]. cbn [h_fingerprint] in Hfp.
  apply (list_handlers _ cb) in Hin; [done| |done]. cbn [h_fingerprint]. rewrite Hfp, fingerprint_bits; [|..|done|done].
  - by apply bool_decide_true.
  - rewrite Hc. cbn [codes fmap list_fmap app]. apply Forall_fmap, Forall_forall. intros k Hk. rewrite Forall_forall in Hks.
    pose proof load_keys_bits as Hb. rewrite Forall_forall in Hb. by apply Hb, Hks.
Qed.

Lemma only_listing_example :
  let o := uxsock_trigger load_keys daemon_handlers (s "v") (fun _ _ => (0, None)) 0 (s "show maps topo") false in
  exists f v, ran o = Some (f, v) /\ f ∈ listing_callbacks.
Proof.
  cbv zeta. set (o := uxsock_trigger _ _ _ _ _ _ _).
  destruct (ran o) as [[f v]|] eqn:E; [|vm_compute in E; discriminate E]. exists f, v. split; [done|].
  apply (only_listing (s "v") (fun _ _ => (0, None)) 0 (s "show maps topo") f v E).
  vm_compute in E. injection E as _ <-. vm_compute. decide_closed.
Qed.

(** A key that is given twice counts for another one: this lets every user add
    a path, and "show maps maps" is taken for a command with a path although it
    has no parameter. *)
Example authorization_bypass :
  let try x := (fun o => (fun '(f, v) => (f, get_keyparam v PATH)) <$> ran o)
    (uxsock_trigger load_keys daemon_handlers (s "v") (fun _ _ => (0, None)) 0 x false) in
  try (s "list list path sdb") = Some (cli_add_path, Some (s "sdb")) /\ try (s "show maps maps") = Some (cli_list_path, None).
Proof. split; vm_compute; reflexivity. Qed.

(** ** The commands of the help text *)

(** The keys that make up a fingerprint. *)
Fixpoint usage (fp : Z) (ks : list (nat * key)) : list (nat * key) :=
  match ks with
  | [] => []
  | (i, kw) :: r => if Z.land (code kw) fp =? 0 then usage fp r else (i, kw) :: usage (fp - code kw) r
  end.

Definition all_keys : list (nat * key) := zip (seq 0 (length load_keys)) load_keys.

(** A line of the help text is the words of the usage, with their aliases. *)
Lemma genhelp_usage keys fp ks : genhelp_keys keys fp ks =
  (usage fp ks ≫= fun '(i, kw) => (32 :: k_str kw) :: genhelp_aliases keys i kw ++
     (if has_param kw then [32 :: 36 :: k_str kw] else [])) ++ [[10]].
Proof.
  revert fp. induction ks as [|[i kw] ks IH]; intros fp; [done|]. cbn [genhelp_keys usage].
  destruct (Z.land (code kw) fp =? 0); [apply IH|]. cbn [mbind list_bind]. rewrite IH. cbn [app]. by rewrite <-!app_assoc.
Qed.

(** The command itself, with [p] for every parameter. *)
Definition help_words (p : cstr) (u : list (nat * key)) : list cstr :=
  u ≫= fun '(_, kw) => k_str kw :: (if has_param kw then [p] else []).

Definition parsed_key (p : cstr) (kw : key) : key :=
  {| k_str := []; k_param := if has_param kw then Some p else None; code := code kw; has_param := has_param kw |}.

Lemma set_param_last acc k p : set_param (acc ++ [k]) p =
  acc ++ [{| k_str := k_str k; k_param := Some p; code := code k; has_param := has_param k |}].
Proof. unfold set_param. rewrite last_snoc, length_app, Nat.add_sub. by rewrite take_app_length. Qed.

Lemma cmd_words_usage keys p u acc : Forall (fun ik => find_key keys (k_str (snd ik)) = Some (snd ik)) u ->
  cmd_words keys (Word <$> help_words p u) false acc = inr (acc ++ (parsed_key p ∘ snd <$> u)).
Proof.
  intros Hu. revert acc. induction Hu as [|[i kw] u Hk _ IH]; intros acc; [by rewrite app_nil_r|].
  change (help_words p ((i, kw) :: u)) with ((k_str kw :: (if has_param kw then [p] else [])) ++ help_words p u).
  rewrite fmap_app, fmap_cons, fmap_cons. cbn [app cmd_words]. cbn [snd] in Hk. rewrite Hk. cbn [compose snd].
  unfold parsed_key at 1. destruct (has_param kw) eqn:Hp.
  - cbn [fmap list_fmap app cmd_words]. rewrite set_param_last. cbn [k_str code has_param]. by rewrite IH, <-app_assoc.
  - cbn [fmap list_fmap app cmd_words]. by rewrite IH, <-app_assoc.
Qed.

Lemma key_ext k k' : k_str k = k_str k' -> k_param k = k_param k' -> code k = code k' -> has_param k = has_param k' -> k = k'.
Proof. destruct k, k'. cbn. by intros -> -> -> ->. Qed.

Lemma handler_ext h h' : h_fingerprint h = h_fingerprint h' -> locked h = locked h' -> fn h = fn h' -> h = h'.
Proof. destruct h, h'. cbn. by intros -> -> ->. Qed.

Definition usage_ok (h : handler) : bool :=
  let u := usage (h_fingerprint h) all_keys in
  bool_decide (is_Some (fn h)) && bool_decide (u <> []) &&
  forallb (fun ik => match find_key load_keys (k_str (snd ik)) with
                     | Some k => streq (k_str k) (k_str (snd ik)) && bool_decide (k_param k = k_param (snd ik)) &&
                                 (code k =? code (snd ik)) && eqb (has_param k) (has_param (snd ik))
                     | None => false end && bool_decide (plain_word (k_str (snd ik)))) u &&
  bool_decide (NoDup (code ∘ snd <$> u)) &&
  match find_handler daemon_handlers (foldl (fun fp ik => u64 (fp + code (snd ik))) 0 u) with
  | Some h' => (h_fingerprint h' =? h_fingerprint h) && eqb (locked h') (locked h) && bool_decide (fn h' = fn h)
  | None => false
  end.

Lemma usages_ok : forallb usage_ok daemon_handlers = true.
Proof. vm_compute. reflexivity. Qed.

Lemma find_parsed p (u : list (nat * key)) i kw : NoDup (code ∘ snd <$> u) -> (i, kw) ∈ u ->
  get_keyparam (parsed_key p ∘ snd <$> u) (code kw) = (if has_param kw then Some p else None).
Proof.
  unfold get_keyparam. induction u as [|[j k] u IH]; intros Hd Hin; [by apply elem_of_nil in Hin|].
  rewrite fmap_cons in *. cbn [List.find compose snd] in *. apply NoDup_cons in Hd as [Hnew Hd].
  change (code (parsed_key p k)) with (code k). apply elem_of_cons in Hin as [[= -> ->]|Hin].
  - by rewrite Z.eqb_refl.
  - destruct (Z.eqb_spec (code k) (code kw)) as [E|E]; [|by apply IH]. exfalso. apply Hnew. change (code k ∈ code ∘ snd <$> u). rewrite E.
    apply (list_elem_of_fmap_2' (code ∘ snd) u (i, kw)); [done|done].
Qed.


