(* ===== verification/Conf.v ===== *)
(** * libmultipath/config.h: the configuration

    The options of struct hwentry, struct mpentry and struct config are
    reached by name: the macros of dict.c, config.c and propsel.c paste the name
    of a member into the code.  Here the members are functions from that name;
    [hwentry_nums], [hwentry_strs] and so on list the members each struct has.
    Memory from calloc is [zero_block]. *)

From stdpp Require Import functions.
From S2P Require Import Prelude CString.

(** The integer members and the string members; [None] is NULL. *)
Record block := { num : string -> Z; str : string -> option cstr }.

#[export] Instance eta_block : Eta block := fun b => {| num := num b; str := str b |}.

Definition zero_block : block := {| num := fun _ => 0; str := fun _ => None |}.

#[export] Instance block_inhabited : Inhabited block := populate zero_block.

Definition set_num (f : string) (v : Z) (b : block) : block := b <| num := <[f := v]> (num b) |>.
Definition set_string (f : string) (v : option cstr) (b : block) : block := b <| str := <[f := v]> (str b) |>.

Definition ORIGIN_DEFAULT : Z := 0.
Definition ORIGIN_CONFIG : Z := 1.

(** An entry of a blacklist.  A compiled regular expression is kept as the
    pattern it was compiled from. *)
Record blentry := { ble_str : cstr; ble_regex : cstr; ble_invert : bool; ble_origin : Z }.

(** [None] as a compiled expression: its compilation failed. *)
Record blentry_device := {
  bled_vendor : option cstr; bled_product : option cstr;
  bled_vendor_reg : option cstr; bled_product_reg : option cstr;
  bled_vendor_invert : bool; bled_product_invert : bool; bled_origin : Z
}.

#[export] Instance eta_blentry_device : Eta blentry_device := fun b => {|
  bled_vendor := bled_vendor b; bled_product := bled_product b;
  bled_vendor_reg := bled_vendor_reg b; bled_product_reg := bled_product_reg b;
  bled_vendor_invert := bled_vendor_invert b; bled_product_invert := bled_product_invert b;
  bled_origin := bled_origin b |}.

Definition zero_bled : blentry_device := {|
  bled_vendor := None; bled_product := None; bled_vendor_reg := None; bled_product_reg := None;
  bled_vendor_invert := false; bled_product_invert := false; bled_origin := 0 |}.

(** [None] is a NULL vector. *)
Record config := {
  opts : block;
  uid_attrs : list cstr;
  mptable : option (list block); hwtable : option (list block); overrides : option block;
  blist_devnode : option (list blentry); blist_wwid : option (list blentry);
  blist_device : option (list blentry_device);
  blist_property : option (list blentry); blist_protocol : option (list blentry);
  elist_devnode : option (list blentry); elist_wwid : option (list blentry);
  elist_device : option (list blentry_device);
  elist_property : option (list blentry); elist_protocol : option (list blentry)
}.

#[export] Instance eta_config : Eta config := fun c => {|
  opts := opts c; uid_attrs := uid_attrs c; mptable := mptable c; hwtable := hwtable c; overrides := overrides c;
  blist_devnode := blist_devnode c; blist_wwid := blist_wwid c; blist_device := blist_device c;
  blist_property := blist_property c; blist_protocol := blist_protocol c;
  elist_devnode := elist_devnode c; elist_wwid := elist_wwid c; elist_device := elist_device c;
  elist_property := elist_property c; elist_protocol := elist_protocol c |}.

Definition zero_config : config := {|
  opts := zero_block; uid_attrs := []; mptable := None; hwtable := None; overrides := None;
  blist_devnode := None; blist_wwid := None; blist_device := None; blist_property := None; blist_protocol := None;
  elist_devnode := None; elist_wwid := None; elist_device := None; elist_property := None; elist_protocol := None |}.

(** ** The members of the structs, in their order *)

Definition hwentry_strs : list string :=
  ["vendor"; "product"; "revision"; "uid_attribute"; "getuid"; "features"; "hwhandler"; "selector"; "checker_name";
   "prio_name"; "prio_args"; "alias_prefix"; "bl_product"]%string.

Definition hwentry_nums : list string :=
  ["pgpolicy"; "pgfailback"; "rr_weight"; "no_path_retry"; "minio"; "minio_rq"; "flush_on_last_del"; "fast_io_fail";
   "dev_loss"; "user_friendly_names"; "retain_hwhandler"; "detect_prio"; "detect_checker"; "deferred_remove";
   "delay_watch_checks"; "delay_wait_checks"; "san_path_err_threshold"; "san_path_err_forget_rate";
   "san_path_err_recovery_time"; "marginal_path_err_sample_time"; "marginal_path_err_rate_threshold";
   "marginal_path_err_recheck_gap_time"; "marginal_path_double_failed_time"; "skip_kpartx"; "max_sectors_kb";
   "ghost_delay"; "all_tg_pt"; "vpd_vendor_id"]%string.

Definition mpentry_strs : list string :=
  ["wwid"; "alias"; "uid_attribute"; "getuid"; "selector"; "features"; "prio_name"; "prio_args"]%string.

Definition mpentry_nums : list string :=
  ["prkey_source"; "reservation_key"; "sa_flags"; "pgpolicy"; "pgfailback"; "rr_weight"; "no_path_retry"; "minio";
   "minio_rq"; "flush_on_last_del"; "attribute_flags"; "user_friendly_names"; "deferred_remove"; "delay_watch_checks";
   "delay_wait_checks"; "san_path_err_threshold"; "san_path_err_forget_rate"; "san_path_err_recovery_time";
   "marginal_path_err_sample_time"; "marginal_path_err_rate_threshold"; "marginal_path_err_recheck_gap_time";
   "marginal_path_double_failed_time"; "skip_kpartx"; "max_sectors_kb"; "ghost_delay"; "uid"; "gid"; "mode"]%string.

(** ** Lemmas *)

Lemma num_set_eq f v b : num (set_num f v b) f = v.
Proof. apply fn_lookup_insert. Qed.
Lemma num_set_ne f g v b : f <> g -> num (set_num f v b) g = num b g.
Proof. intros H. by apply fn_lookup_insert_ne. Qed.
Lemma str_set_eq f v b : str (set_string f v b) f = v.
Proof. apply fn_lookup_insert. Qed.
Lemma str_set_ne f g v b : f <> g -> str (set_string f v b) g = str b g.
Proof. intros H. by apply fn_lookup_insert_ne. Qed.
Lemma str_set_num f v b g : str (set_num f v b) g = str b g.
Proof. done. Qed.
Lemma num_set_string f v b g : num (set_string f v b) g = num b g.
Proof. done. Qed.

Create Rewrite HintDb conf.
#[export] Hint Rewrite num_set_eq str_set_eq str_set_num num_set_string : conf.

(** Two blocks with the same members. *)
#[export] Instance block_equiv : Equiv block := fun a b => (forall f, num a f = num b f) /\ (forall f, str a f = str b f).

#[export] Instance block_equivalence : Equivalence (≡@{block}).
Proof.
  split.
  - by intros a.
  - intros a b [H1 H2]. by split; intros f.
  - intros a b c [H1 H2] [H3 H4]. split; intros f; [by rewrite H1|by rewrite H2].
Qed.

#[export] Instance set_num_proper f v : Proper ((≡) ==> (≡)) (set_num f v).
Proof.
  intros a b [H1 H2]. split; intros g; [|apply H2]. destruct (decide (f = g)) as [->|Hne].
  - by rewrite !num_set_eq.
  - by rewrite !num_set_ne.
Qed.

#[export] Instance set_string_proper f v : Proper ((≡) ==> (≡)) (set_string f v).
Proof.
  intros a b [H1 H2]. split; intros g; [apply H1|]. destruct (decide (f = g)) as [->|Hne].
  - by rewrite !str_set_eq.
  - by rewrite !str_set_ne.
Qed.
