(* ===== verification/Blacklist.v ===== *)
(** * libmultipath/blacklist.c: which devices are left alone

    The regular expressions of the C library are a parameter: [regcomp] gives,
    for a pattern, the strings it matches, or [None] if it is malformed. *)

From stdpp Require Import sorting.
From S2P Require Import Prelude CString Structs Conf.

Definition MATCH_NOTHING : Z := 0.
Definition MATCH_WWID_BLIST : Z := 1.
Definition MATCH_DEVICE_BLIST : Z := 2.
Definition MATCH_DEVNODE_BLIST : Z := 3.
Definition MATCH_PROPERTY_BLIST : Z := 4.
Definition MATCH_PROPERTY_BLIST_MISSING : Z := 5.
Definition MATCH_PROTOCOL_BLIST : Z := 6.

Definition SYSFS_BUS_SCSI : Z := 1.
Definition SYSFS_BUS_CCW : Z := 2.
Definition SYSFS_BUS_CCISS : Z := 3.
Definition SYSFS_BUS_NVME : Z := 4.

(** The pattern and whether its sense is inverted. *)
Definition check_invert (str : cstr) : cstr * bool :=
  match str with
  | 33 :: r => (r, true)
  | 92 :: 33 :: r => (33 :: r, false)
  | _ => (str, false)
  end.

Definition snprint_path_protocol (p : path) : cstr :=
  if bus p =? SYSFS_BUS_SCSI then
    if proto_id p =? SCSI_PROTOCOL_FCP then s "scsi:fcp"
    else if proto_id p =? 1 then s "scsi:spi"
    else if proto_id p =? 2 then s "scsi:ssa"
    else if proto_id p =? 3 then s "scsi:sbp"
    else if proto_id p =? SCSI_PROTOCOL_SRP then s "scsi:srp"
    else if proto_id p =? SCSI_PROTOCOL_ISCSI then s "scsi:iscsi"
    else if proto_id p =? SCSI_PROTOCOL_SAS then s "scsi:sas"
    else if proto_id p =? 7 then s "scsi:adt"
    else if proto_id p =? 8 then s "scsi:ata"
    else if proto_id p =? 9 then s "scsi:usb"
    else s "scsi:unspec"
  else if bus p =? SYSFS_BUS_CCW then s "ccw"
  else if bus p =? SYSFS_BUS_CCISS then s "cciss"
  else if bus p =? SYSFS_BUS_NVME then s "nvme"
  else s "undef".

(** The text an entry of a device blacklist must have, or none. *)
Definition opt_streq (a b : option cstr) : bool :=
  match a, b with
  | None, None => true
  | Some a, Some b => streq a b
  | _, _ => false
  end.

Definition find_blacklist_device (blist : list blentry_device) (vendor product : option cstr) : bool :=
  existsb (fun b => opt_streq vendor (bled_vendor b) && opt_streq product (bled_product b)) blist.

(** ** Duplicates *)

Fixpoint drop_duplicates {A} (dup : A -> bool) (l : list A) : list A :=
  match l with
  | [] => []
  | x :: r => if dup x then drop_duplicates dup r else x :: drop_duplicates dup r
  end.

(** Keeps the first of the entries that are equal. *)
Fixpoint merge_loop {A} (dup : A -> A -> bool) (fuel : nat) (l : list A) : list A :=
  match fuel, l with
  | S f, bl1 :: r => bl1 :: merge_loop dup f (drop_duplicates (dup bl1) r)
  | _, _ => l
  end.

Definition same_ble (bl1 bl2 : blentry) : bool := streq (ble_str bl1) (ble_str bl2).

Definition merge_blacklist (blist : list blentry) : list blentry := merge_loop same_ble (length blist) blist.

Definition same_bled (bl1 bl2 : blentry_device) : bool :=
  opt_streq (bled_vendor bl1) (bled_vendor bl2) && opt_streq (bled_product bl1) (bled_product bl2).

Definition names_nothing (b : blentry_device) : bool := opt_streq (bled_vendor b) None && opt_streq (bled_product b) None.

Definition merge_blacklist_device (blist : list blentry_device) : list blentry_device :=
  let blist := drop_duplicates names_nothing blist in
  merge_loop same_bled (length blist) blist.

Section Regex.
Variable regcomp : cstr -> option (cstr -> bool).

(** [!regexec(re, str, 0, NULL, 0)]; an expression that was not compiled is
    taken to match nothing. *)
Definition re_matches (pattern str : cstr) : bool :=
  match regcomp pattern with Some re => re str | None => false end.

(** ** Making the lists *)

Definition store_ble (blist : option (list blentry)) (str : option cstr) (origin : Z) : Z * option (list blentry) :=
  match str, blist with
  | None, _ => (0, blist)
  | Some _, None => (1, blist)
  | Some str, Some l =>
      let '(regex_str, invert) := check_invert str in
      match regcomp regex_str with
      | None => (1, blist)
      | Some _ => (0, Some (l ++ [{| ble_str := str; ble_regex := regex_str; ble_invert := invert; ble_origin := origin |}]))
      end
  end.

Definition alloc_ble_device (blist : option (list blentry_device)) : Z * option (list blentry_device) :=
  match blist with
  | None => (1, None)
  | Some l => (0, Some (l ++ [zero_bled]))
  end.

(** [MALLOC] gives zeroed memory.  The vendor and product are those given; a
    failure leaves the old texts with whatever was compiled. *)
Definition set_ble_entry (vendor product : option cstr) (origin : Z) (ble : blentry_device) : Z * blentry_device :=
  let '(ok, ble) :=
    match vendor with
    | None => (true, ble)
    | Some v =>
        let '(regex_str, invert) := check_invert v in
        let ble := ble <| bled_vendor_invert := invert |> in
        match regcomp regex_str with
        | None => (false, ble <| bled_vendor_reg := None |>)
        | Some _ => (true, ble <| bled_vendor_reg := Some regex_str |> <| bled_vendor := vendor |>)
        end
    end in
  if negb ok then (1, ble)
  else
    match product with
    | None => (0, ble <| bled_origin := origin |>)
    | Some p =>
        let '(regex_str, invert) := check_invert p in
        let ble := ble <| bled_product_invert := invert |> in
        match regcomp regex_str with
        | None =>
            let ble := ble <| bled_product_reg := None |> in
            (1, match vendor with Some _ => ble <| bled_vendor_reg := None |> <| bled_vendor := None |> | None => ble end)
        | Some _ =>
            (0, ble <| bled_product_reg := Some regex_str |> <| bled_product := product |> <| bled_origin := origin |>)
        end
    end.

Definition set_ble_device (blist : option (list blentry_device)) (vendor product : option cstr) (origin : Z)
  : Z * option (list blentry_device) :=
  match blist with
  | None => (1, None)
  | Some l =>
      match last l with
      | None => (1, blist)
      | Some ble =>
          let '(r, ble) := set_ble_entry vendor product origin ble in
          (r, Some (take (length l - 1) l ++ [ble]))
      end
  end.

(** The devices of the hardware table that come with a product blacklist. *)
Fixpoint default_devices (hwes : list block) (blist : option (list blentry_device)) : Z * option (list blentry_device) :=
  match hwes with
  | [] => (0, blist)
  | hwe :: r =>
      match str hwe "bl_product" with
      | None => default_devices r blist
      | Some _ =>
          if find_blacklist_device (default [] blist) (str hwe "vendor") (str hwe "bl_product")
          then default_devices r blist
          else
            let '(r1, blist1) := alloc_ble_device blist in
            if r1 =? 1 then (1, blist)
            else
              let '(r2, blist2) := set_ble_device blist1 (str hwe "vendor") (str hwe "bl_product") ORIGIN_DEFAULT in
              if r2 =? 1 then (1, (fun l => take (length l - 1) l) <$> blist2)
              else default_devices r blist2
      end
  end.

Definition setup_default_blist (conf : config) : Z * config :=
  let '(r, l) := store_ble (blist_devnode conf) (Some (s "!^(sd[a-z]|dasd[a-z]|nvme[0-9])")) ORIGIN_DEFAULT in
  let conf := conf <| blist_devnode := l |> in
  if r =? 1 then (1, conf)
  else
    let '(r, l) := store_ble (elist_property conf) (Some (s "(SCSI_IDENT_|ID_WWN)")) ORIGIN_DEFAULT in
    let conf := conf <| elist_property := l |> in
    if r =? 1 then (1, conf)
    else
      let '(r, l) := default_devices (default [] (hwtable conf)) (blist_device conf) in
      (r, conf <| blist_device := l |>).

(** ** Matching *)

Definition match_ble (x : cstr) (ble : blentry) : bool := eqb (negb (re_matches (ble_regex ble) x)) (ble_invert ble).

Definition match_reglist (blist : list blentry) (x : cstr) : bool := existsb (match_ble x) blist.

Definition match_opt (text reg : option cstr) (invert : bool) (x : cstr) : bool :=
  match text with
  | None => true
  | Some _ => eqb (negb (match reg with Some p => re_matches p x | None => false end)) invert
  end.

Definition match_bled (vendor product : cstr) (ble : blentry_device) : bool :=
  negb (names_nothing ble)
  && (match_opt (bled_vendor ble) (bled_vendor_reg ble) (bled_vendor_invert ble) vendor
      && match_opt (bled_product ble) (bled_product_reg ble) (bled_product_invert ble) product).

Definition match_reglist_device (blist : list blentry_device) (vendor product : cstr) : bool :=
  existsb (match_bled vendor product) blist.

(** The exceptions go first; [None] is a NULL string. *)
Definition filter_with (found : cstr -> bool) (except : cstr -> bool) (verdict : Z) (x : option cstr) : Z :=
  match x with
  | None => MATCH_NOTHING
  | Some x => if except x then - verdict else if found x then verdict else MATCH_NOTHING
  end.

Definition filter_device (blist elist : list blentry_device) (vendor product : option cstr) : Z :=
  match vendor, product with
  | Some v, Some p =>
      if match_reglist_device elist v p then - MATCH_DEVICE_BLIST
      else if match_reglist_device blist v p then MATCH_DEVICE_BLIST else MATCH_NOTHING
  | _, _ => MATCH_NOTHING
  end.

Definition filter_devnode (blist elist : list blentry) : option cstr -> Z :=
  filter_with (match_reglist blist) (match_reglist elist) MATCH_DEVNODE_BLIST.
Definition filter_wwid (blist elist : list blentry) : option cstr -> Z :=
  filter_with (match_reglist blist) (match_reglist elist) MATCH_WWID_BLIST.
Definition filter_protocol (blist elist : list blentry) (p : path) : Z :=
  filter_with (match_reglist blist) (match_reglist elist) MATCH_PROTOCOL_BLIST (Some (snprint_path_protocol p)).

(** The loop over the properties of a udev device: the verdict, and whether the
    uid attribute was among the properties looked at. *)
Fixpoint property_loop (blist elist : list blentry) (check : option cstr) (seen : bool) (props : list cstr) : Z * bool :=
  match props with
  | [] => (MATCH_PROPERTY_BLIST_MISSING, seen)
  | env :: r =>
      let seen := seen || opt_streq (Some env) check in
      if match_reglist elist env then (- MATCH_PROPERTY_BLIST, seen)
      else if match_reglist blist env then (MATCH_PROPERTY_BLIST, seen)
      else property_loop blist elist check seen r
  end.

(** [props] are the properties of the udev device; [None] without a device. *)
Definition filter_property (conf : config) (props : option (list cstr)) (uid_attribute : option cstr) : Z :=
  match props with
  | None => MATCH_NOTHING
  | Some props =>
      let check := match uid_attribute with Some [] => None | _ => uid_attribute end in
      let '(r, seen) := property_loop (default [] (blist_property conf)) (default [] (elist_property conf)) check false props in
      if (r =? MATCH_PROPERTY_BLIST_MISSING) && (opt_streq check None || negb seen) then MATCH_NOTHING else r
  end.

Definition filter_path (conf : config) (props : option (list cstr)) (p : path) : Z :=
  let r := filter_property conf props (uid_attribute p) in
  if 0 <? r then r
  else
    let r := filter_devnode (default [] (blist_devnode conf)) (default [] (elist_devnode conf)) (Some (dev p)) in
    if 0 <? r then r
    else
      let r := filter_device (default [] (blist_device conf)) (default [] (elist_device conf))
                 (Some (vendor_id p)) (Some (product_id p)) in
      if 0 <? r then r
      else
        let r := filter_protocol (default [] (blist_protocol conf)) (default [] (elist_protocol conf)) p in
        if 0 <? r then r
        else filter_wwid (default [] (blist_wwid conf)) (default [] (elist_wwid conf)) (Some (wwid p)).

End Regex.

(** ** Lemmas: dropping duplicates *)

(** Where a list first fails [P] is determined. *)
Lemma first_split_unique {A} (P : A -> Prop) l1 x r1 l2 y r2 : l1 ++ x :: r1 = l2 ++ y :: r2 ->
  Forall P l1 -> Forall P l2 -> ~ P x -> ~ P y -> l1 = l2 /\ x = y.
Proof.
  revert l2. induction l1 as [|a l1 IH]; intros [|b l2] [= -> H] H1 H2 Hx Hy.
  - done.
  - by apply Forall_inv in H2.
  - by apply Forall_inv in H1.
  - destruct (IH l2 H) as [-> ->]; try done; by eapply Forall_inv_tail.
Qed.

Lemma drop_duplicates_length {A} (dup : A -> bool) l : (length (drop_duplicates dup l) <= length l)%nat.
Proof. induction l as [|x l IH]; [done|]. cbn. destruct (dup x); cbn; lia. Qed.

Lemma elem_drop_duplicates {A} (dup : A -> bool) l x : x ∈ drop_duplicates dup l <-> x ∈ l /\ dup x = false.
Proof.
  induction l as [|y l IH]; cbn.
  - split; [by intros ?%elem_of_nil|by intros [?%elem_of_nil _]].
  - destruct (dup y) eqn:E; rewrite ?elem_of_cons, IH; [|naive_solver].
    split; [tauto|]. intros [[->|?] ?]; [congruence|done].
Qed.

Lemma elem_merge_loop {A} (dup : A -> A -> bool) fuel l x : x ∈ merge_loop dup fuel l -> x ∈ l.
Proof.
  revert l. induction fuel as [|f IH]; intros [|y l]; try done. cbn. rewrite !elem_of_cons.
  intros [->|H]; [by left|right]. by apply IH, elem_drop_duplicates in H as [? _].
Qed.

(** What the entries that remain decide is decided as before. *)
Lemma existsb_merge_loop {A} (dup : A -> A -> bool) (f : A -> bool) fuel l : (length l <= fuel)%nat ->
  (forall x y, x ∈ l -> y ∈ l -> dup x y = true -> f y = true -> f x = true) ->
  existsb f (merge_loop dup fuel l) = existsb f l.
Proof.
  revert l. induction fuel as [|n IH]; intros [|x l] Hlen Hdup; [done|cbn in Hlen; lia|done|].
  cbn [merge_loop existsb]. cbn in Hlen. pose proof (drop_duplicates_length (dup x) l).
  rewrite IH; [|lia|].
  2: { intros y z [Hy _]%elem_drop_duplicates [Hz _]%elem_drop_duplicates. apply Hdup; by right. }
  destruct (f x) eqn:Hx; [done|]. cbn [orb]. apply Bool.eq_iff_eq_true. rewrite !existsb_exists.
  split; intros (y & Hy & Hfy).
  - exists y. split; [|done]. apply list_elem_of_In in Hy. apply list_elem_of_In. by apply elem_drop_duplicates in Hy as [? _].
  - exists y. split; [|done]. apply list_elem_of_In in Hy. apply list_elem_of_In, elem_drop_duplicates. split; [done|].
    destruct (dup x y) eqn:Hxy; [|done]. rewrite (Hdup x y) in Hx; [done|by left|by right|done|done].
Qed.

Lemma merge_loop_distinct {A} (dup : A -> A -> bool) fuel l : (length l <= fuel)%nat ->
  StronglySorted (fun x y => dup x y = false) (merge_loop dup fuel l).
Proof.
  revert l. induction fuel as [|n IH]; intros [|x l] Hlen; cbn in *; [constructor|lia|constructor|].
  pose proof (drop_duplicates_length (dup x) l). constructor; [apply IH; lia|].
  apply Forall_forall. intros y Hy%elem_merge_loop. by apply elem_drop_duplicates in Hy as [_ ?].
Qed.

Lemma opt_streq_eq a b : opt_streq a b = true <-> a = b.
Proof. destruct a, b; cbn; rewrite ?streq_eq; naive_solver. Qed.

(** An entry whose regular expression belongs to its text. *)
Definition compiled_ble (b : blentry) : Prop := check_invert (ble_str b) = (ble_regex b, ble_invert b).

Definition compiled_opt (text reg : option cstr) (invert : bool) : Prop :=
  match text with Some x => exists r, reg = Some r /\ check_invert x = (r, invert) | None => True end.

Definition compiled_bled (b : blentry_device) : Prop :=
  compiled_opt (bled_vendor b) (bled_vendor_reg b) (bled_vendor_invert b) /\
  compiled_opt (bled_product b) (bled_product_reg b) (bled_product_invert b).

Section Verdicts.
Variable regcomp : cstr -> option (cstr -> bool).

Lemma match_merge_blacklist l x : Forall compiled_ble l ->
  match_reglist regcomp (merge_blacklist l) x = match_reglist regcomp l x.
Proof.
  intros Hl. apply existsb_merge_loop; [done|]. intros a b Ha Hb Hab%streq_eq. rewrite Forall_forall in Hl.
  pose proof (Hl a Ha) as Ca. pose proof (Hl b Hb) as Cb. unfold compiled_ble in Ca, Cb. rewrite Hab, Cb in Ca.
  apply pair_equal_spec in Ca as [Hr Hi]. unfold match_ble. by rewrite Hr, Hi.
Qed.

Lemma match_opt_same text reg1 inv1 reg2 inv2 x : compiled_opt text reg1 inv1 -> compiled_opt text reg2 inv2 ->
  match_opt regcomp text reg1 inv1 x = match_opt regcomp text reg2 inv2 x.
Proof. destruct text as [t|]; [|done]. intros (r1 & -> & H1) (r2 & -> & H2). rewrite H1 in H2. by simplify_eq. Qed.

Lemma match_merge_blacklist_device l v p : Forall compiled_bled l ->
  match_reglist_device regcomp (merge_blacklist_device l) v p = match_reglist_device regcomp l v p.
Proof.
  intros Hl. unfold merge_blacklist_device, match_reglist_device. rewrite existsb_merge_loop; [|done|].
  - induction Hl as [|b l Hb _ IH]; [done|]. cbn [drop_duplicates existsb]. unfold match_bled at 2.
    destruct (names_nothing b) eqn:E; [done|]. cbn [existsb]. rewrite IH. unfold match_bled at 1. by rewrite E.
  - intros a b [Ha _]%elem_drop_duplicates [Hb _]%elem_drop_duplicates Hab.
    rewrite Forall_forall in Hl. destruct (Hl a Ha) as [Ca1 Ca2], (Hl b Hb) as [Cb1 Cb2].
    unfold same_bled in Hab. bools. apply opt_streq_eq in H as Hv. apply opt_streq_eq in H0 as Hp.
    unfold match_bled, names_nothing. rewrite Hv, Hp in *.
    by rewrite (match_opt_same _ _ _ _ _ v Ca1 Cb1), (match_opt_same _ _ _ _ _ p Ca2 Cb2).
Qed.

(** ** What is kept by making the lists *)

Lemma store_ble_compiled l x origin r l' : Forall compiled_ble l ->
  store_ble regcomp (Some l) x origin = (r, l') -> exists l1, l' = Some l1 /\ Forall compiled_ble l1.
Proof.
  unfold store_ble. intros Hl. destruct x as [x|]; [|intros [= _ <-]; eauto].
  destruct (check_invert x) as [re inv] eqn:E. destruct (regcomp re); intros [= _ <-]; [|eauto].
  eexists. split; [done|]. apply Forall_app. split; [done|]. by repeat constructor.
Qed.

(** A failure returns 1; a success leaves a compiled entry. *)
Lemma set_ble_entry_compiled v p origin ble r ble' : compiled_bled ble ->
  set_ble_entry regcomp v p origin ble = (r, ble') -> (r = 0 /\ compiled_bled ble') \/ r = 1.
Proof.
  intros [Hv Hp]. unfold set_ble_entry.
  destruct v as [v|]; [destruct (check_invert v) as [vre vinv] eqn:Ev; destruct (regcomp vre)|]; cbn [negb];
    [|intros [= <- _]; by right|];
    (destruct p as [p|]; [destruct (check_invert p) as [pre pinv] eqn:Ep; destruct (regcomp pre)|]);
    intros [= <- <-]; try (by right); left; (split; [done|]); split; cbn; eauto.
Qed.

(** ** What the filters decide *)

(** On the list, and not among the exceptions. *)
Definition listed (blist elist : option (list blentry)) (x : cstr) : Prop :=
  match_reglist regcomp (default [] blist) x = true /\ match_reglist regcomp (default [] elist) x = false.

Definition listed_device (conf : config) (v p : cstr) : Prop :=
  match_reglist_device regcomp (default [] (blist_device conf)) v p = true /\
  match_reglist_device regcomp (default [] (elist_device conf)) v p = false.

Definition on_no_list (conf : config) (x : cstr) : Prop :=
  match_reglist regcomp (default [] (elist_property conf)) x = false /\
  match_reglist regcomp (default [] (blist_property conf)) x = false.

(** The first property that is on a list is blacklisted; or none is on a list
    although the property that holds the WWID is there. *)
Definition listed_property (conf : config) (props : list cstr) (uid : option cstr) : Prop :=
  (exists before x after, props = before ++ x :: after /\ listed (blist_property conf) (elist_property conf) x /\
     Forall (on_no_list conf) before) \/
  (Forall (on_no_list conf) props /\
   exists u, uid = Some u /\ u <> [] /\ u ∈ props).

Lemma filter_with_positive found except v x : 0 < v ->
  0 < filter_with found except v (Some x) <-> found x = true /\ except x = false.
Proof. intros Hv. cbn. destruct (except x), (found x); cbn; unfold MATCH_NOTHING; split; try done; lia. Qed.

Lemma property_loop_spec bl el check seen props :
  (exists before x after r, props = before ++ x :: after /\
    Forall (fun y => match_reglist regcomp el y = false /\ match_reglist regcomp bl y = false) before /\
    fst (property_loop regcomp bl el check seen props) = r /\
    ((match_reglist regcomp el x = true /\ r = - MATCH_PROPERTY_BLIST) \/
     (match_reglist regcomp el x = false /\ match_reglist regcomp bl x = true /\ r = MATCH_PROPERTY_BLIST))) \/
  (Forall (fun y => match_reglist regcomp el y = false /\ match_reglist regcomp bl y = false) props /\
   property_loop regcomp bl el check seen props =
     (MATCH_PROPERTY_BLIST_MISSING, seen || existsb (fun y => opt_streq (Some y) check) props)).
Proof.
  revert seen. induction props as [|x props IH]; intros seen; [right; by rewrite orb_false_r|].
  cbn [property_loop]. destruct (match_reglist regcomp el x) eqn:Eel.
  { left. exists [], x, props, (- MATCH_PROPERTY_BLIST). repeat split; auto. }
  destruct (match_reglist regcomp bl x) eqn:Ebl.
  { left. exists [], x, props, MATCH_PROPERTY_BLIST. repeat split; auto. }
  destruct (IH (seen || opt_streq (Some x) check)) as [(before & y & after & r & -> & Hb & Hr & Hc)|[Hall Heq]].
  - left. exists (x :: before), y, after, r. repeat split; auto.
  - right. split; [by constructor|]. rewrite Heq. cbn [existsb]. by rewrite orb_assoc.
Qed.

Lemma filter_property_spec conf props uid :
  0 < filter_property regcomp conf props uid <-> match props with Some l => listed_property conf l uid | None => False end.
Proof.
  destruct props as [props|]; [|by unfold filter_property, MATCH_NOTHING].
  unfold filter_property. set (check := match uid with Some [] => None | _ => uid end).
  destruct (property_loop_spec (default [] (blist_property conf)) (default [] (elist_property conf)) check false props)
    as [(before & x & after & r & -> & Hb & Hr & Hc)|[Hall ->]].
  - destruct (property_loop _ _ _ _ _ _) as [r' seen]. cbn [fst] in Hr. subst r'.
    assert (r =? MATCH_PROPERTY_BLIST_MISSING = false) as ->.
    { destruct Hc as [[_ ->]|(_ & _ & ->)]; done. }
    assert (~ on_no_list conf x) as Hx by (intros [H1 H2]; destruct Hc as [[Hc _]|(_ & Hc & _)]; congruence).
    cbn [andb]. unfold listed_property. destruct Hc as [[Hel ->]|(Hel & Hbl & ->)].
    + split; [done|]. intros [(b & y & a & Hs & [Hy1 Hy2] & Hfb)|[Hall _]].
      * destruct (first_split_unique (on_no_list conf) _ _ _ _ _ _ Hs) as [_ <-]; try done; [|congruence].
        intros [H1 H2]. congruence.
      * by apply Forall_app in Hall as [_ ?%Forall_inv].
    + split; [|done]. intros _. left. exists before, x, after. split; [done|]. split; [by split|done].
  - cbn [orb]. rewrite Z.eqb_refl. cbn [andb]. split.
    + destruct (opt_streq check None || negb _) eqn:E; [done|]. intros _. right. split; [done|].
      apply orb_false_iff in E as [Hne Hseen%negb_false_iff].
      apply existsb_exists in Hseen as (u & Hu%list_elem_of_In & Hue%opt_streq_eq). exists u.
      unfold check in *. destruct uid as [[|c uid]|]; naive_solver.
    + intros [(b & y & a & -> & [Hy1 Hy2] & Hfb)|(_ & u & -> & Hu & Hin)].
      * apply Forall_app in Hall as [_ [H1 H2]%Forall_inv]. congruence.
      * unfold check. destruct u as [|c u]; [done|]. rewrite (proj2 (existsb_exists _ _)); [done|].
        exists (c :: u). split; [by apply list_elem_of_In|]. by apply opt_streq_eq.
Qed.

Lemma positive_or a b : 0 < (if 0 <? a then a else b) <-> 0 < a \/ 0 < b.
Proof. destruct (Z.ltb_spec 0 a); lia. Qed.

Lemma filter_path_positive conf props p : 0 < filter_path regcomp conf props p <->
  match props with Some l => listed_property conf l (uid_attribute p) | None => False end \/
  listed (blist_devnode conf) (elist_devnode conf) (dev p) \/
  listed_device conf (vendor_id p) (product_id p) \/
  listed (blist_protocol conf) (elist_protocol conf) (snprint_path_protocol p) \/
  listed (blist_wwid conf) (elist_wwid conf) (wwid p).
Proof.
  unfold filter_path. cbv zeta. rewrite !positive_or, filter_property_spec.
  unfold filter_devnode, filter_protocol, filter_wwid. rewrite !filter_with_positive by done.
  assert (0 < filter_device regcomp (default [] (blist_device conf)) (default [] (elist_device conf))
            (Some (vendor_id p)) (Some (product_id p)) <-> listed_device conf (vendor_id p) (product_id p)) as ->; [|done].
  unfold filter_device, listed_device, MATCH_NOTHING, MATCH_DEVICE_BLIST.
  destruct (match_reglist_device _ (default [] (elist_device conf)) _ _), (match_reglist_device _ _ _ _);
    split; (done || lia || (by intros [? ?])).
Qed.

End Verdicts.
