(* ===== verification/Pgpolicies.v ===== *)
(** * libmultipath/pgpolicies.c and switchgroup.c: grouping paths by policy,
    ordering the groups and choosing the best one *)

From S2P Require Import Prelude CString Util Structs.

Definition IOPOLICY_UNDEF : Z := 0.
Definition FAILOVER : Z := 1.
Definition MULTIBUS : Z := 2.
Definition GROUP_BY_SERIAL : Z := 3.
Definition GROUP_BY_PRIO : Z := 4.
Definition GROUP_BY_NODE_NAME : Z := 5.

Definition get_pgpolicy_id (str : cstr) : Z :=
  if strneq 8 str (s "failover") then FAILOVER
  else if strneq 8 str (s "multibus") then MULTIBUS
  else if strneq 15 str (s "group_by_serial") then GROUP_BY_SERIAL
  else if strneq 13 str (s "group_by_prio") then GROUP_BY_PRIO
  else if strneq 18 str (s "group_by_node_name") then GROUP_BY_NODE_NAME
  else IOPOLICY_UNDEF.

(** The text stored in a buffer of [len] bytes and the length [snprintf] reports. *)
Definition get_pgpolicy_name (len : Z) (id : Z) : cstr * Z :=
  let x := if id =? FAILOVER then s "failover"
           else if id =? MULTIBUS then s "multibus"
           else if id =? GROUP_BY_SERIAL then s "group_by_serial"
           else if id =? GROUP_BY_PRIO then s "group_by_prio"
           else if id =? GROUP_BY_NODE_NAME then s "group_by_node_name"
           else s "undefined" in
  (truncate len x, strlen x).

(** ** switchgroup.c *)

Definition is_active (st : path_check_state) : bool := eqb st PATH_UP || eqb st PATH_GHOST.

(** The counters of the loop: marginal paths, sum of priorities, enabled paths. *)
Definition prio_step (h : pheap) (acc : Z * Z * Z) (p : ptr) : Z * Z * Z :=
  let '(marg, prio, enabled) := acc in
  let pp := h !!! p in
  (if marginal pp then marg + 1 else marg,
   if is_active (state pp) then prio + priority pp else prio,
   if is_active (state pp) then enabled + 1 else enabled).

Definition path_group_prio_update (h : pheap) (g : pathgroup) : pathgroup :=
  let '(marg, prio, enabled) := foldl (prio_step h) (0, 0, 0) (g_paths g) in
  g <| enabled_paths := enabled |>
    <| g_priority := if enabled =? 0 then 0 else Z.quot prio enabled |>
    <| g_marginal := if negb (marg =? 0) && (marg =? Z.of_nat (length (g_paths g)))
                     then true else g_marginal g |>.

Record select_acc := {
  normal_pgp : bool; max_priority : Z; best : Z; max_enabled_paths : Z }.

Definition select_step (i : Z) (g : pathgroup) (a : select_acc) : select_acc :=
  if g_marginal g && normal_pgp a then a
  else if enabled_paths g =? 0 then a
  else if negb (g_marginal g) && negb (normal_pgp a) then
    {| normal_pgp := true; max_priority := g_priority g; best := i + 1;
       max_enabled_paths := enabled_paths g |}
  else if max_priority a <? g_priority g then
    {| normal_pgp := normal_pgp a; max_priority := g_priority g; best := i + 1;
       max_enabled_paths := enabled_paths g |}
  else if (g_priority g =? max_priority a) && (max_enabled_paths a <? enabled_paths g) then
    {| normal_pgp := normal_pgp a; max_priority := max_priority a; best := i + 1;
       max_enabled_paths := enabled_paths g |}
  else a.

Fixpoint select_loop (h : pheap) (i : Z) (groups : list pathgroup) (a : select_acc)
  : list pathgroup * select_acc :=
  match groups with
  | [] => ([], a)
  | g :: r =>
      let g := path_group_prio_update h g in
      let '(r', a') := select_loop h (i + 1) r (select_step i g a) in
      (g :: r', a')
  end.

Definition select_start : select_acc :=
  {| normal_pgp := false; max_priority := 0; best := 1; max_enabled_paths := 1 |}.

(** The chosen group (counted from 1) and the groups with their refreshed values. *)
Definition select_path_group (h : pheap) (m : multipath) : Z * multipath :=
  match pg m with
  | None => (1, m)
  | Some groups =>
      let '(groups', a) := select_loop h 0 groups select_start in
      (best a, m <| pg := Some groups' |>)
  end.

(** ** Sorting the groups *)

(** Does the group in front stay in front of [g1]? *)
Definition stays_before (g2 g1 : pathgroup) : bool :=
  (negb (g_marginal g2) && g_marginal g1) ||
  (Bool.eqb (g_marginal g2) (g_marginal g1) &&
   ((g_priority g1 <? g_priority g2) ||
    ((g_priority g2 =? g_priority g1) && (enabled_paths g1 <=? enabled_paths g2)))).

(** The target of the backwards scan from index [j - 1]. *)
Fixpoint insert_pos (groups : list pathgroup) (j : nat) (g1 : pathgroup) : nat :=
  match j with
  | O => O
  | S j' =>
      match groups !! j' with
      | Some g2 => if stays_before g2 g1 then j else insert_pos groups j' g1
      | None => insert_pos groups j' g1
      end
  end.

(** [vector_move_up] on the list a vector holds. *)
Definition move_up {A} (l : list A) (src dest : nat) : list A :=
  match l !! src with
  | Some x => take dest l ++ x :: drop dest (take src l) ++ drop (S src) l
  | None => l
  end.

Fixpoint sort_loop (h : pheap) (n i : nat) (groups : list pathgroup) : list pathgroup :=
  match n with
  | O => groups
  | S n' =>
      match groups !! i with
      | None => groups
      | Some g =>
          let g1 := path_group_prio_update h g in
          let groups := <[i := g1]> groups in
          sort_loop h n' (S i) (move_up groups i (insert_pos groups i g1))
      end
  end.

Definition sort_pathgroups (h : pheap) (m : multipath) : multipath :=
  match pg m with
  | None => m
  | Some groups => m <| pg := Some (sort_loop h (length groups) 0 groups) |>
  end.

(** ** The policies

    A policy adds groups for [paths] to the groups of the map.  It gives 0 and
    the new groups, or 1 after releasing all groups ([None] for NULL). *)

Abbreviation policy := (pheap -> list pathgroup -> list ptr -> Z * option (list pathgroup)).

Definition node_names_match (p1 p2 : path) : bool :=
  strneq NODE_NAME_SIZE (tgt_node_name p1) (tgt_node_name p2).
Definition serials_match (p1 p2 : path) : bool := strneq SERIAL_SIZE (serial p1) (serial p2).
Definition prios_match (p1 p2 : path) : bool := priority p1 =? priority p2.

Section Match.
Variable path_match_fn : path -> path -> bool.
Variable h : pheap.
Variable paths : list ptr.

(** The inner loop over the indices [js]: the paths of the group and the bitmap. *)
Fixpoint match_inner (pp : ptr) (js : list nat) (gpaths : list ptr) (bm : bitfield)
  : option (list ptr * bitfield) :=
  match js with
  | [] => Some (gpaths, bm)
  | j :: js' =>
      if is_bit_set_in_bitfield (Z.of_nat j) bm then match_inner pp js' gpaths bm
      else
        pp2 ← paths !! j;
        if path_match_fn (h !!! pp) (h !!! pp2) then
          gpaths' ← store_path h gpaths pp2;
          match_inner pp js' gpaths' (set_bit_in_bitfield (Z.of_nat j) bm)
        else match_inner pp js' gpaths bm
  end.

Fixpoint match_outer (n i : nat) (groups : list pathgroup) (bm : bitfield)
  : option (list pathgroup) :=
  match n with
  | O => Some groups
  | S n' =>
      if is_bit_set_in_bitfield (Z.of_nat i) bm then match_outer n' (S i) groups bm
      else
        pp ← paths !! i;
        first ← store_path h [] pp;
        '(gpaths, bm') ← match_inner pp (seq (S i) (length paths - S i)) first
                           (set_bit_in_bitfield (Z.of_nat i) bm);
        match_outer n' (S i) (add_pathgroup groups (alloc_pathgroup <| g_paths := gpaths |>)) bm'
  end.
End Match.

Definition group_by_match (path_match_fn : path -> path -> bool) : policy :=
  fun h groups paths =>
    match alloc_bitfield (Z.of_nat (length paths)) with
    | None => (1, None)
    | Some bitmap =>
        match match_outer path_match_fn h paths (length paths) 0 groups bitmap with
        | Some groups' => (0, Some groups')
        | None => (1, None)
        end
    end.

Definition group_by_node_name : policy := group_by_match node_names_match.
Definition group_by_serial : policy := group_by_match serials_match.
Definition group_by_prio : policy := group_by_match prios_match.

Fixpoint one_path_loop (h : pheap) (groups : list pathgroup) (paths : list ptr)
  : option (list pathgroup) :=
  match paths with
  | [] => Some groups
  | pp :: r =>
      gp ← store_path h [] pp;
      one_path_loop h (add_pathgroup groups (alloc_pathgroup <| g_paths := gp |>)) r
  end.

Definition one_path_per_group : policy :=
  fun h groups paths =>
    match one_path_loop h groups paths with
    | Some groups' => (0, Some groups')
    | None => (1, None)
    end.

Fixpoint store_all (h : pheap) (v : list ptr) (paths : list ptr) : option (list ptr) :=
  match paths with
  | [] => Some v
  | pp :: r => v' ← store_path h v pp; store_all h v' r
  end.

Definition one_group : policy :=
  fun h groups paths =>
    match store_all h [] paths with
    | Some gp => (0, Some (add_pathgroup groups (alloc_pathgroup <| g_paths := gp |>)))
    | None => (1, None)
    end.

Definition run_policy (f : pgpolicyfn_t) : policy :=
  match f with
  | fn_one_path_per_group => one_path_per_group
  | fn_one_group => one_group
  | fn_group_by_serial => group_by_serial
  | fn_group_by_prio => group_by_prio
  | fn_group_by_node_name => group_by_node_name
  end.

(** ** Splitting off the marginal paths and grouping *)

Fixpoint split_loop (h : pheap) (normal marg : list ptr) (paths : list ptr)
  : option (list ptr * list ptr) :=
  match paths with
  | [] => Some (normal, marg)
  | pp :: r =>
      if marginal (h !!! pp) then v ← store_path h marg pp; split_loop h normal v r
      else v ← store_path h normal pp; split_loop h v marg r
  end.

(** [None] when the paths are all of one kind or cannot be stored. *)
Definition split_marginal_paths (h : pheap) (paths : list ptr) : option (list ptr * list ptr) :=
  let has_marginal := existsb (fun p => marginal (h !!! p)) paths in
  let has_normal := existsb (fun p => negb (marginal (h !!! p))) paths in
  if negb has_marginal || negb has_normal then None else split_loop h [] [] paths.

Definition group_paths (h : pheap) (m : multipath) (marginal_pathgroups : bool) : Z * multipath :=
  let groups := slots (pg m) in
  let paths := slots (m_paths m) in
  let fail := (1, m <| pg := None |>) in
  if (length paths =? 0)%nat then (0, m <| pg := Some groups |> <| m_paths := None |>)
  else
    match pgpolicyfn m with
    | None => fail
    | Some f =>
        let grouped :=
          match (if marginal_pathgroups then split_marginal_paths h paths else None) with
          | None => run_policy f h groups paths
          | Some (normal, marg) =>
              match run_policy f h groups normal with
              | (0, Some groups1) => run_policy f h groups1 marg
              | _ => (1, None)
              end
          end in
        match grouped with
        | (0, Some groups') =>
            (0, sort_pathgroups h (m <| pg := Some groups' |>) <| m_paths := None |>)
        | _ => fail
        end
    end.

(** ** Lemmas: the order of groups and the insertion sort *)

Definition pg_key (g : pathgroup) : bool * Z * Z :=
  (g_marginal g, g_priority g, enabled_paths g).

Definition same_key (k : bool * Z * Z) (g : pathgroup) : bool := bool_decide (pg_key g = k).

(** The order as a proposition arithmetic can use. *)
Lemma stays_before_spec g2 g1 :
  stays_before g2 g1 = true <->
  (g_marginal g2 = false /\ g_marginal g1 = true) \/
  (g_marginal g2 = g_marginal g1 /\
   (g_priority g1 < g_priority g2 \/
    (g_priority g2 = g_priority g1 /\ enabled_paths g1 <= enabled_paths g2))).
Proof.
  unfold stays_before. destruct (g_marginal g2), (g_marginal g1); simpl; split; intros H;
    bools; intuition (try discriminate; try lia).
Qed.

Lemma stays_before_total g2 g1 : stays_before g2 g1 = false -> stays_before g1 g2 = true.
Proof.
  intros H. apply stays_before_spec.
  destruct (decide (stays_before g2 g1 = true)) as [|Hn]; [congruence|].
  rewrite stays_before_spec in Hn.
  destruct (g_marginal g2), (g_marginal g1); [| | |];
    try (left; split; reflexivity); try (exfalso; apply Hn; left; split; reflexivity);
    right; (split; [reflexivity|]); apply Decidable.not_or in Hn as [_ Hn];
    destruct (Z.lt_trichotomy (g_priority g2) (g_priority g1)) as [?|[?|?]]; try lia;
    exfalso; apply Hn; (split; [reflexivity|]); lia.
Qed.

Lemma stays_before_trans g3 g2 g1 :
  stays_before g3 g2 = true -> stays_before g2 g1 = true -> stays_before g3 g1 = true.
Proof.
  rewrite !stays_before_spec.
  intros [[H1 H2]|[H1 H2]] [[H3 H4]|[H3 H4]]; rewrite ?H1, ?H3, ?H2, ?H4 in *;
    try congruence; [by left|by left|]. right. split; [congruence|lia].
Qed.

Lemma stays_before_key g2 g1 : pg_key g2 = pg_key g1 -> stays_before g2 g1 = true.
Proof. intros [= H1 H2 H3]. apply stays_before_spec. right. split; [done|lia]. Qed.

Lemma insert_pos_spec l1 g rest :
  sortedb stays_before l1 ->
  exists a b, l1 = a ++ b /\ insert_pos (l1 ++ rest) (length l1) g = length a /\
    Forall (fun x => stays_before x g = true) a /\
    Forall (fun x => stays_before x g = false) b.
Proof.
  revert rest. induction l1 as [|x l1 IH] using rev_ind; intros rest Hs.
  { exists [], []. repeat split; constructor. }
  rewrite length_app, Nat.add_comm. cbn [length Nat.add insert_pos].
  rewrite <-app_assoc, lookup_app_r, Nat.sub_diag by lia. cbn [app lookup list_lookup].
  apply sortedb_app in Hs as (Hs & _ & Hlast).
  destruct (stays_before x g) eqn:Hx.
  - exists (l1 ++ [x]), []. rewrite app_nil_r. repeat split; [len| |constructor].
    apply Forall_app. split; [|by repeat constructor].
    eapply Forall_impl; [exact Hlast|]. intros y Hy%Forall_cons_1. destruct Hy as [Hy _].
    by eapply stays_before_trans.
  - destruct (IH ([x] ++ rest) Hs) as (a & b & -> & Hp & Ha & Hb).
    exists a, (b ++ [x]). rewrite app_assoc. repeat split; [done|done|].
    apply Forall_app. auto.
Qed.

Lemma move_up_app {A} (a b : list A) x rest :
  move_up ((a ++ b) ++ x :: rest) (length (a ++ b)) (length a) = a ++ x :: b ++ rest.
Proof.
  unfold move_up. rewrite lookup_app_r, Nat.sub_diag by lia. cbn [lookup list_lookup].
  rewrite <-app_assoc, take_app_length. f_equal. f_equal.
  rewrite app_assoc, take_app_length, drop_app_length. f_equal.
  replace ((a ++ b) ++ x :: rest) with (((a ++ b) ++ [x]) ++ rest) by (by rewrite <-!app_assoc).
  apply drop_app_length'. len.
Qed.

(** What one run of the sort does to the sorted prefix and the rest. *)
Lemma sort_loop_spec h n l1 l2 :
  (length l2 <= n)%nat -> sortedb stays_before l1 ->
  let l2' := path_group_prio_update h <$> l2 in
  sortedb stays_before (sort_loop h n (length l1) (l1 ++ l2)) /\
  sort_loop h n (length l1) (l1 ++ l2) ≡ₚ l1 ++ l2' /\
  forall k, filter (same_key k) (sort_loop h n (length l1) (l1 ++ l2)) =
            filter (same_key k) (l1 ++ l2').
Proof.
  revert l1 l2. induction n as [|n IH]; intros l1 l2 Hn Hs.
  { destruct l2; simpl in *; [|lia]. by rewrite app_nil_r. }
  destruct l2 as [|g l2]; cbn [sort_loop].
  { rewrite app_nil_r, lookup_ge_None_2 by lia. simpl. by rewrite app_nil_r. }
  rewrite lookup_app_r, Nat.sub_diag by lia. cbn [lookup list_lookup].
  set (g1 := path_group_prio_update h g).
  replace (<[length l1 := g1]> (l1 ++ g :: l2)) with (l1 ++ g1 :: l2)
    by (rewrite <-(Nat.add_0_r (length l1)), insert_app_r; done).
  destruct (insert_pos_spec l1 g1 (g1 :: l2) Hs) as (a & b & -> & -> & Ha & Hb).
  rewrite move_up_app.
  replace (a ++ g1 :: b ++ l2) with ((a ++ g1 :: b) ++ l2) by (by rewrite <-app_assoc).
  replace (S (length (a ++ b))) with (length (a ++ g1 :: b)) by len.
  apply sortedb_app in Hs as (Hsa & Hsb & Hab).
  assert (Forall (fun y => stays_before g1 y = true) b) as Hgb.
  { eapply Forall_impl; [exact Hb|]. intros y. apply stays_before_total. }
  destruct (IH (a ++ g1 :: b) l2) as (H1 & H2 & H3); [simpl in *; lia| |].
  { apply sortedb_app. split; [done|]. split; [done|].
    rewrite Forall_forall in *. intros x Hx. apply Forall_cons. auto. }
  split; [done|]. split.
  - rewrite H2. cbn [fmap list_fmap]. rewrite <-!app_assoc. f_equiv. cbn [app].
    by rewrite Permutation_middle.
  - intros k. rewrite H3. cbn [fmap list_fmap]. rewrite <-!app_assoc, !filter_app. f_equal.
    rewrite !filter_consb. fold g1. destruct (same_key k g1) eqn:Hk; [|done].
    rewrite (filter_none (same_key k) b); [done|].
    eapply Forall_impl; [exact Hb|]. intros y Hy. apply not_true_iff_false. intros Hky.
    apply bool_decide_eq_true in Hk, Hky. cbn beta in Hy.
    rewrite stays_before_key in Hy by congruence. done.
Qed.

(** ** Lemmas: what the update of a group computes *)

Lemma prio_step_foldl h ps m0 p0 e0 :
  foldl (prio_step h) (m0, p0, e0) ps =
  (m0 + count_if (fun p => marginal (h !!! p)) ps,
   p0 + foldr Z.add 0 ((fun p => priority (h !!! p)) <$> filter (fun p => is_active (state (h !!! p))) ps),
   e0 + count_if (fun p => is_active (state (h !!! p))) ps).
Proof.
  revert m0 p0 e0. induction ps as [|p ps IH]; intros; cbn [foldl].
  - unfold count_if. simpl. by rewrite !Z.add_0_r.
  - unfold prio_step at 2. rewrite IH, !count_if_cons, filter_consb.
    destruct (marginal _), (is_active _); cbn [fmap list_fmap foldr];
      (apply (f_equal2 pair); [apply (f_equal2 pair)|]; lia).
Qed.

Section Update.
Context (h : pheap) (g : pathgroup).

Let active := filter (fun p => is_active (state (h !!! p))) (g_paths g).

Lemma update_enabled : enabled_paths (path_group_prio_update h g) = Z.of_nat (length active).
Proof. unfold path_group_prio_update. by rewrite prio_step_foldl. Qed.

Lemma update_priority :
  g_priority (path_group_prio_update h g) =
  if (length active =? 0)%nat then 0
  else Z.quot (foldr Z.add 0 ((fun p => priority (h !!! p)) <$> active)) (Z.of_nat (length active)).
Proof.
  unfold path_group_prio_update. rewrite prio_step_foldl. cbn [upd g_priority].
  unfold count_if. fold active. rewrite !Z.add_0_l.
  by destruct active.
Qed.

Lemma update_paths : g_paths (path_group_prio_update h g) = g_paths g.
Proof. unfold path_group_prio_update. by rewrite prio_step_foldl. Qed.

Lemma update_marginal :
  g_marginal (path_group_prio_update h g) =
  g_marginal g || (negb (length (g_paths g) =? 0)%nat &&
                   forallb (fun p => marginal (h !!! p)) (g_paths g)).
Proof.
  unfold path_group_prio_update. rewrite prio_step_foldl. cbn [upd g_marginal].
  rewrite Z.add_0_l. set (f := fun p => marginal (h !!! p)).
  destruct (forallb f (g_paths g)) eqn:Hf.
  - apply forallb_Forall, count_if_all in Hf. rewrite Hf.
    rewrite Z.eqb_refl, andb_true_r, andb_true_r.
    destruct (g_paths g), (g_marginal g); done.
  - assert (count_if f (g_paths g) <> Z.of_nat (length (g_paths g))) as Hne.
    { intros He. apply count_if_all, forallb_Forall in He. congruence. }
    rewrite (proj2 (Z.eqb_neq _ _) Hne), !andb_false_r, orb_false_r. done.
Qed.
End Update.

(** ** Lemmas: grouping by a match function *)

(** A path that has a number or a name, as every discovered path does. *)
Definition storable (h : pheap) (p : ptr) : Prop :=
  (strlen (dev_t (h !!! p)) =? 0) && (strlen (dev (h !!! p)) =? 0) = false.

#[export] Instance storable_dec h p : Decision (storable h p).
Proof. unfold storable. apply _. Defined.

Lemma store_path_ok h v p : storable h p -> store_path h v p = Some (v ++ [p]).
Proof. unfold storable, store_path. by intros ->. Qed.

(** The grouping the loops with the bitmap compute: the first path, with all
    later paths that match it, then the same for the others. *)
Fixpoint classes (fuel : nat) (R : ptr -> ptr -> bool) (l : list ptr) : list (list ptr) :=
  match fuel, l with
  | S f, x :: r => (x :: filter (R x) r) :: classes f R (filter (fun y => negb (R x y)) r)
  | _, _ => []
  end.

Section MatchSpec.
Context (R : path -> path -> bool) (h : pheap) (paths : list ptr)
        (Hstore : Forall (storable h) paths).

Let RR (p q : ptr) : bool := R (h !!! p) (h !!! q).

Definition good_bm (bm : bitfield) : Prop :=
  bitfield_wf bm /\ bf_len bm = Z.of_nat (length paths).

Definition is_set (bm : bitfield) (j : nat) : bool := is_bit_set_in_bitfield (Z.of_nat j) bm.

(** The paths at the indices [js] whose bit is not set. *)
Definition unset (bm : bitfield) (js : list nat) : list ptr :=
  omap (fun j => if is_set bm j then None else paths !! j) js.

Lemma set_good bm j : good_bm bm -> (j < length paths)%nat ->
  good_bm (set_bit_in_bitfield (Z.of_nat j) bm) /\
  forall k, is_set (set_bit_in_bitfield (Z.of_nat j) bm) k = (k =? j)%nat || is_set bm k.
Proof.
  intros [Hwf Hl] Hj. split.
  - split; [by apply set_bit_wf|]. unfold set_bit_in_bitfield. by case_match.
  - intros k. unfold is_set. rewrite is_bit_set_set by (done || lia). f_equal.
    destruct (Z.eqb_spec (Z.of_nat k) (Z.of_nat j)), (Nat.eqb_spec k j); (done || lia).
Qed.

Lemma unset_step bm j js :
  unset bm (j :: js) = match (if is_set bm j then None else paths !! j) with
                       | Some p => p :: unset bm js
                       | None => unset bm js
                       end.
Proof. done. Qed.

Lemma unset_ext bm bm' js :
  (forall k, k ∈ js -> is_set bm' k = is_set bm k) -> unset bm' js = unset bm js.
Proof.
  intros H. induction js as [|j js IH]; [done|]. rewrite !unset_step.
  rewrite H, IH by set_solver. done.
Qed.

Lemma unset_cons bm j js p : paths !! j = Some p ->
  unset bm (j :: js) = if is_set bm j then unset bm js else p :: unset bm js.
Proof. intros H. rewrite unset_step. by destruct (is_set bm j); [|rewrite H]. Qed.

Lemma match_inner_spec pp js gp bm :
  good_bm bm -> NoDup js -> Forall (fun j => (j < length paths)%nat) js ->
  exists bm', match_inner R h paths pp js gp bm =
      Some (gp ++ filter (RR pp) (unset bm js), bm') /\
    good_bm bm' /\
    unset bm' js = filter (fun q => negb (RR pp q)) (unset bm js) /\
    forall k, k ∉ js -> is_set bm' k = is_set bm k.
Proof.
  revert gp bm. induction js as [|j js IH]; intros gp bm Hbm Hnd Hlt; cbn [match_inner].
  { exists bm. unfold unset. simpl. by rewrite app_nil_r. }
  apply NoDup_cons in Hnd as [Hj Hnd]. apply Forall_cons in Hlt as [Hjl Hlt].
  destruct (lookup_lt_is_Some_2 paths j Hjl) as [p Hp].
  rewrite (unset_cons bm j js p Hp). fold (is_set bm j). destruct (is_set bm j) eqn:Hset.
  - destruct (IH gp bm Hbm Hnd Hlt) as (bm' & H1 & H2 & H3 & H4). exists bm'.
    rewrite (unset_cons bm' j js p Hp), H4, Hset by done.
    split_and!; try done. intros k Hk. apply H4. set_solver.
  - rewrite Hp. cbn [mbind option_bind]. fold (RR pp p). rewrite !filter_consb.
    destruct (RR pp p) eqn:HR; cbn [negb].
    + rewrite store_path_ok by (by eapply Forall_lookup_1). cbn [mbind option_bind].
      destruct (set_good bm j Hbm Hjl) as [Hbm1 Hset1].
      destruct (IH (gp ++ [p]) _ Hbm1 Hnd Hlt) as (bm' & H1 & H2 & H3 & H4). exists bm'.
      assert (unset (set_bit_in_bitfield (Z.of_nat j) bm) js = unset bm js) as Hu.
      { apply unset_ext. intros k Hk. rewrite Hset1.
        destruct (Nat.eqb_spec k j) as [->|]; [by destruct Hj|done]. }
      rewrite H1, Hu, <-app_assoc. rewrite Hu in H3.
      rewrite (unset_cons bm' j js p Hp), H4, Hset1, Nat.eqb_refl by done.
      split_and!; try done.
      intros k Hk. rewrite H4, Hset1 by set_solver.
      destruct (Nat.eqb_spec k j); [set_solver|done].
    + destruct (IH gp bm Hbm Hnd Hlt) as (bm' & H1 & H2 & H3 & H4). exists bm'.
      rewrite (unset_cons bm' j js p Hp), H4, Hset, H3 by done.
      split_and!; try done. intros k Hk. apply H4. set_solver.
Qed.

Definition mk_group (l : list ptr) : pathgroup := alloc_pathgroup <| g_paths := l |>.

Lemma match_outer_spec n i groups bm f :
  good_bm bm -> (n + i = length paths)%nat -> (length (unset bm (seq i n)) <= f)%nat ->
  match_outer R h paths n i groups bm =
  Some (groups ++ (mk_group <$> classes f RR (unset bm (seq i n)))).
Proof.
  revert i groups bm f. induction n as [|n IH]; intros i groups bm f Hbm Hn Hf; cbn [match_outer seq].
  { unfold unset. simpl. destruct f; simpl; by rewrite app_nil_r. }
  destruct (lookup_lt_is_Some_2 paths i ltac:(lia)) as [p Hp].
  cbn [seq] in Hf. rewrite (unset_cons bm i _ p Hp) in *.
  fold (is_set bm i). destruct (is_set bm i) eqn:Hset; [apply IH; (done || lia)|].
  rewrite Hp. cbn [mbind option_bind].
  rewrite store_path_ok by (by eapply Forall_lookup_1). cbn [mbind option_bind].
  destruct (set_good bm i Hbm ltac:(lia)) as [Hbm1 Hset1].
  replace (length paths - S i)%nat with n by lia.
  destruct (match_inner_spec p (seq (S i) n) ([] ++ [p]) _ Hbm1) as (bm' & -> & Hbm' & Hu' & _).
  { apply NoDup_seq. }
  { apply Forall_seq. lia. }
  cbn [mbind option_bind].
  assert (unset (set_bit_in_bitfield (Z.of_nat i) bm) (seq (S i) n) = unset bm (seq (S i) n)) as Hu.
  { apply unset_ext. intros k Hk%elem_of_seq. rewrite Hset1.
    destruct (Nat.eqb_spec k i); (done || lia). }
  rewrite Hu in *. destruct f as [|f]; simpl in Hf; [lia|].
  rewrite (IH (S i) _ bm' f Hbm' ltac:(lia)).
  2:{ rewrite Hu'. etrans; [apply length_filter|lia]. }
  rewrite Hu'. unfold add_pathgroup. by rewrite <-app_assoc.
Qed.

Lemma unset_all bm : (forall k, is_set bm k = false) -> unset bm (seq 0 (length paths)) = paths.
Proof.
  intros H. unfold unset.
  assert (forall l pre, paths = pre ++ l ->
    omap (fun j => if is_set bm j then None else paths !! j) (seq (length pre) (length l)) = l) as Hg.
  { induction l as [|x l IH]; intros pre Hpre; [done|]. cbn [length seq omap list_omap].
    rewrite H, Hpre, lookup_app_r, Nat.sub_diag by lia. cbn [lookup list_lookup]. f_equal.
    rewrite <-Hpre. replace (S (length pre)) with (length (pre ++ [x])) by len.
    apply IH. by rewrite Hpre, <-app_assoc. }
  by apply (Hg paths []).
Qed.

Lemma group_by_match_spec groups :
  paths <> [] ->
  group_by_match R h groups paths =
  (0, Some (groups ++ (mk_group <$> classes (length paths) RR paths))).
Proof.
  intros Hne. unfold group_by_match.
  assert (0 < Z.of_nat (length paths)) as Hpos by (destruct paths; simpl; (done || lia)).
  destruct (alloc_bitfield (Z.of_nat (length paths))) as [bm|] eqn:Hbm.
  2:{ unfold alloc_bitfield in Hbm. by replace (_ =? 0) with false in Hbm by blia. }
  assert (forall k, is_set bm k = false) as Hz.
  { intros k. by apply (is_bit_set_alloc _ _ (Z.of_nat k) Hpos ltac:(lia) Hbm). }
  rewrite (match_outer_spec _ _ groups bm (length paths)); rewrite ?unset_all by done; try done.
  - split; [by eapply alloc_bitfield_wf|]. unfold alloc_bitfield in Hbm.
    replace (_ =? 0) with false in Hbm by blia. by simplify_eq.
Qed.
End MatchSpec.

Section Classes.
Context (R : ptr -> ptr -> bool).

Lemma classes_perm f l : (length l <= f)%nat -> concat (classes f R l) ≡ₚ l.
Proof.
  revert l. induction f as [|f IH]; intros [|x l] Hf; simpl in *; try done; [lia|].
  rewrite IH.
  - f_equiv. apply filter_split_perm.
  - etrans; [apply length_filter|lia].
Qed.

Lemma classes_nonempty f l : Forall (fun g => g <> []) (classes f R l).
Proof. revert l. induction f as [|f IH]; intros [|x l]; simpl; by constructor. Qed.

(** For an equivalence, two elements are in one class exactly when related. *)
Lemma classes_related f l :
  (forall x, R x x = true) -> (forall x y, R x y = true -> R y x = true) ->
  (forall x y z, R x y = true -> R y z = true -> R x z = true) ->
  (length l <= f)%nat -> NoDup l ->
  forall p q, p ∈ l -> q ∈ l ->
    (exists g, g ∈ classes f R l /\ p ∈ g /\ q ∈ g) <-> R p q = true.
Proof.
  intros Hr Hsym Htr. revert l. induction f as [|f IH]; intros [|x l] Hf Hnd p q Hp Hq;
    [by apply not_elem_of_nil in Hp|simpl in Hf; lia|by apply not_elem_of_nil in Hp|].
  cbn [classes]. apply NoDup_cons in Hnd as [Hx Hnd].
  set (same := filter (R x) l). set (other := filter (fun y => negb (R x y)) l).
  assert (Hin : forall y, y ∈ x :: same <-> y ∈ x :: l /\ R x y = true).
  { intros y. unfold same. rewrite !elem_of_cons, list_elem_of_filter, Is_true_true.
    split; [intros [->|[? ?]]; auto|intros [[->|?] ?]; auto]. }
  assert (Hout : forall y, y ∈ other <-> y ∈ x :: l /\ R x y = false).
  { intros y. unfold other. rewrite elem_of_cons, list_elem_of_filter, Is_true_true, negb_true_iff.
    split; [intros [? ?]; auto|]. intros [[->|?] Hn]; [rewrite Hr in Hn; done|auto]. }
  assert (Hsub : forall g y, g ∈ classes f R other -> y ∈ g -> y ∈ other).
  { intros g y Hg Hy. rewrite <-(classes_perm f other).
    - apply list_elem_of_In, in_concat. exists g. by rewrite <-!list_elem_of_In.
    - etrans; [apply length_filter|simpl in Hf; lia]. }
  assert (NoDup other) as Hndo by (by apply NoDup_filter).
  assert (length other <= f)%nat as Hlo.
  { etrans; [apply length_filter|simpl in Hf; lia]. }
  specialize (IH other Hlo Hndo). split.
  - intros (g & [->|Hg]%elem_of_cons & Hpg & Hqg).
    + apply Hin in Hpg as [_ Hpg], Hqg as [_ Hqg]. eauto.
    + apply (IH p q); eauto.
  - intros HR. destruct (R x p) eqn:Hxp.
    + exists (x :: same). split; [by left|]. rewrite !Hin. eauto 10.
    + assert (R x q = false) as Hxq by (apply not_true_iff_false; intros H;
        rewrite (Htr x q p H) in Hxp; [done|auto]).
      destruct (proj2 (IH p q (proj2 (Hout p) (conj Hp Hxp)) (proj2 (Hout q) (conj Hq Hxq))) HR)
        as (g & Hg & H). exists g. split; [by right|done].
Qed.
End Classes.

(** ** The contract of a policy

    What [group_paths] relies on: a policy adds groups that are not yet marked
    marginal, none of them empty, and that hold exactly the given paths. *)
Class GroupingPolicy (f : policy) := policy_ok :
  forall h groups paths, paths <> [] -> Forall (storable h) paths ->
  exists ls, f h groups paths = (0, Some (groups ++ (mk_group <$> ls))) /\
    concat ls ≡ₚ paths /\ Forall (fun l => l <> []) ls.

#[export] Instance group_by_match_policy R : GroupingPolicy (group_by_match R).
Proof.
  intros h groups paths Hne Hst. rewrite group_by_match_spec by done.
  eexists. split; [reflexivity|]. split; [by apply classes_perm|apply classes_nonempty].
Qed.

#[export] Instance one_path_per_group_policy : GroupingPolicy one_path_per_group.
Proof.
  intros h groups paths Hne Hst. exists ((fun p => [p]) <$> paths). split_and!.
  - unfold one_path_per_group.
    assert (one_path_loop h groups paths =
      Some (groups ++ (mk_group <$> ((fun p => [p]) <$> paths)))) as ->; [|done].
    revert groups. induction Hst as [|p ps Hp _ IH]; intros groups; cbn [one_path_loop].
    { by rewrite app_nil_r. }
    rewrite store_path_ok by done. cbn [mbind option_bind].
    destruct (decide (ps = [])) as [->|Hps]; [done|].
    rewrite IH by done. unfold add_pathgroup. by rewrite <-app_assoc.
  - clear. induction paths as [|p ps IH]; [done|]. simpl. by rewrite IH.
  - by apply Forall_fmap, Forall_true.
Qed.

Lemma store_all_ok h v ps : Forall (storable h) ps -> store_all h v ps = Some (v ++ ps).
Proof.
  intros H. revert v. induction H as [|p ps Hp _ IH]; intros v; cbn [store_all].
  { by rewrite app_nil_r. }
  rewrite store_path_ok by done. cbn [mbind option_bind]. by rewrite IH, <-app_assoc.
Qed.

#[export] Instance one_group_policy : GroupingPolicy one_group.
Proof.
  intros h groups paths Hne Hst. exists [paths]. unfold one_group.
  rewrite store_all_ok by done. split_and!; [done|by simpl; rewrite app_nil_r|by repeat constructor].
Qed.

#[export] Instance run_policy_policy f : GroupingPolicy (run_policy f).
Proof. destruct f; apply _. Qed.

(** ** Lemmas: splitting and grouping *)

Lemma split_loop_spec h n m ps :
  Forall (storable h) ps ->
  split_loop h n m ps =
  Some (n ++ filter (fun p => negb (marginal (h !!! p))) ps, m ++ filter (fun p => marginal (h !!! p)) ps).
Proof.
  intros H. revert n m. induction H as [|p ps Hp _ IH]; intros n m; cbn [split_loop].
  { by rewrite !app_nil_r. }
  rewrite !filter_consb.
  destruct (marginal (h !!! p)); rewrite store_path_ok by done; cbn [mbind option_bind negb];
    by rewrite IH, <-app_assoc.
Qed.

(** Groups of one kind only. *)
Definition pure_group (h : pheap) (g : pathgroup) : Prop :=
  Forall (fun p => marginal (h !!! p) = g_marginal g) (g_paths g).

Lemma update_idemp h g :
  path_group_prio_update h (path_group_prio_update h g) = path_group_prio_update h g.
Proof.
  pose proof (update_enabled h g) as He. pose proof (update_enabled h (path_group_prio_update h g)) as He2.
  pose proof (update_priority h g) as Hp. pose proof (update_priority h (path_group_prio_update h g)) as Hp2.
  pose proof (update_marginal h g) as Hm. pose proof (update_marginal h (path_group_prio_update h g)) as Hm2.
  pose proof (update_paths h g) as Ha. pose proof (update_paths h (path_group_prio_update h g)) as Ha2.
  rewrite Ha in *. rewrite <-He in He2. rewrite <-Hp in Hp2.
  assert (g_marginal (path_group_prio_update h (path_group_prio_update h g)) =
          g_marginal (path_group_prio_update h g)) as Hm3.
  { rewrite Hm2, Hm. by destruct (g_marginal g), (negb _ && _). }
  assert (forall g1 g2, pg_id g1 = pg_id g2 -> status g1 = status g2 -> g_priority g1 = g_priority g2 ->
    enabled_paths g1 = enabled_paths g2 -> g_marginal g1 = g_marginal g2 ->
    g_paths g1 = g_paths g2 -> g1 = g2) as Hext by (intros [] []; simpl; by intros; subst).
  assert (forall g, pg_id (path_group_prio_update h g) = pg_id g /\
                    status (path_group_prio_update h g) = status g) as Hid
    by (intros x; unfold path_group_prio_update; by rewrite prio_step_foldl).
  apply Hext; try done; [apply (Hid (path_group_prio_update h g))..|congruence].
Qed.

(** The groups [group_paths] forms before sorting them. *)
Lemma group_paths_unsorted h f (mp : bool) ps :
  ps <> [] -> Forall (storable h) ps ->
  exists ls,
    match (if mp then split_marginal_paths h ps else None) with
    | None => run_policy f h [] ps
    | Some (normal, marg) =>
        match run_policy f h [] normal with
        | (0, Some groups1) => run_policy f h groups1 marg
        | _ => (1, None)
        end
    end = (0, Some (mk_group <$> ls)) /\
    concat ls ≡ₚ ps /\ Forall (fun l => l <> []) ls /\
    (mp = true -> Forall (fun l => Forall (fun p => marginal (h !!! p) = true) l \/
                                   Forall (fun p => marginal (h !!! p) = false) l) ls).
Proof.
  intros Hne Hst. set (f_m := fun p => marginal (h !!! p)).
  assert (forall ls (l : list ptr), concat ls ≡ₚ l -> forall b, Forall (fun p => f_m p = b) l ->
    Forall (fun g => Forall (fun p => f_m p = b) g) ls) as Hsub.
  { intros ls l Hp b Hb. rewrite Forall_forall. intros g Hg. rewrite Forall_forall in *.
    intros p Hpg. apply Hb. rewrite <-Hp. apply list_elem_of_In, in_concat.
    exists g. by rewrite <-!list_elem_of_In. }
  assert (forall b : bool, existsb (fun p => if b then negb (f_m p) else f_m p) ps = false ->
    Forall (fun p => f_m p = b) ps) as Hall.
  { intros b He. rewrite Forall_forall. intros p Hp.
    apply not_true_iff_false in He. destruct (decide (f_m p = b)) as [|Hn]; [done|].
    destruct He. apply existsb_exists. exists p. split; [by apply list_elem_of_In|].
    by destruct b, (f_m p). }
  destruct mp; cbn iota.
  2:{ destruct (policy_ok (f := run_policy f) h [] ps Hne Hst) as (ls & H1 & H2 & H3).
      exists ls. by rewrite H1. }
  unfold split_marginal_paths. destruct (negb _ || negb _) eqn:Hk.
  - destruct (policy_ok (f := run_policy f) h [] ps Hne Hst) as (ls & H1 & H2 & H3).
    exists ls. rewrite H1. split_and!; try done. intros _.
    assert (exists b, Forall (fun p => f_m p = b) ps) as [b Hb].
    { apply orb_true_iff in Hk as [Hk|Hk]; apply negb_true_iff in Hk.
      - exists false. by apply Hall.
      - exists true. by apply Hall. }
    eapply Forall_impl; [by apply (Hsub ls ps H2 b)|]. intros g Hg. destruct b; auto.
  - rewrite split_loop_spec by done. apply orb_false_iff in Hk as [Hk1 Hk2].
    apply negb_false_iff in Hk1, Hk2. apply existsb_exists in Hk1 as (pm & Hpm & Hm),
      Hk2 as (pn & Hpn & Hn). apply list_elem_of_In in Hpm, Hpn. cbn [app].
    set (nl := filter (fun p => negb (marginal (h !!! p))) ps).
    set (ml := filter (fun p => marginal (h !!! p)) ps).
    assert (pn ∈ nl /\ pm ∈ ml) as [Hpn' Hpm'].
    { unfold nl, ml. rewrite !list_elem_of_filter, !Is_true_true. done. }
    destruct (policy_ok (f := run_policy f) h [] nl) as (ls1 & H1 & H2 & H3).
    { intros E. rewrite E in Hpn'. by apply not_elem_of_nil in Hpn'. }
    { by apply Forall_filterb. }
    rewrite H1. cbn [app].
    destruct (policy_ok (f := run_policy f) h (mk_group <$> ls1) ml) as (ls2 & H4 & H5 & H6).
    { intros E. rewrite E in Hpm'. by apply not_elem_of_nil in Hpm'. }
    { by apply Forall_filterb. }
    exists (ls1 ++ ls2). rewrite H4, fmap_app, concat_app, H2, H5. split_and!; [done| | |].
    + unfold nl, ml. rewrite Permutation_app_comm. apply filter_split_perm.
    + by apply Forall_app.
    + intros _. apply Forall_app. split.
      * eapply Forall_impl; [apply (Hsub ls1 nl H2 false)|auto].
        apply Forall_forall. intros p [Hp%Is_true_true _]%list_elem_of_filter. by apply negb_true_iff.
      * eapply Forall_impl; [apply (Hsub ls2 ml H5 true)|auto].
        apply Forall_forall. by intros p [Hp%Is_true_true _]%list_elem_of_filter.
Qed.

(** ** Lemmas: choosing a group *)

Definition usable (g : pathgroup) : bool := negb (enabled_paths g =? 0).
Definition normal_usable (g : pathgroup) : bool := negb (g_marginal g) && usable g.

(** [g] beats a priority and a number of enabled paths. *)
Definition beats (g : pathgroup) (prio enabled : Z) : Prop :=
  prio < g_priority g \/ (g_priority g = prio /\ enabled < enabled_paths g).

(** [k] is the position of the first best group among those that satisfy [ok]. *)
Definition first_best (ok : pathgroup -> bool) (l : list pathgroup) (k : nat) (g : pathgroup) : Prop :=
  l !! k = Some g /\ ok g = true /\
  forall k' g', l !! k' = Some g' -> ok g' = true ->
    ~ beats g' (g_priority g) (enabled_paths g) /\
    ((k' < k)%nat -> beats g (g_priority g') (enabled_paths g')).

Definition select_inv (l : list pathgroup) (a : select_acc) : Prop :=
  if normal_pgp a then
    exists k g, first_best normal_usable l k g /\ best a = Z.of_nat k + 1 /\
      max_priority a = g_priority g /\ max_enabled_paths a = enabled_paths g
  else
    Forall (fun g => normal_usable g = false) l /\
    Forall (fun g => usable g = true -> ~ beats g (max_priority a) (max_enabled_paths a)) l /\
    ((best a = 1 /\ max_priority a = 0 /\ max_enabled_paths a = 1) \/
     exists k g, l !! k = Some g /\ usable g = true /\ best a = Z.of_nat k + 1 /\
       max_priority a = g_priority g /\ max_enabled_paths a = enabled_paths g).

Lemma lookup_snoc_cases {A} (l : list A) x k y :
  (l ++ [x]) !! k = Some y -> l !! k = Some y \/ (k = length l /\ y = x).
Proof.
  intros H. destruct (decide (k < length l)%nat).
  - rewrite lookup_app_l in H by done. auto.
  - rewrite lookup_app_r in H by lia. destruct (k - length l)%nat eqn:E; simpl in H; [|done].
    right. simplify_eq. split; [lia|done].
Qed.

Lemma lookup_snoc_old {A} (l : list A) x k y : l !! k = Some y -> (l ++ [x]) !! k = Some y.
Proof. intros H. rewrite lookup_app_l; [done|]. by eapply lookup_lt_Some. Qed.

Lemma lookup_snoc_new {A} (l : list A) x : (l ++ [x]) !! length l = Some x.
Proof. by rewrite lookup_app_r, Nat.sub_diag by lia. Qed.

(** A group that is not better keeps the choice, one that is replaces it. *)
Lemma first_best_keep ok l k g x :
  first_best ok l k g ->
  (ok x = true -> ~ beats x (g_priority g) (enabled_paths g)) -> first_best ok (l ++ [x]) k g.
Proof.
  intros (Hk & Hg & Hbest) Hx. split; [by apply lookup_snoc_old|]. split; [done|].
  intros k' g' [H|[-> ->]]%lookup_snoc_cases Hok; [by apply Hbest|].
  split; [by apply Hx|]. apply lookup_lt_Some in Hk. lia.
Qed.

Lemma first_best_replace ok l k g x :
  first_best ok l k g -> ok x = true -> beats x (g_priority g) (enabled_paths g) ->
  first_best ok (l ++ [x]) (length l) x.
Proof.
  intros (Hk & Hg & Hbest) Hx Hb. split; [by apply lookup_snoc_new|]. split; [done|].
  intros k' g' [H|[-> ->]]%lookup_snoc_cases Hok.
  - destruct (Hbest k' g' H Hok) as [Hn _]. unfold beats in *. lia.
  - unfold beats. lia.
Qed.

Lemma select_step_inv l a g :
  select_inv l a -> select_inv (l ++ [g]) (select_step (Z.of_nat (length l)) g a).
Proof.
  unfold select_step, select_inv. intros Hinv.
  destruct (normal_pgp a) eqn:Hn.
  - destruct Hinv as (k & g0 & Hfb & Hb & Hp & He). rewrite Hp, He.
    destruct (g_marginal g) eqn:Hm; cbn [andb negb].
    { rewrite Hn. exists k, g0. split_and!; try done. apply first_best_keep; [done|].
      unfold normal_usable. by rewrite Hm. }
    destruct (Z.eqb_spec (enabled_paths g) 0) as [H0|H0].
    { rewrite Hn. exists k, g0. split_and!; try done. apply first_best_keep; [done|].
      unfold normal_usable, usable. by rewrite H0, andb_false_r. }
    assert (normal_usable g = true) as Hok
      by (unfold normal_usable, usable; rewrite Hm; by destruct (Z.eqb_spec (enabled_paths g) 0)).
    destruct (Z.ltb_spec (g_priority g0) (g_priority g)).
    { cbn [normal_pgp]. exists (length l), g. split_and!; try done.
      apply (first_best_replace _ l k g0); [done|done|by left]. }
    destruct (Z.eqb_spec (g_priority g) (g_priority g0)); cbn [andb];
      [destruct (Z.ltb_spec (enabled_paths g0) (enabled_paths g))|].
    + cbn [normal_pgp]. exists (length l), g. split_and!; try done.
      apply (first_best_replace _ l k g0); [done|done|by right].
    + rewrite Hn. exists k, g0. split_and!; try done. apply first_best_keep; [done|].
      unfold beats. lia.
    + rewrite Hn. exists k, g0. split_and!; try done. apply first_best_keep; [done|].
      unfold beats. lia.
  - destruct Hinv as (Hno & Hbest & Hmax). rewrite andb_false_r.
    assert (forall b, usable g = b -> normal_usable g = negb (g_marginal g) && b) as Hnu
      by (by intros b <-).
    destruct (Z.eqb_spec (enabled_paths g) 0) as [H0|H0].
    { rewrite Hn. assert (usable g = false) as Hu by (unfold usable; by rewrite H0).
      rewrite !Forall_app, !Forall_singleton. split_and!; try done.
      - rewrite (Hnu _ Hu). apply andb_false_r.
      - congruence.
      - destruct Hmax as [?|(k & g' & ? & ?)]; [by left|]. right. exists k, g'.
        split; [by apply lookup_snoc_old|done]. }
    assert (usable g = true) as Hu by (unfold usable; by destruct (Z.eqb_spec (enabled_paths g) 0)).
    destruct (g_marginal g) eqn:Hm; cbn [andb negb].
    2:{ cbn [normal_pgp]. exists (length l), g. split_and!; try done.
        split; [by apply lookup_snoc_new|]. split; [by rewrite (Hnu _ Hu)|].
        intros k' g' [H|[-> ->]]%lookup_snoc_cases Hok.
        - eapply Forall_lookup_1 in Hno; [|exact H]. simpl in Hno. congruence.
        - unfold beats. lia. }
    assert (normal_usable g = false) as Hng by (by rewrite (Hnu _ Hu)).
    assert (forall p e, (max_priority a < p \/ max_priority a = p /\ max_enabled_paths a <= e) ->
      Forall (fun g => usable g = true -> ~ beats g p e) l) as Hmono.
    { intros p e Hpe. eapply Forall_impl; [exact Hbest|]. simpl. intros g' Hg' Hug' Hb.
      apply (Hg' Hug'). unfold beats in *. lia. }
    assert (forall a' : select_acc, normal_pgp a' = false -> best a' = Z.of_nat (length l) + 1 ->
      max_priority a' = g_priority g -> max_enabled_paths a' = enabled_paths g ->
      (max_priority a < g_priority g \/
       max_priority a = g_priority g /\ max_enabled_paths a <= enabled_paths g) ->
      select_inv (l ++ [g]) a') as Hnew.
    { intros a' Hn' Hb' Hp' He' Hge. unfold select_inv. rewrite Hn', Hp', He'.
      rewrite !Forall_app, !Forall_singleton. split_and!; try done.
      - by apply Hmono.
      - unfold beats. lia.
      - right. exists (length l), g. split_and!; try done. apply lookup_snoc_new. }
    assert (~ beats g (max_priority a) (max_enabled_paths a) -> select_inv (l ++ [g]) a) as Hold.
    { intros Hb. unfold select_inv. rewrite Hn, !Forall_app, !Forall_singleton. split_and!; try done.
      destruct Hmax as [?|(k & g' & ? & ?)]; [by left|]. right. exists k, g'.
      split; [by apply lookup_snoc_old|done]. }
    destruct (Z.ltb_spec (max_priority a) (g_priority g)); [apply Hnew; (done || by left)|].
    destruct (Z.eqb_spec (g_priority g) (max_priority a)); cbn [andb];
      [destruct (Z.ltb_spec (max_enabled_paths a) (enabled_paths g))|].
    + apply Hnew; try done. lia.
    + apply Hold. unfold beats. lia.
    + apply Hold. unfold beats. lia.
Qed.

Lemma select_loop_inv h l groups a :
  select_inv l a ->
  let '(gs, a') := select_loop h (Z.of_nat (length l)) groups a in
  gs = (path_group_prio_update h <$> groups) /\ select_inv (l ++ gs) a'.
Proof.
  revert l a. induction groups as [|g groups IH]; intros l a Hinv; cbn [select_loop].
  { by rewrite app_nil_r. }
  pose proof (select_step_inv l a (path_group_prio_update h g) Hinv) as Hs.
  specialize (IH _ _ Hs). revert IH.
  replace (Z.of_nat (length (l ++ [path_group_prio_update h g]))) with (Z.of_nat (length l) + 1) by len.
  destruct (select_loop _ _ _ _) as [gs a']. intros [-> IH]. split; [done|].
  by rewrite <-app_assoc in IH.
Qed.

Lemma select_path_group_spec h m groups :
  pg m = Some groups ->
  let gs := path_group_prio_update h <$> groups in
  exists a, select_path_group h m = (best a, m <| pg := Some gs |>) /\ select_inv gs a.
Proof.
  intros Hpg gs. unfold select_path_group. rewrite Hpg.
  pose proof (select_loop_inv h [] groups select_start) as H.
  change (Z.of_nat (length (@nil pathgroup))) with 0 in H.
  destruct (select_loop h 0 groups select_start) as [gs' a].
  destruct H as [-> Hinv].
  - split_and!; [constructor|constructor|by left].
  - exists a. done.
Qed.

(** ** Lemmas: the match functions are equivalences *)

Definition equivalence (R : path -> path -> bool) : Prop :=
  (forall x, R x x = true) /\ (forall x y, R x y = true -> R y x = true) /\
  (forall x y z, R x y = true -> R y z = true -> R x z = true).

Lemma strneq_equivalence n (f : path -> cstr) : equivalence (fun x y => strneq n (f x) (f y)).
Proof.
  unfold strneq. split_and!; intros; rewrite ?bool_decide_eq_true in *; congruence.
Qed.

Lemma prios_match_equivalence : equivalence prios_match.
Proof. unfold prios_match. split_and!; intros; lia. Qed.

Lemma mk_groups_bind ls : (mk_group <$> ls) ≫= g_paths = concat ls.
Proof. induction ls as [|l ls IH]; [done|]. simpl. by f_equal. Qed.

Lemma sorted_groups_paths h ls gs :
  gs ≡ₚ path_group_prio_update h <$> (mk_group <$> ls) ->
  gs ≫= g_paths ≡ₚ concat ls.
Proof.
  intros ->. induction ls as [|l ls IH]; [done|]. cbn. rewrite update_paths. by f_equiv.
Qed.

Lemma group_updated h l :
  l <> [] ->
  (Forall (fun p => marginal (h !!! p) = true) l \/ Forall (fun p => marginal (h !!! p) = false) l) ->
  pure_group h (path_group_prio_update h (mk_group l)).
Proof.
  intros Hne Hl. unfold pure_group. rewrite update_paths, update_marginal. cbn [g_paths mk_group upd g_marginal].
  replace (length l =? 0)%nat with false by (destruct l; [done|blia]). cbn.
  destruct Hl as [Hl|Hl].
  - by rewrite (proj2 (forallb_Forall _ _) Hl).
  - replace (forallb _ l) with false; [done|]. destruct l as [|p l]; [done|].
    apply Forall_cons in Hl as [Hp _]. simpl. by rewrite Hp.
Qed.

Lemma group_paths_ok h m f ps mp :
  pg m = None -> m_paths m = Some ps -> pgpolicyfn m = Some f ->
  ps <> [] -> Forall (storable h) ps ->
  exists gs,
    group_paths h m mp = (0, m <| pg := Some gs |> <| m_paths := None |>) /\
    gs ≫= g_paths ≡ₚ ps /\
    Forall (fun g => g_paths g <> [] /\ path_group_prio_update h g = g) gs /\
    sortedb stays_before gs /\
    (mp = true -> Forall (pure_group h) gs).
Proof.
  intros Hpg Hps Hf Hne Hst.
  destruct (group_paths_unsorted h f mp ps Hne Hst) as (ls & Heq & Hperm & Hnon & Hpure).
  unfold group_paths. rewrite Hpg, Hps, Hf. cbn [slots default from_option id].
  replace (length ps =? 0)%nat with false by (destruct ps; [done|blia]).
  rewrite Heq. unfold sort_pathgroups. cbn [pg upd].
  set (raw := mk_group <$> ls).
  destruct (sort_loop_spec h (length raw) [] raw) as (Hs & Hp & _); [done|done|].
  cbn [app length] in *. exists (sort_loop h (length raw) 0 raw). split_and!.
  - done.
  - by rewrite (sorted_groups_paths h ls _ Hp).
  - rewrite Hp. unfold raw. apply Forall_fmap, Forall_fmap. eapply Forall_impl; [exact Hnon|].
    intros l Hl. cbn. rewrite update_paths, update_idemp. done.
  - done.
  - intros ->. rewrite Hp. unfold raw. apply Forall_fmap, Forall_fmap.
    rewrite Forall_forall in *. intros l Hl. apply group_updated; [by apply Hnon|by apply Hpure].
Qed.

(** * Properties *)

(** C36: Grouping succeeds on any non-empty list of discovered paths and loses
    none: the new groups hold exactly the paths of the map, none is empty, their
    priority, enabled count and marginal flag are up to date, they are sorted
    (normal before marginal, then by falling priority and enabled count), the
    path vector is released, and with marginal path groups no group mixes
    marginal and normal paths. *)
Theorem group_paths_correct h m f ps mp :
  pg m = None -> m_paths m = Some ps -> pgpolicyfn m = Some f ->
  ps <> [] -> Forall (storable h) ps ->
  exists gs,
    group_paths h m mp = (0, m <| pg := Some gs |> <| m_paths := None |>) /\
    gs ≫= g_paths ≡ₚ ps /\
    Forall (fun g => g_paths g <> [] /\ path_group_prio_update h g = g) gs /\
    sortedb stays_before gs /\
    (mp = true -> Forall (pure_group h) gs).
Proof. apply group_paths_ok. Qed.

(** Two storable paths, the second marginal and of higher priority. *)
Definition sample_heap : pheap :=
  {[ 0%nat := alloc_path <| dev_t := s "8:0" |> <| state := PATH_UP |> <| priority := 10 |>;
     1%nat := alloc_path <| dev_t := s "8:16" |> <| state := PATH_UP |> <| priority := 50 |>
                         <| marginal := true |>;
     2%nat := alloc_path <| dev_t := s "8:32" |> <| state := PATH_UP |> <| priority := 10 |> ]}.

Lemma group_paths_correct_witness :
  let m := alloc_multipath <| m_paths := Some [0; 1; 2]%nat |>
                           <| pgpolicyfn := Some fn_group_by_prio |> in
  exists gs, snd (group_paths sample_heap m true) = m <| pg := Some gs |> <| m_paths := None |> /\
    g_paths <$> gs = [[0; 2]; [1]]%nat.
Proof.
  intros m. destruct (group_paths_correct sample_heap m fn_group_by_prio [0; 1; 2]%nat true)
    as (gs & H & _); [done|done|done|done|decide_closed|].
  exists gs. rewrite H. split; [done|]. vm_compute in H. injection H as <-. reflexivity.
Defined.

(** The grouping policies by node name, serial number and priority put two
    paths of the list into one group exactly when they match, with every path in
    some new group behind the ones that were there. *)
Theorem group_by_match_partition R h groups paths :
  R ∈ [node_names_match; serials_match; prios_match] ->
  paths <> [] -> Forall (storable h) paths -> NoDup paths ->
  exists gs, group_by_match R h groups paths = (0, Some (groups ++ gs)) /\
    gs ≫= g_paths ≡ₚ paths /\
    forall p q, p ∈ paths -> q ∈ paths ->
      (exists g, g ∈ gs /\ p ∈ g_paths g /\ q ∈ g_paths g) <-> R (h !!! p) (h !!! q) = true.
Proof.
  intros HR Hne Hst Hnd.
  assert (equivalence R) as (Hr & Hs & Ht).
  { rewrite !elem_of_cons, elem_of_nil in HR. destruct HR as [->|[->|[->|[]]]];
      [apply strneq_equivalence|apply strneq_equivalence|apply prios_match_equivalence]. }
  rewrite group_by_match_spec by done. set (RR := fun p q => R (h !!! p) (h !!! q)).
  exists (mk_group <$> classes (length paths) RR paths). split; [done|].
  rewrite mk_groups_bind. split; [by apply classes_perm|]. intros p q Hp Hq.
  pose proof (classes_related RR (length paths) paths ltac:(unfold RR; eauto)
    ltac:(unfold RR; eauto) ltac:(unfold RR; eauto) ltac:(done) Hnd p q Hp Hq) as Hcl.
  fold (RR p q). rewrite <-Hcl. split.
  - intros (g & (l & -> & Hl)%list_elem_of_fmap & Hpg & Hqg). exists l. done.
  - intros (l & Hl & Hpl & Hql). exists (mk_group l). split; [by apply list_elem_of_fmap_2|done].
Qed.

Lemma group_by_match_partition_witness :
  let gs := [mk_group [0; 2]; mk_group [1]]%nat in
  group_by_match prios_match sample_heap [] [0; 1; 2]%nat = (0, Some gs) /\
  prios_match (sample_heap !!! 0%nat) (sample_heap !!! 2%nat) = true.
Proof.
  destruct (group_by_match_partition prios_match sample_heap [] [0; 1; 2]%nat)
    as (gs & H & _ & Hiff); [set_solver|done|decide_closed|decide_closed|].
  split; [reflexivity|]. apply Hiff; [set_solver|set_solver|].
  vm_compute in H. injection H as <-. eexists. split; [by left|]. split; [by left|by right; left].
Defined.

(** Sorting the path groups of a map refreshes every group, keeps each of
    them, orders them, and is stable: groups of equal rank keep their order. *)
Theorem sort_pathgroups_stable h m groups :
  pg m = Some groups ->
  let refreshed := path_group_prio_update h <$> groups in
  exists gs, sort_pathgroups h m = m <| pg := Some gs |> /\
    sortedb stays_before gs /\ gs ≡ₚ refreshed /\
    forall k, filter (same_key k) gs = filter (same_key k) refreshed.
Proof.
  intros Hpg refreshed. unfold sort_pathgroups. rewrite Hpg.
  destruct (sort_loop_spec h (length groups) [] groups) as (Hs & Hp & Hf); [done|done|].
  eexists. split; [done|]. split_and!; done.
Qed.

Lemma sort_pathgroups_stable_witness :
  exists gs, sort_pathgroups sample_heap
      (alloc_multipath <| pg := Some [mk_group [1]; mk_group [0]; mk_group [2]]%nat |>) =
    alloc_multipath <| pg := Some gs |> /\ g_paths <$> gs = [[0]; [2]; [1]]%nat.
Proof.
  set (m := alloc_multipath <| pg := Some [mk_group [1]; mk_group [0]; mk_group [2]]%nat |>).
  destruct (sort_pathgroups_stable sample_heap m [mk_group [1]; mk_group [0]; mk_group [2]]%nat ltac:(reflexivity)) as (gs & H & _).
  exists gs. rewrite H. split; [done|]. vm_compute in H. injection H as <-. reflexivity.
Defined.

(** C39: The best path group is the first of those with the highest priority and,
    among these, the most enabled paths, taken over the normal groups with an
    enabled path; without such a group no marginal one with a positive priority
    is better than the choice, and with no enabled path at all it is group 1. *)
Theorem select_path_group_best h m groups :
  pg m = Some groups ->
  let gs := path_group_prio_update h <$> groups in
  exists n, select_path_group h m = (n, m <| pg := Some gs |>) /\
    ((exists g, g ∈ gs /\ normal_usable g = true) ->
     exists k g, n = Z.of_nat k + 1 /\ first_best normal_usable gs k g) /\
    (forall g, g ∈ gs -> usable g = true -> 0 < g_priority g ->
       exists k best, n = Z.of_nat k + 1 /\ gs !! k = Some best /\ usable best = true /\
         (normal_usable best = normal_usable g ->
          ~ beats g (g_priority best) (enabled_paths best))) /\
    ((forall g, g ∈ gs -> usable g = false) -> n = 1).
Proof.
  intros Hpg gs. destruct (select_path_group_spec h m groups Hpg) as (a & Hsel & Hinv).
  fold gs in Hsel, Hinv. exists (best a). split; [done|]. unfold select_inv in Hinv.
  destruct (normal_pgp a) eqn:Hn.
  - destruct Hinv as (k & g0 & Hfb & Hb & _). pose proof Hfb as (Hk & Hok & Hbest).
    split; [intros _; by exists k, g0|]. split.
    + intros g Hg Hu Hpos. exists k, g0. split_and!; try done.
      { by apply andb_true_iff in Hok as [_ Hok]. }
      intros Heq. apply list_elem_of_lookup in Hg as [k' Hk'].
      apply (Hbest k' g Hk'). congruence.
    + intros Hall. apply list_elem_of_lookup_2 in Hk. apply Hall in Hk.
      unfold normal_usable in Hok. by rewrite Hk, andb_false_r in Hok.
  - destruct Hinv as (Hno & Hbest & Hmax). rewrite Forall_forall in Hno, Hbest. split.
    { intros (g & Hg & Hok). rewrite (Hno g Hg) in Hok. done. }
    split.
    + intros g Hg Hu Hpos. destruct Hmax as [(_ & Hp & _)|(k & g0 & Hk & Hu0 & Hb & Hp & He)].
      { destruct (Hbest g Hg Hu). left. lia. }
      exists k, g0. split_and!; try done. intros _. rewrite <-Hp, <-He. by apply Hbest.
    + intros Hall. destruct Hmax as [(? & _)|(k & g0 & Hk & Hu0 & _)]; [done|].
      apply list_elem_of_lookup_2 in Hk. rewrite (Hall g0 Hk) in Hu0. done.
Qed.

Lemma select_path_group_best_witness :
  exists n, select_path_group sample_heap
      (alloc_multipath <| pg := Some [mk_group [1]; mk_group [0; 2]]%nat |>) =
      (n, alloc_multipath <| pg := Some (path_group_prio_update sample_heap <$>
                                          [mk_group [1]; mk_group [0; 2]]%nat) |>) /\
    n = 2.
Proof.
  set (m := alloc_multipath <| pg := Some [mk_group [1]; mk_group [0; 2]]%nat |>).
  destruct (select_path_group_best sample_heap m [mk_group [1]; mk_group [0; 2]]%nat ltac:(reflexivity)) as (n & H & _).
  exists n. split; [exact H|]. vm_compute in H. injection H as <-. reflexivity.
Defined.
