(* ===== verification/Options.v ===== *)
(** * libmultipath/dict.c: the values of options

    How the text of an option becomes a value (the functions [set_...], which
    get the tokens of a line and the old value and give a return code and the
    new value) and how a value is printed ([print_...], into a buffer that is
    large enough).  [Dict] makes the handlers of keywords from them. *)

From S2P Require Import Prelude CString Util Structs Pgpolicies Parser.

Definition MP_FAST_IO_FAIL_UNSET : Z := 0.
Definition MP_FAST_IO_FAIL_OFF : Z := -1.
Definition MP_FAST_IO_FAIL_ZERO : Z := -2.

Definition DEV_LOSS_TMO_UNSET : Z := 0.
Definition MAX_DEV_LOSS_TMO : Z := UINT_MAX.
Definition DEFAULT_REPLY_TIMEOUT : Z := 4000.
Definition POLICY_NAME_SIZE : Z := 32.

Definition LOG_CHKR_ERR_ALWAYS : Z := 0.
Definition LOG_CHKR_ERR_ONCE : Z := 1.

Abbreviation strvec := (list token).

(** ** Setting *)

Definition skip_space (a : cstr) : cstr := snd (span isspace a).

Definition set_int (sv : strvec) (old : Z) : Z * Z :=
  match set_value sv with
  | None => (1, old)
  | Some buff =>
      match strtol10 buff with
      | None => (1, old)
      | Some (res, eptr) =>
          if negb (bool_decide (skip_space eptr = [])) || (INT_MAX <? res) || (res <? INT_MIN) then (1, old)
          else (0, res)
      end
  end.

Definition set_uint (sv : strvec) (old : Z) : Z * Z :=
  match set_value sv with
  | None => (1, old)
  | Some buff =>
      let p := skip_space buff in
      match strtoul10 p with
      | None => (1, old)
      | Some (res, eptr) =>
          if negb (bool_decide (skip_space eptr = [])) || negb (starts_digit 10 p) || (UINT_MAX <? res) then (1, old)
          else (0, res)
      end
  end.

(** The old string is freed first. *)
Definition set_str (sv : strvec) (old : option cstr) : Z * option cstr :=
  match set_value sv with
  | None => (1, None)
  | Some v => (0, Some v)
  end.

Definition set_yes_no (sv : strvec) (old : Z) : Z * Z :=
  match set_value sv with
  | None => (1, old)
  | Some buff => (0, if streq buff (s "yes") || streq buff (s "1") then YN_YES else YN_NO)
  end.

Definition set_yes_no_undef (sv : strvec) (old : Z) : Z * Z :=
  match set_value sv with
  | None => (1, old)
  | Some buff =>
      (0, if streq buff (s "no") || streq buff (s "0") then YNU_NO
          else if streq buff (s "yes") || streq buff (s "1") then YNU_YES
          else YNU_UNDEF)
  end.

(** [%u] and [%o] of [sscanf]. *)
Definition scan_uint (base : Z) (a : cstr) : option Z :=
  let '(neg, b) := scan_sign (skip_space a) in
  if starts_digit base b then
    let '(v, _) := scan_digits base 0 b in
    Some (u32 (if ULONG_MAX <? v then ULONG_MAX else if neg then - v else v))
  else None.

(** The attributes of device nodes: a value and the flags of the struct. *)
Definition set_mode (sv : strvec) (old : Z * Z) : Z * (Z * Z) :=
  match set_value sv with
  | None => (1, old)
  | Some buff =>
      (0, match scan_uint 8 buff with
          | Some mode => if mode <=? 511 then (mode, Z.lor (snd old) (Z.shiftl 1 ATTR_MODE)) else old
          | None => old
          end)
  end.

(** [who] is the user or group of the account, by [getpwnam_r]. *)
Definition set_owner (bit : Z) (who : cstr -> option Z) (sv : strvec) (old : Z * Z) : Z * (Z * Z) :=
  match set_value sv with
  | None => (1, old)
  | Some buff =>
      (0, match who buff with
          | Some id => (id, Z.lor (snd old) (Z.shiftl 1 bit))
          | None => match scan_uint 10 buff with
                    | Some id => (id, Z.lor (snd old) (Z.shiftl 1 bit))
                    | None => old
                    end
          end)
  end.

Definition set_fast_io_fail (sv : strvec) (old : Z) : Z * Z :=
  match set_value sv with
  | None => (1, old)
  | Some buff =>
      (0, if streq buff (s "off") then MP_FAST_IO_FAIL_OFF
          else match scan_int buff with
               | None => MP_FAST_IO_FAIL_UNSET
               | Some (v, _) =>
                   if v <? MP_FAST_IO_FAIL_ZERO then MP_FAST_IO_FAIL_UNSET
                   else if v =? 0 then MP_FAST_IO_FAIL_ZERO else v
               end)
  end.

Definition set_dev_loss (sv : strvec) (old : Z) : Z * Z :=
  match set_value sv with
  | None => (1, old)
  | Some buff =>
      (0, if streq buff (s "infinity") then MAX_DEV_LOSS_TMO
          else match scan_uint 10 buff with Some v => v | None => DEV_LOSS_TMO_UNSET end)
  end.

Definition set_pgpolicy (sv : strvec) (old : Z) : Z * Z :=
  match set_value sv with
  | None => (1, old)
  | Some buff => (0, get_pgpolicy_id buff)
  end.

Definition set_rr_weight (sv : strvec) (old : Z) : Z * Z :=
  match set_value sv with
  | None => (1, old)
  | Some buff =>
      let v := if streq buff (s "priorities") then RR_WEIGHT_PRIO else old in
      (0, if streq buff (s "uniform") then RR_WEIGHT_NONE else v)
  end.

Definition set_pgfailback (sv : strvec) (old : Z) : Z * Z :=
  match set_value sv with
  | None => (1, old)
  | Some buff =>
      (0, if streq buff (s "manual") then - FAILBACK_MANUAL
          else if streq buff (s "immediate") then - FAILBACK_IMMEDIATE
          else if streq buff (s "followover") then - FAILBACK_FOLLOWOVER
          else atoi buff)
  end.

Definition no_path_retry_helper (sv : strvec) (old : Z) : Z * Z :=
  match set_value sv with
  | None => (1, old)
  | Some buff =>
      (0, if streq buff (s "fail") || streq buff (s "0") then NO_PATH_RETRY_FAIL
          else if streq buff (s "queue") then NO_PATH_RETRY_QUEUE
          else if atoi buff <? 1 then NO_PATH_RETRY_UNDEF else atoi buff)
  end.

Definition set_log_checker_err (sv : strvec) (old : Z) : Z * Z :=
  match set_value sv with
  | None => (1, old)
  | Some buff =>
      (0, if streq buff (s "once") then LOG_CHKR_ERR_ONCE
          else if streq buff (s "always") then LOG_CHKR_ERR_ALWAYS else old)
  end.

(** The source of the key, its flags and the key. *)
Definition set_reservation_key (sv : strvec) (old : Z * Z * Z) : Z * (Z * Z * Z) :=
  match set_value sv with
  | None => (1, old)
  | Some buff =>
      if streq buff (s "file") then (0, (PRKEY_SOURCE_FILE, 0, 0))
      else match parse_prkey_flags buff with
           | (None, _) => (1, old)
           | (Some prkey, sa_flags) => (0, (PRKEY_SOURCE_CONF, sa_flags, prkey))
           end
  end.

Definition set_off_int_undef (sv : strvec) (old : Z) : Z * Z :=
  match set_value sv with
  | None => (1, old)
  | Some buff =>
      (0, if streq buff (s "no") || streq buff (s "0") then NU_NO
          else if atoi buff <? 1 then NU_UNDEF else atoi buff)
  end.

(** The value is an [int]. *)
Definition set_uxsock_timeout (sv : strvec) (old : Z) : Z * Z :=
  match set_value sv with
  | None => (1, old)
  | Some buff =>
      (0, match scan_uint 10 buff with
          | Some v => if DEFAULT_REPLY_TIMEOUT <? v then s32 v else DEFAULT_REPLY_TIMEOUT
          | None => DEFAULT_REPLY_TIMEOUT
          end)
  end.

(** [nr_open] is the text of /proc/sys/fs/nr_open. *)
Definition get_sys_max_fds (nr_open : option cstr) : Z * option Z :=
  match nr_open with
  | None => (1, None)
  | Some text => match scan_int text with Some (v, _) => (0, Some v) | None => (1, None) end
  end.

Definition set_max_fds_option (nr_open : option cstr) (sv : strvec) (old : Z) : Z * Z :=
  match set_value sv with
  | None => (1, old)
  | Some buff =>
      let '(r, sys) := get_sys_max_fds nr_open in
      let max_fds := default 4096 sys in
      (r, Z.min (if streq buff (s "max") then max_fds else atoi buff) max_fds)
  end.

Definition find_multipaths_optvals : list (Z * cstr) :=
  [(FIND_MULTIPATHS_OFF, s "off"); (FIND_MULTIPATHS_ON, s "on"); (FIND_MULTIPATHS_GREEDY, s "greedy");
   (FIND_MULTIPATHS_SMART, s "smart"); (FIND_MULTIPATHS_STRICT, s "strict")].

Definition set_find_multipaths (sv : strvec) (old : Z) : Z * Z :=
  let '(r, v) := set_yes_no_undef sv old in
  if (r =? 0) && negb (v =? FIND_MULTIPATHS_UNDEF) then (0, v)
  else
    match set_value sv with
    | None => (1, v)
    | Some buff =>
        let v := match List.find (fun o => streq buff (snd o)) find_multipaths_optvals with
                 | Some (i, _) => i
                 | None => v
                 end in
        (0, if v =? YNU_UNDEF then FIND_MULTIPATHS_STRICT else v)
    end.

Definition vpd_vendor_pages : list (Z * cstr) := [(0, s "undef"); (192, s "hp3par")].

Definition set_vpd_vendor (sv : strvec) (old : Z) : Z * Z :=
  match set_value sv with
  | None => (1, old)
  | Some buff => (0, if streq buff (s "undef") then 0 else if streq buff (s "hp3par") then 1 else 0)
  end.

Definition UNSET_PARTITION_DELIM : cstr := s "/UNSET/".

Definition set_partition_delim (sv : strvec) (old : option cstr) : Z * option cstr :=
  match set_value sv with
  | None => (1, None)
  | Some v => (0, if streq v UNSET_PARTITION_DELIM then None else Some v)
  end.

(** The words with a colon. *)
Fixpoint parse_uid_attrs_loop (fuel : nat) (text : cstr) (attrs : list cstr) (ret : Z) : Z * list cstr :=
  match fuel with
  | O => (ret, attrs)
  | S f =>
      match get_word text true with
      | (_, None) => (ret, attrs)
      | (count, Some record) =>
          let '(ret, attrs) := match strchr 58 record with
                               | None => (1, attrs)
                               | Some _ => (ret, attrs ++ [record])
                               end in
          if (count =? 0)%nat then (ret, attrs) else parse_uid_attrs_loop f (drop count text) attrs ret
      end
  end.

Definition parse_uid_attrs (text : cstr) (attrs : list cstr) : Z * list cstr :=
  parse_uid_attrs_loop (S (length text)) text attrs 0.

(** ** Printing *)

Definition print_int (v : Z) : cstr := itoa v.
Definition print_uint (v : Z) : cstr := ntoa 10 (u32 v).

Definition print_nonzero (v : Z) : cstr := if v =? 0 then [] else itoa v.

Definition print_str (ptr : option cstr) : cstr :=
  match ptr with
  | None => []
  | Some p => match strchr 34 p with
              | None => 34 :: p ++ [34]
              | Some _ => 34 :: double_quotes p ++ [34]
              end
  end.

Definition print_ignored : cstr := s "ignored".

Definition in_quotes (a : cstr) : cstr := 34 :: a ++ [34].

Definition print_yes_no (v : Z) : cstr := in_quotes (if v =? YN_NO then s "no" else s "yes").

Definition print_yes_no_undef (v : Z) : cstr :=
  if v =? 0 then [] else in_quotes (if v =? YNU_NO then s "no" else s "yes").

(** [print_mode], [print_uid] and [print_gid]. *)
Definition print_octal (bit : Z) (v flags : Z) : cstr :=
  if Z.testbit flags bit then 48 :: ntoa 8 (u32 v) else [].

Definition print_fast_io_fail (v : Z) : cstr :=
  if v =? MP_FAST_IO_FAIL_UNSET then []
  else if v =? MP_FAST_IO_FAIL_OFF then in_quotes (s "off")
  else if v =? MP_FAST_IO_FAIL_ZERO then s "0"
  else itoa v.

Definition print_dev_loss (v : Z) : cstr :=
  if v =? DEV_LOSS_TMO_UNSET then []
  else if MAX_DEV_LOSS_TMO <=? v then in_quotes (s "infinity")
  else ntoa 10 v.

Definition print_pgpolicy (v : Z) : cstr :=
  if v =? 0 then [] else in_quotes (fst (get_pgpolicy_name POLICY_NAME_SIZE v)).

Definition print_rr_weight (v : Z) : cstr :=
  if v =? 0 then []
  else if v =? RR_WEIGHT_PRIO then in_quotes (s "priorities")
  else if v =? RR_WEIGHT_NONE then in_quotes (s "uniform")
  else [].

Definition print_pgfailback (v : Z) : cstr :=
  if v =? FAILBACK_UNDEF then []
  else if v =? - FAILBACK_MANUAL then in_quotes (s "manual")
  else if v =? - FAILBACK_IMMEDIATE then in_quotes (s "immediate")
  else if v =? - FAILBACK_FOLLOWOVER then in_quotes (s "followover")
  else itoa v.

Definition print_no_path_retry (v : Z) : cstr :=
  if v =? NO_PATH_RETRY_UNDEF then []
  else if v =? NO_PATH_RETRY_FAIL then in_quotes (s "fail")
  else if v =? NO_PATH_RETRY_QUEUE then in_quotes (s "queue")
  else itoa v.

Definition print_log_checker_err (v : Z) : cstr :=
  if v =? LOG_CHKR_ERR_ONCE then s "once" else s "always".

Definition print_reservation_key (source flags key : Z) : cstr :=
  if source =? PRKEY_SOURCE_NONE then []
  else if source =? PRKEY_SOURCE_FILE then s "file"
  else s "0x" ++ ntoa 16 key ++ (if Z.land flags MPATH_F_APTPL_MASK =? 0 then [] else s ":aptpl").

Definition print_off_int_undef (v : Z) : cstr :=
  if v =? NU_UNDEF then []
  else if v =? NU_NO then in_quotes (s "no")
  else itoa v.

Definition print_queue_without_daemon (v : Z) : cstr :=
  if v =? QUE_NO_DAEMON_OFF then in_quotes (s "no")
  else if v =? QUE_NO_DAEMON_ON then in_quotes (s "yes")
  else if v =? QUE_NO_DAEMON_FORCE then in_quotes (s "forced")
  else [].

Definition print_max_fds (nr_open : option cstr) (v : Z) : cstr :=
  if v =? 0 then []
  else match get_sys_max_fds nr_open with
       | (_, Some m) => if m <=? v then in_quotes (s "max") else itoa v
       | (_, None) => itoa v
       end.

Definition print_find_multipaths (v : Z) : cstr :=
  print_str (snd <$> List.find (fun o => fst o =? v) find_multipaths_optvals).

Definition print_vpd_vendor (v : Z) : cstr :=
  if (0 <? v) && (v <? 2) then default [] (snd <$> vpd_vendor_pages !! Z.to_nat v) else [].

(** [default_partition_delim] is NULL in this build. *)
Definition print_partition_delim (v : option cstr) : cstr := print_str v.

Fixpoint join_blanks (l : list cstr) : cstr :=
  match l with
  | [] => []
  | [a] => a
  | a :: r => a ++ 32 :: join_blanks r
  end.

(** ** [print_str] on its buffer

    The same function with the buffer, its size and the position of each write;
    [None] is a write outside of the buffer. *)

Fixpoint put_bytes (buf : list Z) (p : nat) (src : cstr) : option (list Z) :=
  match src with
  | [] => Some buf
  | c :: r => buf ← bset buf p c; put_bytes buf (S p) r
  end.

(** [true] when the loop left for the label [out]. *)
Fixpoint print_str_loop (fuel : nat) (buf : list Z) (p last : nat) (ptr : cstr) : option (list Z * nat * cstr * bool) :=
  match fuel, strchr 34 ptr with
  | S f, Some q =>
      if (S q <? last - p)%nat then
        buf ← put_bytes buf p (take (S q) ptr);
        let p := (p + S q)%nat in
        buf ← bset buf p 34;
        let p := S p in
        if (last <=? p)%nat then Some (buf, p, ptr, true)
        else print_str_loop f buf p last (drop (S q) ptr)
      else
        buf ← put_bytes buf p (take (last - p) ptr);
        Some (buf, last, ptr, true)
  | _, _ => Some (buf, p, ptr, false)
  end.

Definition print_str_buf (buf : list Z) (len : nat) (ptr : cstr) : option (list Z * nat) :=
  let last := (len - 1)%nat in
  let out buf p := buf ← bset buf p 0; Some (buf, len) in
  if (last <=? 0)%nat then out buf 0%nat
  else
    buf ← bset buf 0 34;
    if (last <=? 1)%nat then out buf 1%nat
    else
      '(buf, p, ptr, full) ← print_str_loop (S (length ptr)) buf 1 last ptr;
      if full : bool then out buf p
      else
        '(tail, n) ← strlcpy (drop p buf) ptr (last - p);
        let buf := take p buf ++ tail in
        let p := (p + n)%nat in
        if (last <=? p)%nat then out buf p
        else
          buf ← bset buf p 34;
          buf ← bset buf (S p) 0;
          Some (buf, S p).

(** ** Lemmas: printed values are read back *)

(** The text [t] of an option is read as [v], whatever the value was. *)
Definition reads_as {V} (set : strvec -> V -> Z * V) (t : cstr) (v : V) : Prop :=
  exists p, value_text t p /\ forall sv old, set_value sv = Some p -> set sv old = (0, v).

(** What is printed of a value is read as that value; nothing is printed of
    [undef] only. *)
Definition prints_back {V} (set : strvec -> V -> Z * V) (print : V -> cstr) (undef v : V) : Prop :=
  match print v with [] => v = undef | t => reads_as set t v end.

Lemma digit_plain c : c = 45 \/ 48 <= c <= 57 -> plain_char c = true.
Proof.
  intros H. unfold plain_char, ends_word, is_gap, isspace, isascii.
  apply andb_true_iff. split; apply negb_true_iff; [|lia]. rewrite !orb_false_iff. repeat split; lia.
Qed.

Lemma itoa_value n : value_text (itoa n) (itoa n).
Proof.
  apply plain_value. split; [apply itoa_not_nil|]. eapply Forall_impl; [apply itoa_chars|]. apply digit_plain.
Qed.

Lemma ntoa_chars10 n : 0 <= n -> Forall (fun c => c = 45 \/ 48 <= c <= 57) (ntoa 10 n).
Proof.
  intros Hn. pose proof (itoa_chars n) as H. unfold itoa in H. by rewrite (proj2 (Z.ltb_ge n 0)) in H by lia.
Qed.

Lemma ntoa_value n : 0 <= n -> value_text (ntoa 10 n) (ntoa 10 n).
Proof.
  intros Hn. apply plain_value. split; [apply ntoa_not_nil|].
  eapply Forall_impl; [by apply ntoa_chars10|]. apply digit_plain.
Qed.

Lemma in_quotes_value p : double_quotes p = p -> value_text (in_quotes p) p.
Proof. intros H. pose proof (quoted_value p) as Hq. unfold quoted in Hq. by rewrite H in Hq. Qed.

(** No number reads as a word. *)
Lemma itoa_not_word n w : match w with c :: _ => 97 <=? c | [] => false end = true -> streq (itoa n) w = false.
Proof.
  destruct w as [|c w]; [done|]. intros Hc. apply bool_decide_eq_false_2. intros Hw.
  pose proof (itoa_chars n) as H. rewrite Hw in H. apply Forall_inv in H. lia.
Qed.

Lemma itoa_not_zero n : n <> 0 -> is_int n -> streq (itoa n) (s "0") = false.
Proof.
  intros Hn Hi. apply bool_decide_eq_false_2. intros Hw. apply (f_equal atoi) in Hw.
  rewrite atoi_itoa in Hw by done. by vm_compute in Hw.
Qed.

Lemma strtol10_itoa n : is_int n -> strtol10 (itoa n) = Some (n, []).
Proof.
  intros Hn. unfold itoa, is_int, INT_MIN, INT_MAX in *. destruct (Z.ltb_spec n 0).
  - unfold strtol10. simpl. rewrite <-(app_nil_r (ntoa 10 (- n))). rewrite ntoa_starts_digit by (unfold good_base; lia).
    rewrite scan_digits_ntoa, scan_digits_stop by (unfold good_base; done || lia).
    f_equal. f_equal. rewrite Z.max_r by (unfold LONG_MIN; lia). lia.
  - rewrite <-(app_nil_r (ntoa 10 n)). rewrite strtol10_ntoa by done. by rewrite Z.min_r by (unfold LONG_MAX; lia).
Qed.

Lemma reads_int n : is_int n -> reads_as set_int (itoa n) n.
Proof.
  intros Hn. exists (itoa n). split; [apply itoa_value|]. intros sv old Hsv. unfold set_int.
  rewrite Hsv, strtol10_itoa by done. unfold is_int in Hn.
  rewrite (proj2 (Z.ltb_ge INT_MAX n)), (proj2 (Z.ltb_ge n INT_MIN)) by lia. done.
Qed.

Lemma reads_nonzero n : is_int n -> prints_back set_int print_nonzero 0 n.
Proof.
  intros Hn. unfold prints_back, print_nonzero. destruct (Z.eqb_spec n 0); [done|].
  destruct (itoa n) eqn:E; [by apply itoa_not_nil in E|]. rewrite <-E. by apply reads_int.
Qed.

Lemma starts_digit_head n : 0 <= n -> starts_digit 10 (ntoa 10 n) = true.
Proof. intros Hn. rewrite <-(app_nil_r (ntoa 10 n)). by apply ntoa_starts_digit. Qed.

Lemma skip_space_ntoa n : 0 <= n -> skip_space (ntoa 10 n) = ntoa 10 n.
Proof. intros Hn. unfold skip_space. rewrite <-(app_nil_r (ntoa 10 n)). by rewrite ntoa10_no_space. Qed.

Lemma reads_uint n : 0 <= n <= UINT_MAX -> reads_as set_uint (ntoa 10 n) n.
Proof.
  unfold UINT_MAX. intros Hn. exists (ntoa 10 n). split; [apply ntoa_value; lia|]. intros sv old Hsv. unfold set_uint. rewrite Hsv.
  cbv zeta. rewrite skip_space_ntoa by lia.
  pose proof (strtoul10_ntoa n [] ltac:(unfold ULONG_MAX; lia) eq_refl) as H. rewrite app_nil_r in H. rewrite H.
  rewrite starts_digit_head by lia. by rewrite (proj2 (Z.ltb_ge UINT_MAX n)) by (unfold UINT_MAX; lia).
Qed.

Lemma scan_uint_ntoa n : 0 <= n < 2 ^ 32 -> scan_uint 10 (ntoa 10 n) = Some n.
Proof.
  intros Hn. unfold scan_uint. rewrite skip_space_ntoa by lia.
  pose proof (ntoa10_scan_sign n [] ltac:(lia)) as H. rewrite app_nil_r in H. rewrite H.
  rewrite starts_digit_head by lia. pose proof (scan_digits_ntoa 10 n [] ltac:(unfold good_base; lia) ltac:(lia)) as Hs.
  rewrite app_nil_r in Hs. rewrite Hs. cbn [scan_digits].
  rewrite (proj2 (Z.ltb_ge ULONG_MAX n)) by (unfold ULONG_MAX; lia). by rewrite u32_id.
Qed.

Lemma double_quotes_id p : strchr 34 p = None -> double_quotes p = p.
Proof.
  intros Hp%strchr_None. induction Hp as [|c p Hc _ IH]; [done|]. cbn.
  rewrite (proj2 (Z.eqb_neq c 34) Hc). by rewrite IH.
Qed.

Lemma print_str_quoted p : print_str (Some p) = quoted p.
Proof.
  unfold print_str, quoted. destruct (strchr 34 p) eqn:E; [done|]. by rewrite double_quotes_id.
Qed.

Lemma reads_str v : prints_back set_str print_str None v.
Proof.
  unfold prints_back. destruct v as [p|]; [|done]. rewrite print_str_quoted. unfold quoted. exists p.
  split; [apply quoted_value|]. intros sv old Hsv. unfold set_str. by rewrite Hsv.
Qed.

(** Case analysis over the few values of an option, and its printed number. *)
Ltac word_value w := exists (s w); split; [by apply in_quotes_value|]; intros sv old Hsv; unfold_setters; rewrite Hsv; reflexivity
with unfold_setters :=
  unfold set_yes_no, set_yes_no_undef, set_fast_io_fail, set_dev_loss, set_pgpolicy, set_rr_weight, set_pgfailback,
         no_path_retry_helper, set_off_int_undef, set_vpd_vendor, set_log_checker_err.

Lemma reads_yes_no v : 0 <= v <= 1 -> reads_as set_yes_no (print_yes_no v) v.
Proof. intros Hv. assert (v = 0 \/ v = 1) as [-> | ->] by lia; [word_value "no"|word_value "yes"]. Qed.

Lemma reads_yes_no_undef v : 0 <= v <= 2 -> prints_back set_yes_no_undef print_yes_no_undef 0 v.
Proof.
  intros Hv. assert (v = 0 \/ v = 1 \/ v = 2) as [-> | [-> | ->]] by lia; [done|word_value "no"|word_value "yes"].
Qed.

Lemma reads_rr_weight v : 0 <= v <= 2 -> prints_back set_rr_weight print_rr_weight 0 v.
Proof.
  intros Hv. assert (v = 0 \/ v = 1 \/ v = 2) as [-> | [-> | ->]] by lia; [done|word_value "uniform"|word_value "priorities"].
Qed.

Lemma reads_pgpolicy v : 0 <= v <= 5 -> prints_back set_pgpolicy print_pgpolicy 0 v.
Proof.
  intros Hv. assert (v = 0 \/ v = 1 \/ v = 2 \/ v = 3 \/ v = 4 \/ v = 5) as Hc by lia.
  destruct Hc as [-> | [-> | [-> | [-> | [-> | ->]]]]]; [done|word_value "failover"|word_value "multibus"|
    word_value "group_by_serial"|word_value "group_by_prio"|word_value "group_by_node_name"].
Qed.

(** A number that is none of the words a setter knows. *)
Ltac number_value n :=
  exists (itoa n); split; [apply itoa_value|]; intros sv old Hsv; unfold_setters; rewrite Hsv;
  repeat match goal with |- context [streq (itoa _) (s ?x)] => rewrite (itoa_not_word n (s x)) by reflexivity end.

Lemma prints_back_reads {V} (set : strvec -> V -> Z * V) print undef v :
  reads_as set (print v) v -> prints_back set print undef v.
Proof.
  intros H. unfold prints_back. destruct (print v) eqn:E; [|done].
  destruct H as (p & Hp & _). by destruct (value_head _ _ Hp) as (c & r & ? & _).
Qed.

Lemma reads_fast_io_fail v : MP_FAST_IO_FAIL_ZERO <= v <= INT_MAX -> prints_back set_fast_io_fail print_fast_io_fail 0 v.
Proof.
  unfold MP_FAST_IO_FAIL_ZERO. intros Hv. destruct (decide (v = 0)) as [->|H0]; [done|]. apply prints_back_reads.
  destruct (decide (v = -1)) as [->|H1]; [word_value "off"|].
  destruct (decide (v = -2)) as [->|H2].
  { exists (s "0"). split; [apply plain_value; by split; [|repeat constructor]|].
    intros sv old Hsv. unfold set_fast_io_fail. by rewrite Hsv. }
  unfold print_fast_io_fail, MP_FAST_IO_FAIL_UNSET, MP_FAST_IO_FAIL_OFF, MP_FAST_IO_FAIL_ZERO.
  rewrite !(proj2 (Z.eqb_neq _ _)) by done. number_value v.
  rewrite <-(app_nil_r (itoa v)), scan_int_itoa by (done || (unfold is_int, INT_MIN; lia)).
  unfold MP_FAST_IO_FAIL_ZERO. rewrite (proj2 (Z.ltb_ge v (-2))), (proj2 (Z.eqb_neq v 0)) by lia. done.
Qed.

Lemma reads_dev_loss v : 0 <= v <= UINT_MAX -> prints_back set_dev_loss print_dev_loss 0 v.
Proof.
  intros Hv. destruct (decide (v = 0)) as [->|H0]; [done|]. apply prints_back_reads.
  destruct (decide (v = UINT_MAX)) as [->|H1]; [word_value "infinity"|].
  unfold print_dev_loss, DEV_LOSS_TMO_UNSET, MAX_DEV_LOSS_TMO.
  rewrite (proj2 (Z.eqb_neq v 0)), (proj2 (Z.leb_gt UINT_MAX v)) by lia.
  exists (ntoa 10 v). split; [apply ntoa_value; lia|]. intros sv old Hsv. unfold set_dev_loss. rewrite Hsv.
  pose proof (itoa_not_word v (s "infinity") eq_refl) as Hw. unfold itoa in Hw.
  rewrite (proj2 (Z.ltb_ge v 0)) in Hw by lia. rewrite Hw, scan_uint_ntoa by (unfold UINT_MAX in *; lia). done.
Qed.

Lemma reads_pgfailback v : is_int v -> prints_back set_pgfailback print_pgfailback 0 v.
Proof.
  intros Hv. destruct (decide (v = 0)) as [->|H0]; [done|]. apply prints_back_reads.
  destruct (decide (v = -1)) as [->|H1]; [word_value "manual"|].
  destruct (decide (v = -2)) as [->|H2]; [word_value "immediate"|].
  destruct (decide (v = -3)) as [->|H3]; [word_value "followover"|].
  unfold print_pgfailback, FAILBACK_UNDEF, FAILBACK_MANUAL, FAILBACK_IMMEDIATE, FAILBACK_FOLLOWOVER.
  rewrite !(proj2 (Z.eqb_neq _ _)) by done. number_value v. by rewrite atoi_itoa.
Qed.

Lemma reads_no_path_retry v : NO_PATH_RETRY_QUEUE <= v <= INT_MAX ->
  prints_back no_path_retry_helper print_no_path_retry 0 v.
Proof.
  unfold NO_PATH_RETRY_QUEUE. intros Hv. destruct (decide (v = 0)) as [->|H0]; [done|]. apply prints_back_reads.
  destruct (decide (v = -1)) as [->|H1]; [word_value "fail"|].
  destruct (decide (v = -2)) as [->|H2]; [word_value "queue"|].
  unfold print_no_path_retry, NO_PATH_RETRY_UNDEF, NO_PATH_RETRY_FAIL, NO_PATH_RETRY_QUEUE.
  rewrite !(proj2 (Z.eqb_neq _ _)) by done. number_value v.
  assert (is_int v) by (unfold is_int, INT_MIN; lia). rewrite itoa_not_zero, atoi_itoa by done.
  by rewrite (proj2 (Z.ltb_ge v 1)) by lia.
Qed.

Lemma reads_off_int_undef v : NU_NO <= v <= INT_MAX -> prints_back set_off_int_undef print_off_int_undef 0 v.
Proof.
  unfold NU_NO. intros Hv. destruct (decide (v = 0)) as [->|H0]; [done|]. apply prints_back_reads.
  destruct (decide (v = -1)) as [->|H1]; [word_value "no"|].
  unfold print_off_int_undef, NU_UNDEF, NU_NO. rewrite !(proj2 (Z.eqb_neq _ _)) by done. number_value v.
  assert (is_int v) by (unfold is_int, INT_MIN; lia). rewrite itoa_not_zero, atoi_itoa by done.
  by rewrite (proj2 (Z.ltb_ge v 1)) by lia.
Qed.

Lemma reads_vpd_vendor v : 0 <= v <= 1 -> prints_back set_vpd_vendor print_vpd_vendor 0 v.
Proof.
  intros Hv. assert (v = 0 \/ v = 1) as [-> | ->] by lia; [done|].
  exists (s "hp3par"). split; [|by intros sv old Hsv; unfold set_vpd_vendor; rewrite Hsv].
  apply plain_value. by split; [|repeat constructor].
Qed.

(** ** Lemmas: the values of options *)

(** What a setter leaves is between the bounds, if the old value was. *)
Definition setter_within (set : strvec -> Z -> Z * Z) (lo hi : Z) : Prop :=
  forall sv old, lo <= old <= hi -> lo <= snd (set sv old) <= hi.

Create HintDb options.

(** A closed range. *)
Ltac const_range := split; vm_compute; discriminate.

Lemma set_yes_no_within : setter_within set_yes_no 0 1.
Proof. intros sv old Hold. unfold set_yes_no. destruct (set_value sv) as [b|]; [|done]. cbn [snd]. destruct (_ || _); const_range. Qed.

Lemma set_yes_no_undef_within : setter_within set_yes_no_undef 0 2.
Proof. 
  intros sv old Hold. unfold set_yes_no_undef. destruct (set_value sv) as [b|]; [|done]. cbn [snd].
  destruct (_ || _); [const_range|]. destruct (_ || _); const_range.
Qed.

Lemma set_int_within : setter_within set_int INT_MIN INT_MAX.
Proof.
  intros sv old Hold. unfold set_int. destruct (set_value sv) as [b|]; [|done].
  destruct (strtol10 b) as [[r e]|]; [|done]. destruct (_ || _) eqn:E; [done|]. cbn [snd]. bools. lia.
Qed.

Lemma scan_digits_nonneg base acc a : 0 <= base -> 0 <= acc -> 0 <= fst (scan_digits base acc a).
Proof.
  intros Hb. revert acc. induction a as [|c a IH]; intros acc Hacc; cbn; [done|].
  destruct (base_digit base c) as [d|] eqn:E; [|done]. apply IH.
  assert (0 <= d); [|nia]. revert E. unfold base_digit, digit_val. split_ifs; intros; simplify_eq; lia.
Qed.

Lemma strtoul10_nonneg a v r : strtoul10 a = Some (v, r) -> 0 <= v.
Proof.
  unfold strtoul10. destruct (scan_sign _) as [neg b]. destruct (starts_digit 10 b); [|done].
  pose proof (scan_digits_nonneg 10 0 b ltac:(lia) ltac:(lia)). destruct (scan_digits 10 0 b) as [w r']. cbn [fst] in *.
  intros [= <- _]. pose proof (u64_range (- w)). unfold ULONG_MAX. destruct (_ <? w); [lia|]. destruct neg; lia.
Qed.

Lemma set_uint_within : setter_within set_uint 0 UINT_MAX.
Proof.
  intros sv old Hold. unfold set_uint. destruct (set_value sv) as [b|]; [|done]. cbv zeta.
  destruct (strtoul10 (skip_space b)) as [[r e]|] eqn:E0; [|done]. apply strtoul10_nonneg in E0.
  destruct (_ || _) eqn:E; [done|]. cbn [snd]. bools. lia.
Qed.

Lemma scan_int_range a v r : scan_int a = Some (v, r) -> is_int v.
Proof. unfold scan_int. destruct (strtol10 a) as [[w r']|]; [|done]. intros [= <- _]. apply s32_range. Qed.

Lemma atoi_range a : is_int (atoi a).
Proof. rewrite atoi_scan_int. destruct (scan_int a) as [[v r]|] eqn:E; [by eapply scan_int_range|done]. Qed.

Lemma scan_uint_range base a v : scan_uint base a = Some v -> 0 <= v <= UINT_MAX.
Proof.
  unfold scan_uint. destruct (scan_sign _) as [neg b]. destruct (starts_digit _ _); [|done].
  destruct (scan_digits _ _ _) as [w r]. intros [= <-].
  pose proof (u32_range (if ULONG_MAX <? w then ULONG_MAX else if neg then - w else w)). unfold UINT_MAX. lia.
Qed.

Lemma set_fast_io_fail_within : setter_within set_fast_io_fail (-2) INT_MAX.
Proof.
  intros sv old Hold. unfold set_fast_io_fail, MP_FAST_IO_FAIL_OFF, MP_FAST_IO_FAIL_UNSET, MP_FAST_IO_FAIL_ZERO, INT_MAX in *.
  destruct (set_value sv) as [b|]; [|done]. cbn [snd]. destruct (streq _ _); [lia|].
  destruct (scan_int b) as [[v r]|] eqn:E; [|lia]. apply scan_int_range in E. unfold is_int, INT_MAX in E.
  destruct (Z.ltb_spec v (-2)); [lia|]. destruct (v =? 0); lia.
Qed.

Lemma set_dev_loss_within : setter_within set_dev_loss 0 UINT_MAX.
Proof.
  intros sv old Hold. unfold set_dev_loss, MAX_DEV_LOSS_TMO, DEV_LOSS_TMO_UNSET. destruct (set_value sv) as [b|]; [|done].
  cbn [snd]. destruct (streq _ _); [unfold UINT_MAX; lia|]. destruct (scan_uint 10 b) eqn:E; [|unfold UINT_MAX; lia].
  by apply scan_uint_range in E.
Qed.

Lemma set_pgpolicy_within : setter_within set_pgpolicy 0 5.
Proof.
  intros sv old Hold. unfold set_pgpolicy, get_pgpolicy_id. destruct (set_value sv) as [b|]; [|done]. cbn [snd].
  repeat case_match; const_range.
Qed.

Lemma set_rr_weight_within : setter_within set_rr_weight 0 2.
Proof.
  intros sv old Hold. unfold set_rr_weight. destruct (set_value sv) as [b|]; [|done]. cbn [snd].
  destruct (streq _ _); [const_range|]. destruct (streq _ _); (done || const_range).
Qed.

Lemma set_pgfailback_within : setter_within set_pgfailback INT_MIN INT_MAX.
Proof.
  intros sv old Hold. unfold set_pgfailback. destruct (set_value sv) as [b|]; [|done]. cbn [snd].
  do 3 (destruct (streq _ _); [const_range|]). apply atoi_range.
Qed.

Lemma no_path_retry_helper_within : setter_within no_path_retry_helper (-2) INT_MAX.
Proof.
  intros sv old Hold. unfold no_path_retry_helper. destruct (set_value sv) as [b|]; [|done]. cbn [snd].
  destruct (_ || _); [const_range|]. destruct (streq _ _); [const_range|]. pose proof (atoi_range b). unfold is_int, INT_MAX in *.
  destruct (Z.ltb_spec (atoi b) 1); [const_range|lia].
Qed.

Lemma set_off_int_undef_within : setter_within set_off_int_undef (-1) INT_MAX.
Proof.
  intros sv old Hold. unfold set_off_int_undef. destruct (set_value sv) as [b|]; [|done]. cbn [snd].
  destruct (_ || _); [const_range|]. pose proof (atoi_range b). unfold is_int, INT_MAX in *.
  destruct (Z.ltb_spec (atoi b) 1); [const_range|lia].
Qed.

Lemma set_log_checker_err_within : setter_within set_log_checker_err 0 1.
Proof.
  intros sv old Hold. unfold set_log_checker_err. destruct (set_value sv) as [b|]; [|done]. cbn [snd].
  destruct (streq _ _); [const_range|]. destruct (streq _ _); (done || const_range).
Qed.

Lemma set_uxsock_timeout_within : setter_within set_uxsock_timeout INT_MIN INT_MAX.
Proof.
  intros sv old Hold. unfold set_uxsock_timeout. destruct (set_value sv) as [b|]; [|done]. cbn [snd].
  destruct (scan_uint 10 b) as [v|]; [|const_range]. destruct (_ <? v); [apply s32_range|const_range].
Qed.

Lemma set_max_fds_option_within nr_open : setter_within (set_max_fds_option nr_open) INT_MIN INT_MAX.
Proof.
  intros sv old Hold. unfold set_max_fds_option. destruct (set_value sv) as [b|]; [|done].
  destruct (get_sys_max_fds nr_open) as [r sys] eqn:E. cbn [snd].
  assert (is_int (default 4096 sys)) as Hs.
  { unfold get_sys_max_fds in E. destruct nr_open as [t|]; [|by simplify_eq].
    destruct (scan_int t) as [[v r']|] eqn:E1; simplify_eq; [|done]. by eapply scan_int_range. }
  pose proof (atoi_range b). unfold is_int in *. destruct (streq _ _); lia.
Qed.

Lemma set_find_multipaths_within : setter_within set_find_multipaths 0 5.
Proof.
  intros sv old Hold. unfold set_find_multipaths. destruct (set_value sv) as [b|] eqn:Hsv.
  - unfold set_yes_no_undef. rewrite Hsv. set (v := if _ || _ then _ else _).
    assert (0 <= v <= 2) by (unfold v, YNU_NO, YNU_YES, YNU_UNDEF; repeat case_match; lia).
    destruct (_ && _); cbn [snd]; [lia|]. set (w := match List.find (fun o => streq b (snd o)) find_multipaths_optvals with Some (i, _) => i | None => v end).
    assert (0 <= w <= 5); [|destruct (w =? YNU_UNDEF); [const_range|done]].
    unfold w. destruct (List.find _ _) as [[i n]|] eqn:E; [|lia]. apply find_some in E as [Hin _].
    apply list_elem_of_In in Hin. cut (Forall (fun o => 0 <= fst o <= 5) find_multipaths_optvals).
    { rewrite Forall_forall. by intros Hall; apply (Hall (i, n)). }
    repeat constructor; vm_compute; discriminate.
  - unfold set_yes_no_undef. rewrite Hsv. destruct (_ && _); cbn [snd]; lia.
Qed.

Lemma set_vpd_vendor_within : setter_within set_vpd_vendor 0 1.
Proof.
  intros sv old Hold. unfold set_vpd_vendor. destruct (set_value sv) as [b|]; [|done]. cbn [snd].
  destruct (streq _ _); [const_range|]. destruct (streq _ _); (done || const_range).
Qed.

#[export] Hint Resolve set_yes_no_within set_yes_no_undef_within set_int_within set_uint_within set_fast_io_fail_within
  set_dev_loss_within set_pgpolicy_within set_rr_weight_within set_pgfailback_within no_path_retry_helper_within
  set_off_int_undef_within set_log_checker_err_within set_uxsock_timeout_within set_max_fds_option_within
  set_find_multipaths_within set_vpd_vendor_within : options.

(** ** Lemmas: [print_str] on its buffer *)

Lemma bset_inside buf p c : (p < length buf)%nat -> bset buf p c = Some (<[p := c]> buf).
Proof. intros H. unfold bset. by rewrite (proj2 (Nat.ltb_lt p (length buf))). Qed.

Lemma take_insert_end {A} (buf : list A) p c : (p < length buf)%nat -> take (S p) (<[p := c]> buf) = take p buf ++ [c].
Proof.
  intros H. rewrite (take_S_r _ _ c) by (by apply list_lookup_insert_eq). by rewrite take_insert_ge.
Qed.

Lemma put_bytes_inside src : forall buf p, (p + length src <= length buf)%nat ->
  exists buf', put_bytes buf p src = Some buf' /\ length buf' = length buf /\
               take (p + length src) buf' = take p buf ++ src.
Proof.
  induction src as [|c src IH]; intros buf p H; cbn [length] in H.
  - exists buf. cbn. rewrite Nat.add_0_r. by rewrite app_nil_r.
  - cbn [put_bytes]. rewrite bset_inside by lia. cbn [mbind option_bind].
    destruct (IH (<[p := c]> buf) (S p)) as (buf' & -> & Hlen & Htake); [rewrite length_insert; lia|].
    exists buf'. rewrite length_insert in Hlen. split; [done|]. split; [done|].
    cbn [length]. rewrite Nat.add_succ_r. change (S (p + length src)) with (S p + length src)%nat.
    rewrite Htake, take_insert_end by lia. by rewrite <-app_assoc.
Qed.

Lemma double_quotes_app a b : double_quotes (a ++ b) = double_quotes a ++ double_quotes b.
Proof. induction a as [|c a IH]; [done|]. cbn. destruct (c =? 34); cbn; by rewrite IH. Qed.

(** A string up to its first quote. *)
Lemma split_quote ptr q : strchr 34 ptr = Some q ->
  (q < length ptr)%nat /\ double_quotes ptr = take (S q) ptr ++ 34 :: double_quotes (drop (S q) ptr).
Proof.
  intros H. destruct (strchr_Some _ _ _ H) as (r & Hr & Hno).
  assert (q < length ptr)%nat as Hq.
  { apply (f_equal length) in Hr. rewrite length_app, length_take in Hr. cbn in Hr. lia. }
  split; [done|]. assert (take (S q) ptr = take q ptr ++ [34]) as Ht.
  { apply take_S_r. rewrite Hr at 1. rewrite lookup_app_r; rewrite length_take; [|lia].
    by replace (q - _)%nat with 0%nat by lia. }
  rewrite <-(take_drop (S q) ptr) at 1. rewrite double_quotes_app, Ht, double_quotes_app.
  rewrite (double_quotes_id (take q ptr) (proj2 (strchr_None 34 _) Hno)). cbn. by rewrite <-!app_assoc.
Qed.

Lemma print_str_loop_fits fuel : forall buf p last ptr, (length ptr < fuel)%nat ->
  (p + length (double_quotes ptr) < last)%nat -> (last < length buf)%nat ->
  exists buf' p' ptr', print_str_loop fuel buf p last ptr = Some (buf', p', ptr', false) /\
    length buf' = length buf /\ strchr 34 ptr' = None /\ (p' + length ptr' = p + length (double_quotes ptr))%nat /\
    take p' buf' ++ ptr' = take p buf ++ double_quotes ptr.
Proof.
  induction fuel as [|f IH]; intros buf p last ptr Hf Hp Hlast; [lia|]. cbn [print_str_loop].
  destruct (strchr 34 ptr) as [q|] eqn:Hq.
  2: { exists buf, p, ptr. by rewrite double_quotes_id. }
  destruct (split_quote ptr q Hq) as [Hlt Hdq]. rewrite Hdq in Hp |- *. rewrite length_app, length_take in Hp. cbn [length] in Hp.
  rewrite (proj2 (Nat.ltb_lt (S q) (last - p))) by lia.
  destruct (put_bytes_inside (take (S q) ptr) buf p) as (b1 & -> & Hl1 & Ht1); [rewrite length_take; lia|].
  rewrite length_take, Nat.min_l in Ht1 by lia. cbn [mbind option_bind]. rewrite bset_inside by lia. cbn [mbind option_bind].
  rewrite (proj2 (Nat.leb_gt last (S (p + S q)))) by lia.
  destruct (IH (<[(p + S q)%nat := 34]> b1) (S (p + S q)) last (drop (S q) ptr)) as (b2 & p2 & ptr2 & -> & Hl2 & Hn & Hpos & Htext);
    [rewrite length_drop; lia|lia|rewrite length_insert; lia|].
  exists b2, p2, ptr2. rewrite length_insert in Hl2. split; [done|]. split; [congruence|]. split; [done|]. split.
  { rewrite Hpos, length_app, length_take. cbn [length]. lia. }
  rewrite Htext, take_insert_end by lia. rewrite Ht1. by rewrite <-!app_assoc.
Qed.

Lemma nul_free_quotes a : nul_free a -> nul_free (double_quotes a).
Proof.
  induction 1 as [|c a Hc _ IH]; [by constructor|]. cbn. destruct (c =? 34); repeat (apply Forall_cons; split; [lia|]); exact IH.
Qed.

(** The last two characters: the closing quote and the NUL. *)
Lemma close_quote (done_ rest : list Z) a b : nul_free done_ ->
  cstr_of (<[S (length done_) := 0]> (<[length done_ := 34]> (done_ ++ a :: b :: rest))) = done_ ++ [34].
Proof.
  intros Hn. rewrite <-(Nat.add_0_r (length done_)) at 2. rewrite insert_app_r. cbn [insert list_insert].
  replace (S (length done_)) with (length done_ + 1)%nat by lia. rewrite insert_app_r. cbn [insert list_insert].
  change (done_ ++ 34 :: 0 :: rest) with (done_ ++ [34] ++ 0 :: rest). rewrite app_assoc. apply cstr_of_app.
  apply Forall_app. split; [done|]. by repeat constructor.
Qed.

(** A string that fits is printed as [print_str] says. *)
Lemma print_str_buf_fits buf ptr : nul_free ptr -> (length (quoted ptr) < length buf)%nat ->
  exists buf', print_str_buf buf (length buf) ptr = Some (buf', length (quoted ptr)) /\ cstr_of buf' = quoted ptr.
Proof.
  unfold quoted. cbn [length]. rewrite length_app. cbn [length]. intros Hn Hlen. unfold print_str_buf. cbv zeta.
  rewrite (proj2 (Nat.leb_gt (length buf - 1) 0)) by lia. rewrite bset_inside by lia. cbn [mbind option_bind].
  rewrite (proj2 (Nat.leb_gt (length buf - 1) 1)) by lia.
  destruct (print_str_loop_fits (S (length ptr)) (<[0%nat := 34]> buf) 1 (length buf - 1) ptr)
    as (b1 & p1 & ptr1 & -> & Hl1 & Hq1 & Hp1 & Ht1); [lia|lia|rewrite length_insert; lia|].
  rewrite length_insert in Hl1. cbn [mbind option_bind].
  assert (nul_free (34 :: double_quotes ptr)) as Hnf by (apply Forall_cons; split; [lia|by apply nul_free_quotes]).
  assert (take 1 (<[0%nat := 34]> buf) = [34]) as H1 by (destruct buf; [cbn in Hlen; lia|done]).
  rewrite H1 in Ht1. cbn [app] in Ht1. rewrite <-Ht1 in Hnf. pose proof Hnf as [_ Hn1]%Forall_app.
  destruct (strlcpy_ok (drop p1 b1) ptr1 (length buf - 1 - p1)) as (tail & -> & Hlt & Htail & _);
    [rewrite length_drop; lia|done|].
  cbn [mbind option_bind]. rewrite take_ge in Htail by lia. rewrite length_drop in Hlt.
  rewrite (proj2 (Nat.leb_gt (length buf - 1) (p1 + length ptr1))) by lia.
  assert (length (take p1 b1 ++ tail) = length buf) as Hl by (rewrite length_app, length_take; lia).
  rewrite bset_inside by lia. cbn [mbind option_bind]. rewrite bset_inside by (rewrite length_insert; lia).
  cbn [mbind option_bind]. eexists. split; [do 2 f_equal; lia|].
  destruct (cstr_of_split tail) as (rest & Hrest); [rewrite Htail; lia|]. rewrite Htail in Hrest.
  rewrite Hrest, app_assoc, Ht1 in Hl |- *. set (d := 34 :: double_quotes ptr) in *.
  assert (p1 + length ptr1 = length d)%nat as -> by (unfold d; cbn [length]; lia).
  destruct rest as [|b rest].
  { unfold d in Hl. rewrite length_app in Hl. cbn [length] in Hl. lia. }
  rewrite Ht1 in Hnf. by rewrite close_quote.
Qed.

(** A quote and, after the last quote, a text as long as the buffer. *)
Lemma print_str_buf_overflows buf tail : (5 < length buf)%nat -> nul_free tail -> strchr 34 tail = None ->
  (length buf <= length tail)%nat -> print_str_buf buf (length buf) (34 :: tail) = None.
Proof.
  intros Hlen Hn Hq Ht. unfold print_str_buf. cbv zeta.
  rewrite (proj2 (Nat.leb_gt (length buf - 1) 0)) by lia. rewrite bset_inside by lia. cbn [mbind option_bind].
  rewrite (proj2 (Nat.leb_gt (length buf - 1) 1)) by lia. cbn [print_str_loop strchr Z.eqb Pos.eqb].
  rewrite (proj2 (Nat.ltb_lt 1 (length buf - 1 - 1))) by lia. cbn [take put_bytes].
  change (take 0 tail) with (@nil Z). cbn [put_bytes mbind option_bind].
  rewrite bset_inside by (rewrite !length_insert; lia). cbn [mbind option_bind].
  rewrite (proj2 (Nat.leb_gt (length buf - 1) (S (1 + 1)))) by lia. change (drop 1 (34 :: tail)) with tail.
  cbn [length print_str_loop]. rewrite Hq. rewrite bset_inside by (rewrite !length_insert; lia). cbn [mbind option_bind].
  set (b := <[_ := _]> _). assert (length b = length buf) as Hb by (unfold b; by rewrite !length_insert).
  destruct (strlcpy_ok (drop (S (1 + 1)) b) tail (length buf - 1 - S (1 + 1))) as (d & -> & Hd & _ & _);
    [rewrite length_drop; lia|done|].
  cbn [mbind option_bind]. rewrite (proj2 (Nat.leb_le (length buf - 1) (S (1 + 1) + length tail))) by lia.
  unfold bset. rewrite (proj2 (Nat.ltb_ge _ _)); [done|]. rewrite length_app, length_take, Hd, length_drop. lia.
Qed.
