(* ===== verification/Dict.v ===== *)
(** * libmultipath/dict.c: the keywords of the configuration file

    An option of the code is a member of a struct with the functions that set
    and print it; the macros of dict.c make a handler and a printer of it for
    each of the sections (defaults, devices, overrides, multipaths).  Here an
    option is an [option_t] and the macros are [def_handler], [hw_handler],
    [ovr_handler], [mp_handler] and [def_snprint] etc.  [init_keywords] is the
    sequence of calls that installs the keywords.

    [regcomp] compiles regular expressions, [nr_open] is the text of
    /proc/sys/fs/nr_open, [getpwnam] the uid and gid of an account. *)

From S2P Require Import Prelude CString Util Structs Pgpolicies Parser Conf Blacklist Options.

Definition DEFAULT_UID_ATTRIBUTE : cstr := s "ID_SERIAL".
Definition DEFAULT_SELECTOR : cstr := s "service-time 0".
Definition DEFAULT_ALIAS_PREFIX : cstr := s "mpath".
Definition DEFAULT_FEATURES : cstr := s "0".
Definition DEFAULT_MINIO : Z := 1000.
Definition DEFAULT_MINIO_RQ : Z := 1.
Definition DEFAULT_PGPOLICY : Z := FAILOVER.
Definition DEFAULT_FAILBACK : Z := - FAILBACK_MANUAL.
Definition DEFAULT_RR_WEIGHT : Z := RR_WEIGHT_NONE.
Definition DEFAULT_FAST_IO_FAIL : Z := 5.
Definition DEFAULT_RETAIN_HWHANDLER : Z := RETAIN_HWHANDLER_ON.
Definition DEFAULT_DETECT_PRIO : Z := YNU_YES.
Definition DEFAULT_DETECT_CHECKER : Z := YNU_YES.
Definition DEFAULT_DEFERRED_REMOVE : Z := YNU_NO.
Definition DEFAULT_DELAY_CHECKS : Z := NU_NO.
Definition DEFAULT_ERR_CHECKS : Z := NU_NO.
Definition DEFAULT_PRIO : cstr := s "const".
Definition DEFAULT_PRIO_ARGS : cstr := [].
Definition DEFAULT_CHECKER : cstr := s "tur".
Definition DEFAULT_FLUSH : Z := FLUSH_DISABLED.
Definition DEFAULT_USER_FRIENDLY_NAMES : Z := YNU_NO.
Definition DEFAULT_SKIP_KPARTX : Z := YNU_NO.
Definition DEFAULT_FIND_MULTIPATHS_TIMEOUT : Z := -10.
Definition DEFAULT_ALL_TG_PT : Z := YNU_NO.
Definition DEFAULT_ENABLE_FOREIGN : cstr := s "NONE".

(** What a keyword prints: the [data] argument of the printers. *)
Inductive data := NoData | HweData (b : block) | MpeData (b : block) | BleData (b : blentry) | BledData (b : blentry_device).

(** ** Options *)

(** Sets a member; prints it where it has no default, and in the defaults. *)
Record option_t := { o_set : strvec -> block -> Z * block; o_print : block -> cstr; o_print_def : block -> cstr }.

Definition num_member (f : string) (set : strvec -> Z -> Z * Z) (sv : strvec) (b : block) : Z * block :=
  let '(r, v) := set sv (num b f) in (r, set_num f v b).

Definition str_member (f : string) (set : strvec -> option cstr -> Z * option cstr) (sv : strvec) (b : block) : Z * block :=
  let '(r, v) := set sv (str b f) in (r, set_string f v b).

Definition attr_member (f : string) (set : strvec -> Z * Z -> Z * (Z * Z)) (sv : strvec) (b : block) : Z * block :=
  let '(r, (v, flags)) := set sv (num b f, num b "attribute_flags") in
  (r, set_num "attribute_flags" flags (set_num f v b)).

Definition prkey_member (sv : strvec) (b : block) : Z * block :=
  let '(r, (source, flags, key)) := set_reservation_key sv (num b "prkey_source", num b "sa_flags", num b "reservation_key") in
  (r, set_num "reservation_key" key (set_num "sa_flags" flags (set_num "prkey_source" source b))).

Definition num_option (f : string) (set : strvec -> Z -> Z * Z) (print print_def : Z -> cstr) : option_t :=
  {| o_set := num_member f set; o_print := fun b => print (num b f); o_print_def := fun b => print_def (num b f) |}.

Definition str_option (f : string) (print_def : option cstr -> cstr) : option_t :=
  {| o_set := str_member f set_str; o_print := fun b => print_str (str b f); o_print_def := fun b => print_def (str b f) |}.

Definition attr_option (f : string) (bit : Z) (set : strvec -> Z * Z -> Z * (Z * Z)) : option_t :=
  let print b := print_octal bit (num b f) (num b "attribute_flags") in
  {| o_set := attr_member f set; o_print := print; o_print_def := print |}.

(** A member that is not set is printed as its default. *)
Definition with_default (print : Z -> cstr) (d v : Z) : cstr := if v =? 0 then print d else print v.
Definition string_default (d : cstr) (v : option cstr) : cstr :=
  match v with None => print_str (Some d) | Some _ => print_str v end.

Definition o_max_checkint : option_t :=
  num_option "max_checkint" set_uint print_int print_int.
Definition o_verbosity : option_t :=
  num_option "verbosity" set_int print_int print_int.
Definition o_reassign_maps : option_t :=
  num_option "reassign_maps" set_yes_no print_yes_no print_yes_no.
Definition o_multipath_dir : option_t := str_option "multipath_dir" print_str.
Definition o_selector : option_t := str_option "selector" (string_default DEFAULT_SELECTOR).
Definition o_uid_attribute : option_t := str_option "uid_attribute" (string_default DEFAULT_UID_ATTRIBUTE).
Definition o_getuid : option_t := str_option "getuid" print_str.
Definition o_prio_name : option_t := str_option "prio_name" (string_default DEFAULT_PRIO).
Definition o_alias_prefix : option_t := str_option "alias_prefix" (string_default DEFAULT_ALIAS_PREFIX).
Definition o_prio_args : option_t := str_option "prio_args" (string_default DEFAULT_PRIO_ARGS).
Definition o_features : option_t := str_option "features" (string_default DEFAULT_FEATURES).
Definition o_checker_name : option_t := str_option "checker_name" (string_default DEFAULT_CHECKER).
Definition o_minio : option_t :=
  num_option "minio" set_int print_nonzero (with_default print_int DEFAULT_MINIO).
Definition o_minio_rq : option_t :=
  num_option "minio_rq" set_int print_nonzero (with_default print_int DEFAULT_MINIO_RQ).
Definition o_checker_timeout : option_t :=
  num_option "checker_timeout" set_int print_nonzero print_nonzero.
Definition o_allow_usb_devices : option_t :=
  num_option "allow_usb_devices" set_yes_no print_yes_no print_yes_no.
Definition o_flush_on_last_del : option_t :=
  num_option "flush_on_last_del" set_yes_no_undef print_yes_no_undef (with_default print_yes_no_undef DEFAULT_FLUSH).
Definition o_user_friendly_names : option_t :=
  num_option "user_friendly_names" set_yes_no_undef print_yes_no_undef (with_default print_yes_no_undef DEFAULT_USER_FRIENDLY_NAMES).
Definition o_bindings_file : option_t := str_option "bindings_file" print_str.
Definition o_wwids_file : option_t := str_option "wwids_file" print_str.
Definition o_prkeys_file : option_t := str_option "prkeys_file" print_str.
Definition o_retain_hwhandler : option_t :=
  num_option "retain_hwhandler" set_yes_no_undef print_yes_no_undef (with_default print_yes_no_undef DEFAULT_RETAIN_HWHANDLER).
Definition o_detect_prio : option_t :=
  num_option "detect_prio" set_yes_no_undef print_yes_no_undef (with_default print_yes_no_undef DEFAULT_DETECT_PRIO).
Definition o_detect_checker : option_t :=
  num_option "detect_checker" set_yes_no_undef print_yes_no_undef (with_default print_yes_no_undef DEFAULT_DETECT_CHECKER).
Definition o_force_sync : option_t :=
  num_option "force_sync" set_yes_no print_yes_no print_yes_no.
Definition o_deferred_remove : option_t :=
  num_option "deferred_remove" set_yes_no_undef print_yes_no_undef (with_default print_yes_no_undef DEFAULT_DEFERRED_REMOVE).
Definition o_retrigger_tries : option_t :=
  num_option "retrigger_tries" set_int print_int print_int.
Definition o_retrigger_delay : option_t :=
  num_option "retrigger_delay" set_int print_int print_int.
Definition o_uev_wait_timeout : option_t :=
  num_option "uev_wait_timeout" set_int print_int print_int.
Definition o_strict_timing : option_t :=
  num_option "strict_timing" set_yes_no print_yes_no print_yes_no.
Definition o_skip_kpartx : option_t :=
  num_option "skip_kpartx" set_yes_no_undef print_yes_no_undef (with_default print_yes_no_undef DEFAULT_SKIP_KPARTX).
Definition o_remove_retries : option_t :=
  num_option "remove_retries" set_int print_int print_int.
Definition o_max_sectors_kb : option_t :=
  num_option "max_sectors_kb" set_int print_nonzero print_nonzero.
Definition o_find_multipaths_timeout : option_t :=
  num_option "find_multipaths_timeout" set_int print_int (with_default print_int DEFAULT_FIND_MULTIPATHS_TIMEOUT).
Definition o_enable_foreign : option_t := str_option "enable_foreign" (string_default DEFAULT_ENABLE_FOREIGN).
Definition o_fast_io_fail : option_t :=
  num_option "fast_io_fail" set_fast_io_fail print_fast_io_fail (with_default print_fast_io_fail DEFAULT_FAST_IO_FAIL).
Definition o_dev_loss : option_t :=
  num_option "dev_loss" set_dev_loss print_dev_loss print_dev_loss.
Definition o_pgpolicy : option_t :=
  num_option "pgpolicy" set_pgpolicy print_pgpolicy (with_default print_pgpolicy DEFAULT_PGPOLICY).
Definition o_rr_weight : option_t :=
  num_option "rr_weight" set_rr_weight print_rr_weight (with_default print_rr_weight DEFAULT_RR_WEIGHT).
Definition o_pgfailback : option_t :=
  num_option "pgfailback" set_pgfailback print_pgfailback (with_default print_pgfailback DEFAULT_FAILBACK).
Definition o_no_path_retry : option_t :=
  num_option "no_path_retry" no_path_retry_helper print_no_path_retry print_no_path_retry.
Definition o_delay_watch_checks : option_t :=
  num_option "delay_watch_checks" set_off_int_undef print_off_int_undef (with_default print_off_int_undef DEFAULT_DELAY_CHECKS).
Definition o_delay_wait_checks : option_t :=
  num_option "delay_wait_checks" set_off_int_undef print_off_int_undef (with_default print_off_int_undef DEFAULT_DELAY_CHECKS).
Definition o_san_path_err_threshold : option_t :=
  num_option "san_path_err_threshold" set_off_int_undef print_off_int_undef (with_default print_off_int_undef DEFAULT_ERR_CHECKS).
Definition o_san_path_err_forget_rate : option_t :=
  num_option "san_path_err_forget_rate" set_off_int_undef print_off_int_undef (with_default print_off_int_undef DEFAULT_ERR_CHECKS).
Definition o_san_path_err_recovery_time : option_t :=
  num_option "san_path_err_recovery_time" set_off_int_undef print_off_int_undef (with_default print_off_int_undef DEFAULT_ERR_CHECKS).
Definition o_marginal_path_err_sample_time : option_t :=
  num_option "marginal_path_err_sample_time" set_off_int_undef print_off_int_undef (with_default print_off_int_undef DEFAULT_ERR_CHECKS).
Definition o_marginal_path_err_rate_threshold : option_t :=
  num_option "marginal_path_err_rate_threshold" set_off_int_undef print_off_int_undef (with_default print_off_int_undef DEFAULT_ERR_CHECKS).
Definition o_marginal_path_err_recheck_gap_time : option_t :=
  num_option "marginal_path_err_recheck_gap_time" set_off_int_undef print_off_int_undef (with_default print_off_int_undef DEFAULT_ERR_CHECKS).
Definition o_marginal_path_double_failed_time : option_t :=
  num_option "marginal_path_double_failed_time" set_off_int_undef print_off_int_undef (with_default print_off_int_undef DEFAULT_ERR_CHECKS).
Definition o_ghost_delay : option_t :=
  num_option "ghost_delay" set_off_int_undef print_off_int_undef print_off_int_undef.
Definition o_all_tg_pt : option_t :=
  num_option "all_tg_pt" set_yes_no_undef print_yes_no_undef (with_default print_yes_no_undef DEFAULT_ALL_TG_PT).
Definition o_marginal_pathgroups : option_t :=
  num_option "marginal_pathgroups" set_yes_no print_yes_no print_yes_no.
Definition o_vendor : option_t := str_option "vendor" print_str.
Definition o_product : option_t := str_option "product" print_str.
Definition o_revision : option_t := str_option "revision" print_str.
Definition o_bl_product : option_t := str_option "bl_product" print_str.
Definition o_hwhandler : option_t := str_option "hwhandler" print_str.
Definition o_wwid : option_t := str_option "wwid" print_str.
Definition o_alias : option_t := str_option "alias" print_str.
Definition o_checkint : option_t := num_option "checkint" set_uint print_int print_int.
Definition o_queue_without_daemon : option_t :=
  num_option "queue_without_daemon" set_yes_no print_queue_without_daemon print_queue_without_daemon.
Definition o_config_dir : option_t := str_option "config_dir" print_str.
Definition o_mode : option_t := attr_option "mode" ATTR_MODE set_mode.

(** ** Handlers *)

(** The last entry of a table. *)
Definition on_last (h : block -> Z * block) (t : option (list block)) : option (Z * option (list block)) :=
  match t with
  | None => None
  | Some l => match last l with
              | None => None
              | Some b => let '(r, b) := h b in Some (r, Some (take (length l - 1) l ++ [b]))
              end
  end.

Definition def_handler (o : option_t) : handler_t config := fun conf sv =>
  let '(r, b) := o_set o sv (opts conf) in (r, conf <| opts := b |>).

Definition hw_handler (o : option_t) : handler_t config := fun conf sv =>
  match on_last (o_set o sv) (hwtable conf) with
  | None => (1, conf)
  | Some (r, t) => (r, conf <| hwtable := t |>)
  end.

Definition ovr_handler (o : option_t) : handler_t config := fun conf sv =>
  match overrides conf with
  | None => (1, conf)
  | Some b => let '(r, b) := o_set o sv b in (r, conf <| overrides := Some b |>)
  end.

Definition mp_handler (o : option_t) : handler_t config := fun conf sv =>
  match on_last (o_set o sv) (mptable conf) with
  | None => (1, conf)
  | Some (r, t) => (r, conf <| mptable := t |>)
  end.

Definition def_snprint (o : option_t) : print_t config data := fun conf _ => o_print_def o (opts conf).
Definition hw_snprint (o : option_t) : print_t config data := fun _ d => match d with HweData b => o_print o b | _ => [] end.
Definition ovr_snprint (o : option_t) : print_t config data := fun conf _ => o_print o (default zero_block (overrides conf)).
Definition mp_snprint (o : option_t) : print_t config data := fun _ d => match d with MpeData b => o_print o b | _ => [] end.

(** The interval is never the undefined one. *)
Definition checkint_handler : handler_t config := fun conf sv =>
  let '(rc, v) := set_uint sv (num (opts conf) "checkint") in
  let v := if negb (rc =? 0) then v else if v =? CHECKINT_UNDEF then v - 1 else v in
  (rc, conf <| opts ::= set_num "checkint" v |>).

Definition def_partition_delim_handler : handler_t config := fun conf sv =>
  let '(r, v) := set_partition_delim sv (str (opts conf) "partition_delim") in
  (r, conf <| opts ::= set_string "partition_delim" v |>).

(** The default of the build is no delimiter. *)
Definition snprint_def_partition_delim : print_t config data := fun conf _ =>
  print_partition_delim (str (opts conf) "partition_delim").

Definition def_find_multipaths_handler : handler_t config := fun conf sv =>
  let '(r, v) := set_find_multipaths sv (num (opts conf) "find_multipaths") in
  (r, conf <| opts ::= set_num "find_multipaths" v |>).

Definition snprint_def_find_multipaths : print_t config data := fun conf _ =>
  print_find_multipaths (num (opts conf) "find_multipaths").

Definition uid_attrs_handler : handler_t config := fun conf sv =>
  match set_value sv with
  | None => (1, conf <| uid_attrs := [] |>)
  | Some val => (0, conf <| uid_attrs := snd (parse_uid_attrs val []) |>)
  end.

Definition snprint_uid_attrs : print_t config data := fun conf _ => join_blanks (uid_attrs conf).

Definition def_disable_changed_wwids_handler : handler_t config := fun conf _ => (0, conf).
Definition snprint_def_disable_changed_wwids : print_t config data := fun _ _ => print_ignored.

(** Only valid in the main configuration file. *)
Definition def_config_dir_handler : handler_t config := fun conf sv =>
  if negb (num (opts conf) "processed_main_config" =? 0) then (0, conf) else def_handler o_config_dir conf sv.

Definition def_log_checker_err_handler : handler_t config := fun conf sv =>
  let '(r, v) := set_log_checker_err sv (num (opts conf) "log_checker_err") in
  (r, conf <| opts ::= set_num "log_checker_err" v |>).

Definition snprint_def_log_checker_err : print_t config data := fun conf _ =>
  print_log_checker_err (num (opts conf) "log_checker_err").

Definition print_prkey_of (b : block) : cstr :=
  print_reservation_key (num b "prkey_source") (num b "sa_flags") (num b "reservation_key").

Definition o_reservation_key : option_t :=
  {| o_set := prkey_member; o_print := print_prkey_of; o_print_def := print_prkey_of |}.

Definition def_reservation_key_handler : handler_t config := def_handler o_reservation_key.
Definition snprint_def_reservation_key : print_t config data := def_snprint o_reservation_key.
Definition mp_reservation_key_handler : handler_t config := mp_handler o_reservation_key.
Definition snprint_mp_reservation_key : print_t config data := mp_snprint o_reservation_key.

Definition def_uxsock_timeout_handler : handler_t config := fun conf sv =>
  let '(r, v) := set_uxsock_timeout sv (num (opts conf) "uxsock_timeout") in
  (r, conf <| opts ::= set_num "uxsock_timeout" v |>).

Definition snprint_def_uxsock_timeout : print_t config data := fun conf _ =>
  print_uint (num (opts conf) "uxsock_timeout").

Definition o_vpd_vendor : option_t := num_option "vpd_vendor_id" set_vpd_vendor print_vpd_vendor print_vpd_vendor.
Definition hw_vpd_vendor_handler : handler_t config := hw_handler o_vpd_vendor.
Definition snprint_hw_vpd_vendor : print_t config data := hw_snprint o_vpd_vendor.

Definition deprecated_handler : handler_t config := fun conf sv =>
  match set_value sv with None => (1, conf) | Some _ => (0, conf) end.
Definition snprint_deprecated : print_t config data := fun _ _ => [].

(** *** Sections *)

Definition alloc_table {A} (t : option (list A)) : option (list A) := Some (default [] t).

Definition blacklist_handler : handler_t config := fun conf _ =>
  (0, conf <| blist_devnode ::= alloc_table |> <| blist_wwid ::= alloc_table |> <| blist_device ::= alloc_table |>
           <| blist_property ::= alloc_table |> <| blist_protocol ::= alloc_table |>).

Definition blacklist_exceptions_handler : handler_t config := fun conf _ =>
  (0, conf <| elist_devnode ::= alloc_table |> <| elist_wwid ::= alloc_table |> <| elist_device ::= alloc_table |>
           <| elist_property ::= alloc_table |> <| elist_protocol ::= alloc_table |>).

Definition devices_handler : handler_t config := fun conf _ => (0, conf <| hwtable ::= alloc_table |>).

(** [vector_alloc_slot] fails on a NULL vector. *)
Definition add_entry (t : option (list block)) : Z * option (list block) :=
  match t with None => (1, None) | Some l => (0, Some (l ++ [zero_block])) end.

Definition device_handler : handler_t config := fun conf _ =>
  let '(r, t) := add_entry (hwtable conf) in (r, conf <| hwtable := t |>).

Definition overrides_handler : handler_t config := fun conf _ =>
  (0, conf <| overrides := Some (default zero_block (overrides conf)) |>).

Definition multipaths_handler : handler_t config := fun conf _ => (0, conf <| mptable ::= alloc_table |>).

Definition multipath_handler : handler_t config := fun conf _ =>
  let '(r, t) := add_entry (mptable conf) in (r, conf <| mptable := t |>).

Definition snprint_ble_simple : print_t config data := fun _ d =>
  match d with BleData ble => in_quotes (ble_str ble) | _ => [] end.

(** [%s] of NULL. *)
Definition null_text (a : option cstr) : cstr := default (s "(null)") a.

Definition snprint_bled_vendor : print_t config data := fun _ d =>
  match d with BledData b => in_quotes (null_text (bled_vendor b)) | _ => [] end.
Definition snprint_bled_product : print_t config data := fun _ d =>
  match d with BledData b => in_quotes (null_text (bled_product b)) | _ => [] end.

Section Dict.
Variable regcomp : cstr -> option (cstr -> bool).
Variable nr_open : option cstr.
Variable getpwnam : cstr -> option (Z * Z).

Definition o_uid : option_t := attr_option "uid" ATTR_UID (set_owner ATTR_UID (fun a => u32 ∘ fst <$> getpwnam a)).
Definition o_gid : option_t := attr_option "gid" ATTR_GID (set_owner ATTR_GID (fun a => u32 ∘ snd <$> getpwnam a)).

Definition max_fds_handler : handler_t config := fun conf sv =>
  let '(r, v) := set_max_fds_option nr_open sv (num (opts conf) "max_fds") in
  (r, conf <| opts ::= set_num "max_fds" v |>).

Definition snprint_max_fds : print_t config data := fun conf _ => print_max_fds nr_open (num (opts conf) "max_fds").

Definition store_option (sv : strvec) (l : option (list blentry)) : option (Z * option (list blentry)) :=
  match l, set_value sv with
  | Some _, Some buff => Some (store_ble regcomp l (Some buff) ORIGIN_CONFIG)
  | _, _ => None
  end.

Definition ble_handler (get : config -> option (list blentry)) (put : option (list blentry) -> config -> config)
  : handler_t config := fun conf sv =>
  match store_option sv (get conf) with None => (1, conf) | Some (r, l) => (r, put l conf) end.

Definition ble_blist_devnode_handler := ble_handler blist_devnode (fun l c => c <| blist_devnode := l |>).
Definition ble_elist_devnode_handler := ble_handler elist_devnode (fun l c => c <| elist_devnode := l |>).
Definition ble_blist_wwid_handler := ble_handler blist_wwid (fun l c => c <| blist_wwid := l |>).
Definition ble_elist_wwid_handler := ble_handler elist_wwid (fun l c => c <| elist_wwid := l |>).
Definition ble_blist_property_handler := ble_handler blist_property (fun l c => c <| blist_property := l |>).
Definition ble_elist_property_handler := ble_handler elist_property (fun l c => c <| elist_property := l |>).
Definition ble_blist_protocol_handler := ble_handler blist_protocol (fun l c => c <| blist_protocol := l |>).
Definition ble_elist_protocol_handler := ble_handler elist_protocol (fun l c => c <| elist_protocol := l |>).

Definition ble_device_handler : handler_t config := fun conf _ =>
  let '(r, l) := alloc_ble_device (blist_device conf) in (r, conf <| blist_device := l |>).
Definition ble_except_device_handler : handler_t config := fun conf _ =>
  let '(r, l) := alloc_ble_device (elist_device conf) in (r, conf <| elist_device := l |>).

(** [vend] and [prod] choose the argument of [set_ble_device]. *)
Definition set_device_option (vend : bool) (sv : strvec) (l : option (list blentry_device))
  : option (Z * option (list blentry_device)) :=
  match l, set_value sv with
  | Some _, Some buff =>
      Some (set_ble_device regcomp l (if vend then Some buff else None) (if vend then None else Some buff) ORIGIN_CONFIG)
  | _, _ => None
  end.

Definition ble_dev_handler (vend : bool) (get : config -> option (list blentry_device))
    (put : option (list blentry_device) -> config -> config) : handler_t config := fun conf sv =>
  match set_device_option vend sv (get conf) with None => (1, conf) | Some (r, l) => (r, put l conf) end.

Definition ble_blist_device_vendor_handler := ble_dev_handler true blist_device (fun l c => c <| blist_device := l |>).
Definition ble_elist_device_vendor_handler := ble_dev_handler true elist_device (fun l c => c <| elist_device := l |>).
Definition ble_blist_device_product_handler := ble_dev_handler false blist_device (fun l c => c <| blist_device := l |>).
Definition ble_elist_device_product_handler := ble_dev_handler false elist_device (fun l c => c <| elist_device := l |>).

(** ** The keywords, in the order they are installed *)

Definition defaults_keywords : list (install config data) :=
  [install_keyword_root (s "defaults") None;
   install_keyword (s "verbosity") (Some (def_handler o_verbosity)) (Some (def_snprint o_verbosity));
   install_keyword (s "polling_interval") (Some checkint_handler) (Some (def_snprint o_checkint));
   install_keyword (s "max_polling_interval") (Some (def_handler o_max_checkint)) (Some (def_snprint o_max_checkint));
   install_keyword (s "reassign_maps") (Some (def_handler o_reassign_maps)) (Some (def_snprint o_reassign_maps));
   install_keyword (s "multipath_dir") (Some (def_handler o_multipath_dir)) (Some (def_snprint o_multipath_dir));
   install_keyword (s "path_selector") (Some (def_handler o_selector)) (Some (def_snprint o_selector));
   install_keyword (s "path_grouping_policy") (Some (def_handler o_pgpolicy)) (Some (def_snprint o_pgpolicy));
   install_keyword (s "uid_attrs") (Some uid_attrs_handler) (Some snprint_uid_attrs);
   install_keyword (s "uid_attribute") (Some (def_handler o_uid_attribute)) (Some (def_snprint o_uid_attribute));
   install_keyword (s "getuid_callout") (Some (def_handler o_getuid)) (Some (def_snprint o_getuid));
   install_keyword (s "prio") (Some (def_handler o_prio_name)) (Some (def_snprint o_prio_name));
   install_keyword (s "prio_args") (Some (def_handler o_prio_args)) (Some (def_snprint o_prio_args));
   install_keyword (s "features") (Some (def_handler o_features)) (Some (def_snprint o_features));
   install_keyword (s "path_checker") (Some (def_handler o_checker_name)) (Some (def_snprint o_checker_name));
   install_keyword (s "checker") (Some (def_handler o_checker_name)) None;
   install_keyword (s "alias_prefix") (Some (def_handler o_alias_prefix)) (Some (def_snprint o_alias_prefix));
   install_keyword (s "failback") (Some (def_handler o_pgfailback)) (Some (def_snprint o_pgfailback));
   install_keyword (s "rr_min_io") (Some (def_handler o_minio)) (Some (def_snprint o_minio));
   install_keyword (s "rr_min_io_rq") (Some (def_handler o_minio_rq)) (Some (def_snprint o_minio_rq));
   install_keyword (s "max_fds") (Some max_fds_handler) (Some snprint_max_fds);
   install_keyword (s "rr_weight") (Some (def_handler o_rr_weight)) (Some (def_snprint o_rr_weight));
   install_keyword (s "no_path_retry") (Some (def_handler o_no_path_retry)) (Some (def_snprint o_no_path_retry));
   install_keyword (s "queue_without_daemon") (Some (def_handler o_queue_without_daemon)) (Some (def_snprint o_queue_without_daemon));
   install_keyword (s "checker_timeout") (Some (def_handler o_checker_timeout)) (Some (def_snprint o_checker_timeout));
   install_keyword (s "allow_usb_devices") (Some (def_handler o_allow_usb_devices)) (Some (def_snprint o_allow_usb_devices));
   install_keyword (s "pg_timeout") (Some deprecated_handler) (Some snprint_deprecated);
   install_keyword (s "flush_on_last_del") (Some (def_handler o_flush_on_last_del)) (Some (def_snprint o_flush_on_last_del));
   install_keyword (s "user_friendly_names") (Some (def_handler o_user_friendly_names)) (Some (def_snprint o_user_friendly_names));
   install_keyword (s "mode") (Some (def_handler o_mode)) (Some (def_snprint o_mode));
   install_keyword (s "uid") (Some (def_handler o_uid)) (Some (def_snprint o_uid));
   install_keyword (s "gid") (Some (def_handler o_gid)) (Some (def_snprint o_gid));
   install_keyword (s "fast_io_fail_tmo") (Some (def_handler o_fast_io_fail)) (Some (def_snprint o_fast_io_fail));
   install_keyword (s "dev_loss_tmo") (Some (def_handler o_dev_loss)) (Some (def_snprint o_dev_loss));
   install_keyword (s "bindings_file") (Some (def_handler o_bindings_file)) (Some (def_snprint o_bindings_file));
   install_keyword (s "wwids_file") (Some (def_handler o_wwids_file)) (Some (def_snprint o_wwids_file));
   install_keyword (s "prkeys_file") (Some (def_handler o_prkeys_file)) (Some (def_snprint o_prkeys_file));
   install_keyword (s "log_checker_err") (Some def_log_checker_err_handler) (Some snprint_def_log_checker_err);
   install_keyword (s "reservation_key") (Some def_reservation_key_handler) (Some snprint_def_reservation_key);
   install_keyword (s "all_tg_pt") (Some (def_handler o_all_tg_pt)) (Some (def_snprint o_all_tg_pt));
   install_keyword (s "retain_attached_hw_handler") (Some (def_handler o_retain_hwhandler)) (Some (def_snprint o_retain_hwhandler));
   install_keyword (s "detect_prio") (Some (def_handler o_detect_prio)) (Some (def_snprint o_detect_prio));
   install_keyword (s "detect_checker") (Some (def_handler o_detect_checker)) (Some (def_snprint o_detect_checker));
   install_keyword (s "force_sync") (Some (def_handler o_force_sync)) (Some (def_snprint o_force_sync));
   install_keyword (s "strict_timing") (Some (def_handler o_strict_timing)) (Some (def_snprint o_strict_timing));
   install_keyword (s "deferred_remove") (Some (def_handler o_deferred_remove)) (Some (def_snprint o_deferred_remove));
   install_keyword (s "partition_delimiter") (Some def_partition_delim_handler) (Some snprint_def_partition_delim);
   install_keyword (s "config_dir") (Some def_config_dir_handler) (Some (def_snprint o_config_dir));
   install_keyword (s "delay_watch_checks") (Some (def_handler o_delay_watch_checks)) (Some (def_snprint o_delay_watch_checks));
   install_keyword (s "delay_wait_checks") (Some (def_handler o_delay_wait_checks)) (Some (def_snprint o_delay_wait_checks));
   install_keyword (s "san_path_err_threshold") (Some (def_handler o_san_path_err_threshold)) (Some (def_snprint o_san_path_err_threshold));
   install_keyword (s "san_path_err_forget_rate") (Some (def_handler o_san_path_err_forget_rate)) (Some (def_snprint o_san_path_err_forget_rate));
   install_keyword (s "san_path_err_recovery_time") (Some (def_handler o_san_path_err_recovery_time)) (Some (def_snprint o_san_path_err_recovery_time));
   install_keyword (s "marginal_path_err_sample_time") (Some (def_handler o_marginal_path_err_sample_time)) (Some (def_snprint o_marginal_path_err_sample_time));
   install_keyword (s "marginal_path_err_rate_threshold") (Some (def_handler o_marginal_path_err_rate_threshold)) (Some (def_snprint o_marginal_path_err_rate_threshold));
   install_keyword (s "marginal_path_err_recheck_gap_time") (Some (def_handler o_marginal_path_err_recheck_gap_time)) (Some (def_snprint o_marginal_path_err_recheck_gap_time));
   install_keyword (s "marginal_path_double_failed_time") (Some (def_handler o_marginal_path_double_failed_time)) (Some (def_snprint o_marginal_path_double_failed_time));
   install_keyword (s "find_multipaths") (Some def_find_multipaths_handler) (Some snprint_def_find_multipaths);
   install_keyword (s "uxsock_timeout") (Some def_uxsock_timeout_handler) (Some snprint_def_uxsock_timeout);
   install_keyword (s "retrigger_tries") (Some (def_handler o_retrigger_tries)) (Some (def_snprint o_retrigger_tries));
   install_keyword (s "retrigger_delay") (Some (def_handler o_retrigger_delay)) (Some (def_snprint o_retrigger_delay));
   install_keyword (s "missing_uev_wait_timeout") (Some (def_handler o_uev_wait_timeout)) (Some (def_snprint o_uev_wait_timeout));
   install_keyword (s "skip_kpartx") (Some (def_handler o_skip_kpartx)) (Some (def_snprint o_skip_kpartx));
   install_keyword (s "disable_changed_wwids") (Some def_disable_changed_wwids_handler) (Some snprint_def_disable_changed_wwids);
   install_keyword (s "remove_retries") (Some (def_handler o_remove_retries)) (Some (def_snprint o_remove_retries));
   install_keyword (s "max_sectors_kb") (Some (def_handler o_max_sectors_kb)) (Some (def_snprint o_max_sectors_kb));
   install_keyword (s "ghost_delay") (Some (def_handler o_ghost_delay)) (Some (def_snprint o_ghost_delay));
   install_keyword (s "find_multipaths_timeout") (Some (def_handler o_find_multipaths_timeout)) (Some (def_snprint o_find_multipaths_timeout));
   install_keyword (s "enable_foreign") (Some (def_handler o_enable_foreign)) (Some (def_snprint o_enable_foreign));
   install_keyword (s "marginal_pathgroups") (Some (def_handler o_marginal_pathgroups)) (Some (def_snprint o_marginal_pathgroups));
   install_keyword (s "default_selector") (Some (def_handler o_selector)) None;
   install_keyword (s "default_path_grouping_policy") (Some (def_handler o_pgpolicy)) None;
   install_keyword (s "default_uid_attribute") (Some (def_handler o_uid_attribute)) None;
   install_keyword (s "default_getuid_callout") (Some (def_handler o_getuid)) None;
   install_keyword (s "default_features") (Some (def_handler o_features)) None;
   install_keyword (s "default_path_checker") (Some (def_handler o_checker_name)) None].

Definition blacklist_keywords : list (install config data) :=
  [install_keyword_root (s "blacklist") (Some blacklist_handler);
   install_keyword_multi (s "devnode") (Some ble_blist_devnode_handler) (Some snprint_ble_simple);
   install_keyword_multi (s "wwid") (Some ble_blist_wwid_handler) (Some snprint_ble_simple);
   install_keyword_multi (s "property") (Some ble_blist_property_handler) (Some snprint_ble_simple);
   install_keyword_multi (s "protocol") (Some ble_blist_protocol_handler) (Some snprint_ble_simple);
   install_keyword_multi (s "device") (Some ble_device_handler) None;
   install_sublevel;
   install_keyword (s "vendor") (Some ble_blist_device_vendor_handler) (Some snprint_bled_vendor);
   install_keyword (s "product") (Some ble_blist_device_product_handler) (Some snprint_bled_product);
   install_sublevel_end].

Definition blacklist_exceptions_keywords : list (install config data) :=
  [install_keyword_root (s "blacklist_exceptions") (Some blacklist_exceptions_handler);
   install_keyword_multi (s "devnode") (Some ble_elist_devnode_handler) (Some snprint_ble_simple);
   install_keyword_multi (s "wwid") (Some ble_elist_wwid_handler) (Some snprint_ble_simple);
   install_keyword_multi (s "property") (Some ble_elist_property_handler) (Some snprint_ble_simple);
   install_keyword_multi (s "protocol") (Some ble_elist_protocol_handler) (Some snprint_ble_simple);
   install_keyword_multi (s "device") (Some ble_except_device_handler) None;
   install_sublevel;
   install_keyword (s "vendor") (Some ble_elist_device_vendor_handler) (Some snprint_bled_vendor);
   install_keyword (s "product") (Some ble_elist_device_product_handler) (Some snprint_bled_product);
   install_sublevel_end].

Definition devices_keywords : list (install config data) :=
  [install_keyword_root (s "devices") (Some devices_handler);
   install_keyword_multi (s "device") (Some device_handler) None;
   install_sublevel;
   install_keyword (s "vendor") (Some (hw_handler o_vendor)) (Some (hw_snprint o_vendor));
   install_keyword (s "product") (Some (hw_handler o_product)) (Some (hw_snprint o_product));
   install_keyword (s "revision") (Some (hw_handler o_revision)) (Some (hw_snprint o_revision));
   install_keyword (s "product_blacklist") (Some (hw_handler o_bl_product)) (Some (hw_snprint o_bl_product));
   install_keyword (s "path_grouping_policy") (Some (hw_handler o_pgpolicy)) (Some (hw_snprint o_pgpolicy));
   install_keyword (s "uid_attribute") (Some (hw_handler o_uid_attribute)) (Some (hw_snprint o_uid_attribute));
   install_keyword (s "getuid_callout") (Some (hw_handler o_getuid)) (Some (hw_snprint o_getuid));
   install_keyword (s "path_selector") (Some (hw_handler o_selector)) (Some (hw_snprint o_selector));
   install_keyword (s "path_checker") (Some (hw_handler o_checker_name)) (Some (hw_snprint o_checker_name));
   install_keyword (s "checker") (Some (hw_handler o_checker_name)) None;
   install_keyword (s "alias_prefix") (Some (hw_handler o_alias_prefix)) (Some (hw_snprint o_alias_prefix));
   install_keyword (s "features") (Some (hw_handler o_features)) (Some (hw_snprint o_features));
   install_keyword (s "hardware_handler") (Some (hw_handler o_hwhandler)) (Some (hw_snprint o_hwhandler));
   install_keyword (s "prio") (Some (hw_handler o_prio_name)) (Some (hw_snprint o_prio_name));
   install_keyword (s "prio_args") (Some (hw_handler o_prio_args)) (Some (hw_snprint o_prio_args));
   install_keyword (s "failback") (Some (hw_handler o_pgfailback)) (Some (hw_snprint o_pgfailback));
   install_keyword (s "rr_weight") (Some (hw_handler o_rr_weight)) (Some (hw_snprint o_rr_weight));
   install_keyword (s "no_path_retry") (Some (hw_handler o_no_path_retry)) (Some (hw_snprint o_no_path_retry));
   install_keyword (s "rr_min_io") (Some (hw_handler o_minio)) (Some (hw_snprint o_minio));
   install_keyword (s "rr_min_io_rq") (Some (hw_handler o_minio_rq)) (Some (hw_snprint o_minio_rq));
   install_keyword (s "pg_timeout") (Some deprecated_handler) (Some snprint_deprecated);
   install_keyword (s "flush_on_last_del") (Some (hw_handler o_flush_on_last_del)) (Some (hw_snprint o_flush_on_last_del));
   install_keyword (s "fast_io_fail_tmo") (Some (hw_handler o_fast_io_fail)) (Some (hw_snprint o_fast_io_fail));
   install_keyword (s "dev_loss_tmo") (Some (hw_handler o_dev_loss)) (Some (hw_snprint o_dev_loss));
   install_keyword (s "user_friendly_names") (Some (hw_handler o_user_friendly_names)) (Some (hw_snprint o_user_friendly_names));
   install_keyword (s "retain_attached_hw_handler") (Some (hw_handler o_retain_hwhandler)) (Some (hw_snprint o_retain_hwhandler));
   install_keyword (s "detect_prio") (Some (hw_handler o_detect_prio)) (Some (hw_snprint o_detect_prio));
   install_keyword (s "detect_checker") (Some (hw_handler o_detect_checker)) (Some (hw_snprint o_detect_checker));
   install_keyword (s "deferred_remove") (Some (hw_handler o_deferred_remove)) (Some (hw_snprint o_deferred_remove));
   install_keyword (s "delay_watch_checks") (Some (hw_handler o_delay_watch_checks)) (Some (hw_snprint o_delay_watch_checks));
   install_keyword (s "delay_wait_checks") (Some (hw_handler o_delay_wait_checks)) (Some (hw_snprint o_delay_wait_checks));
   install_keyword (s "san_path_err_threshold") (Some (hw_handler o_san_path_err_threshold)) (Some (hw_snprint o_san_path_err_threshold));
   install_keyword (s "san_path_err_forget_rate") (Some (hw_handler o_san_path_err_forget_rate)) (Some (hw_snprint o_san_path_err_forget_rate));
   install_keyword (s "san_path_err_recovery_time") (Some (hw_handler o_san_path_err_recovery_time)) (Some (hw_snprint o_san_path_err_recovery_time));
   install_keyword (s "marginal_path_err_sample_time") (Some (hw_handler o_marginal_path_err_sample_time)) (Some (hw_snprint o_marginal_path_err_sample_time));
   install_keyword (s "marginal_path_err_rate_threshold") (Some (hw_handler o_marginal_path_err_rate_threshold)) (Some (hw_snprint o_marginal_path_err_rate_threshold));
   install_keyword (s "marginal_path_err_recheck_gap_time") (Some (hw_handler o_marginal_path_err_recheck_gap_time)) (Some (hw_snprint o_marginal_path_err_recheck_gap_time));
   install_keyword (s "marginal_path_double_failed_time") (Some (hw_handler o_marginal_path_double_failed_time)) (Some (hw_snprint o_marginal_path_double_failed_time));
   install_keyword (s "skip_kpartx") (Some (hw_handler o_skip_kpartx)) (Some (hw_snprint o_skip_kpartx));
   install_keyword (s "max_sectors_kb") (Some (hw_handler o_max_sectors_kb)) (Some (hw_snprint o_max_sectors_kb));
   install_keyword (s "ghost_delay") (Some (hw_handler o_ghost_delay)) (Some (hw_snprint o_ghost_delay));
   install_keyword (s "all_tg_pt") (Some (hw_handler o_all_tg_pt)) (Some (hw_snprint o_all_tg_pt));
   install_keyword (s "vpd_vendor") (Some hw_vpd_vendor_handler) (Some snprint_hw_vpd_vendor);
   install_sublevel_end].

Definition overrides_keywords : list (install config data) :=
  [install_keyword_root (s "overrides") (Some overrides_handler);
   install_keyword (s "path_grouping_policy") (Some (ovr_handler o_pgpolicy)) (Some (ovr_snprint o_pgpolicy));
   install_keyword (s "uid_attribute") (Some (ovr_handler o_uid_attribute)) (Some (ovr_snprint o_uid_attribute));
   install_keyword (s "getuid_callout") (Some (ovr_handler o_getuid)) (Some (ovr_snprint o_getuid));
   install_keyword (s "path_selector") (Some (ovr_handler o_selector)) (Some (ovr_snprint o_selector));
   install_keyword (s "path_checker") (Some (ovr_handler o_checker_name)) (Some (ovr_snprint o_checker_name));
   install_keyword (s "checker") (Some (ovr_handler o_checker_name)) None;
   install_keyword (s "alias_prefix") (Some (ovr_handler o_alias_prefix)) (Some (ovr_snprint o_alias_prefix));
   install_keyword (s "features") (Some (ovr_handler o_features)) (Some (ovr_snprint o_features));
   install_keyword (s "prio") (Some (ovr_handler o_prio_name)) (Some (ovr_snprint o_prio_name));
   install_keyword (s "prio_args") (Some (ovr_handler o_prio_args)) (Some (ovr_snprint o_prio_args));
   install_keyword (s "failback") (Some (ovr_handler o_pgfailback)) (Some (ovr_snprint o_pgfailback));
   install_keyword (s "rr_weight") (Some (ovr_handler o_rr_weight)) (Some (ovr_snprint o_rr_weight));
   install_keyword (s "no_path_retry") (Some (ovr_handler o_no_path_retry)) (Some (ovr_snprint o_no_path_retry));
   install_keyword (s "rr_min_io") (Some (ovr_handler o_minio)) (Some (ovr_snprint o_minio));
   install_keyword (s "rr_min_io_rq") (Some (ovr_handler o_minio_rq)) (Some (ovr_snprint o_minio_rq));
   install_keyword (s "flush_on_last_del") (Some (ovr_handler o_flush_on_last_del)) (Some (ovr_snprint o_flush_on_last_del));
   install_keyword (s "fast_io_fail_tmo") (Some (ovr_handler o_fast_io_fail)) (Some (ovr_snprint o_fast_io_fail));
   install_keyword (s "dev_loss_tmo") (Some (ovr_handler o_dev_loss)) (Some (ovr_snprint o_dev_loss));
   install_keyword (s "user_friendly_names") (Some (ovr_handler o_user_friendly_names)) (Some (ovr_snprint o_user_friendly_names));
   install_keyword (s "retain_attached_hw_handler") (Some (ovr_handler o_retain_hwhandler)) (Some (ovr_snprint o_retain_hwhandler));
   install_keyword (s "detect_prio") (Some (ovr_handler o_detect_prio)) (Some (ovr_snprint o_detect_prio));
   install_keyword (s "detect_checker") (Some (ovr_handler o_detect_checker)) (Some (ovr_snprint o_detect_checker));
   install_keyword (s "deferred_remove") (Some (ovr_handler o_deferred_remove)) (Some (ovr_snprint o_deferred_remove));
   install_keyword (s "delay_watch_checks") (Some (ovr_handler o_delay_watch_checks)) (Some (ovr_snprint o_delay_watch_checks));
   install_keyword (s "delay_wait_checks") (Some (ovr_handler o_delay_wait_checks)) (Some (ovr_snprint o_delay_wait_checks));
   install_keyword (s "san_path_err_threshold") (Some (ovr_handler o_san_path_err_threshold)) (Some (ovr_snprint o_san_path_err_threshold));
   install_keyword (s "san_path_err_forget_rate") (Some (ovr_handler o_san_path_err_forget_rate)) (Some (ovr_snprint o_san_path_err_forget_rate));
   install_keyword (s "san_path_err_recovery_time") (Some (ovr_handler o_san_path_err_recovery_time)) (Some (ovr_snprint o_san_path_err_recovery_time));
   install_keyword (s "marginal_path_err_sample_time") (Some (ovr_handler o_marginal_path_err_sample_time)) (Some (ovr_snprint o_marginal_path_err_sample_time));
   install_keyword (s "marginal_path_err_rate_threshold") (Some (ovr_handler o_marginal_path_err_rate_threshold)) (Some (ovr_snprint o_marginal_path_err_rate_threshold));
   install_keyword (s "marginal_path_err_recheck_gap_time") (Some (ovr_handler o_marginal_path_err_recheck_gap_time)) (Some (ovr_snprint o_marginal_path_err_recheck_gap_time));
   install_keyword (s "marginal_path_double_failed_time") (Some (ovr_handler o_marginal_path_double_failed_time)) (Some (ovr_snprint o_marginal_path_double_failed_time));
   install_keyword (s "skip_kpartx") (Some (ovr_handler o_skip_kpartx)) (Some (ovr_snprint o_skip_kpartx));
   install_keyword (s "max_sectors_kb") (Some (ovr_handler o_max_sectors_kb)) (Some (ovr_snprint o_max_sectors_kb));
   install_keyword (s "ghost_delay") (Some (ovr_handler o_ghost_delay)) (Some (ovr_snprint o_ghost_delay));
   install_keyword (s "all_tg_pt") (Some (ovr_handler o_all_tg_pt)) (Some (ovr_snprint o_all_tg_pt))].

Definition multipaths_keywords : list (install config data) :=
  [install_keyword_root (s "multipaths") (Some multipaths_handler);
   install_keyword_multi (s "multipath") (Some multipath_handler) None;
   install_sublevel;
   install_keyword (s "wwid") (Some (mp_handler o_wwid)) (Some (mp_snprint o_wwid));
   install_keyword (s "alias") (Some (mp_handler o_alias)) (Some (mp_snprint o_alias));
   install_keyword (s "path_grouping_policy") (Some (mp_handler o_pgpolicy)) (Some (mp_snprint o_pgpolicy));
   install_keyword (s "path_selector") (Some (mp_handler o_selector)) (Some (mp_snprint o_selector));
   install_keyword (s "prio") (Some (mp_handler o_prio_name)) (Some (mp_snprint o_prio_name));
   install_keyword (s "prio_args") (Some (mp_handler o_prio_args)) (Some (mp_snprint o_prio_args));
   install_keyword (s "failback") (Some (mp_handler o_pgfailback)) (Some (mp_snprint o_pgfailback));
   install_keyword (s "rr_weight") (Some (mp_handler o_rr_weight)) (Some (mp_snprint o_rr_weight));
   install_keyword (s "no_path_retry") (Some (mp_handler o_no_path_retry)) (Some (mp_snprint o_no_path_retry));
   install_keyword (s "rr_min_io") (Some (mp_handler o_minio)) (Some (mp_snprint o_minio));
   install_keyword (s "rr_min_io_rq") (Some (mp_handler o_minio_rq)) (Some (mp_snprint o_minio_rq));
   install_keyword (s "pg_timeout") (Some deprecated_handler) (Some snprint_deprecated);
   install_keyword (s "flush_on_last_del") (Some (mp_handler o_flush_on_last_del)) (Some (mp_snprint o_flush_on_last_del));
   install_keyword (s "features") (Some (mp_handler o_features)) (Some (mp_snprint o_features));
   install_keyword (s "mode") (Some (mp_handler o_mode)) (Some (mp_snprint o_mode));
   install_keyword (s "uid") (Some (mp_handler o_uid)) (Some (mp_snprint o_uid));
   install_keyword (s "gid") (Some (mp_handler o_gid)) (Some (mp_snprint o_gid));
   install_keyword (s "reservation_key") (Some mp_reservation_key_handler) (Some snprint_mp_reservation_key);
   install_keyword (s "user_friendly_names") (Some (mp_handler o_user_friendly_names)) (Some (mp_snprint o_user_friendly_names));
   install_keyword (s "deferred_remove") (Some (mp_handler o_deferred_remove)) (Some (mp_snprint o_deferred_remove));
   install_keyword (s "delay_watch_checks") (Some (mp_handler o_delay_watch_checks)) (Some (mp_snprint o_delay_watch_checks));
   install_keyword (s "delay_wait_checks") (Some (mp_handler o_delay_wait_checks)) (Some (mp_snprint o_delay_wait_checks));
   install_keyword (s "san_path_err_threshold") (Some (mp_handler o_san_path_err_threshold)) (Some (mp_snprint o_san_path_err_threshold));
   install_keyword (s "san_path_err_forget_rate") (Some (mp_handler o_san_path_err_forget_rate)) (Some (mp_snprint o_san_path_err_forget_rate));
   install_keyword (s "san_path_err_recovery_time") (Some (mp_handler o_san_path_err_recovery_time)) (Some (mp_snprint o_san_path_err_recovery_time));
   install_keyword (s "marginal_path_err_sample_time") (Some (mp_handler o_marginal_path_err_sample_time)) (Some (mp_snprint o_marginal_path_err_sample_time));
   install_keyword (s "marginal_path_err_rate_threshold") (Some (mp_handler o_marginal_path_err_rate_threshold)) (Some (mp_snprint o_marginal_path_err_rate_threshold));
   install_keyword (s "marginal_path_err_recheck_gap_time") (Some (mp_handler o_marginal_path_err_recheck_gap_time)) (Some (mp_snprint o_marginal_path_err_recheck_gap_time));
   install_keyword (s "marginal_path_double_failed_time") (Some (mp_handler o_marginal_path_double_failed_time)) (Some (mp_snprint o_marginal_path_double_failed_time));
   install_keyword (s "skip_kpartx") (Some (mp_handler o_skip_kpartx)) (Some (mp_snprint o_skip_kpartx));
   install_keyword (s "max_sectors_kb") (Some (mp_handler o_max_sectors_kb)) (Some (mp_snprint o_max_sectors_kb));
   install_keyword (s "ghost_delay") (Some (mp_handler o_ghost_delay)) (Some (mp_snprint o_ghost_delay));
   install_sublevel_end].

Definition keyword_installs : list (install config data) :=
  defaults_keywords ++ blacklist_keywords ++ blacklist_exceptions_keywords ++ devices_keywords ++ overrides_keywords ++
  multipaths_keywords.

Definition init_keywords : list (keyword config data) := snd (fold_left do_install keyword_installs (0%nat, [])).

End Dict.

(** ** The type of a configuration

    The values each integer member may have; members not listed are ints. *)

Definition yes_no_members : list string :=
  ["reassign_maps"; "queue_without_daemon"; "allow_usb_devices"; "force_sync"; "strict_timing"; "marginal_pathgroups";
   "log_checker_err"; "sa_flags"; "vpd_vendor_id"]%string.
Definition yes_no_undef_members : list string :=
  ["flush_on_last_del"; "user_friendly_names"; "retain_hwhandler"; "detect_prio"; "detect_checker"; "deferred_remove";
   "skip_kpartx"; "all_tg_pt"; "rr_weight"; "prkey_source"]%string.
Definition off_int_members : list string :=
  ["delay_watch_checks"; "delay_wait_checks"; "san_path_err_threshold"; "san_path_err_forget_rate";
   "san_path_err_recovery_time"; "marginal_path_err_sample_time"; "marginal_path_err_rate_threshold";
   "marginal_path_err_recheck_gap_time"; "marginal_path_double_failed_time"; "ghost_delay"]%string.

Definition bounds_table : list (list string * (Z * Z)) :=
  [(yes_no_members, (0, 1)); (yes_no_undef_members, (0, 2)); (off_int_members, (-1, INT_MAX));
   (["pgpolicy"; "find_multipaths"]%string, (0, 5)); (["no_path_retry"; "fast_io_fail"]%string, (-2, INT_MAX));
   (["dev_loss"; "checkint"; "max_checkint"; "uid"; "gid"]%string, (0, UINT_MAX));
   (["mode"]%string, (0, 511)); (["attribute_flags"]%string, (0, 7)); (["reservation_key"]%string, (0, 2 ^ 64 - 1))].

Definition num_bounds (f : string) : Z * Z :=
  default (INT_MIN, INT_MAX) (snd <$> List.find (fun e => existsb (String.eqb f) (fst e)) bounds_table).

Definition in_bounds (f : string) (v : Z) : Prop := fst (num_bounds f) <= v <= snd (num_bounds f).

Definition typed_block (b : block) : Prop := forall f, in_bounds f (num b f).

Record typed_config (c : config) : Prop := {
  typed_opts : typed_block (opts c);
  typed_mptable : Forall typed_block (default [] (mptable c));
  typed_hwtable : Forall typed_block (default [] (hwtable c));
  typed_overrides : typed_block (default zero_block (overrides c));
  typed_blists : Forall (fun l => Forall compiled_ble (default [] l))
    [blist_devnode c; blist_wwid c; blist_property c; blist_protocol c;
     elist_devnode c; elist_wwid c; elist_property c; elist_protocol c]
}.

Lemma in_bounds_zero f : in_bounds f 0.
Proof.
  unfold in_bounds, num_bounds. destruct (List.find _ bounds_table) as [e|] eqn:E; [|by vm_compute].
  apply find_some in E as [Hin%list_elem_of_In _]. cbn [fmap option_fmap option_map default].
  revert e Hin. apply Forall_forall. repeat constructor; vm_compute; discriminate.
Qed.

Lemma typed_zero_block : typed_block zero_block.
Proof. intros f. apply in_bounds_zero. Qed.

Lemma typed_set_num f v b : typed_block b -> in_bounds f v -> typed_block (set_num f v b).
Proof.
  intros Hb Hv g. destruct (decide (f = g)) as [->|Hne]; [by rewrite num_set_eq|by rewrite num_set_ne].
Qed.

Lemma typed_set_string f v b : typed_block b -> typed_block (set_string f v b).
Proof. done. Qed.

Lemma typed_zero_config : typed_config zero_config.
Proof. split; cbn; try (by constructor); try apply typed_zero_block. by repeat constructor. Qed.

(** ** Every handler keeps the type *)

Definition option_typed (o : option_t) : Prop := forall sv b, typed_block b -> typed_block (snd (o_set o sv b)).

Lemma num_option_typed f set p pd : setter_within set (fst (num_bounds f)) (snd (num_bounds f)) ->
  option_typed (num_option f set p pd).
Proof.
  intros Hset sv b Hb. cbn [num_option o_set]. unfold num_member. pose proof (Hset sv (num b f) (Hb f)) as Hv.
  destruct (set sv (num b f)) as [r v]. by apply typed_set_num.
Qed.

Lemma str_option_typed f pd : option_typed (str_option f pd).
Proof. intros sv b Hb. cbn [str_option o_set]. unfold str_member. destruct (set_str sv (str b f)). by apply typed_set_string. Qed.

Lemma attr_option_typed f bit set : (forall sv v fl, in_bounds f v -> 0 <= fl <= 7 ->
    let '(v', fl') := snd (set sv (v, fl)) in in_bounds f v' /\ 0 <= fl' <= 7) ->
  option_typed (attr_option f bit set).
Proof.
  intros Hset sv b Hb. cbn [attr_option o_set]. unfold attr_member.
  specialize (Hset sv (num b f) (num b "attribute_flags") (Hb f) (Hb "attribute_flags"%string)).
  destruct (set sv _) as [r [v fl]]. cbn [snd] in *. destruct Hset as [Hv Hfl].
  apply typed_set_num; [by apply typed_set_num|exact Hfl].
Qed.

Lemma flags_lor fl bit : 0 <= fl <= 7 -> 0 <= bit <= 2 -> 0 <= Z.lor fl (Z.shiftl 1 bit) <= 7.
Proof.
  intros Hfl Hbit. assert (fl = 0 \/ fl = 1 \/ fl = 2 \/ fl = 3 \/ fl = 4 \/ fl = 5 \/ fl = 6 \/ fl = 7) as Hc by lia.
  assert (bit = 0 \/ bit = 1 \/ bit = 2) as Hb by lia.
  destruct Hb as [-> | [-> | ->]]; repeat (destruct Hc as [-> | Hc]; [const_range|]); subst; const_range.
Qed.

Lemma o_mode_typed : option_typed o_mode.
Proof.
  apply attr_option_typed. intros sv v fl Hv Hfl. unfold set_mode. destruct (set_value sv) as [b|]; [|done]. cbn [snd].
  destruct (scan_uint 8 b) as [m|] eqn:E; [|done]. destruct (Z.leb_spec m 511); [|done]. apply scan_uint_range in E.
  split; [exact (conj (proj1 E) H)|]. by apply flags_lor.
Qed.

Lemma set_owner_typed f bit who : num_bounds f = (0, UINT_MAX) -> 0 <= bit <= 2 ->
  (forall a id, who a = Some id -> 0 <= id <= UINT_MAX) -> option_typed (attr_option f bit (set_owner bit who)).
Proof.
  intros Hf Hbit Hwho. apply attr_option_typed. intros sv v fl Hv Hfl. unfold set_owner, in_bounds in *. rewrite Hf in *.
  destruct (set_value sv) as [b|]; [|done]. cbn [fst snd] in *. destruct (who b) as [id|] eqn:E.
  - split; [by apply (Hwho b)|by apply flags_lor].
  - destruct (scan_uint 10 b) as [id|] eqn:E2; [|done]. split; [by apply scan_uint_range in E2|by apply flags_lor].
Qed.

Lemma o_reservation_key_typed : option_typed o_reservation_key.
Proof.
  intros sv b Hb. cbn [o_reservation_key o_set]. unfold prkey_member, set_reservation_key.
  assert (forall so fl k, in_bounds "prkey_source" so -> in_bounds "sa_flags" fl -> in_bounds "reservation_key" k ->
    typed_block (set_num "reservation_key" k (set_num "sa_flags" fl (set_num "prkey_source" so b)))) as Hset
    by (intros; by repeat apply typed_set_num).
  destruct (set_value sv) as [v|]; [|by apply Hset].
  destruct (streq v _); [by apply Hset; const_range|].
  destruct (parse_prkey_flags v) as [[k|] fl] eqn:E; [|by apply Hset].
  assert (0 <= k < 2 ^ 64 /\ 0 <= fl <= 1) as [Hk Hfl].
  { unfold parse_prkey_flags in E. destruct (strchr 58 v); apply pair_equal_spec in E as [Hk <-];
      apply parse_prkey_range in Hk; (split; [done|]); [destruct (_ && _)|]; const_range. }
  apply Hset; [const_range|exact Hfl|]. change (0 <= k <= 2 ^ 64 - 1). lia.
Qed.

(** *** Handlers *)

Abbreviation keeps_type := (handler_keeps typed_config).

Lemma on_last_typed h t r t' : (forall b, typed_block b -> typed_block (snd (h b))) ->
  Forall typed_block (default [] t) -> on_last h t = Some (r, t') -> Forall typed_block (default [] t').
Proof.
  intros Hh Ht. unfold on_last. destruct t as [l|]; [|done]. destruct (last l) as [b|] eqn:Hl; [|done].
  apply last_Some in Hl as [l' ->]. cbn [default] in Ht. apply Forall_app in Ht as [Hl' Hb%Forall_inv].
  specialize (Hh b Hb). destruct (h b) as [r1 b1]. intros [= _ <-]. cbn [default].
  rewrite length_app, Nat.add_sub, take_app_length. apply Forall_app. split; [done|]. by constructor.
Qed.

Lemma def_handler_typed o : option_typed o -> keeps_type (Some (def_handler o)).
Proof.
  intros Ho conf sv []. unfold def_handler. specialize (Ho sv (opts conf)).
  destruct (o_set o sv (opts conf)) as [r b]. split; try done. by apply Ho.
Qed.

Lemma hw_handler_typed o : option_typed o -> keeps_type (Some (hw_handler o)).
Proof.
  intros Ho conf sv Hc. unfold hw_handler. destruct (on_last _ (hwtable conf)) as [[r t]|] eqn:E; [|done].
  destruct Hc. split; try done. eapply on_last_typed; [exact (Ho sv)| |exact E]. done.
Qed.

Lemma mp_handler_typed o : option_typed o -> keeps_type (Some (mp_handler o)).
Proof.
  intros Ho conf sv Hc. unfold mp_handler. destruct (on_last _ (mptable conf)) as [[r t]|] eqn:E; [|done].
  destruct Hc. split; try done. eapply on_last_typed; [exact (Ho sv)| |exact E]. done.
Qed.

Lemma ovr_handler_typed o : option_typed o -> keeps_type (Some (ovr_handler o)).
Proof.
  intros Ho conf sv Hc. unfold ovr_handler. destruct (overrides conf) as [b|] eqn:E; [|done].
  specialize (Ho sv b). destruct (o_set o sv b) as [r b']. destruct Hc as [H1 H2 H3 H4 H5]. split; try done.
  rewrite E in H4. by apply Ho.
Qed.

(** A handler of one integer member of the defaults. *)
Lemma opts_num_typed conf f v : typed_config conf -> in_bounds f v -> typed_config (conf <| opts ::= set_num f v |>).
Proof. intros [] Hv. split; try done. by apply typed_set_num. Qed.

Lemma set_num_handler_typed f set : setter_within set (fst (num_bounds f)) (snd (num_bounds f)) ->
  keeps_type (Some (fun conf sv =>
    let '(r, v) := set sv (num (opts conf) f) in (r, conf <| opts ::= set_num f v |>))).
Proof.
  intros Hset conf sv Hc. pose proof (Hset sv (num (opts conf) f) (typed_opts _ Hc f)) as Hv.
  destruct (set sv (num (opts conf) f)) as [r v]. by apply opts_num_typed.
Qed.

Lemma checkint_handler_typed : keeps_type (Some checkint_handler).
Proof.
  intros conf sv Hc. unfold checkint_handler.
  pose proof (set_uint_within sv (num (opts conf) "checkint") (typed_opts _ Hc "checkint"%string)) as Hv.
  destruct (set_uint _ _) as [r v]. cbn [snd] in *. apply opts_num_typed; [done|]. change (0 <= v <= UINT_MAX) in Hv.
  destruct (negb _); [exact Hv|]. destruct (Z.eqb_spec v CHECKINT_UNDEF) as [->|]; [const_range|exact Hv].
Qed.

(** Handlers that leave the typed parts alone. *)
Lemma same_parts_typed conf conf' : typed_config conf -> opts conf' = opts conf -> mptable conf' = mptable conf ->
  hwtable conf' = hwtable conf -> overrides conf' = overrides conf ->
  blist_devnode conf' = blist_devnode conf -> blist_wwid conf' = blist_wwid conf ->
  blist_property conf' = blist_property conf -> blist_protocol conf' = blist_protocol conf ->
  elist_devnode conf' = elist_devnode conf -> elist_wwid conf' = elist_wwid conf ->
  elist_property conf' = elist_property conf -> elist_protocol conf' = elist_protocol conf -> typed_config conf'.
Proof. intros [H1 H2 H3 H4 H5] E1 E2 E3 E4 E5 E6 E7 E8 E9 E10 E11 E12. by split; rewrite ?E1, ?E2, ?E3, ?E4, ?E5, ?E6, ?E7, ?E8, ?E9, ?E10, ?E11, ?E12. Qed.

Lemma uid_attrs_handler_typed : keeps_type (Some uid_attrs_handler).
Proof. intros conf sv Hc. unfold uid_attrs_handler. destruct (set_value sv); by apply (same_parts_typed conf). Qed.

Lemma partition_delim_typed : keeps_type (Some def_partition_delim_handler).
Proof.
  intros conf sv []. unfold def_partition_delim_handler. destruct (set_partition_delim _ _) as [r v]. by split.
Qed.

Lemma config_dir_typed : keeps_type (Some def_config_dir_handler).
Proof.
  intros conf sv Hc. unfold def_config_dir_handler. destruct (negb _); [done|].
  apply (def_handler_typed o_config_dir); [|done]. apply str_option_typed.
Qed.

Lemma deprecated_typed : keeps_type (Some deprecated_handler).
Proof. intros conf sv Hc. unfold deprecated_handler. by destruct (set_value sv). Qed.

Lemma blacklist_handler_typed : keeps_type (Some blacklist_handler).
Proof.
  intros conf sv [H1 H2 H3 H4 H5]. rewrite !Forall_cons in H5. split; try done. rewrite !Forall_cons. cbn. tauto.
Qed.

Lemma blacklist_exceptions_handler_typed : keeps_type (Some blacklist_exceptions_handler).
Proof.
  intros conf sv [H1 H2 H3 H4 H5]. rewrite !Forall_cons in H5. split; try done. rewrite !Forall_cons. cbn. tauto.
Qed.

Lemma devices_handler_typed : keeps_type (Some devices_handler).
Proof. intros conf sv [H1 H2 H3 H4 H5]. by split. Qed.

Lemma multipaths_handler_typed : keeps_type (Some multipaths_handler).
Proof. intros conf sv [H1 H2 H3 H4 H5]. by split. Qed.

Lemma overrides_handler_typed : keeps_type (Some overrides_handler).
Proof. by intros conf sv [H1 H2 H3 H4 H5]. Qed.

Lemma add_entry_typed t r t' : Forall typed_block (default [] t) -> add_entry t = (r, t') ->
  Forall typed_block (default [] t').
Proof.
  unfold add_entry. destruct t as [l|]; intros Ht [= _ <-]; [|done]. cbn. apply Forall_app. split; [done|].
  constructor; [apply typed_zero_block|done].
Qed.

Lemma device_handler_typed : keeps_type (Some device_handler).
Proof.
  intros conf sv []. unfold device_handler. destruct (add_entry (hwtable conf)) as [r t] eqn:E. split; try done.
  eapply add_entry_typed; [|exact E]. done.
Qed.

Lemma multipath_handler_typed : keeps_type (Some multipath_handler).
Proof.
  intros conf sv []. unfold multipath_handler. destruct (add_entry (mptable conf)) as [r t] eqn:E. split; try done.
  eapply add_entry_typed; [|exact E]. done.
Qed.

Section Typed.
Variable regcomp : cstr -> option (cstr -> bool).
Variable nr_open : option cstr.
Variable getpwnam : cstr -> option (Z * Z).

Lemma store_option_compiled sv l r l' : Forall compiled_ble (default [] l) -> store_option regcomp sv l = Some (r, l') ->
  Forall compiled_ble (default [] l').
Proof.
  unfold store_option. destruct l as [l|]; [|done]. destruct (set_value sv) as [x|]; [|done]. intros Hl H.
  apply (f_equal (default (0, None))) in H. cbn [default] in H.
  by destruct (store_ble_compiled regcomp l (Some x) ORIGIN_CONFIG r l' Hl H) as (l1 & -> & ?).
Qed.

(** A handler of a blacklist replaces one of the lists by a compiled one. *)
Lemma ble_handler_typed get put :
  (forall conf l, typed_config conf -> Forall compiled_ble (default [] (get conf)) /\
                  (Forall compiled_ble (default [] l) -> typed_config (put l conf))) ->
  keeps_type (Some (ble_handler regcomp get put)).
Proof.
  intros Hput conf sv Hc. unfold ble_handler. destruct (store_option regcomp sv (get conf)) as [[r l]|] eqn:E; [|done].
  destruct (Hput conf l Hc) as [Hg Hp]. apply Hp. by eapply store_option_compiled.
Qed.

Lemma ble_dev_handler_typed vend get put : (forall conf l, typed_config conf -> typed_config (put l conf)) ->
  keeps_type (Some (ble_dev_handler regcomp vend get put)).
Proof.
  intros Hput conf sv Hc. unfold ble_dev_handler. destruct (set_device_option _ _ _ _) as [[r l]|]; [|done]. by apply Hput.
Qed.

Lemma alloc_device_typed get put : (forall conf l, typed_config conf -> typed_config (put l conf)) ->
  keeps_type (Some (fun conf _ => let '(r, l) := alloc_ble_device (get conf) in (r, put l conf))).
Proof. intros Hput conf sv Hc. cbn. destruct (alloc_ble_device (get conf)) as [r l]. by apply Hput. Qed.

Ltac bounded := first
  [ exact set_int_within | exact set_uint_within | exact set_yes_no_within | exact set_yes_no_undef_within
  | exact set_fast_io_fail_within | exact set_dev_loss_within | exact set_pgpolicy_within | exact set_rr_weight_within
  | exact set_pgfailback_within | exact no_path_retry_helper_within | exact set_off_int_undef_within
  | exact set_log_checker_err_within | exact set_uxsock_timeout_within | exact (set_max_fds_option_within nr_open)
  | exact set_find_multipaths_within | exact set_vpd_vendor_within ].

Ltac typed_option := first
  [ apply str_option_typed | apply num_option_typed; bounded | exact o_mode_typed | exact o_reservation_key_typed
  | apply set_owner_typed; [reflexivity|vm_compute; split; discriminate|
      intros a id [x [_ ->]]%fmap_Some; cbn; pose proof (u32_range (fst x)); pose proof (u32_range (snd x)); unfold UINT_MAX; lia] ].

Ltac put_typed := intros conf l [H1 H2 H3 H4 H5];
  first [ by split | rewrite !Forall_cons in H5; split; [tauto|]; intros Hl; split; try done; rewrite !Forall_cons; cbn; tauto ].

Ltac typed_handler := first
  [ exact I | apply def_handler_typed; typed_option | apply hw_handler_typed; typed_option
  | apply mp_handler_typed; typed_option | apply ovr_handler_typed; typed_option
  | exact checkint_handler_typed | exact uid_attrs_handler_typed | exact partition_delim_typed | exact config_dir_typed
  | exact deprecated_typed | exact blacklist_handler_typed | exact blacklist_exceptions_handler_typed
  | exact devices_handler_typed | exact multipaths_handler_typed | exact overrides_handler_typed
  | exact device_handler_typed | exact multipath_handler_typed | exact (fun _ _ H => H)
  | apply set_num_handler_typed; bounded
  | apply ble_handler_typed; put_typed | apply ble_dev_handler_typed; put_typed
  | refine (alloc_device_typed blist_device (fun l c => c <| blist_device := l |>) _); put_typed
  | refine (alloc_device_typed elist_device (fun l c => c <| elist_device := l |>) _); put_typed ].

(** All the handlers of a list of commands. *)
Ltac typed_installs l := unfold l; repeat (apply Forall_cons; split; [cbn [install_keeps]; typed_handler|]); by apply Forall_nil.

Lemma defaults_typed : Forall (install_keeps typed_config) (defaults_keywords nr_open getpwnam).
Proof. typed_installs defaults_keywords. Qed.

Lemma blacklist_typed : Forall (install_keeps typed_config) (blacklist_keywords regcomp).
Proof. typed_installs blacklist_keywords. Qed.

Lemma blacklist_exceptions_typed : Forall (install_keeps typed_config) (blacklist_exceptions_keywords regcomp).
Proof. typed_installs blacklist_exceptions_keywords. Qed.

Lemma devices_typed : Forall (install_keeps typed_config) devices_keywords.
Proof. typed_installs devices_keywords. Qed.

Lemma overrides_typed : Forall (install_keeps typed_config) overrides_keywords.
Proof. typed_installs overrides_keywords. Qed.

Lemma multipaths_typed : Forall (install_keeps typed_config) (multipaths_keywords getpwnam).
Proof. typed_installs multipaths_keywords. Qed.

Lemma keywords_typed : Forall (keeps typed_config) (init_keywords regcomp nr_open getpwnam).
Proof.
  apply install_keeps_all; [|done]. unfold keyword_installs. rewrite !Forall_app.
  repeat split; [apply defaults_typed|apply blacklist_typed|apply blacklist_exceptions_typed|apply devices_typed|
    apply overrides_typed|apply multipaths_typed].
Qed.


End Typed.

