(* ===== verification/Print.v ===== *)
(** * libmultipath/print.c: printing the configuration

    What [snprint_config] writes; its buffer is enlarged until everything fits,
    so texts are unbounded here.  A configuration file made of the printed
    devices or overrides is read back to the same tables. *)

From S2P Require Import Prelude CString Util Structs File Parser Conf Blacklist Options Dict.

Section Printing.
Variable keywords : list (keyword config data).
Implicit Types (conf : config).

Definition sub_keywords (k : keyword config data) : list (keyword config data) := default [] (kw_sub k).

(** A keyword of a section. *)
Definition find_sub (section name : cstr) : option (keyword config data) :=
  k ← find_keyword keywords section; find_keyword (sub_keywords k) name.

Definition snprint_keywords conf (fmt : cstr) (kws : list (keyword config data)) (d : data) : cstr :=
  kws ≫= (fun k => snprint_keyword conf fmt k d).

Definition fmt1 : cstr := 9 :: s "%k %v" ++ [10].
Definition fmt2 : cstr := 9 :: fmt1.

Definition line (a : cstr) : cstr := a ++ [10].

Definition snprint_hwentry conf (hwe : block) : cstr :=
  match find_sub (s "devices") (s "device") with
  | None => []
  | Some k => line (9 :: s "device {") ++ snprint_keywords conf fmt2 (sub_keywords k) (HweData hwe) ++ line [9; 125]
  end.

Definition snprint_hwtable conf (hwtable : list block) : cstr :=
  match find_keyword keywords (s "devices") with
  | None => []
  | Some _ => line (s "devices {") ++ (hwtable ≫= snprint_hwentry conf) ++ line [125]
  end.

(** What is printed of a map: its wwid and alias. *)
Definition map_name : Type := cstr * cstr.

Definition snprint_alias_comment (m : map_name) : cstr :=
  if streq (snd m) (fst m) then [] else line (9 :: 9 :: s "# alias " ++ in_quotes (snd m)).

(** [mpvec] limits the output to the maps it holds. *)
Definition snprint_mpentry conf (mpe : block) (mpvec : option (list map_name)) : cstr :=
  let mpp := match mpvec with
             | Some l => List.find (fun m => opt_streq (Some (fst m)) (str mpe "wwid")) l
             | None => None
             end in
  match mpvec, mpp with
  | Some _, None => []
  | _, _ =>
      match find_keyword keywords (s "multipath") with
      | None => []
      | Some k =>
          line (9 :: s "multipath {") ++ snprint_keywords conf fmt2 (sub_keywords k) (MpeData mpe) ++
          match mpp with Some m => snprint_alias_comment m | None => [] end ++ line [9; 125]
      end
  end.

Definition find_mpe (mptable : list block) (wwid : cstr) : option block :=
  List.find (fun mpe => opt_streq (str mpe "wwid") (Some wwid)) mptable.

(** A map without a section of its own. *)
Definition snprint_other_map conf (m : map_name) : cstr :=
  match find_mpe (default [] (mptable conf)) (fst m) with
  | Some _ => []
  | None => line (9 :: s "multipath {") ++ line (9 :: 9 :: s "wwid " ++ in_quotes (fst m)) ++
            snprint_alias_comment m ++ line [9; 125]
  end.

Definition snprint_mptable conf (mpvec : option (list map_name)) : cstr :=
  match find_keyword keywords (s "multipaths") with
  | None => []
  | Some _ =>
      line (s "multipaths {") ++ (default [] (mptable conf) ≫= fun mpe => snprint_mpentry conf mpe mpvec) ++
      (default [] mpvec ≫= snprint_other_map conf) ++ line [125]
  end.

Definition snprint_overrides conf (ovr : option block) : cstr :=
  match find_keyword keywords (s "overrides") with
  | None => []
  | Some k =>
      line (s "overrides {") ++
      match ovr with None => [] | Some _ => snprint_keywords conf fmt1 (sub_keywords k) NoData end ++ line [125]
  end.

Definition snprint_defaults conf : cstr :=
  match find_keyword keywords (s "defaults") with
  | None => []
  | Some k => line (s "defaults {") ++ snprint_keywords conf fmt1 (sub_keywords k) NoData ++ line [125]
  end.

(** The entries of one list; the printing stops without the keyword. *)
Definition snprint_bles conf (kws : list (keyword config data)) (name : cstr) (l : option (list blentry)) : option cstr :=
  match default [] l with
  | [] => Some []
  | bles => k ← find_keyword kws name; Some (bles ≫= fun b => snprint_keyword conf fmt1 k (BleData b))
  end.

Definition snprint_bled conf (kws : list (keyword config data)) (b : blentry_device) : option cstr :=
  v ← find_keyword kws (s "vendor");
  p ← find_keyword kws (s "product");
  Some (line (9 :: s "device {") ++ snprint_keyword conf fmt2 v (BledData b) ++
        snprint_keyword conf fmt2 p (BledData b) ++ line [9; 125]).

Fixpoint snprint_bleds conf (kws : list (keyword config data)) (l : list blentry_device) : option cstr :=
  match l with
  | [] => Some []
  | b :: r => x ← snprint_bled conf kws b; y ← snprint_bleds conf kws r; Some (x ++ y)
  end.

(** [snprint_blacklist] and [snprint_blacklist_except]. *)
Definition snprint_lists conf (name : cstr) (devnode wwid property protocol : option (list blentry))
    (device : option (list blentry_device)) : cstr :=
  default [] (
    root ← find_keyword keywords name;
    let kws := sub_keywords root in
    a ← snprint_bles conf kws (s "devnode") devnode;
    b ← snprint_bles conf kws (s "wwid") wwid;
    c ← snprint_bles conf kws (s "property") property;
    d ← snprint_bles conf kws (s "protocol") protocol;
    k ← find_keyword kws (s "device");
    e ← snprint_bleds conf (sub_keywords k) (default [] device);
    Some (line (name ++ s " {") ++ a ++ b ++ c ++ d ++ e ++ line [125])).

Definition snprint_blacklist conf : cstr :=
  snprint_lists conf (s "blacklist") (blist_devnode conf) (blist_wwid conf) (blist_property conf) (blist_protocol conf)
    (blist_device conf).

Definition snprint_blacklist_except conf : cstr :=
  snprint_lists conf (s "blacklist_exceptions") (elist_devnode conf) (elist_wwid conf) (elist_property conf)
    (elist_protocol conf) (elist_device conf).

Definition snprint_config conf (hwtab : option (list block)) (mpvec : option (list map_name)) : cstr :=
  snprint_defaults conf ++ snprint_blacklist conf ++ snprint_blacklist_except conf ++
  snprint_hwtable conf (match hwtab with Some t => t | None => default [] (hwtable conf) end) ++
  snprint_overrides conf (overrides conf) ++
  (if bool_decide (default [] (mptable conf) = []) && bool_decide (default [] mpvec = []) then []
   else snprint_mptable conf mpvec).

End Printing.

(** ** Reading printed options back *)

(** A member of an entry, copied from [src]. *)
Inductive field := NumF (f : string) | StrF (f : string).

#[export] Instance field_dec : EqDecision field.
Proof. solve_decision. Defined.

Definition copy_field (F : field) (src b : block) : block :=
  match F with NumF f => set_num f (num src f) b | StrF f => set_string f (str src f) b end.

Definition field_zero (F : field) (src : block) : Prop :=
  match F with NumF f => num src f = 0 | StrF f => str src f = None end.

(** [b] has the members [Fs] of [src], and nothing else. *)
Definition agree (Fs : list field) (src b : block) : Prop :=
  (forall f, num b f = if decide (NumF f ∈ Fs) then num src f else 0) /\
  (forall f, str b f = if decide (StrF f ∈ Fs) then str src f else None).

Lemma agree_zero src : agree [] src zero_block.
Proof. split; intros f; rewrite decide_False by apply not_elem_of_nil; done. Qed.

Lemma agree_copy F Fs src b : agree Fs src b -> agree (F :: Fs) src (copy_field F src b).
Proof.
  intros [Hn Hs]. destruct F as [g|g]; cbn [copy_field]; split; intros f.
  - destruct (decide (g = f)) as [->|Hne].
    + rewrite num_set_eq, decide_True; [done|by left].
    + rewrite num_set_ne, Hn by done. destruct (decide (NumF f ∈ Fs)) as [H|H].
      * rewrite decide_True; [done|by right].
      * rewrite decide_False; [done|]. intros [?|?]%elem_of_cons; [congruence|done].
  - rewrite str_set_num, Hs. destruct (decide (StrF f ∈ Fs)) as [H|H].
    + rewrite decide_True; [done|by right].
    + rewrite decide_False; [done|]. intros [?|?]%elem_of_cons; [congruence|done].
  - rewrite num_set_string, Hn. destruct (decide (NumF f ∈ Fs)) as [H|H].
    + rewrite decide_True; [done|by right].
    + rewrite decide_False; [done|]. intros [?|?]%elem_of_cons; [congruence|done].
  - destruct (decide (g = f)) as [->|Hne].
    + rewrite str_set_eq, decide_True; [done|by left].
    + rewrite str_set_ne, Hs by done. destruct (decide (StrF f ∈ Fs)) as [H|H].
      * rewrite decide_True; [done|by right].
      * rewrite decide_False; [done|]. intros [?|?]%elem_of_cons; [congruence|done].
Qed.

(** A member that is zero was copied already. *)
Lemma agree_skip F Fs src b : agree Fs src b -> field_zero F src -> agree (F :: Fs) src b.
Proof.
  intros [Hn Hs] Hz. split; intros f; [rewrite Hn|rewrite Hs].
  - destruct (decide (NumF f ∈ Fs)) as [H|H]; [by rewrite decide_True by (by right)|].
    destruct (decide (F = NumF f)) as [->|Hne]; [rewrite decide_True by (by left); by rewrite Hz|].
    rewrite decide_False; [done|]. intros [?|?]%elem_of_cons; congruence.
  - destruct (decide (StrF f ∈ Fs)) as [H|H]; [by rewrite decide_True by (by right)|].
    destruct (decide (F = StrF f)) as [->|Hne]; [rewrite decide_True by (by left); by rewrite Hz|].
    rewrite decide_False; [done|]. intros [?|?]%elem_of_cons; congruence.
Qed.

(** What an option prints of [src] sets the member to that of [src]. *)
Definition option_reads (o : option_t) (F : field) (src : block) : Prop :=
  (o_print o src = [] /\ field_zero F src) \/
  (exists v, value_text (o_print o src) v /\ forall sv b, set_value sv = Some v -> o_set o sv b = (0, copy_field F src b)).

Lemma prints_back_cases {V} (set : strvec -> V -> Z * V) print undef v : prints_back set print undef v ->
  (print v = [] /\ v = undef) \/ reads_as set (print v) v.
Proof. unfold prints_back. destruct (print v) eqn:E; [by left|]. rewrite <-E. by right. Qed.

Lemma num_option_reads f set p pd src : prints_back set p 0 (num src f) -> option_reads (num_option f set p pd) (NumF f) src.
Proof.
  intros [[H1 H2]|(v & Hv & Hset)]%prints_back_cases; [by left|right].
  exists v. split; [done|]. intros sv b Hsv. cbn. unfold num_member. by rewrite (Hset sv _ Hsv).
Qed.

Lemma str_option_reads f pd src : option_reads (str_option f pd) (StrF f) src.
Proof.
  destruct (prints_back_cases _ _ _ _ (reads_str (str src f))) as [[H1 H2]|(v & Hv & Hset)]; [by left|right].
  exists v. split; [done|]. intros sv b Hsv. cbn. unfold str_member. by rewrite (Hset sv _ Hsv).
Qed.

Section Reread.
Variable keywords : list (keyword config data).
Variable pconf : config.
Variable d : data.
Variable put : block -> config.
Variable tabs : cstr.
Hypothesis Htabs : Forall (fun c => c = 9) tabs.

(** The lines of a block of keywords, without their ends. *)
Definition keyword_body (k : keyword config data) : list cstr :=
  match kw_print k with
  | None => []
  | Some p => match p pconf d with [] => [] | v => [tabs ++ kw_string k ++ 32 :: v] end
  end.

Definition keyword_bodies (kws : list (keyword config data)) : list cstr := kws ≫= keyword_body.

(** The keyword reads what it prints of [src]; it prints nothing of no member. *)
Definition keyword_reads (src : block) (k : keyword config data) (F : option field) : Prop :=
  kw_sub k = None /\ plain_word (kw_string k) /\
  ((keyword_body k = [] /\ match F with Some F => field_zero F src | None => True end) \/
   (exists p v h F', kw_print k = Some p /\ value_text (p pconf d) v /\ kw_handler k = Some h /\ F = Some F' /\
     forall sv b, set_value sv = Some v -> h (put b) sv = (0, put (copy_field F' src b)))).

Lemma find_own (kws : list (keyword config data)) k : NoDup (kw_string <$> kws) -> k ∈ kws ->
  List.find (is_keyword (kw_string k)) kws = Some k.
Proof.
  induction kws as [|k0 kws IH]; [by intros _ ?%elem_of_nil|]. intros [Hnot Hdup]%NoDup_cons Hin. cbn [List.find].
  destruct (is_keyword (kw_string k) k0) eqn:E.
  - apply streq_eq in E. apply elem_of_cons in Hin as [->|Hin]; [done|]. destruct Hnot. rewrite E.
    by apply list_elem_of_fmap_2.
  - apply elem_of_cons in Hin as [->|Hin]; [|by apply IH]. unfold is_keyword in E. by rewrite streq_refl in E.
Qed.

Lemma keywords_reread src lvl kws Fs : NoDup (kw_string <$> keywords) -> kws ⊆ keywords ->
  Forall2 (keyword_reads src) kws Fs -> Forall line_body (keyword_bodies kws) ->
  forall Fs0 b, agree Fs0 src b -> exists b', agree (reverse (omap id Fs) ++ Fs0) src b' /\
    forall rest r res, runs lvl keywords (put b') rest r res ->
      runs lvl keywords (put b) (((fun b => b ++ [10]) <$> keyword_bodies kws) ++ rest) r res.
Proof.
  intros Hdup Hsubset Hkws. revert Hsubset.
  induction Hkws as [|k F kws Fs Hk _ IH]; intros Hin Hlines Fs0 b Hb; [by exists b|].
  pose proof (find_own _ k Hdup ltac:(apply Hin; by left)) as Hfind. specialize (IH ltac:(set_solver)).
  unfold keyword_bodies in Hlines |- *. cbn [mbind list_bind] in Hlines |- *. fold (keyword_bodies kws) in *.
  apply Forall_app in Hlines as [Hline Hlines]. specialize (IH Hlines).
  destruct Hk as (Hsub & Hplain & [[Hbody HF]|(p & v & h & F' & Hp & Hv & Hh & -> & Hset)]).
  - rewrite Hbody. cbn [app]. destruct F as [F|]; [|by apply IH].
    destruct (IH (F :: Fs0) b (agree_skip _ _ _ _ Hb HF)) as (b' & Hb' & Hruns). exists b'. split; [|done].
    cbn [omap list_omap id]. by rewrite reverse_cons, <-app_assoc.
  - destruct (IH (F' :: Fs0) (copy_field F' src b) (agree_copy _ _ _ _ Hb)) as (b' & Hb' & Hruns). exists b'. split.
    { cbn [omap list_omap id]. by rewrite reverse_cons, <-app_assoc. }
    intros rest r res Hrest.
    assert (keyword_body k = [tabs ++ kw_string k ++ 32 :: p pconf d]) as Hbody.
    { unfold keyword_body. rewrite Hp. by destruct (value_head _ _ Hv) as (c & r' & -> & _). }
    rewrite Hbody in Hline |- *. apply Forall_inv in Hline. rewrite fmap_app, <-app_assoc. cbn [fmap list_fmap app].
    eapply runs_line; [exact Hline| |exact Hplain|exact Hv|exact Hfind|exact Hsub|exact Hh|].
    + exists tabs. split; [|done]. eapply Forall_impl; [exact Htabs|]. by intros c ->.
    + rewrite (Hset _ b (set_value_keyword _ _ _ Hv)). rewrite Z.add_0_r. by apply Hruns.
Qed.

(** The text of the lines. *)
Lemma print_bodies fmt kws : (forall k, snprint_keyword pconf fmt k d = keyword_body k ≫= line) ->
  snprint_keywords pconf fmt kws d = keyword_bodies kws ≫= line.
Proof.
  intros Hfmt. unfold snprint_keywords, keyword_bodies. induction kws as [|k kws IH]; [done|].
  cbn [mbind list_bind]. by rewrite Hfmt, bind_app, IH.
Qed.

End Reread.

Lemma snprint_loop_fmt tabs conf (k : keyword config data) (p : print_t config data) d : Forall (fun c => c = 9) tabs ->
  snprint_loop conf k p d (tabs ++ [37; 107; 32; 37; 118; 10]) =
  match p conf d with [] => None | v => Some (tabs ++ kw_string k ++ 32 :: v ++ [10]) end.
Proof.
  induction 1 as [|c tabs -> _ IH].
  - cbn [app snprint_loop]. destruct (p conf d) as [|c v]; [done|]. done.
  - cbn [app]. change (snprint_loop conf k p d (9 :: ?x)) with (rest ← snprint_loop conf k p d x; Some (9 :: rest)).
    rewrite IH. by destruct (p conf d).
Qed.

Lemma snprint_fmt tabs conf k d : Forall (fun c => c = 9) tabs ->
  snprint_keyword conf (tabs ++ [37; 107; 32; 37; 118; 10]) k d = keyword_body conf d tabs k ≫= line.
Proof.
  intros Ht. unfold snprint_keyword, keyword_body. destruct (kw_print k) as [p|]; [|done].
  rewrite snprint_loop_fmt by done. destruct (p conf d) as [|c v]; [done|].
  cbn [default mbind list_bind app]. unfold line. rewrite app_nil_r, <-!app_assoc. done.
Qed.

Lemma fmt1_eq : fmt1 = [9] ++ [37; 107; 32; 37; 118; 10].
Proof. reflexivity. Qed.
Lemma fmt2_eq : fmt2 = [9; 9] ++ [37; 107; 32; 37; 118; 10].
Proof. reflexivity. Qed.

(** *** The devices *)

(** The keyword an installation makes. *)
Definition installed (i : install config data) : option (keyword config data) :=
  match i with
  | install_keyword str h p => Some (Kw str h p true None)
  | _ => None
  end.

Definition device_kws : list (keyword config data) := omap installed devices_keywords.
Definition override_kws : list (keyword config data) := omap installed overrides_keywords.

(** The member each keyword prints. *)
Definition device_fields : list (option field) :=
  [Some (StrF "vendor"); Some (StrF "product"); Some (StrF "revision"); Some (StrF "bl_product");
   Some (NumF "pgpolicy"); Some (StrF "uid_attribute"); Some (StrF "getuid"); Some (StrF "selector");
   Some (StrF "checker_name"); None; Some (StrF "alias_prefix"); Some (StrF "features"); Some (StrF "hwhandler");
   Some (StrF "prio_name"); Some (StrF "prio_args"); Some (NumF "pgfailback"); Some (NumF "rr_weight");
   Some (NumF "no_path_retry"); Some (NumF "minio"); Some (NumF "minio_rq"); None; Some (NumF "flush_on_last_del");
   Some (NumF "fast_io_fail"); Some (NumF "dev_loss"); Some (NumF "user_friendly_names");
   Some (NumF "retain_hwhandler"); Some (NumF "detect_prio"); Some (NumF "detect_checker");
   Some (NumF "deferred_remove"); Some (NumF "delay_watch_checks"); Some (NumF "delay_wait_checks");
   Some (NumF "san_path_err_threshold"); Some (NumF "san_path_err_forget_rate");
   Some (NumF "san_path_err_recovery_time"); Some (NumF "marginal_path_err_sample_time");
   Some (NumF "marginal_path_err_rate_threshold"); Some (NumF "marginal_path_err_recheck_gap_time");
   Some (NumF "marginal_path_double_failed_time"); Some (NumF "skip_kpartx"); Some (NumF "max_sectors_kb");
   Some (NumF "ghost_delay"); Some (NumF "all_tg_pt"); Some (NumF "vpd_vendor_id")]%string.

Definition override_fields : list (option field) :=
  [Some (NumF "pgpolicy"); Some (StrF "uid_attribute"); Some (StrF "getuid"); Some (StrF "selector");
   Some (StrF "checker_name"); None; Some (StrF "alias_prefix"); Some (StrF "features"); Some (StrF "prio_name");
   Some (StrF "prio_args"); Some (NumF "pgfailback"); Some (NumF "rr_weight"); Some (NumF "no_path_retry");
   Some (NumF "minio"); Some (NumF "minio_rq"); Some (NumF "flush_on_last_del"); Some (NumF "fast_io_fail");
   Some (NumF "dev_loss"); Some (NumF "user_friendly_names"); Some (NumF "retain_hwhandler");
   Some (NumF "detect_prio"); Some (NumF "detect_checker"); Some (NumF "deferred_remove");
   Some (NumF "delay_watch_checks"); Some (NumF "delay_wait_checks"); Some (NumF "san_path_err_threshold");
   Some (NumF "san_path_err_forget_rate"); Some (NumF "san_path_err_recovery_time");
   Some (NumF "marginal_path_err_sample_time"); Some (NumF "marginal_path_err_rate_threshold");
   Some (NumF "marginal_path_err_recheck_gap_time"); Some (NumF "marginal_path_double_failed_time");
   Some (NumF "skip_kpartx"); Some (NumF "max_sectors_kb"); Some (NumF "ghost_delay"); Some (NumF "all_tg_pt")]%string.

Lemma installed_devices regcomp nr_open getpwnam :
  find_keyword (init_keywords regcomp nr_open getpwnam) (s "devices") =
    Some (Kw (s "devices") (Some devices_handler) None true
            (Some [Kw (s "device") (Some device_handler) None false (Some device_kws)])).
Proof. reflexivity. Qed.

Lemma device_kws_distinct : NoDup (kw_string <$> device_kws).
Proof. decide_closed. Qed.

Lemma override_kws_distinct : NoDup (kw_string <$> override_kws).
Proof. decide_closed. Qed.

Lemma installed_overrides regcomp nr_open getpwnam :
  find_keyword (init_keywords regcomp nr_open getpwnam) (s "overrides") =
    Some (Kw (s "overrides") (Some overrides_handler) None true (Some override_kws)).
Proof. reflexivity. Qed.

(** Where an option of the last device, and one of the overrides, is put. *)
Definition put_hwe (conf : config) (l : list block) (b : block) : config := conf <| hwtable := Some (l ++ [b]) |>.
Definition put_ovr (conf : config) (b : block) : config := conf <| overrides := Some b |>.

Lemma hw_handler_reads o F src conf l v : (forall sv b, set_value sv = Some v -> o_set o sv b = (0, copy_field F src b)) ->
  forall sv b, set_value sv = Some v -> hw_handler o (put_hwe conf l b) sv = (0, put_hwe conf l (copy_field F src b)).
Proof.
  intros Ho sv b Hsv. unfold hw_handler, put_hwe, on_last. cbn [hwtable upd]. rewrite last_snoc, (Ho sv b Hsv).
  by rewrite length_app, Nat.add_sub, take_app_length.
Qed.

Lemma ovr_handler_reads o F src conf v : (forall sv b, set_value sv = Some v -> o_set o sv b = (0, copy_field F src b)) ->
  forall sv b, set_value sv = Some v -> ovr_handler o (put_ovr conf b) sv = (0, put_ovr conf (copy_field F src b)).
Proof. intros Ho sv b Hsv. unfold ovr_handler, put_ovr. cbn [overrides upd]. by rewrite (Ho sv b Hsv). Qed.

(** A keyword with an option reads what it prints. *)
Lemma option_keyword_reads pconf d put tabs src name h p u o F : plain_word name -> p pconf d = o_print o src ->
  option_reads o F src ->
  (forall v, (forall sv b, set_value sv = Some v -> o_set o sv b = (0, copy_field F src b)) ->
             forall sv b, set_value sv = Some v -> h (put b) sv = (0, put (copy_field F src b))) ->
  keyword_reads pconf d put tabs src (Kw name (Some h) (Some p) u None) (Some F).
Proof.
  intros Hname Hp Ho Hh. split; [done|]. split; [done|]. destruct Ho as [[He Hz]|(v & Hv & Hset)]; [left|right].
  - split; [|done]. unfold keyword_body. cbn [kw_print]. by rewrite Hp, He.
  - exists p, v, h, F. split; [done|]. rewrite Hp. split; [done|]. split; [done|]. split; [done|]. by apply Hh.
Qed.

Lemma silent_keyword_reads pconf d put tabs src k : kw_sub k = None -> plain_word (kw_string k) ->
  keyword_body pconf d tabs k = [] -> keyword_reads pconf d put tabs src k None.
Proof. intros H1 H2 H3. split; [done|]. split; [done|]. by left. Qed.

(** The options of devices and overrides that have a type. *)
Ltac reads_number Hsrc :=
  match goal with
  | |- prints_back _ _ _ (num _ ?f) => first
      [ exact (reads_nonzero _ (Hsrc f)) | exact (reads_yes_no_undef _ (Hsrc f)) | exact (reads_off_int_undef _ (Hsrc f))
      | exact (reads_pgpolicy _ (Hsrc f)) | exact (reads_pgfailback _ (Hsrc f)) | exact (reads_rr_weight _ (Hsrc f))
      | exact (reads_no_path_retry _ (Hsrc f)) | exact (reads_fast_io_fail _ (Hsrc f)) | exact (reads_dev_loss _ (Hsrc f))
      | exact (reads_vpd_vendor _ (Hsrc f)) ]
  end.

Ltac reads_option Hsrc := first [ apply str_option_reads | apply num_option_reads; reads_number Hsrc ].

Lemma device_keywords_read pconf conf l src : typed_block src ->
  Forall2 (keyword_reads pconf (HweData src) (put_hwe conf l) [9; 9] src) device_kws device_fields.
Proof.
  intros Hsrc. unfold device_kws, device_fields.
  cbn [omap list_omap devices_keywords installed].
  repeat (apply Forall2_cons; split;
    [first [ apply silent_keyword_reads; [reflexivity|decide_closed|reflexivity]
           | eapply option_keyword_reads; [decide_closed|reflexivity|reads_option Hsrc|apply hw_handler_reads] ]|]).
  apply Forall2_nil. exact I.
Qed.

Lemma override_keywords_read pconf conf src : typed_block src -> overrides pconf = Some src ->
  Forall2 (keyword_reads pconf NoData (put_ovr conf) [9] src) override_kws override_fields.
Proof.
  intros Hsrc Hp. unfold override_kws, override_fields.
  cbn [omap list_omap overrides_keywords installed].
  repeat (apply Forall2_cons; split;
    [first [ apply silent_keyword_reads; [reflexivity|decide_closed|reflexivity]
           | eapply option_keyword_reads;
             [decide_closed|unfold ovr_snprint; rewrite Hp; reflexivity|reads_option Hsrc|apply ovr_handler_reads] ]|]).
  apply Forall2_nil. exact I.
Qed.

(** The same members of a device (or of the overrides). *)
Definition same_members (nums strs : list string) (a b : block) : Prop :=
  Forall (fun f => num b f = num a f) nums /\ Forall (fun f => str b f = str a f) strs.

Definition override_strs : list string :=
  ["uid_attribute"; "getuid"; "features"; "selector"; "checker_name"; "prio_name"; "prio_args"; "alias_prefix"]%string.
Definition override_nums : list string := filter (fun f => negb (f =? "vpd_vendor_id")%string) hwentry_nums.

Lemma agree_members Fs src b nums strs : agree Fs src b -> Forall (fun f => NumF f ∈ Fs) nums ->
  Forall (fun f => StrF f ∈ Fs) strs -> same_members nums strs src b.
Proof.
  intros [Hn Hs] H1 H2. split; (eapply Forall_impl; [eassumption|]); intros f Hf; cbn beta in Hf.
  - by rewrite Hn, decide_True.
  - by rewrite Hs, decide_True.
Qed.

(** The proofs below do not look into the keywords of a device. *)
Section Tables.
Variable kws dkws okws : list (keyword config data).

Definition device_keyword : keyword config data := Kw (s "device") (Some device_handler) None false (Some dkws).
Definition overrides_keyword : keyword config data := Kw (s "overrides") (Some overrides_handler) None true (Some okws).

(** The lines of a device, and of the tables. *)
Definition hwentry_bodies (conf : config) (hwe : block) : list cstr :=
  (9 :: s "device {") :: keyword_bodies conf (HweData hwe) [9; 9] dkws ++ [[9; 125]].

Definition hwtable_bodies (conf : config) (hwtab : list block) : list cstr :=
  s "devices {" :: (hwtab ≫= hwentry_bodies conf) ++ [[125]].

Definition overrides_bodies (conf : config) : list cstr :=
  s "overrides {" :: keyword_bodies conf NoData [9] okws ++ [[125]].

Hypothesis Hdevices :
  find_keyword kws (s "devices") = Some (Kw (s "devices") (Some devices_handler) None true (Some [device_keyword])).
Hypothesis Hoverrides : find_keyword kws (s "overrides") = Some overrides_keyword.
Hypothesis Hfind_devices : List.find (is_keyword (s "devices")) kws =
  Some (Kw (s "devices") (Some devices_handler) None true (Some [device_keyword])).
Hypothesis Hfind_overrides : List.find (is_keyword (s "overrides")) kws = Some overrides_keyword.
Hypothesis Hdkws : NoDup (kw_string <$> dkws).
Hypothesis Hokws : NoDup (kw_string <$> okws).
Hypothesis Hdread : forall pconf conf l src, typed_block src ->
  Forall2 (keyword_reads pconf (HweData src) (put_hwe conf l) [9; 9] src) dkws device_fields.
Hypothesis Horead : forall pconf conf src, typed_block src -> overrides pconf = Some src ->
  Forall2 (keyword_reads pconf NoData (put_ovr conf) [9] src) okws override_fields.

Lemma find_device : find_keyword [device_keyword] (s "device") = Some device_keyword.
Proof. unfold device_keyword. cbn [find_keyword find_in]. by rewrite streq_refl. Qed.

Lemma hwentry_text conf hwe : snprint_hwentry kws conf hwe = hwentry_bodies conf hwe ≫= line.
Proof using Hdevices.
  unfold snprint_hwentry, find_sub. rewrite Hdevices. cbn [mbind option_bind].
  unfold sub_keywords at 1. cbn [kw_sub]. cbv [default from_option id]. rewrite find_device.
  unfold sub_keywords, device_keyword. cbn [kw_sub]. cbv [default from_option id].
  rewrite (print_bodies conf (HweData hwe) [9; 9]) by (intros k; rewrite fmt2_eq; apply snprint_fmt; repeat constructor).
  unfold hwentry_bodies. cbn [mbind list_bind]. rewrite bind_app. cbn [mbind list_bind]. by rewrite app_nil_r.
Qed.

Lemma hwtable_text conf hwtab : snprint_hwtable kws conf hwtab = hwtable_bodies conf hwtab ≫= line.
Proof using Hdevices.
  unfold snprint_hwtable. rewrite Hdevices. unfold hwtable_bodies.
  cbn [mbind list_bind]. rewrite bind_app. cbn [mbind list_bind]. rewrite app_nil_r. f_equal. f_equal.
  induction hwtab as [|h l IH]; [done|]. cbn [mbind list_bind]. by rewrite bind_app, <-IH, <-hwentry_text.
Qed.

Lemma overrides_text conf ovr : overrides conf = Some ovr ->
  snprint_overrides kws conf (overrides conf) = overrides_bodies conf ≫= line.
Proof using Hoverrides.
  intros Ho. unfold snprint_overrides. rewrite Hoverrides, Ho.
  unfold sub_keywords, overrides_keyword. cbn [kw_sub]. cbv [default from_option id].
  rewrite (print_bodies conf NoData [9]) by (intros k; rewrite fmt1_eq; apply snprint_fmt; repeat constructor).
  unfold overrides_bodies. cbn [mbind list_bind]. rewrite bind_app. cbn [mbind list_bind]. by rewrite app_nil_r.
Qed.

(** One device. *)
Lemma hwentry_runs conf pconf l src : typed_block src -> Forall line_body (hwentry_bodies pconf src) ->
  hwtable conf = Some l ->
  exists b, same_members hwentry_nums hwentry_strs src b /\
    forall rest r res, runs 1 [device_keyword] (put_hwe conf l b) rest r res ->
      runs 1 [device_keyword] conf ((line <$> hwentry_bodies pconf src) ++ rest) r res.
Proof using Hdkws Hdread.
  intros Hsrc Hlines Hl. unfold hwentry_bodies in Hlines. apply Forall_cons in Hlines as [Hopen Hlines].
  apply Forall_app in Hlines as [Hkws Hend%Forall_inv].
  destruct (keywords_reread dkws pconf (HweData src) (put_hwe conf l) [9; 9] ltac:(repeat constructor)
    src 2 dkws device_fields Hdkws ltac:(done) (Hdread pconf conf l src Hsrc) Hkws
    [] zero_block (agree_zero src)) as (b & Hb & Hruns).
  rewrite app_nil_r in Hb. exists b. split.
  { eapply agree_members; [exact Hb|decide_closed|decide_closed]. }
  intros rest r res Hrest. unfold hwentry_bodies. rewrite fmap_cons, fmap_app, <-app_comm_cons, <-app_assoc.
  eapply (runs_block _ _ _ _ _ _ _ (s "device") device_keyword dkws).
  - exact Hopen.
  - exists [9]. split; [by repeat constructor|reflexivity].
  - reflexivity.
  - done.
  - done.
  - done.
  - cbn [List.find]. unfold is_keyword, device_keyword. cbn [kw_string]. by rewrite streq_refl.
  - reflexivity.
  - unfold device_keyword. cbn [kw_handler]. unfold device_handler, add_entry. rewrite Hl. split.
    + apply Hruns. cbn [fmap list_fmap app]. by apply runs_end; [lia| |].
    + rewrite !Z.add_0_r. exact Hrest.
Qed.

Lemma hwtable_runs conf pconf l hwtab : Forall typed_block hwtab ->
  Forall line_body (hwtab ≫= hwentry_bodies pconf) -> hwtable conf = Some l ->
  exists l', Forall2 (same_members hwentry_nums hwentry_strs) hwtab l' /\
    forall rest r res, runs 1 [device_keyword] (conf <| hwtable := Some (l ++ l') |>) rest r res ->
      runs 1 [device_keyword] conf ((line <$> (hwtab ≫= hwentry_bodies pconf)) ++ rest) r res.
Proof using Hdkws Hdread.
  intros Ht. revert conf l. induction Ht as [|src hwtab Hsrc _ IH]; intros conf l Hlines Hl.
  - exists []. split; [done|]. rewrite app_nil_r. intros rest r res H. cbn [mbind list_bind fmap list_fmap app].
    replace conf with (conf <| hwtable := Some l |>); [done|]. destruct conf. cbn in *. by rewrite Hl.
  - cbn [mbind list_bind] in Hlines |- *. apply Forall_app in Hlines as [Hsrcl Hlines].
    destruct (hwentry_runs conf pconf l src Hsrc Hsrcl Hl) as (b & Hb & Hruns).
    destruct (IH (put_hwe conf l b) (l ++ [b]) Hlines eq_refl) as (l' & Hl' & Hruns').
    exists (b :: l'). split; [by constructor|]. intros rest r res H. rewrite fmap_app, <-app_assoc. apply Hruns, Hruns'.
    by rewrite <-app_assoc.
Qed.

(** The last line ends the block and the file. *)
Lemma end_of_file lvl (keywords : list (keyword config data)) conf b : (0 < lvl)%nat -> b = [125] ->
  runs lvl keywords conf [line b] 0 (0, conf, []).
Proof. intros Hlvl ->. apply runs_end; [done| |reflexivity]. split; [done|]. split; [by repeat constructor|vm_compute; lia]. Qed.

Lemma devices_file conf pconf hwtab : Forall typed_block hwtab -> Forall line_body (hwtable_bodies pconf hwtab) ->
  exists l, process_file kws conf (Some (snprint_hwtable kws pconf hwtab)) =
              Some (0, conf <| hwtable := Some (default [] (hwtable conf) ++ l) |>) /\
            Forall2 (same_members hwentry_nums hwentry_strs) hwtab l.
Proof using Hdevices Hfind_devices Hdkws Hdread.
  intros Ht Hlines. rewrite hwtable_text. pose proof Hlines as Hall. unfold hwtable_bodies in Hlines.
  apply Forall_cons in Hlines as [Hopen Hlines]. apply Forall_app in Hlines as [Hdev Hend%Forall_inv].
  assert (hwtable (conf <| hwtable ::= alloc_table |>) = Some (default [] (hwtable conf))) as Hopened by done.
  destruct (hwtable_runs _ pconf _ hwtab Ht Hdev Hopened) as (l & Hl & Hruns).
  exists l. split; [|done]. apply runs_process_file; [done|]. unfold hwtable_bodies. rewrite fmap_cons, fmap_app.
  eapply (runs_block _ _ _ _ _ _ _ (s "devices") _ [device_keyword]).
  - exact Hopen.
  - exists []. split; [by constructor|reflexivity].
  - reflexivity.
  - done.
  - done.
  - done.
  - exact Hfind_devices.
  - reflexivity.
  - cbn [kw_handler]. unfold devices_handler. split; [|apply runs_nil]. apply Hruns.
    exact (end_of_file 1 [device_keyword] (conf <| hwtable := Some (default [] (hwtable conf) ++ l) |>) [125] ltac:(lia) eq_refl).
Qed.

Lemma overrides_file conf pconf src : overrides conf = None -> overrides pconf = Some src -> typed_block src ->
  Forall line_body (overrides_bodies pconf) ->
  exists b, process_file kws conf (Some (snprint_overrides kws pconf (overrides pconf))) =
              Some (0, conf <| overrides := Some b |>) /\ same_members override_nums override_strs src b.
Proof using Hoverrides Hfind_overrides Hokws Horead.
  intros Hnone Hsome Hsrc Hlines. rewrite (overrides_text pconf src Hsome). pose proof Hlines as Hall.
  unfold overrides_bodies in Hlines. apply Forall_cons in Hlines as [Hopen Hlines].
  apply Forall_app in Hlines as [Hkws Hend%Forall_inv].
  destruct (keywords_reread okws pconf NoData (put_ovr conf) [9] ltac:(repeat constructor)
    src 1 okws override_fields Hokws ltac:(done) (Horead pconf conf src Hsrc Hsome) Hkws
    [] zero_block (agree_zero src)) as (b & Hb & Hruns).
  rewrite app_nil_r in Hb. exists b. split; [|eapply agree_members; [exact Hb|decide_closed|decide_closed]].
  apply runs_process_file; [done|]. unfold overrides_bodies. rewrite fmap_cons, fmap_app.
  eapply (runs_block _ _ _ _ _ _ _ (s "overrides") overrides_keyword okws).
  - exact Hopen.
  - exists []. split; [by constructor|reflexivity].
  - reflexivity.
  - done.
  - done.
  - done.
  - exact Hfind_overrides.
  - reflexivity.
  - unfold overrides_keyword. cbn [kw_handler]. unfold overrides_handler. rewrite Hnone. cbn [default].
    split; [|apply runs_nil]. apply (Hruns [line [125]] 0 (0, put_ovr conf b, [])).
    exact (end_of_file 1 okws (put_ovr conf b) [125] ltac:(lia) eq_refl).
Qed.

End Tables.

(** C14: The printed hardware table and overrides are read back.  If their options
    have values of their types and every printed line fits the parser's line
    buffer and has no line break inside, then a configuration file made of the
    text that [snprint_hwtable] (or [snprint_overrides]) prints is parsed
    without errors.  It appends to the hardware table exactly the printed
    devices, every member of struct hwentry with the value that was printed; the
    overrides get every member that has a keyword there. *)
Theorem tables_reread regcomp nr_open getpwnam conf pconf hwtab ovr :
  Forall typed_block hwtab -> Forall line_body (hwtable_bodies device_kws pconf hwtab) ->
  overrides conf = None -> overrides pconf = Some ovr -> typed_block ovr ->
  Forall line_body (overrides_bodies override_kws pconf) ->
  let kws := init_keywords regcomp nr_open getpwnam in
  (exists l, process_file kws conf (Some (snprint_hwtable kws pconf hwtab)) =
               Some (0, conf <| hwtable := Some (default [] (hwtable conf) ++ l) |>) /\
             Forall2 (same_members hwentry_nums hwentry_strs) hwtab l) /\
  (exists b, process_file kws conf (Some (snprint_overrides kws pconf (overrides pconf))) =
               Some (0, conf <| overrides := Some b |>) /\
             same_members override_nums override_strs ovr b).
Proof.
  intros Ht Hl Hnone Hsome Hovr Hol kws. split.
  - exact (devices_file kws device_kws (installed_devices regcomp nr_open getpwnam) eq_refl device_kws_distinct
             (fun p c l src H => device_keywords_read p c l src H) conf pconf hwtab Ht Hl).
  - exact (overrides_file kws override_kws (installed_overrides regcomp nr_open getpwnam) eq_refl override_kws_distinct
             override_keywords_read conf pconf ovr Hnone Hsome Hovr Hol).
Qed.

(** A device and overrides with options of every kind. *)
Definition sample_hwe : block :=
  set_string "vendor" (Some (s "IBM")) (set_string "product" (Some (34 :: s "a # {c}")) (set_string "features" (Some [])
  (set_num "pgpolicy" 4 (set_num "pgfailback" (-2) (set_num "no_path_retry" 12 (set_num "dev_loss" UINT_MAX
  (set_num "fast_io_fail" (-2) (set_num "minio" (-7) (set_num "detect_prio" 1 (set_num "ghost_delay" 30 zero_block)))))))))).

Definition sample_conf : config := zero_config <| overrides := Some sample_hwe |>.

Lemma typed_sample : typed_block sample_hwe.
Proof. unfold sample_hwe. repeat (apply typed_set_string || (apply typed_set_num; [|const_range])). apply typed_zero_block. Qed.

Lemma tables_reread_witness :
  let kws := init_keywords (fun _ => None) None (fun _ => None) in
  (exists l, process_file kws zero_config (Some (snprint_hwtable kws sample_conf [sample_hwe; zero_block])) =
               Some (0, zero_config <| hwtable := Some l |>) /\
             Forall2 (same_members hwentry_nums hwentry_strs) [sample_hwe; zero_block] l) /\
  (exists b, process_file kws zero_config (Some (snprint_overrides kws sample_conf (overrides sample_conf))) =
               Some (0, zero_config <| overrides := Some b |>) /\
             same_members override_nums override_strs sample_hwe b).
Proof.
  apply (tables_reread (fun _ => None) None (fun _ => None) zero_config sample_conf [sample_hwe; zero_block] sample_hwe).
  - exact (Forall_cons_2 _ _ _ typed_sample (Forall_cons_2 _ _ _ typed_zero_block (Forall_nil_2 _))).
  - decide_closed.
  - reflexivity.
  - reflexivity.
  - apply typed_sample.
  - decide_closed.
Defined.
