(* ===== verification/Alias.v ===== *)
(** * libmultipath/alias.c: user-friendly names and the bindings file

    A bindings file is its text; what the system calls on it answer is the record
    [io] of File, whose [open_file] writes the header of an empty file. *)

From stdpp Require Import sorting.
From S2P Require Import Prelude CString Structs File.


Definition BINDINGS_FILE_HEADER : cstr :=
  s "# Multipath bindings, Version : 1.0" ++ [10] ++
  s "# NOTE: this file is automatically maintained by the multipath program." ++ [10] ++
  s "# You should not need to edit this file in normal circumstances." ++ [10] ++
  s "#" ++ [10] ++ s "# Format:" ++ [10] ++ s "# alias wwid" ++ [10] ++ s "#" ++ [10].

Definition valid_alias (alias : cstr) : bool := bool_decide (strchr 47 alias = None).

(** ** Names and numbers *)

(** The digits of [id], last one first; [room] is the space left in front. *)
Fixpoint format_loop (room : nat) (id : Z) (digits : cstr) : option cstr :=
  match room with
  | O => None
  | S r =>
      let id := id - 1 in
      let digits := 97 + Z.rem id 26 :: digits in
      if id <? 26 then Some digits else format_loop r (Z.quot id 26) digits
  end.

Definition format_devname (id : Z) (len : nat) (prefix : cstr) : option cstr :=
  if (len <=? length prefix + 1)%nat || (id <=? 0) then None
  else digits ← format_loop (len - 1 - length prefix) id []; Some (prefix ++ digits).

Definition last_26 : Z := Z.quot INT_MAX 26.

Fixpoint scan_loop (c : cstr) (n : Z) : Z :=
  match c with
  | [] => n
  | ch :: r =>
      if (ch =? 32) || (ch =? 9) then n
      else if (ch <? 97) || (122 <? ch) then -1
      else
        let i := ch - 97 in
        if (last_26 <? n) || ((n =? last_26) && (Z.rem INT_MAX 26 <=? i)) then -1
        else scan_loop r (n * 26 + i + 1)
  end.

Definition scan_devname (alias : cstr) (prefix : option cstr) : Z :=
  match prefix with
  | None => -1
  | Some prefix =>
      if negb (prefixb prefix alias) then -1
      else if (length alias =? length prefix)%nat then -1
      else if (length prefix + 7 <? length alias)%nat then -1
      else scan_loop (drop (length prefix) alias) 0
  end.

(** ** Lines *)

Definition blanks : cstr := [32; 9].
Definition line_end : cstr := [35; 10; 13].

(** The alias and the WWID of a line; [None] for a blank line. *)
Definition line_entry (line : cstr) : option (cstr * option cstr) :=
  '(alias, rest) ← strtok_r blanks (cut_at line_end line);
  Some (alias, fst <$> strtok_r blanks rest).

(** ** Looking up bindings *)

Inductive lookup_result := FoundAlias (alias : cstr) | FreeId (id : Z) | NoFreeId.

Record ids := { l_id : Z; l_biggest : Z; l_smallest_bigger : Z }.

Definition see_id (cur : Z) (i : ids) : ids :=
  let id := if cur =? l_id i then l_id i + 1 else l_id i in
  {| l_id := id;
     l_biggest := if l_biggest i <? cur then cur else l_biggest i;
     l_smallest_bigger := if (id <? cur) && (cur <? l_smallest_bigger i) then cur else l_smallest_bigger i |}.

Fixpoint lookup_loop (lines : list cstr) (map_wwid : cstr) (prefix : option cstr) (i : ids) : lookup_result :=
  match lines with
  | [] =>
      if l_smallest_bigger i <=? l_id i
      then if l_biggest i <? INT_MAX then FreeId (l_biggest i + 1) else NoFreeId
      else FreeId (l_id i)
  | line :: r =>
      match line_entry line with
      | None => lookup_loop r map_wwid prefix i
      | Some (alias, wwid) =>
          let cur := scan_devname alias prefix in
          if (cur =? l_id i) && (INT_MAX <=? l_id i) then NoFreeId
          else
            let i := see_id cur i in
            match wwid with
            | Some w => if streq w map_wwid then FoundAlias alias else lookup_loop r map_wwid prefix i
            | None => lookup_loop r map_wwid prefix i
            end
      end
  end.

Definition lookup_binding (text map_wwid : cstr) (prefix : option cstr) : lookup_result :=
  lookup_loop (file_lines LINE_MAX text) map_wwid prefix
    {| l_id := 1; l_biggest := 1; l_smallest_bigger := INT_MAX |}.

(** [None] stands for an empty buffer. *)
Fixpoint rlookup_loop (lines : list cstr) (map_alias : cstr) : option cstr :=
  match lines with
  | [] => None
  | line :: r =>
      match line_entry line with
      | Some (alias, Some wwid) =>
          if WWID_SIZE - 1 <? strlen wwid then rlookup_loop r map_alias
          else if streq alias map_alias then Some wwid else rlookup_loop r map_alias
      | _ => rlookup_loop r map_alias
      end
  end.

Definition rlookup_binding (text map_alias : cstr) : option cstr :=
  rlookup_loop (file_lines LINE_MAX text) map_alias.

(** ** New bindings *)

(** The alias, and the text with the new line. *)
Definition allocate_binding (o : io) (text wwid : cstr) (id : Z) (prefix : cstr) : option cstr * cstr :=
  if id <=? 0 then (None, text)
  else
    match format_devname id LINE_MAX prefix with
    | None => (None, text)
    | Some name =>
        if (LINE_MAX - length name <=? length wwid + 2)%nat then (None, text)
        else
          let line := name ++ 32 :: wwid ++ [10] in
          if io_seek o && io_write o text then (Some (cut_at [32] line), text ++ line) else (None, text)
    end.

Definition get_user_friendly_alias (o : io) (text : cstr) (wwid prefix : cstr) (bindings_read_only : bool)
  : option cstr * cstr :=
  match wwid with
  | [] => (None, text)
  | _ =>
      match open_file o BINDINGS_FILE_HEADER text with
      | None => (None, text)
      | Some (can_write, text) =>
          if negb (io_fdopen o) then (None, text)
          else
            match lookup_binding text wwid (Some prefix) with
            | NoFreeId => (None, text)
            | FoundAlias alias => (if io_flush o then Some alias else None, text)
            | FreeId id =>
                if io_flush o && can_write && negb bindings_read_only
                then allocate_binding o text wwid id prefix else (None, text)
            end
      end
  end.

(** The map has the alias [alias_old] already. *)
Definition use_existing_alias (o : io) (text wwid alias_old prefix : cstr) (bindings_read_only : bool)
  : option cstr * cstr :=
  match open_file o BINDINGS_FILE_HEADER text with
  | None => (None, text)
  | Some (can_write, text) =>
      if negb (io_fdopen o) then (None, text)
      else
        match rlookup_binding text alias_old with
        | Some buff => (if streq buff wwid then Some alias_old else None, text)
        | None =>
            match lookup_binding text wwid None with
            | FoundAlias alias => (Some alias, text)
            | _ =>
                let id := scan_devname alias_old (Some prefix) in
                if id <=? 0 then (None, text)
                else if io_flush o && can_write && negb bindings_read_only
                then allocate_binding o text wwid id prefix else (None, text)
            end
        end
  end.

Definition get_user_friendly_wwid (o : io) (text alias : cstr) : option cstr :=
  match alias with
  | [] => None
  | _ =>
      '(_, text) ← open_file o BINDINGS_FILE_HEADER text;
      if negb (io_fdopen o) then None else rlookup_binding text alias
  end.

(** ** Checking the bindings *)

Abbreviation binding := (cstr * cstr)%type.

Inductive binding_result := BINDING_EXISTS | BINDING_CONFLICT | BINDING_ADDED.

#[export] Instance binding_result_dec : EqDecision binding_result.
Proof. solve_decision. Defined.

(** Searching backwards: [before] is the front part, last binding first. *)
Fixpoint add_loop (before after : list binding) (alias wwid : cstr) : binding_result * list binding :=
  match before with
  | [] => (BINDING_ADDED, (alias, wwid) :: after)
  | b :: r =>
      let cmp := strcmp (fst b) alias in
      if cmp <=? 0 then
        if cmp =? 0
        then (if streq (snd b) wwid then BINDING_EXISTS else BINDING_CONFLICT, reverse before ++ after)
        else (BINDING_ADDED, reverse before ++ (alias, wwid) :: after)
      else add_loop r (b :: after) alias wwid
  end.

Definition add_binding (bindings : list binding) (alias wwid : cstr) : binding_result * list binding :=
  add_loop (reverse bindings) [] alias wwid.

Definition binding_line (b : binding) : cstr := fst b ++ 32 :: snd b ++ [10].

(** [text] is what the new file holds; [None] when a line is too long or a write
    fails. *)
Fixpoint write_lines (o : io) (text : cstr) (bindings : list binding) : option cstr :=
  match bindings with
  | [] => Some text
  | b :: r =>
      if (LINE_MAX <=? length (binding_line b))%nat then None
      else if io_write o text then write_lines o (text ++ binding_line b) r else None
  end.

Definition write_bindings_file (o : io) (bindings : list binding) : option cstr :=
  if io_write o [] then write_lines o BINDINGS_FILE_HEADER bindings else None.

(** The return code and the text of the file. *)
Definition fix_bindings_file (o : io) (text : cstr) (bindings : list binding) : Z * cstr :=
  if negb (io_mkstemp o) then (-1, text)
  else match write_bindings_file o bindings with
       | None => (-1, text)
       | Some new => if io_rename o then (0, new) else (-1, text)
       end.

Record mpentry := { mpe_wwid : option cstr; mpe_alias : option cstr }.

Definition get_mpe_wwid (mptable : list mpentry) (alias : cstr) : option cstr :=
  mpe ← List.find (fun e => bool_decide (mpe_alias e = Some alias)) mptable; mpe_wwid mpe.

Definition check_line (mptable : list mpentry) (line : cstr) (rc : Z) (bindings : list binding)
  : Z * list binding :=
  match line_entry line with
  | Some (alias, Some wwid) =>
      if match get_mpe_wwid mptable alias with Some w => negb (streq w wwid) | None => false end
      then (-1, bindings)
      else let '(r, bindings') := add_binding bindings alias wwid in
           (if decide (r = BINDING_CONFLICT) then -1 else rc, bindings')
  | _ => (rc, bindings)
  end.

(** [getline] reads lines of any length. *)
Definition getlines (text : cstr) : list cstr := file_lines (S (S (length text))) text.

Definition check_bindings_file (mptable : list mpentry) (text : cstr) : Z * list binding :=
  foldl (fun '(rc, bindings) line => check_line mptable line rc bindings) (0, []) (getlines text).

Definition check_entry (acc : list mpentry * list binding) (mpe : mpentry) : list mpentry * list binding :=
  let '(done, bindings) := acc in
  match mpe_wwid mpe, mpe_alias mpe with
  | Some wwid, Some alias =>
      let '(r, bindings) := add_binding bindings alias wwid in
      (done ++ [if decide (r = BINDING_CONFLICT) then {| mpe_wwid := Some wwid; mpe_alias := None |} else mpe],
       bindings)
  | _, _ => (done ++ [mpe], bindings)
  end.

(** The return code, the entries of multipath.conf and the bindings file. *)
Definition check_alias_settings (o : io) (mptable : list mpentry) (text : cstr) (bindings_read_only : bool)
  : Z * list mpentry * cstr :=
  let mptable := fst (foldl check_entry ([], []) mptable) in
  match open_file o BINDINGS_FILE_HEADER text with
  | None => (0, mptable, text)
  | Some (can_write, text) =>
      if negb (io_fdopen o) then (0, mptable, text)
      else
        let '(rc, bindings) := check_bindings_file mptable text in
        if negb (rc =? 0) && can_write && negb bindings_read_only
        then let '(rc, text) := fix_bindings_file o text bindings in (rc, mptable, text)
        else (rc, mptable, text)
  end.

(** ** Tests *)

Example format_27 : format_devname 27 LINE_MAX (s "mpath") = Some (s "mpathaa").
Proof. reflexivity. Qed.
Example format_max : format_devname INT_MAX LINE_MAX (s "m") = Some (s "mfxshrxw").
Proof. reflexivity. Qed.
Example scan_max : scan_devname (s "mfxshrxw") (Some (s "m")) = INT_MAX.
Proof. reflexivity. Qed.
Example scan_over : scan_devname (s "mfxshrxx") (Some (s "m")) = -1.
Proof. reflexivity. Qed.
Example lookup_1 : lookup_binding (BINDINGS_FILE_HEADER ++ s "mpatha 1" ++ [10] ++ s "mpathc 3" ++ [10])
  (s "2") (Some (s "mpath")) = FreeId 2.
Proof. reflexivity. Qed.

(** ** Names are bijective base-26 numbers *)

Definition lower (c : Z) : Prop := 97 <= c <= 122.

(** The value of digits read after [n]. *)
Definition digits_val (ds : cstr) (n : Z) : Z := foldl (fun n c => n * 26 + (c - 97) + 1) n ds.

Lemma digits_val_snoc ds d n : digits_val (ds ++ [d]) n = digits_val ds n * 26 + (d - 97) + 1.
Proof. unfold digits_val. by rewrite foldl_app. Qed.

Lemma digits_val_ge ds : Forall lower ds -> forall n, 0 <= n -> n <= digits_val ds n.
Proof.
  induction 1 as [|c ds Hc _ IH]; intros n Hn; [done|]. unfold digits_val in *. cbn [foldl].
  unfold lower in Hc. specialize (IH (n * 26 + (c - 97) + 1) ltac:(lia)). lia.
Qed.

Lemma digits_val_inj ds1 : Forall lower ds1 -> forall ds2, Forall lower ds2 ->
  digits_val ds1 0 = digits_val ds2 0 -> ds1 = ds2.
Proof.
  induction ds1 as [|d1 ds1 IH] using rev_ind; intros H1 ds2 H2 Heq.
  - destruct ds2 as [|d2 ds2 _] using rev_ind; [done|]. rewrite digits_val_snoc in Heq. cbn in Heq.
    apply Forall_app in H2 as [H2 Hd%Forall_inv]. pose proof (digits_val_ge _ H2 0 ltac:(lia)).
    unfold lower in Hd. lia.
  - apply Forall_app in H1 as [H1 Hd1%Forall_inv]. rewrite digits_val_snoc in Heq.
    pose proof (digits_val_ge _ H1 0 ltac:(lia)). unfold lower in Hd1.
    destruct ds2 as [|d2 ds2 _] using rev_ind; [cbn in Heq; lia|].
    apply Forall_app in H2 as [H2 Hd2%Forall_inv]. rewrite digits_val_snoc in Heq. unfold lower in Hd2.
    assert (digits_val ds1 0 = digits_val ds2 0 /\ d1 = d2) as [Hv ->] by lia. by rewrite (IH H1 ds2).
Qed.

(** The numbers with at most [k] digits. *)
Fixpoint upto (k : nat) : Z := match k with O => 0 | S k => 26 * (1 + upto k) end.

Lemma format_loop_spec k : forall room id acc, (k <= room)%nat -> 0 < id <= upto k ->
  exists ds, format_loop room id acc = Some (ds ++ acc) /\ Forall lower ds /\ (0 < length ds <= k)%nat /\
    digits_val ds 0 = id.
Proof.
  induction k as [|k IH]; intros room id acc Hr Hid; [cbn in Hid; lia|]. destruct room as [|r]; [lia|].
  cbn [format_loop upto] in *. rewrite Z.rem_mod_nonneg by lia.
  pose proof (Z.mod_pos_bound (id - 1) 26 ltac:(lia)). pose proof (Z.div_mod (id - 1) 26 ltac:(lia)).
  destruct (Z.ltb_spec (id - 1) 26) as [Hs|Hs].
  - exists [97 + (id - 1) mod 26]. split_and!; [done|constructor; [unfold lower; lia|done]|cbn; lia|cbn; lia|].
    rewrite Z.mod_small by lia. cbn. lia.
  - rewrite Z.quot_div_nonneg by lia. destruct (IH r ((id - 1) / 26) (97 + (id - 1) mod 26 :: acc)) as (ds & -> & Hl & Hn & Hv);
      [lia|lia|].
    exists (ds ++ [97 + (id - 1) mod 26]). rewrite <-(assoc_L (++)), digits_val_snoc, Hv, length_app. cbn [length app].
    split_and!; [done|apply Forall_app; split; [done|constructor; [unfold lower; lia|done]]|lia|lia|lia].
Qed.

Lemma scan_loop_digits ds : Forall lower ds -> forall n, 0 <= n -> digits_val ds n <= INT_MAX ->
  scan_loop ds n = digits_val ds n.
Proof.
  induction 1 as [|c ds Hc Hds IH]; intros n Hn Hv; [done|]. unfold digits_val in Hv. cbn [foldl] in Hv.
  cbn [scan_loop]. unfold lower in Hc.
  rewrite !(proj2 (Z.eqb_neq _ _)) by lia. rewrite !(proj2 (Z.ltb_ge _ _)) by lia. cbn [orb].
  pose proof (digits_val_ge ds Hds (n * 26 + (c - 97) + 1) ltac:(lia)) as Hge. unfold digits_val in Hge.
  change last_26 with 82595524 in *. change (Z.rem INT_MAX 26) with 23. unfold INT_MAX in Hv.
  destruct (Z.ltb_spec 82595524 n); [lia|]. cbn [orb].
  assert ((n =? 82595524) && (23 <=? c - 97) = false) as ->.
  { apply andb_false_iff. destruct (Z.eqb_spec n 82595524); [right; apply Z.leb_gt; lia|by left]. }
  rewrite IH; [done|lia|]. exact Hv.
Qed.

Lemma scan_loop_inv c : forall n m, scan_loop c n = m -> m <> -1 -> 0 <= n <= INT_MAX -> no_chars blanks c ->
  Forall lower c /\ digits_val c n = m /\ m <= INT_MAX.
Proof.
  induction c as [|ch c IH]; intros n m H Hm Hn Hb; [cbn in H; subst; split_and!; [done|done|lia]|].
  cbn [scan_loop] in H. apply Forall_cons in Hb as [Hch Hb].
  assert ((ch =? 32) || (ch =? 9) = false) as Hbl.
  { unfold in_set, blanks in Hch. cbn [existsb] in Hch. by rewrite orb_false_r in Hch. }
  rewrite Hbl in H. destruct ((ch <? 97) || (122 <? ch)) eqn:Hl; [lia|].
  apply orb_false_iff in Hl as [H1%Z.ltb_ge H2%Z.ltb_ge].
  destruct (_ || _) eqn:Ho in H; [lia|]. apply orb_false_iff in Ho as [H3%Z.ltb_ge H4].
  change last_26 with 82595524 in *. change (Z.rem INT_MAX 26) with 23 in *.
  assert (n * 26 + (ch - 97) + 1 <= INT_MAX) as Hle.
  { unfold INT_MAX. apply andb_false_iff in H4 as [H4%Z.eqb_neq|H4%Z.leb_gt]; lia. }
  destruct (IH _ _ H Hm) as (A & B & C); [lia|done|]. split_and!; [by constructor|done|done].
Qed.

Lemma scan_devname_range alias prefix : -1 <= scan_devname alias prefix <= INT_MAX.
Proof.
  assert (forall c n, 0 <= n <= INT_MAX -> -1 <= scan_loop c n <= INT_MAX) as Hl.
  { induction c as [|ch c IH]; intros n Hn; [cbn; lia|]. cbn [scan_loop].
    destruct (_ || _); [lia|]. destruct ((ch <? 97) || (122 <? ch)) eqn:Hc; [unfold INT_MAX; lia|].
    apply orb_false_iff in Hc as [H1%Z.ltb_ge H2%Z.ltb_ge].
    destruct (_ || _) eqn:Ho; [unfold INT_MAX; lia|]. apply orb_false_iff in Ho as [H3%Z.ltb_ge H4].
    change last_26 with 82595524 in *. change (Z.rem INT_MAX 26) with 23 in *.
    apply IH. unfold INT_MAX. apply andb_false_iff in H4 as [H4%Z.eqb_neq|H4%Z.leb_gt]; lia. }
  unfold scan_devname. destruct prefix as [p|]; [|unfold INT_MAX; lia].
  repeat (match goal with |- context [if ?b then _ else _] => destruct b end; [unfold INT_MAX; lia|]).
  apply Hl. unfold INT_MAX. lia.
Qed.

Lemma format_scan prefix id len : 0 < id <= INT_MAX -> (length prefix + 8 < len)%nat ->
  exists ds, format_devname id len prefix = Some (prefix ++ ds) /\ Forall lower ds /\ (0 < length ds <= 7)%nat /\
    digits_val ds 0 = id /\ scan_devname (prefix ++ ds) (Some prefix) = id.
Proof.
  intros Hid Hlen. unfold format_devname.
  replace (len <=? length prefix + 1)%nat with false by (symmetry; apply Nat.leb_gt; lia).
  rewrite (proj2 (Z.leb_gt _ _)) by lia. cbn [orb].
  destruct (format_loop_spec 7 (len - 1 - length prefix) id []) as (ds & -> & Hl & Hn & Hv); [lia| |].
  { split; [lia|]. change (upto 7) with 8353082582. unfold INT_MAX in Hid. lia. }
  exists ds. rewrite app_nil_r. split_and!; [done|done|lia|lia|done|].
  unfold scan_devname. rewrite (proj2 (prefixb_spec _ _) (ex_intro _ ds eq_refl)) || rewrite prefixb_app. cbn [negb].
  rewrite length_app. replace (length prefix + length ds =? length prefix)%nat with false by (symmetry; apply Nat.eqb_neq; lia).
  replace (length prefix + 7 <? length prefix + length ds)%nat with false by (symmetry; apply Nat.ltb_ge; lia).
  rewrite drop_app_length, scan_loop_digits; [done|done|lia|lia].
Qed.

(** user-friendly names and numbers correspond one to one: every number an
    int can hold is printed as a name that is read back as the number, and every
    name with a number is the one that is printed for it. *)
Theorem devname_roundtrip prefix len : (length prefix + 8 < len)%nat ->
  (forall id, 0 < id <= INT_MAX -> exists name, format_devname id len prefix = Some name /\
     scan_devname name (Some prefix) = id) /\
  (forall name, no_chars blanks name -> let id := scan_devname name (Some prefix) in
     0 < id -> format_devname id len prefix = Some name).
Proof.
  intros Hlen. split.
  - intros id Hid. destruct (format_scan prefix id len Hid Hlen) as (ds & H & _ & _ & _ & Hs). eauto.
  - intros name Hb id Hid.
    assert (exists ds, name = prefix ++ ds /\ Forall lower ds /\ digits_val ds 0 = id) as (ds & -> & Hl & Hv).
    { revert Hid. unfold id, scan_devname. destruct (prefixb prefix name) eqn:Hp; [|cbn; lia].
      apply prefixb_spec in Hp as [ds ->]. cbn [negb]. apply Forall_app in Hb as [_ Hb].
      do 2 (match goal with |- context [if ?b then _ else _] => destruct b end; [lia|]).
      rewrite drop_app_length. intros Hid. destruct (scan_loop_inv ds 0 _ eq_refl) as (A & B & _); [lia|unfold INT_MAX; lia|done|].
      by exists ds. }
    destruct (format_scan prefix id len) as (ds' & -> & Hl' & _ & Hv' & _); [|done|].
    + split; [done|]. apply scan_devname_range.
    + do 2 f_equal. apply digits_val_inj; [done|done|congruence].
Qed.

(** ** Free numbers *)

Definition used_ids (prefix : option cstr) (lines : list cstr) : list Z :=
  omap (fun line => '(alias, _) ← line_entry line; Some (scan_devname alias prefix)) lines.

Definition binds (map_wwid : cstr) (line : cstr) : bool :=
  match line_entry line with Some (_, Some w) => streq w map_wwid | _ => false end.

(** The state of the search after the numbers [used]. *)
Record seen (used : list Z) (i : ids) : Prop := {
  seen_id : 1 <= l_id i <= INT_MAX;
  seen_below : forall k, 1 <= k < l_id i -> k ∈ used;
  seen_split : forall k, k ∈ used -> k < l_id i \/ l_smallest_bigger i <= k;
  seen_most : forall k, k ∈ used -> k <= l_biggest i;
  seen_biggest : l_biggest i = 1 \/ l_biggest i ∈ used;
  seen_pos : 1 <= l_biggest i <= INT_MAX }.

Lemma seen_start : seen [] {| l_id := 1; l_biggest := 1; l_smallest_bigger := INT_MAX |}.
Proof. split; cbn; [unfold INT_MAX; lia|lia|by intros k ?%elem_of_nil|by intros k ?%elem_of_nil|by left|unfold INT_MAX; lia]. Qed.

Lemma seen_step used i cur : seen used i -> -1 <= cur <= INT_MAX -> cur <> l_id i \/ l_id i < INT_MAX ->
  seen (cur :: used) (see_id cur i).
Proof.
  intros [S1 S2 S3 S4 S5 S6] Hc Hn. unfold see_id. split; cbn [l_id l_biggest l_smallest_bigger].
  - destruct (Z.eqb_spec cur (l_id i)); lia.
  - intros k Hk. destruct (Z.eqb_spec cur (l_id i)) as [->|]; [|right; apply S2; lia].
    destruct (decide (k = l_id i)) as [->|]; [by left|right; apply S2; lia].
  - intros k [->|Hk]%elem_of_cons.
    + destruct (Z.eqb_spec cur (l_id i)); [lia|]. destruct (Z.ltb_spec (l_id i) cur); [|lia].
      destruct (Z.ltb_spec cur (l_smallest_bigger i)); cbn [andb]; lia.
    + specialize (S3 k Hk).
      assert (forall id, l_id i <= id -> k < id \/ (if (id <? cur) && (cur <? l_smallest_bigger i) then cur else l_smallest_bigger i) <= k) as H.
      { intros id Hid. destruct (Z.ltb_spec id cur), (Z.ltb_spec cur (l_smallest_bigger i)); cbn [andb]; lia. }
      apply H. destruct (Z.eqb_spec cur (l_id i)); lia.
  - intros k [->|Hk]%elem_of_cons; [|specialize (S4 k Hk)]; destruct (Z.ltb_spec (l_biggest i) cur); lia.
  - destruct (Z.ltb_spec (l_biggest i) cur); [right; by left|]. destruct S5; [by left|right; by right].
  - destruct (Z.ltb_spec (l_biggest i) cur); lia.
Qed.

(** What a result of the search over [lines] means when [all] numbers were seen. *)
Definition lookup_ok (map_wwid : cstr) (lines : list cstr) (all : list Z) (r : lookup_result) : Prop :=
  match r with
  | FoundAlias a => exists l1 line l2, lines = l1 ++ line :: l2 /\ line_entry line = Some (a, Some map_wwid) /\
                      Forall (fun l => binds map_wwid l = false) l1
  | FreeId id => Forall (fun l => binds map_wwid l = false) lines /\ 0 < id <= INT_MAX /\ (id ∉ all) /\
                 ((forall k, 1 <= k < id -> k ∈ all) \/ (forall k, k ∈ all -> k < id))
  | NoFreeId => INT_MAX ∈ all
  end.

Lemma lookup_ok_skip map_wwid line lines all r : binds map_wwid line = false ->
  lookup_ok map_wwid lines all r -> lookup_ok map_wwid (line :: lines) all r.
Proof.
  intros Hb. destruct r as [a|id|]; cbn; [|intros [H1 H2]; by split; [constructor|]|done].
  intros (l1 & l & l2 & -> & Hl & HF). exists (line :: l1), l, l2. by split_and!; [| |constructor].
Qed.

Lemma lookup_end map_wwid prefix used i : seen used i -> lookup_ok map_wwid [] used (lookup_loop [] map_wwid prefix i).
Proof.
  intros [S1 S2 S3 S4 S5 S6]. cbn [lookup_loop].
  destruct (Z.leb_spec (l_smallest_bigger i) (l_id i)) as [Hb|Hb].
  - destruct (Z.ltb_spec (l_biggest i) INT_MAX) as [Hi|Hi]; cbn.
    + split_and!; [constructor|lia|lia|intros Hin%S4; lia|]. right. intros k Hk%S4. lia.
    + replace INT_MAX with (l_biggest i) by lia. destruct S5 as [H5|]; [unfold INT_MAX in *; lia|done].
  - split_and!; [constructor|lia|lia|intros Hin%S3; lia|]. by left.
Qed.

Lemma lookup_loop_spec map_wwid prefix lines : forall used i, seen used i ->
  lookup_ok map_wwid lines (reverse (used_ids prefix lines) ++ used) (lookup_loop lines map_wwid prefix i).
Proof.
  induction lines as [|line r IH]; intros used i HS; [by apply lookup_end|]. cbn [lookup_loop].
  destruct (line_entry line) as [[alias wwid]|] eqn:He.
  2: { assert (used_ids prefix (line :: r) = used_ids prefix r) as -> by (unfold used_ids; cbn; by rewrite He).
       apply lookup_ok_skip; [unfold binds; by rewrite He|by apply IH]. }
  pose proof (scan_devname_range alias prefix) as Hr. set (cur := scan_devname alias prefix) in *.
  assert (used_ids prefix (line :: r) = cur :: used_ids prefix r) as -> by (unfold used_ids; cbn; by rewrite He).
  rewrite reverse_cons, <-(assoc_L (++)). cbn [app].
  destruct ((cur =? l_id i) && (INT_MAX <=? l_id i)) eqn:Hlast.
  { apply andb_true_iff in Hlast as [H1%Z.eqb_eq H2%Z.leb_le]. pose proof (seen_id _ _ HS).
    cbn. replace INT_MAX with cur by lia. apply elem_of_app. right. by left. }
  assert (seen (cur :: used) (see_id cur i)) as HS'.
  { apply seen_step; [done|done|]. apply andb_false_iff in Hlast as [H%Z.eqb_neq|H%Z.leb_gt]; lia. }
  specialize (IH _ _ HS'). destruct wwid as [w|]; [|apply lookup_ok_skip; [unfold binds; by rewrite He|done]].
  destruct (streq w map_wwid) eqn:Hw; [|apply lookup_ok_skip; [unfold binds; by rewrite He|done]].
  apply streq_eq in Hw as ->. by exists [], line, r.
Qed.

Lemma lookup_binding_ok text wwid prefix :
  lookup_ok wwid (file_lines LINE_MAX text) (used_ids prefix (file_lines LINE_MAX text)) (lookup_binding text wwid prefix).
Proof.
  pose proof (lookup_loop_spec wwid prefix (file_lines LINE_MAX text) [] _ seen_start) as H. rewrite app_nil_r in H.
  unfold lookup_binding. destruct (lookup_loop _ _ _ _); [done| |].
  - unfold lookup_ok in *. setoid_rewrite elem_of_reverse in H. done.
  - by apply elem_of_reverse.
Qed.

(** looking up a WWID in the bindings file gives the alias of its first
    binding, or, when it has none, a number that no alias of the file uses: the
    smallest one, or, when the numbers of the file are not in order, possibly
    the one after the biggest.  There is no free number only when the biggest an
    int can hold is used. *)
Theorem lookup_binding_free text wwid prefix :
  let lines := file_lines LINE_MAX text in
  match lookup_binding text wwid prefix with
  | FoundAlias a => exists l1 line l2, lines = l1 ++ line :: l2 /\ line_entry line = Some (a, Some wwid) /\
                      Forall (fun l => binds wwid l = false) l1
  | FreeId id => Forall (fun l => binds wwid l = false) lines /\ 0 < id <= INT_MAX /\ (id ∉ used_ids prefix lines) /\
                 ((forall k, 1 <= k < id -> k ∈ used_ids prefix lines) \/ (forall k, k ∈ used_ids prefix lines -> k < id))
  | NoFreeId => INT_MAX ∈ used_ids prefix lines
  end.
Proof.
  exact (lookup_binding_ok text wwid prefix).
Qed.

(** What can be one word of a line. *)
Definition word (a : cstr) : Prop := no_chars (blanks ++ line_end) a.

Lemma word_parts a : word a -> no_chars blanks a /\ no_chars line_end a /\ (10 ∉ a) /\ 32 ∉ a.
Proof.
  unfold word, no_chars. rewrite !Forall_forall. intros H.
  assert (forall c, c ∈ a -> in_set blanks c = false /\ in_set line_end c = false) as H2.
  { intros c Hc. specialize (H c Hc). unfold in_set in *. by rewrite existsb_app, orb_false_iff in H. }
  split_and!; [by intros c [? _]%H2|by intros c [_ ?]%H2| |]; intros [Ha Hb]%H2.
  - vm_compute in Hb. done.
  - vm_compute in Ha. done.
Qed.

Lemma new_line_entry name wwid : word name -> name <> [] -> word wwid -> wwid <> [] ->
  line_entry (name ++ 32 :: wwid ++ [10]) = Some (name, Some wwid).
Proof.
  intros (N1 & N2 & _)%word_parts Hn (W1 & W2 & _)%word_parts Hw. unfold line_entry.
  replace (name ++ 32 :: wwid ++ [10]) with ((name ++ 32 :: wwid) ++ 10 :: []) by by rewrite <-(assoc_L (++)).
  rewrite cut_at_app; [|apply Forall_app; split; [done|by constructor]|done].
  rewrite strtok_r_exact by done. cbn [mbind option_bind]. by rewrite strtok_r_last.
Qed.

Lemma lower_word ds : Forall lower ds -> word ds.
Proof.
  intros H. eapply Forall_impl; [exact H|]. intros c [H1 H2]. unfold in_set, blanks, line_end. cbn.
  by rewrite !(proj2 (Z.eqb_neq _ _)) by lia.
Qed.

(** *** Searching a longer file *)

Lemma lookup_loop_found lines rest map_wwid prefix a : forall i,
  lookup_loop lines map_wwid prefix i = FoundAlias a -> lookup_loop (lines ++ rest) map_wwid prefix i = FoundAlias a.
Proof.
  induction lines as [|line r IH]; intros i H; cbn [lookup_loop app] in *.
  { repeat (match type of H with context [if ?b then _ else _] => destruct b end; try done). }
  destruct (line_entry line) as [[alias wwid]|]; [|by apply IH].
  destruct (_ && _); [done|]. destruct wwid as [w|]; [|by apply IH]. destruct (streq w map_wwid); [done|by apply IH].
Qed.

Lemma lookup_loop_free lines map_wwid prefix id : forall i, l_id i <= INT_MAX ->
  lookup_loop lines map_wwid prefix i = FreeId id ->
  exists i', l_id i' <= l_id i + Z.of_nat (length lines) /\
    forall rest, lookup_loop (lines ++ rest) map_wwid prefix i = lookup_loop rest map_wwid prefix i'.
Proof.
  induction lines as [|line r IH]; intros i Hi H; [exists i; split; [cbn; lia|done]|].
  cbn [lookup_loop app length] in *.
  destruct (line_entry line) as [[alias wwid]|].
  2: { destruct (IH i Hi H) as (i' & H1 & H2). exists i'. split; [lia|exact H2]. }
  set (cur := scan_devname alias prefix) in *.
  destruct ((cur =? l_id i) && (INT_MAX <=? l_id i)) eqn:Hl; [done|].
  assert (l_id (see_id cur i) <= l_id i + 1 /\ l_id (see_id cur i) <= INT_MAX) as [H1 H2].
  { unfold see_id. cbn [l_id]. destruct (Z.eqb_spec cur (l_id i)); [|lia]. cbn [andb] in Hl. apply Z.leb_gt in Hl. lia. }
  assert (lookup_loop r map_wwid prefix (see_id cur i) = FreeId id) as Hr.
  { destruct wwid as [w|]; [|done]. by destruct (streq w map_wwid). }
  destruct (IH _ H2 Hr) as (i' & H3 & H4). exists i'. split; [lia|]. intros rest. rewrite <-H4.
  destruct wwid as [w|]; [|done]. by destruct (streq w map_wwid).
Qed.

Lemma rlookup_loop_app lines rest alias :
  rlookup_loop (lines ++ rest) alias = match rlookup_loop lines alias with Some w => Some w | None => rlookup_loop rest alias end.
Proof.
  induction lines as [|line r IH]; [done|]. cbn [rlookup_loop app].
  destruct (line_entry line) as [[a [w|]]|]; [|done..]. destruct (_ <? _); [done|]. by destruct (streq a alias).
Qed.

Lemma rlookup_unused prefix lines alias : scan_devname alias prefix ∉ used_ids prefix lines -> rlookup_loop lines alias = None.
Proof.
  induction lines as [|line r IH]; intros H; [done|]. cbn [rlookup_loop].
  destruct (line_entry line) as [[a wwid]|] eqn:He.
  - assert (used_ids prefix (line :: r) = scan_devname a prefix :: used_ids prefix r) as Hu
      by (unfold used_ids; cbn; by rewrite He).
    rewrite Hu in H. apply not_elem_of_cons in H as [Hne H]. specialize (IH H).
    destruct wwid as [w|]; [|done]. destruct (_ <? _); [done|]. destruct (streq a alias) eqn:Ha; [|done].
    apply streq_eq in Ha as ->. done.
  - apply IH. by unfold used_ids in *; cbn in H; rewrite He in H.
Qed.

(** What a new binding does to the file. *)
Lemma allocate_spec o text wwid id prefix a text' : allocate_binding o text wwid id prefix = (Some a, text') ->
  ends_line text -> word wwid -> wwid <> [] -> word prefix -> (length prefix + 8 < LINE_MAX)%nat -> id <= INT_MAX ->
  scan_devname a (Some prefix) = id /\
  exists line, file_lines LINE_MAX text' = file_lines LINE_MAX text ++ [line] /\ line_entry line = Some (a, Some wwid).
Proof.
  intros H Hend Hw Hwn Hp Hlen Hid. unfold allocate_binding in H.
  destruct (Z.leb_spec id 0) as [|Hpos]; [done|].
  destruct (format_scan prefix id LINE_MAX ltac:(lia) Hlen) as (ds & Hf & Hl & Hn & _ & Hs). rewrite Hf in H.
  set (name := prefix ++ ds) in *. destruct (Nat.leb_spec (LINE_MAX - length name) (length wwid + 2)) as [|Hroom]; [done|].
  destruct (io_seek o && io_write o text); [|done].
  assert (word name) as Hname by (apply Forall_app; split; [done|by apply lower_word]).
  assert (name <> []) as Hnn.
  { intros Hnil. apply (f_equal length) in Hnil. unfold name in Hnil. rewrite length_app in Hnil. cbn in Hnil. lia. }
  destruct (word_parts name Hname) as (_ & _ & H10 & H32). destruct (word_parts wwid Hw) as (_ & _ & W10 & _).
  rewrite cut_at_app in H; [|apply Forall_forall; intros c Hc|done].
  2: { unfold in_set. cbn. rewrite orb_false_r. apply Z.eqb_neq. by intros ->. }
  injection H as <- <-. split; [exact Hs|]. exists (name ++ 32 :: wwid ++ [10]). split; [|by apply new_line_entry].
  rewrite file_lines_app; [|unfold LINE_MAX; lia|done]. f_equal.
  replace (name ++ 32 :: wwid ++ [10]) with ((name ++ 32 :: wwid) ++ [10]) by by rewrite <-(assoc_L (++)).
  apply one_line; [unfold LINE_MAX; lia|rewrite length_app; cbn [length]; lia|].
  rewrite elem_of_app, elem_of_cons. intros [?|[?|?]]; done.
Qed.

Lemma header_ends : last BINDINGS_FILE_HEADER = Some 10.
Proof. vm_compute. reflexivity. Qed.

Lemma opened_lookup text wwid prefix b : lookup_binding text wwid prefix = FoundAlias b ->
  lookup_binding (opened BINDINGS_FILE_HEADER text) wwid prefix = FoundAlias b.
Proof. by destruct text. Qed.

Lemma opened_rlookup text alias w : rlookup_binding text alias = Some w -> rlookup_binding (opened BINDINGS_FILE_HEADER text) alias = Some w.
Proof. by destruct text. Qed.


(** ** Checking the bindings *)

(** The first binding of an alias. *)
Fixpoint assoc (alias : cstr) (bs : list binding) : option cstr :=
  match bs with
  | [] => None
  | b :: r => if streq (fst b) alias then Some (snd b) else assoc alias r
  end.

Definition before (b b' : binding) : Prop := strcmp (fst b) (fst b') < 0.

Lemma assoc_app alias l1 l2 : assoc alias (l1 ++ l2) = match assoc alias l1 with Some w => Some w | None => assoc alias l2 end.
Proof. induction l1 as [|b l IH]; cbn; [done|]. by destruct (streq _ _). Qed.

Lemma assoc_none alias bs : Forall (fun b => fst b <> alias) bs -> assoc alias bs = None.
Proof.
  induction 1 as [|b l Hb _ IH]; [done|]. cbn [assoc]. destruct (streq (fst b) alias) eqn:H; [|done].
  by apply streq_eq in H.
Qed.

Lemma strcmp_ne a b : strcmp a b <> 0 -> a <> b.
Proof. intros H ->. by rewrite strcmp_refl in H. Qed.

(** The aliases are C strings, in strictly ascending order. *)
Record tidy (bs : list binding) : Prop := {
  tidy_sorted : StronglySorted before bs;
  tidy_strings : Forall (fun b => nul_free (fst b)) bs }.

Definition lt_alias (alias : cstr) (b : binding) : Prop := strcmp (fst b) alias < 0.
Definition gt_alias (alias : cstr) (b : binding) : Prop := 0 < strcmp (fst b) alias.

(** What adding a binding gives. *)
Definition added (bs : list binding) (alias wwid : cstr) (r : binding_result) (bs' : list binding) : Prop :=
  match assoc alias bs with
  | Some w => bs' = bs /\ r = if streq w wwid then BINDING_EXISTS else BINDING_CONFLICT
  | None => r = BINDING_ADDED /\ exists l1 l2, bs = l1 ++ l2 /\ bs' = l1 ++ (alias, wwid) :: l2 /\
      Forall (lt_alias alias) l1 /\ Forall (gt_alias alias) l2
  end.

Lemma gt_none alias bs : Forall (gt_alias alias) bs -> assoc alias bs = None.
Proof. intros H. apply assoc_none. eapply Forall_impl; [exact H|]. intros b Hb. apply strcmp_ne. unfold gt_alias in Hb. lia. Qed.

Lemma lt_none alias bs : Forall (lt_alias alias) bs -> assoc alias bs = None.
Proof. intros H. apply assoc_none. eapply Forall_impl; [exact H|]. intros b Hb. apply strcmp_ne. unfold lt_alias in Hb. lia. Qed.

Lemma tidy_below l1 b l2 : tidy (l1 ++ b :: l2) -> Forall (lt_alias (fst b)) l1.
Proof.
  intros [HS _]. apply Forall_forall. intros b' Hb'.
  apply (StronglySorted_app_1_elem_of before l1 (b :: l2) b' b HS Hb'). by left.
Qed.

(** Where the search backwards stops. *)
Lemma add_loop_spec rbs : forall after alias wwid, Forall (gt_alias alias) after -> nul_free alias ->
  tidy (reverse rbs ++ after) ->
  added (reverse rbs ++ after) alias wwid (fst (add_loop rbs after alias wwid)) (snd (add_loop rbs after alias wwid)).
Proof.
  induction rbs as [|b rbs IH]; intros after alias wwid Ha Hn HT; cbn [add_loop]; unfold added.
  - change (reverse []) with (@nil binding). cbn [app fst snd]. rewrite gt_none by done. split; [done|]. by exists [], after.
  - assert (reverse (b :: rbs) ++ after = reverse rbs ++ b :: after) as Heq by (rewrite reverse_cons, <-(assoc_L (++)); done).
    rewrite Heq in *. pose proof (tidy_below _ _ _ HT) as Hlt.
    assert (nul_free (fst b)) as Hb by (pose proof (tidy_strings _ HT) as H; by apply Forall_app in H as [_ H%Forall_inv]).
    destruct (Z.leb_spec (strcmp (fst b) alias) 0) as [Hle|Hgt]; [|by apply IH; [constructor|done|]].
    destruct (Z.eqb_spec (strcmp (fst b) alias) 0) as [Hz|Hz]; cbn [fst snd].
    + apply strcmp_eq in Hz as <-; [|done|done]. rewrite assoc_app, lt_none by done. cbn [assoc]. by rewrite streq_refl.
    + assert (Forall (lt_alias alias) (reverse rbs ++ [b])) as Hlt'.
      { apply Forall_app. split; [|constructor; [unfold lt_alias; lia|done]].
        pose proof (tidy_strings _ HT) as HF. apply Forall_app in HF as [HF _]. rewrite Forall_forall in HF, Hlt.
        apply Forall_forall. intros b' Hb'. eapply strcmp_lt_trans; [by apply HF|exact Hb|exact Hn|by apply Hlt|lia]. }
      assert (reverse rbs ++ b :: after = (reverse rbs ++ [b]) ++ after) as -> by by rewrite <-(assoc_L (++)).
      rewrite assoc_app, lt_none, gt_none by done. split; [done|]. exists (reverse rbs ++ [b]), after.
      by rewrite reverse_cons.
Qed.

Lemma add_binding_spec bs alias wwid : tidy bs -> nul_free alias ->
  added bs alias wwid (fst (add_binding bs alias wwid)) (snd (add_binding bs alias wwid)).
Proof.
  intros HT Hn. pose proof (add_loop_spec (reverse bs) [] alias wwid (Forall_nil_2 _) Hn) as H.
  rewrite reverse_involutive, app_nil_r in H. exact (H HT).
Qed.

Lemma added_tidy bs alias wwid r bs' : added bs alias wwid r bs' -> tidy bs -> nul_free alias -> tidy bs'.
Proof.
  unfold added. intros H HT Hn. destruct (assoc alias bs); [by destruct H as [-> _]|].
  destruct H as (_ & l1 & l2 & -> & -> & H1 & H2). destruct HT as [HS HF]. split.
  - apply StronglySorted_app in HS as (H12 & HS1 & HS2). rewrite Forall_forall in H1, H2.
    apply StronglySorted_app. split_and!; [|done|].
    + intros x y Hx [->|Hy]%elem_of_cons; [by apply H1|by apply H12].
    + constructor; [done|]. apply Forall_forall. intros y Hy. unfold before. cbn [fst].
      specialize (H2 y Hy). unfold gt_alias in H2. rewrite (strcmp_antisym (fst y) alias). lia.
  - apply Forall_app in HF as [HF1 HF2]. apply Forall_app. split; [done|]. by constructor.
Qed.

Lemma added_assoc bs alias wwid r bs' b : added bs alias wwid r bs' ->
  assoc b bs' = match assoc b bs with Some w => Some w | None => if streq alias b then Some wwid else None end.
Proof.
  unfold added. destruct (assoc alias bs) as [w|] eqn:Ha.
  - intros [-> _]. destruct (assoc b bs) eqn:Hb; [done|]. destruct (streq alias b) eqn:He; [|done].
    apply streq_eq in He as ->. congruence.
  - intros (_ & l1 & l2 & -> & -> & H1 & H2). rewrite !assoc_app. cbn [assoc fst snd]. rewrite assoc_app in Ha.
    destruct (streq alias b) eqn:He; [|by destruct (assoc b l1), (assoc b l2)]. apply streq_eq in He as <-.
    by rewrite lt_none, gt_none.
Qed.

(** *** The lines of a file *)

Definition entries (lines : list cstr) : list binding :=
  omap (fun line => match line_entry line with Some (a, Some w) => Some (a, w) | _ => None end) lines.

(** The words of a binding. *)
Definition wordy (b : binding) : Prop := word (fst b) /\ fst b <> [] /\ word (snd b) /\ snd b <> [].

Lemma cut_at_no_chars set a : no_chars set (cut_at set a).
Proof.
  unfold cut_at. destruct (span _ a) as [p r] eqn:H. apply no_chars_neg. by eapply span_all.
Qed.

Lemma cut_at_sub set a : cut_at set a ⊆ a.
Proof. unfold cut_at. destruct (span _ a) as [p r] eqn:H. apply span_app in H as ->. cbn [fst]. set_solver. Qed.

Lemma strtok_r_sub delim a tok rest : strtok_r delim a = Some (tok, rest) -> tok ⊆ a /\ rest ⊆ a.
Proof.
  unfold strtok_r. destruct (span _ a) as [p b] eqn:E; cbn [snd]. destruct b as [|x b]; [done|].
  apply span_app in E as ->. destruct (span _ (x :: b)) as [t r] eqn:E2. intros ?; simplify_eq.
  apply span_app in E2. rewrite E2. split; [set_solver|]. destruct r; set_solver.
Qed.

Lemma no_chars_sub set a b : a ⊆ b -> no_chars set b -> no_chars set a.
Proof. unfold no_chars. rewrite !Forall_forall. auto. Qed.

Lemma word_intro a : no_chars blanks a -> no_chars line_end a -> word a.
Proof.
  unfold word, no_chars. rewrite !Forall_forall. intros H1 H2 c Hc. specialize (H1 c Hc). specialize (H2 c Hc).
  unfold in_set in *. by rewrite existsb_app, H1, H2.
Qed.

Lemma line_entry_wordy line a w : line_entry line = Some (a, Some w) -> wordy (a, w) /\ a ⊆ line.
Proof.
  unfold line_entry. pose proof (cut_at_no_chars line_end line) as Hc. pose proof (cut_at_sub line_end line) as Hs.
  set (c := cut_at line_end line) in *. destruct (strtok_r blanks c) as [[t1 r1]|] eqn:H1; [|done].
  cbn [mbind option_bind]. destruct (strtok_r blanks r1) as [[t2 r2]|] eqn:H2; [|done].
  cbn [fmap option_fmap option_map fst]. intros [= <- <-].
  destruct (strtok_r_tok _ _ _ _ H1) as [N1 B1]. destruct (strtok_r_tok _ _ _ _ H2) as [N2 B2].
  destruct (strtok_r_sub _ _ _ _ H1) as [S1 S2]. destruct (strtok_r_sub _ _ _ _ H2) as [S3 _].
  split; [|set_solver]. split_and!; [|done| |done]; apply word_intro; try done; (eapply no_chars_sub; [|exact Hc]); set_solver.
Qed.

(** *** Accepting bindings *)

Definition conflicts (mptable : list mpentry) (b : binding) : bool :=
  match get_mpe_wwid mptable (fst b) with Some w => negb (streq w (snd b)) | None => false end.

Definition accepted (mptable : list mpentry) (lines : list cstr) : list binding :=
  filter (fun b => negb (conflicts mptable b)) (entries lines).

(** One alias, one WWID; and that of multipath.conf. *)
Definition consistent (mptable : list mpentry) (bs : list binding) : Prop :=
  (forall a w1 w2, (a, w1) ∈ bs -> (a, w2) ∈ bs -> w1 = w2) /\ Forall (fun b => conflicts mptable b = false) bs.

Record checked (mptable : list mpentry) (bs : list binding) : Prop := {
  ck_tidy : tidy bs; ck_words : Forall wordy bs; ck_conf : Forall (fun b => conflicts mptable b = false) bs }.

Lemma added_forall (P : binding -> Prop) bs alias wwid r bs' : added bs alias wwid r bs' -> Forall P bs -> P (alias, wwid) ->
  Forall P bs'.
Proof.
  unfold added. destruct (assoc alias bs); [by intros [-> _]|]. intros (_ & l1 & l2 & -> & -> & _).
  rewrite !Forall_app, Forall_cons. naive_solver.
Qed.

Lemma check_lines_spec mptable lines : (forall line, line ∈ lines -> nul_free line) -> forall rc bs, checked mptable bs ->
  let '(rc', bs') := foldl (fun '(rc, bs) line => check_line mptable line rc bs) (rc, bs) lines in
  checked mptable bs' /\
  (forall alias, assoc alias bs' = match assoc alias bs with Some w => Some w | None => assoc alias (accepted mptable lines) end) /\
  (rc' = 0 <-> rc = 0 /\ Forall (fun b => conflicts mptable b = false /\ assoc (fst b) bs' = Some (snd b)) (entries lines)) /\
  (rc' = rc \/ rc' = -1).
Proof.
  induction lines as [|line lines IH]; intros Hnf rc bs HC; cbn [foldl].
  { split_and!; [done|intros alias; by destruct (assoc alias bs)| |by left]. split; [by split|by intros [? _]]. }
  assert (forall line, line ∈ lines -> nul_free line) as Hnf' by (intros l Hl; apply Hnf; by right).
  assert (forall line', line_entry line = line' -> entries (line :: lines) =
    match line' with Some (a, Some w) => (a, w) :: entries lines | _ => entries lines end) as He.
  { intros l' Hl'. unfold entries. cbn. rewrite Hl'. by destruct l' as [[a [w|]]|]. }
  unfold check_line at 2. destruct (line_entry line) as [[alias [wwid|]]|] eqn:Hline;
    [|specialize (He _ eq_refl); unfold accepted; rewrite He; by apply (IH Hnf' rc bs HC)..].
  specialize (He _ eq_refl). cbn iota in He. rewrite He.
  destruct (line_entry_wordy line alias wwid Hline) as [Hw Hsub].
  assert (nul_free alias) as Hna by (eapply nul_free_sub; [exact Hsub|apply Hnf; by left]).
  fold (conflicts mptable (alias, wwid)). change (match get_mpe_wwid mptable alias with Some w => negb (streq w wwid) | None => false end)
    with (conflicts mptable (alias, wwid)).
  destruct (conflicts mptable (alias, wwid)) eqn:Hcf.
  - specialize (IH Hnf' (-1) bs HC). destruct (foldl _ (-1, bs) lines) as [rc' bs'].
    destruct IH as (I1 & I2 & I3 & I4). split_and!; [done| | |by right; destruct I4].
    + intros a. rewrite I2. unfold accepted. rewrite He. by rewrite (filter_cons_False _ (alias, wwid)) by (rewrite Hcf; auto).
    + split; [intros H%I3; lia|]. intros [_ H%Forall_inv]. destruct H as [H _]. congruence.
  - pose proof (add_binding_spec bs alias wwid (ck_tidy _ _ HC) Hna) as Hadd.
    destruct (add_binding bs alias wwid) as [r bs1]. cbn [fst snd] in Hadd.
    assert (checked mptable bs1) as HC1.
    { destruct HC. split; [by eapply added_tidy|by eapply added_forall|by eapply added_forall]. }
    set (rc1 := if decide (r = BINDING_CONFLICT) then -1 else rc).
    specialize (IH Hnf' rc1 bs1 HC1). destruct (foldl _ (rc1, bs1) lines) as [rc' bs'].
    destruct IH as (I1 & I2 & I3 & I4).
    assert (forall a, assoc a bs' = match assoc a bs with Some w => Some w | None => assoc a (accepted mptable (line :: lines)) end) as I2'.
    { intros a. rewrite I2, (added_assoc _ _ _ _ _ a Hadd). unfold accepted. rewrite He.
      rewrite filter_cons_True by (by rewrite Hcf). cbn [assoc fst snd]. destruct (assoc a bs); [done|]. by destruct (streq alias a). }
    assert (r = BINDING_CONFLICT <-> assoc alias bs' <> Some wwid) as Hr.
    { rewrite I2, (added_assoc _ _ _ _ _ alias Hadd). unfold added in Hadd. destruct (assoc alias bs) as [w|].
      - destruct Hadd as [_ ->]. destruct (streq w wwid) eqn:Hs; [apply streq_eq in Hs as ->; by split|].
        split; [|done]. intros _ [= ->]. by rewrite streq_refl in Hs.
      - destruct Hadd as [-> _]. rewrite streq_refl. by split. }
    split_and!; [done|done| |unfold rc1 in I4; case_decide; destruct I4; auto].
    rewrite I3, Forall_cons. cbn [fst snd]. unfold rc1. case_decide as Hd.
    + apply Hr in Hd. split; [lia|]. intros (_ & [_ ?] & _). done.
    + split; [intros [? ?]; split_and!; try done|naive_solver]. apply dec_stable. intros ?. by apply Hd, Hr.
Qed.

(** *** Writing the bindings and reading them back *)

Lemma add_last bs alias wwid : tidy (bs ++ [(alias, wwid)]) -> nul_free alias ->
  add_binding bs alias wwid = (BINDING_ADDED, bs ++ [(alias, wwid)]).
Proof.
  intros HT Hn. pose proof (tidy_below bs (alias, wwid) [] HT) as Hlt. cbn [fst] in Hlt.
  assert (tidy bs) as HT'.
  { destruct HT as [HS HF]. split; [by apply StronglySorted_app_1_l in HS|by apply Forall_app in HF as [HF _]]. }
  pose proof (add_binding_spec bs alias wwid HT' Hn) as H. destruct (add_binding bs alias wwid) as [r bs'].
  unfold added in H. cbn [fst snd] in H. rewrite lt_none in H by done.
  destruct H as (-> & l1 & l2 & -> & -> & _ & H2). destruct l2 as [|b l2]; [by rewrite app_nil_r|]. exfalso.
  apply Forall_app in Hlt as [_ Hlt%Forall_inv]. apply Forall_inv in H2. unfold lt_alias, gt_alias in *. lia.
Qed.

Lemma checked_prefix mptable l1 l2 : checked mptable (l1 ++ l2) -> checked mptable l1.
Proof.
  intros [[HS HF] HW HC]. split; [split|..].
  - by apply StronglySorted_app_1_l in HS.
  - by apply Forall_app in HF as [HF _].
  - by apply Forall_app in HW as [HW _].
  - by apply Forall_app in HC as [HC _].
Qed.

Lemma check_written mptable bs : forall done_, checked mptable (done_ ++ bs) ->
  foldl (fun '(rc, bs) line => check_line mptable line rc bs) (0, done_) (binding_line <$> bs) = (0, done_ ++ bs).
Proof.
  induction bs as [|[a w] bs IH]; intros d HC; [by rewrite app_nil_r|]. cbn [foldl fmap list_fmap].
  assert (checked mptable (d ++ [(a, w)])) as HC1.
  { apply (checked_prefix mptable _ bs). by rewrite <-(assoc_L (++)). }
  destruct (HC1) as [HT HW HF]. apply Forall_app in HW as [_ HW%Forall_inv]. apply Forall_app in HF as [_ HF%Forall_inv].
  destruct HW as (W1 & W2 & W3 & W4). cbn [fst snd] in *.
  assert (nul_free a) as Hn by (pose proof (tidy_strings _ HT) as H; by apply Forall_app in H as [_ H%Forall_inv]).
  assert (check_line mptable (binding_line (a, w)) 0 d = (0, d ++ [(a, w)])) as ->.
  { unfold check_line, binding_line. cbn [fst snd]. rewrite new_line_entry by done.
    unfold conflicts in HF. cbn [fst snd] in HF. rewrite HF, add_last by done. by rewrite decide_False. }
  rewrite IH; by rewrite <-(assoc_L (++)).
Qed.

Lemma written_ends bs : ends_line (bs ≫= binding_line).
Proof.
  destruct bs as [|b bs _] using rev_ind; [by left|]. right. rewrite bind_app. cbn. rewrite app_nil_r. unfold binding_line.
  rewrite last_app. replace (last (fst b ++ 32 :: snd b ++ [10])) with (Some 10); [done|].
  by rewrite (app_comm_cons (snd b) [10] 32), !last_app.
Qed.

Lemma written_lines n bs : (2 <= n)%nat -> Forall wordy bs -> Forall (fun b => length (binding_line b) < n)%nat bs ->
  file_lines n (bs ≫= binding_line) = binding_line <$> bs.
Proof.
  intros Hn. induction bs as [|b bs IH] using rev_ind; [done|]. intros HW HL.
  apply Forall_app in HW as [HW Hb%Forall_inv]. apply Forall_app in HL as [HL Hl%Forall_inv].
  rewrite bind_app, fmap_app, file_lines_app by (done || apply written_ends). rewrite IH by done. f_equal.
  cbn. rewrite app_nil_r. destruct Hb as ((_ & _ & A & _)%word_parts & _ & (_ & _ & B & _)%word_parts & _).
  unfold binding_line in *. replace (fst b ++ 32 :: snd b ++ [10]) with ((fst b ++ 32 :: snd b) ++ [10]) in *
    by by rewrite <-(assoc_L (++)).
  apply one_line; [done| |].
  - rewrite length_app in Hl. cbn in Hl. lia.
  - rewrite elem_of_app, elem_of_cons. intros [?|[?|?]]; done.
Qed.

Lemma header_ignored mptable n rc bs : (80 < n)%nat ->
  foldl (fun '(rc, bs) line => check_line mptable line rc bs) (rc, bs) (file_lines n BINDINGS_FILE_HEADER) = (rc, bs).
Proof.
  intros Hn. set (hd := [s "# Multipath bindings, Version : 1.0";
    s "# NOTE: this file is automatically maintained by the multipath program.";
    s "# You should not need to edit this file in normal circumstances."; s "#"; s "# Format:"; s "# alias wwid"; s "#"]).
  assert (file_lines n BINDINGS_FILE_HEADER = (fun l => l ++ [10]) <$> hd) as ->.
  { assert (BINDINGS_FILE_HEADER = hd ≫= (fun l => l ++ [10])) as -> by (vm_compute; reflexivity).
    assert (Forall (fun l : cstr => (length l + 1 < 80)%nat /\ 10 ∉ l) hd) as Hhd by (unfold hd; decide_closed).
    clearbody hd. induction hd as [|l hd IH] using rev_ind; [done|].
    apply Forall_app in Hhd as [Hhd [Hl H10]%Forall_inv].
    rewrite bind_app, fmap_app, file_lines_app; [|lia|].
    - rewrite IH by done. f_equal. cbn. rewrite app_nil_r. apply one_line; [lia|lia|done].
    - destruct hd as [|x hd _] using rev_ind; [by left|]. right. rewrite bind_app. cbn. rewrite app_nil_r.
      by rewrite !last_app. }
  reflexivity.
Qed.

(** *** The entries of multipath.conf *)

Definition full (e : mpentry) : option binding :=
  match mpe_wwid e, mpe_alias e with Some w, Some a => Some (a, w) | _, _ => None end.

Definition bound (mptable : list mpentry) : list binding := omap full mptable.

(** The entry is kept, or loses its alias to an entry with another WWID. *)
Definition kept (mptable' : list mpentry) (e e' : mpentry) : Prop :=
  e' = e \/ mpe_wwid e' = mpe_wwid e /\ mpe_alias e' = None /\
    exists a w w', full e = Some (a, w) /\ (a, w') ∈ bound mptable' /\ w <> w'.

Lemma kept_more l l' e e' : bound l ⊆ bound l' -> kept l e e' -> kept l' e e'.
Proof. intros Hs [?|(? & ? & a & w & w' & ? & ? & ?)]; [by left|right]. split_and!; [done|done|]. exists a, w, w'. auto. Qed.

Lemma entries_spec mptable : Forall (fun e => from_option nul_free True (mpe_alias e)) mptable -> forall done_ bs d0,
  tidy bs -> (forall a w, (a, w) ∈ bound done_ <-> assoc a bs = Some w) -> Forall2 (kept done_) d0 done_ ->
  let '(done', bs') := foldl check_entry (done_, bs) mptable in
  tidy bs' /\ (forall a w, (a, w) ∈ bound done' <-> assoc a bs' = Some w) /\ Forall2 (kept done') (d0 ++ mptable) done'.
Proof.
  induction 1 as [|e mptable He _ IH]; intros d bs d0 HT Hb HK; cbn [foldl]; [by rewrite app_nil_r|].
  assert (d0 ++ e :: mptable = (d0 ++ [e]) ++ mptable) as -> by by rewrite <-(assoc_L (++)).
  assert (forall e', bound (d ++ [e']) = bound d ++ bound [e']) as Happ by (intros e'; apply omap_app).
  unfold check_entry at 2. destruct (mpe_wwid e) as [w|] eqn:Hw; [destruct (mpe_alias e) as [a|] eqn:Ha|].
  - cbn in He. pose proof (add_binding_spec bs a w HT He) as Hadd. destruct (add_binding bs a w) as [r bs1]. cbn [fst snd] in Hadd.
    set (e' := if decide (r = BINDING_CONFLICT) then _ else e).
    assert (bound [e'] = if decide (r = BINDING_CONFLICT) then [] else [(a, w)]) as He'.
    { unfold e', bound. cbn. case_decide; cbn; [done|]. unfold full. by rewrite Hw, Ha. }
    apply IH; [by eapply added_tidy| |].
    + intros b v. rewrite Happ, He', elem_of_app, Hb, (added_assoc _ _ _ _ _ b Hadd). unfold added in Hadd.
      destruct (assoc a bs) as [w0|] eqn:Ha0.
      * destruct Hadd as [_ ->]. destruct (assoc b bs) eqn:Hb0.
        { split; [|by left]. intros [?|Hin]; [done|]. destruct (streq w0 w) eqn:Hs; [|by apply elem_of_nil in Hin].
          cbn in Hin. apply list_elem_of_singleton in Hin as [= -> ->]. apply streq_eq in Hs. congruence. }
        destruct (streq a b) eqn:Hab; [apply streq_eq in Hab as ->; congruence|].
        split; [|done]. intros [?|Hin]; [done|]. case_decide; [by apply elem_of_nil in Hin|].
        apply list_elem_of_singleton in Hin as [= -> ->]. by rewrite streq_refl in Hab.
      * destruct Hadd as [-> _]. rewrite decide_False, list_elem_of_singleton by done.
        destruct (assoc b bs) eqn:Hb0; [split; [intros [?|[= -> ->]]; [done|congruence]|by left]|].
        destruct (streq a b) eqn:Hab; [apply streq_eq in Hab as <-; naive_solver|].
        split; [|done]. intros [?|[= -> ->]]; [done|]. by rewrite streq_refl in Hab.
    + apply Forall2_app.
      * eapply Forall2_impl; [exact HK|]. intros x y. apply kept_more. rewrite Happ. set_solver.
      * constructor; [|constructor]. unfold e'. case_decide as Hd; [right|by left]. split_and!; [done|done|].
        unfold added in Hadd. destruct (assoc a bs) as [w0|] eqn:Ha0; [|by destruct Hadd as [-> _]].
        destruct Hadd as [_ ->]. exists a, w, w0. split_and!; [unfold full; by rewrite Hw, Ha| |].
        { rewrite Happ. apply elem_of_app. left. by apply Hb. }
        intros ->. by rewrite streq_refl in Hd.
  - apply IH; [done| |].
    + intros b v. rewrite Happ, <-Hb. unfold bound at 2. cbn. unfold full. rewrite Hw, Ha. cbn. by rewrite app_nil_r.
    + apply Forall2_app; [|constructor; [by left|constructor]]. eapply Forall2_impl; [exact HK|]. intros x y. apply kept_more.
      rewrite Happ. set_solver.
  - apply IH; [done| |].
    + intros b v. rewrite Happ, <-Hb. unfold bound at 2. cbn. unfold full. rewrite Hw. cbn. by rewrite app_nil_r.
    + apply Forall2_app; [|constructor; [by left|constructor]]. eapply Forall2_impl; [exact HK|]. intros x y. apply kept_more.
      rewrite Happ. set_solver.
Qed.

(** *** The rewritten file *)

Lemma tidy_assoc bs a w : tidy bs -> (a, w) ∈ bs -> assoc a bs = Some w.
Proof.
  intros HT Hin. apply list_elem_of_split in Hin as (l1 & l2 & ->). rewrite assoc_app, lt_none by apply (tidy_below _ _ _ HT).
  cbn [assoc fst snd]. by rewrite streq_refl.
Qed.

Lemma checked_consistent mptable bs : checked mptable bs -> consistent mptable bs.
Proof.
  intros [HT _ HC]. split; [|done]. intros a w1 w2 H1%tidy_assoc H2%tidy_assoc; [congruence|done|done].
Qed.

Lemma entries_app l1 l2 : entries (l1 ++ l2) = entries l1 ++ entries l2.
Proof. apply omap_app. Qed.

Lemma entries_written bs : Forall wordy bs -> entries (binding_line <$> bs) = bs.
Proof.
  induction 1 as [|[a w] bs (W1 & W2 & W3 & W4) _ IH]; [done|].
  trans (entries ([binding_line (a, w)] ++ (binding_line <$> bs))); [done|]. rewrite entries_app, IH. unfold entries, binding_line. cbn [omap list_omap fst snd] in *.
  by rewrite new_line_entry.
Qed.

Lemma line_in_text b bs : b ∈ bs -> (length (binding_line b) <= length (bs ≫= binding_line))%nat.
Proof.
  intros (l1 & l2 & ->)%list_elem_of_split. rewrite bind_app. cbn. rewrite !length_app. lia.
Qed.

Lemma rewritten_lines bs : Forall wordy bs ->
  getlines (BINDINGS_FILE_HEADER ++ (bs ≫= binding_line)) =
  file_lines (S (S (length (BINDINGS_FILE_HEADER ++ (bs ≫= binding_line))))) BINDINGS_FILE_HEADER ++ (binding_line <$> bs).
Proof.
  intros HW. unfold getlines. set (n := S (S _)). assert (2 <= n)%nat as Hn by (unfold n; lia).
  rewrite file_lines_app; [|done|right; vm_compute; reflexivity]. f_equal. apply written_lines; [done|done|].
  apply Forall_forall. intros b Hb%line_in_text. unfold n. rewrite length_app. lia.
Qed.

Lemma header_entries n : (80 < n)%nat -> entries (file_lines n BINDINGS_FILE_HEADER) = [].
Proof.
  intros Hn. pose proof (header_ignored [] n 0 [] Hn) as H. revert H.
  assert (forall line, line ∈ file_lines n BINDINGS_FILE_HEADER -> nul_free line) as Hnf.
  { intros line Hl. eapply nul_free_sub; [eapply file_lines_sub; [|exact Hl]; lia|]. unfold nul_free. decide_closed. }
  pose proof (check_lines_spec [] _ Hnf 0 [] ltac:(split; [split|..]; constructor)) as Hs.
  destruct (foldl _ _ _) as [rc bs]. intros [= -> ->]. destruct Hs as (_ & _ & [H _] & _).
  destruct (entries _) as [|b l]; [done|]. by destruct (H eq_refl) as (_ & [_ ?]%Forall_inv).
Qed.

Lemma rewritten_spec mptable bs : checked mptable bs ->
  let text := BINDINGS_FILE_HEADER ++ (bs ≫= binding_line) in
  entries (getlines text) = bs /\ check_bindings_file mptable text = (0, bs).
Proof.
  intros HC. pose proof (ck_words _ _ HC) as HW. cbn zeta. unfold check_bindings_file. rewrite rewritten_lines by done.
  set (n := S (S _)). assert (80 < n)%nat as Hn.
  { unfold n. rewrite length_app. assert (80 < length BINDINGS_FILE_HEADER)%nat by (vm_compute; lia). lia. }
  split.
  - by rewrite entries_app, header_entries, entries_written.
  - by rewrite foldl_app, header_ignored, check_written.
Qed.

(** What the check of a file answers. *)
Lemma check_file_spec mptable text : nul_free text ->
  let '(rc, bs) := check_bindings_file mptable text in
  checked mptable bs /\ (forall alias, assoc alias bs = assoc alias (accepted mptable (getlines text))) /\
  (rc = 0 \/ rc = -1) /\
  (rc = 0 -> consistent mptable (entries (getlines text)) /\ accepted mptable (getlines text) = entries (getlines text)).
Proof.
  intros Hnf. unfold check_bindings_file.
  assert (forall line, line ∈ getlines text -> nul_free line) as Hl.
  { intros line Hl. eapply nul_free_sub; [eapply file_lines_sub; [|exact Hl]; lia|done]. }
  pose proof (check_lines_spec mptable _ Hl 0 [] ltac:(split; [split|..]; constructor)) as H.
  destruct (foldl _ _ _) as [rc bs]. destruct H as (H1 & H2 & [H3 _] & H4). split_and!; [done|exact H2|done|].
  intros [_ HF]%H3. rewrite Forall_forall in HF. split; [split|].
  - intros a w1 w2 [_ E1]%HF [_ E2]%HF. cbn [fst snd] in *. congruence.
  - apply Forall_forall. by intros b [? _]%HF.
  - apply filter_all, Forall_forall. by intros b [-> _]%HF.
Qed.

Lemma write_lines_spec o bs : forall text new, write_lines o text bs = Some new -> new = text ++ (bs ≫= binding_line).
Proof.
  induction bs as [|b bs IH]; intros text new; cbn [write_lines]; [intros [= <-]; cbn; by rewrite app_nil_r|].
  destruct (_ <=? _)%nat; [done|]. destruct (io_write o text); [|done]. intros ->%IH. by rewrite <-(assoc_L (++)).
Qed.


(** ** The theorems on concrete inputs *)

#[export] Instance word_dec a : Decision (word a).
Proof. unfold word, no_chars. apply _. Defined.

Definition bindings_ab : cstr := BINDINGS_FILE_HEADER ++ s "mpatha 36001" ++ [10] ++ s "mpathc 36003" ++ [10].

Lemma devname_roundtrip_witness :
  (length (s "mpath") + 8 < LINE_MAX)%nat /\ format_devname 27 LINE_MAX (s "mpath") = Some (s "mpathaa").
Proof.
  assert (length (s "mpath") + 8 < LINE_MAX)%nat as H by (vm_compute; lia). split; [done|].
  destruct (devname_roundtrip (s "mpath") LINE_MAX H) as [_ H2].
  apply (H2 (s "mpathaa")); [unfold no_chars; decide_closed|vm_compute; reflexivity].
Defined.


