(* ===== verification/Wwids.v ===== *)
(** * libmultipath/wwids.c: the file of known WWIDs and the failed WWIDs

    The file is a text (see File); the directory of failed WWIDs is the set of
    its names.  [should_multipath] is in Coalesce. *)

From S2P Require Import Prelude CString Util Structs File.

Definition WWIDS_FILE_HEADER : cstr :=
  s "# Multipath wwids, Version : 1.0" ++ [10] ++
  s "# NOTE: This file is automatically maintained by multipath and multipathd." ++ [10] ++
  s "# You should not need to edit this file in normal circumstances." ++ [10] ++
  s "#" ++ [10] ++ s "# Valid WWIDs:" ++ [10].

(** ** Looking up *)

(** How reading an entry ends: the WWID is found, the file ends, or the rest of
    the line is to be skipped. *)
Inductive scan_result := Hit | Eof | Next (rest : cstr).

(** [wwid] is what is still to be compared.  A character of the WWID is a
    (signed) char and that of the file an unsigned one, so only ASCII matches. *)
Fixpoint scan_entry (text wwid : cstr) (count : Z) : scan_result :=
  match text with
  | [] => Eof
  | c :: r =>
      if c =? 47 then match wwid with [] => Hit | _ => Next r end
      else if WWID_SIZE - 1 <=? count then Next r
      else match wwid with
           | [] => Next r
           | x :: wr => if (c =? x) && isascii x then scan_entry r wr (count + 1) else Next r
           end
  end.

Fixpoint wwid_loop (fuel : nat) (text wwid : cstr) : bool :=
  match fuel, text with
  | S f, c :: r =>
      match (if c =? 47 then scan_entry r wwid 0 else Next r) with
      | Hit => true
      | Eof => false
      | Next [] => false
      | Next rest => wwid_loop f (snd (fgets LINE_MAX rest)) wwid
      end
  | _, _ => false
  end.

(** Each round reads a character. *)
Definition lookup_wwid (text wwid : cstr) : bool := wwid_loop (length text) text wwid.

(** ** Writing *)

Definition wwid_line (wwid : cstr) : cstr := 47 :: wwid ++ [47; 10].

Definition write_out_wwid (o : io) (text wwid : cstr) : Z * cstr :=
  if WWID_SIZE + 3 <=? strlen (wwid_line wwid) then (-1, text)
  else if io_seek o && io_write o text then (1, text ++ wwid_line wwid) else (-1, text).

Fixpoint write_wwids (o : io) (text : cstr) (wwids : list cstr) : Z * cstr :=
  match wwids with
  | [] => (0, text)
  | w :: r => let '(rc, text) := write_out_wwid o text w in
              if rc <? 0 then (-1, text) else write_wwids o text r
  end.

(** [mp] gives the WWIDs of the maps. *)
Definition replace_wwids (o : io) (text : cstr) (mp : list cstr) : Z * cstr :=
  match open_file o WWIDS_FILE_HEADER text with
  | None => (-1, text)
  | Some (can_write, text) =>
      if negb can_write || negb (io_truncate o) then (-1, text)
      else if negb (io_seek o && io_write o []) then (-1, [])
      else write_wwids o WWIDS_FILE_HEADER mp
  end.

(** [None] when the loop goes on for ever. *)
Definition do_remove_wwid (o : io) (text str : cstr) : option (Z * cstr) :=
  r ← scan_file o text (fun buf => strstr buf str);
  Some match r with
       | ReadError => (-1, text)
       | NotFound => (1, text)
       | FoundAt start p => if io_write o text then (0, <[(start + p)%nat := 35]> text) else (-1, text)
       end.

Definition remove_wwid (o : io) (text wwid : cstr) : option (Z * cstr) :=
  let str := wwid_line wwid in
  match open_file o WWIDS_FILE_HEADER text with
  | None => Some (-1, text)
  | Some (can_write, text) => if negb can_write then Some (-1, text) else do_remove_wwid o text str
  end.

Definition check_wwids_file (o : io) (text wwid : cstr) (write_wwid : bool) : Z * cstr :=
  match open_file o WWIDS_FILE_HEADER text with
  | None => (-1, text)
  | Some (can_write, text) =>
      if negb (io_fdopen o) then (-1, text)
      else if lookup_wwid text wwid then (0, text)
      else if negb write_wwid || negb can_write || negb (io_flush o) then (-1, text)
      else write_out_wwid o text wwid
  end.

Definition remember_wwid (o : io) (text wwid : cstr) : Z * cstr :=
  let '(ret, text) := check_wwids_file o text wwid true in
  (if ret <? 0 then -1 else ret, text).

(** ** Failed WWIDs *)

Inductive wwid_result :=
  WWID_IS_NOT_FAILED | WWID_IS_FAILED | WWID_FAILED_UNCHANGED | WWID_FAILED_CHANGED | WWID_FAILED_ERROR.

Definition shm_dir : cstr := s "/dev/shm/multipath/failed_wwids".

(** [dir] holds the names of the directory, [None] when there is none;
    [sys_ok] tells whether a system call on it works. *)
Definition is_failed_wwid (sys_ok : bool) (dir : option (gset cstr)) (wwid : cstr) : wwid_result :=
  if PATH_MAX <=? strlen (shm_dir ++ 47 :: wwid) then WWID_FAILED_ERROR
  else if negb sys_ok then WWID_FAILED_ERROR
  else if bool_decide (wwid ∈ default ∅ dir) then WWID_IS_FAILED else WWID_IS_NOT_FAILED.

(** [mkdir_ok], [create_ok], [link_ok] and [unlink_ok]: what the calls answer
    when the names allow them. *)
Definition mark_failed_wwid (mkdir_ok create_ok link_ok unlink_ok : bool) (pid : Z)
    (dir : option (gset cstr)) (wwid : cstr) : wwid_result * option (gset cstr) :=
  match (match dir with Some d => Some d | None => if mkdir_ok then Some ∅ else None end) with
  | None => (WWID_FAILED_ERROR, dir)
  | Some d =>
      let tmpfile := take (Z.to_nat WWID_SIZE + 16) (wwid ++ 46 :: ntoa 16 pid) in
      if bool_decide (tmpfile ∈ d) || negb create_ok then (WWID_FAILED_ERROR, Some d)
      else
        let d := {[tmpfile]} ∪ d in
        let '(r, d) :=
          if bool_decide (wwid ∈ d) then (WWID_FAILED_UNCHANGED, d)
          else if link_ok then (WWID_FAILED_CHANGED, {[wwid]} ∪ d)
          else (WWID_FAILED_ERROR, d) in
        (r, Some (if unlink_ok then d ∖ {[tmpfile]} else d))
  end.

Definition unmark_failed_wwid (unlink_ok : bool) (dir : option (gset cstr)) (wwid : cstr)
  : wwid_result * option (gset cstr) :=
  if PATH_MAX <=? strlen (shm_dir ++ 47 :: wwid) then (WWID_FAILED_ERROR, dir)
  else if negb unlink_ok then (WWID_FAILED_ERROR, dir)
  else if bool_decide (wwid ∈ default ∅ dir)
  then (WWID_FAILED_CHANGED, (fun d => d ∖ {[wwid]}) <$> dir)
  else (WWID_FAILED_UNCHANGED, dir).

(** ** What the file holds *)

(** A line is a note or the entry of a WWID. *)
Inductive line := Note (body : cstr) | Entry (wwid : cstr).

#[export] Instance line_dec : EqDecision line.
Proof. solve_decision. Defined.

Definition line_text (l : line) : cstr := match l with Note body => body ++ [10] | Entry w => wwid_line w end.
Definition line_wwid (l : line) : option cstr := match l with Note _ => None | Entry w => Some w end.

Record good_wwid (w : cstr) : Prop := {
  gw_chars : Forall (fun c => 0 < c < 128 /\ c <> 47 /\ c <> 10) w;
  gw_size : strlen w < WWID_SIZE }.

(** A note is not blank, does not begin with a slash, and has one slash at most. *)
Record good_note (body : cstr) : Prop := {
  gn_first : match body with [] => False | c :: _ => c <> 47 end;
  gn_chars : Forall (fun c => 0 < c /\ c <> 10) body;
  gn_slash : (length (filter (fun c => c = 47%Z) body) <= 1)%nat;
  gn_size : (length body + 1 < LINE_MAX)%nat }.

Definition good_line (l : line) : Prop := match l with Note body => good_note body | Entry w => good_wwid w end.

(** The text of a file with these WWIDs. *)
Definition wwids_file (text : cstr) (ws : list cstr) : Prop :=
  exists lines, text = lines ≫= line_text /\ Forall good_line lines /\ omap line_wwid lines = ws /\ NoDup ws.

(** *** Looking up *)

Lemma scan_entry_spec e : forall w count rest, Forall (fun c => 0 < c < 128 /\ c <> 47 /\ c <> 10) e ->
  count + strlen e < WWID_SIZE -> 0 <= count ->
  (e = w /\ scan_entry (e ++ 47 :: rest) w count = Hit) \/
  (e <> w /\ exists e', (10 ∉ e') /\ (length e' <= length e + 1)%nat /\
    (exists e0, e ++ 47 :: rest = e0 ++ e' ++ rest) /\ scan_entry (e ++ 47 :: rest) w count = Next (e' ++ rest)).
Proof.
  induction e as [|c e IH]; intros w count rest He Hlen Hc; cbn [app scan_entry].
  - cbn. destruct w as [|x w]; [by left|right]. split; [done|]. exists []. split_and!; [set_solver|cbn; lia| |done].
    by exists [47].
  - apply Forall_cons in He as [(Hr & H47 & H10) He]. rewrite (proj2 (Z.eqb_neq c 47)) by done.
    unfold strlen in Hlen. cbn [length] in Hlen. rewrite (proj2 (Z.leb_gt _ _)) by lia.
    assert (10 ∉ e ++ [47]) as Hno.
    { rewrite elem_of_app, list_elem_of_singleton. intros [Hin|?]; [|done]. rewrite Forall_forall in He. by destruct (He _ Hin) as (_ & _ & ?). }
    assert (exists e', (10 ∉ e') /\ (length e' <= length (c :: e) + 1)%nat /\ (exists e0, c :: e ++ 47 :: rest = e0 ++ e' ++ rest) /\
      Next (e ++ 47 :: rest) = Next (e' ++ rest)) as Hskip.
    { exists (e ++ [47]). split_and!; [done|rewrite length_app; cbn; lia| |by rewrite <-(assoc_L (++))].
      exists [c]. cbn. by rewrite <-(assoc_L (++)). }
    destruct w as [|x w]; [by right|].
    destruct (Z.eqb_spec c x) as [->|Hne]; cbn [andb]; [|right; split; [congruence|done]].
    unfold isascii. rewrite (proj2 (Z.leb_le 0 x)), (proj2 (Z.ltb_lt x 128)) by lia. cbn [andb].
    destruct (IH w (count + 1) rest He ltac:(unfold strlen; lia) ltac:(lia)) as [[-> ->]|(Hw & e' & H1 & H2 & [e0 H3] & ->)]; [by left|right].
    split; [congruence|]. exists e'. split_and!; [done|cbn [length]; lia| |done]. exists (x :: e0). cbn. by rewrite H3.
Qed.

Lemma wwid_loop_nil f w : wwid_loop f [] w = false.
Proof. by destruct f. Qed.

Lemma lookup_next f e' more w : (10 ∉ e') -> (length e' + 1 < LINE_MAX)%nat ->
  match Next (e' ++ 10 :: more) with Hit => true | Eof => false | Next [] => false
  | Next rest => wwid_loop f (snd (fgets LINE_MAX rest)) w end = wwid_loop f more w.
Proof.
  intros H Hl. destruct (e' ++ 10 :: more) as [|c r] eqn:E; [by destruct e'|]. rewrite <-E, fgets_line by done. done.
Qed.

Lemma line_text_cons l : good_line l -> exists c r, line_text l = c :: r ++ [10] /\ (10 ∉ r) /\ (length r + 2 < LINE_MAX)%nat.
Proof.
  destruct l as [body|w]; cbn [good_line line_text].
  - intros [H1 H2 _ H4]. destruct body as [|c r]; [done|]. exists c, r. split_and!; [done| |cbn in H4; lia].
    rewrite Forall_forall in H2. intros Hin. by destruct (H2 10 (list_elem_of_further _ _ _ Hin)).
  - intros [H1 H2]. exists 47, (w ++ [47]). unfold wwid_line, strlen, WWID_SIZE in *.
    split_and!; [by rewrite <-(assoc_L (++))| |rewrite length_app; unfold LINE_MAX; cbn; lia].
    rewrite elem_of_app, list_elem_of_singleton. intros [Hin|?]; [|done]. rewrite Forall_forall in H1.
    by destruct (H1 _ Hin) as (_ & _ & ?).
Qed.

Lemma lookup_lines lines w : Forall good_line lines -> forall f, (length (lines ≫= line_text) <= f)%nat ->
  wwid_loop f (lines ≫= line_text) w = bool_decide (w ∈ omap line_wwid lines).
Proof.
  induction 1 as [|l lines Hl _ IH]; intros f Hf; [by rewrite wwid_loop_nil|]. cbn [mbind list_bind] in *.
  rewrite length_app in Hf. destruct (line_text_cons l Hl) as (c & r & Htext & Hr & Hlen). rewrite Htext in *.
  cbn [length] in Hf. destruct f as [|f]; [lia|]. cbn [app wwid_loop]. rewrite <-(assoc_L (++)). cbn [app].
  specialize (IH f ltac:(rewrite length_app in Hf; cbn in Hf; lia)). set (more := lines ≫= line_text) in *.
  destruct l as [body|e]; cbn [good_line line_text] in *.
  - destruct Hl as [H1 _ _ _]. destruct body as [|c' r']; [done|]. injection Htext as Hc Hr'. apply app_inv_tail in Hr' as ->. subst c'.
    rewrite (proj2 (Z.eqb_neq c 47)) by done. by rewrite lookup_next by (done || lia).
  - destruct Hl as [H1 H2]. unfold wwid_line in Htext. injection Htext as <- Hr'.
    assert (r = e ++ [47]) as ->.
    { apply (app_inv_tail [10]). by rewrite <-Hr', <-(assoc_L (++)). }
    rewrite Z.eqb_refl, <-(assoc_L (++)). cbn [app omap list_omap line_wwid].
    destruct (scan_entry_spec e w 0 (10 :: more) H1 ltac:(lia) ltac:(lia)) as [[-> ->]|(Hne & e' & A & B & _ & ->)].
    + symmetry. apply bool_decide_eq_true_2. by left.
    + rewrite lookup_next, IH; [|done|unfold strlen, WWID_SIZE, LINE_MAX in *; lia]. apply bool_decide_ext.
      rewrite elem_of_cons. naive_solver.
Qed.

Lemma lookup_wwid_spec text ws w : wwids_file text ws -> lookup_wwid text w = bool_decide (w ∈ ws).
Proof. intros (lines & -> & HF & <- & _). by apply lookup_lines. Qed.

(** *** Removing *)

Lemma good_wwid_no c w : good_wwid w -> c = 10 \/ c = 47 -> c ∉ w.
Proof. intros [H _] Hc Hin. rewrite Forall_forall in H. destruct (H c Hin) as (_ & ? & ?). lia. Qed.

Lemma two_slashes a b c : (2 <= length (filter (fun c => c = 47%Z) (a ++ 47%Z :: b ++ 47%Z :: c)))%nat.
Proof.
  rewrite filter_app, filter_cons_True, filter_app, filter_cons_True by done. repeat (rewrite length_app; cbn [length]). lia.
Qed.

Lemma line_proper l : good_line l -> proper_line (line_text l).
Proof.
  destruct l as [body|w]; cbn [good_line line_text]; intros H.
  - destruct H as [_ H2 _ H4]. rewrite Forall_forall in H2. exists body. split_and!; [done| | |done].
    + intros Hin. by destruct (H2 10 Hin).
    + apply Forall_forall. intros c Hc. by destruct (H2 c Hc).
  - pose proof (good_wwid_no 10 w H ltac:(lia)) as H10. destruct H as [H1 H2]. unfold strlen, WWID_SIZE in H2.
    exists (47 :: w ++ [47]). split_and!; [unfold wwid_line; cbn; by rewrite <-(assoc_L (++))| | |].
    + rewrite elem_of_cons, elem_of_app, list_elem_of_singleton. intros [?|[?|?]]; done.
    + constructor; [lia|]. apply Forall_app. split; [|constructor; [lia|constructor]]. eapply Forall_impl; [exact H1|]. cbn. lia.
    + unfold LINE_MAX. cbn [length]. rewrite length_app. cbn. lia.
Qed.

Lemma lines_proper lines : Forall good_line lines -> Forall (fun l => proper_line (line_text l)) lines.
Proof. intros H. eapply Forall_impl; [exact H|apply line_proper]. Qed.

Lemma wwid_line_ends w : wwid_line w = (47 :: w ++ [47]) ++ [10].
Proof. unfold wwid_line. cbn. by rewrite <-(assoc_L (++)). Qed.

(** The line of a WWID ends the entry of this WWID only. *)
Lemma line_of_wwid l pre w : good_line l -> good_wwid w -> line_text l = pre ++ wwid_line w -> l = Entry w /\ pre = [].
Proof.
  intros Hl Hw H. rewrite wwid_line_ends, (assoc_L (++)) in H. destruct l as [body|e]; cbn [good_line line_text] in *.
  - exfalso. apply app_inv_tail in H as ->. destruct Hl as [_ _ H3 _]. pose proof (two_slashes pre w []). lia.
  - rewrite wwid_line_ends in H. apply app_inv_tail in H. pose proof (good_wwid_no 47 e Hl ltac:(lia)) as H47.
    destruct pre as [|x pre]; cbn [app] in H; injection H as He.
    + apply app_inv_tail in He as ->. done.
    + exfalso. subst x. rewrite app_comm_cons, (assoc_L (++)) in H. apply app_inv_tail in H as ->. apply H47.
      apply elem_of_app. right. by left.
Qed.

Lemma slash_wwid_no w : good_wwid w -> 10 ∉ 47 :: w ++ [47].
Proof.
  intros Hw. pose proof (good_wwid_no 10 w Hw ltac:(lia)). rewrite elem_of_cons, elem_of_app, list_elem_of_singleton.
  intros [?|[?|?]]; done.
Qed.

Lemma strstr_lines lines w : Forall good_line lines -> good_wwid w ->
  match strstr (lines ≫= line_text) (wwid_line w) with
  | None => w ∉ omap line_wwid lines
  | Some p => exists l1 l2, lines = l1 ++ Entry w :: l2 /\ p = length (l1 ≫= line_text)
  end.
Proof.
  intros HF Hw. pose proof (strstr_in_lines line_text lines (47 :: w ++ [47]) (lines_proper _ HF) (slash_wwid_no w Hw)) as H.
  rewrite <-wwid_line_ends in H. destruct (strstr _ _) as [p|].
  - destruct H as (l1 & l & l2 & pre & -> & Hl & -> & _). exists l1, l2. apply Forall_app in HF as [_ HF%Forall_inv].
    apply line_of_wwid in Hl as [-> ->]; [|done|done]. split; [done|]. cbn. by rewrite Nat.add_0_r.
  - intros (l & Hl & Hlw)%list_elem_of_omap. destruct l as [body|e]; [done|]. injection Hlw as ->.
    rewrite Forall_forall in H. by apply (H _ Hl []).
Qed.

(** The whole file is searched. *)
Lemma do_remove_spec o lines w : io_seek o = true -> io_read o = true -> Forall good_line lines -> good_wwid w ->
  let text := lines ≫= line_text in
  do_remove_wwid o text (wwid_line w) = Some
    match strstr text (wwid_line w) with
    | None => (1, text)
    | Some p => if io_write o text then (0, <[p := 35]> text) else (-1, text)
    end.
Proof.
  intros Hs Hr HF Hw. cbn zeta. unfold do_remove_wwid. set (text := lines ≫= line_text).
  pose proof (slash_wwid_no w Hw) as H10. pose proof (wwid_line_ends w) as He.
  destruct (scan_file_spec o text (fun buf => strstr buf (wwid_line w)) 0 (47 :: w ++ [47]) Hs Hr) as [[H1 H2]|(b & q & H1 & H2 & _)];
    [by apply lines_nul_free, lines_proper|by apply lines_short, lines_proper|done| | |].
  - intros buf. rewrite He. destruct (strstr buf _); cbn; [by rewrite Nat.add_0_r|done].
  - rewrite <-He in H1. by rewrite H1, H2.
  - rewrite <-He in H1. rewrite H1, H2. cbn. by rewrite Nat.add_0_r.
Qed.

Lemma removed_good w : good_wwid w -> good_note (35 :: w ++ [47]).
Proof.
  intros Hw. pose proof (good_wwid_no 47 w Hw ltac:(lia)) as H47. destruct Hw as [Hc Hl]. split.
  - done.
  - constructor; [lia|]. apply Forall_app. split; [|by repeat constructor]. eapply Forall_impl; [exact Hc|]. cbn. lia.
  - rewrite filter_cons_False, filter_app by done. replace (filter (fun c => c = 47) w) with (@nil Z); [by rewrite filter_cons_True|].
    symmetry. clear -H47. induction w as [|x w IH]; [done|]. apply not_elem_of_cons in H47 as [? ?]. rewrite filter_cons_False by done. by apply IH.
  - unfold strlen, WWID_SIZE, LINE_MAX in *. cbn [length]. rewrite length_app. cbn. lia.
Qed.

Lemma removed_text l1 l2 w : <[length (l1 ≫= line_text) := 35]> ((l1 ++ Entry w :: l2) ≫= line_text) =
  (l1 ++ Note (35 :: w ++ [47]) :: l2) ≫= line_text.
Proof.
  rewrite !bind_app. cbn [mbind list_bind line_text]. unfold wwid_line. rewrite insert_app_r_alt, Nat.sub_diag by lia.
  f_equal. cbn. by rewrite <-!(assoc_L (++)).
Qed.

(** ** The file is a set of WWIDs *)

Lemma wwids_header : wwids_file WWIDS_FILE_HEADER [].
Proof.
  exists (Note <$> [s "# Multipath wwids, Version : 1.0";
    s "# NOTE: This file is automatically maintained by multipath and multipathd.";
    s "# You should not need to edit this file in normal circumstances."; s "#"; s "# Valid WWIDs:"]).
  split_and!; [vm_compute; reflexivity| |vm_compute; reflexivity|constructor].
  repeat (constructor; [split; [done|decide_closed|decide_closed|decide_closed]|]). constructor.
Qed.

Lemma wwids_empty ws : wwids_file [] ws -> ws = [].
Proof.
  intros (lines & Ht & HF & <- & _). destruct lines as [|l lines]; [done|]. apply Forall_inv in HF.
  destruct (line_text_cons l HF) as (c & r & Hl & _). cbn in Ht. by rewrite Hl in Ht.
Qed.

Lemma wwids_opened text ws : wwids_file text ws -> wwids_file (opened WWIDS_FILE_HEADER text) ws.
Proof. destruct text; [|done]. intros ->%wwids_empty. exact wwids_header. Qed.

Lemma wwids_append text ws w : wwids_file text ws -> good_wwid w -> w ∉ ws -> wwids_file (text ++ wwid_line w) (ws ++ [w]).
Proof.
  intros (lines & -> & HF & <- & HN) Hw Hno. exists (lines ++ [Entry w]). split_and!.
  - rewrite bind_app. cbn. by rewrite app_nil_r.
  - apply Forall_app. split; [done|]. by constructor.
  - by rewrite omap_app.
  - apply NoDup_app. split_and!; [done| |apply NoDup_singleton]. intros x Hx ->%list_elem_of_singleton. done.
Qed.

Lemma write_out_spec o text ws w : wwids_file text ws -> good_wwid w -> w ∉ ws ->
  let '(rc, text') := write_out_wwid o text w in
  rc = 1 /\ wwids_file text' (ws ++ [w]) \/ rc = -1 /\ text' = text /\ o <> io_good.
Proof.
  intros HT Hw Hno. unfold write_out_wwid. rewrite (proj2 (Z.leb_gt _ _)).
  - destruct (io_seek o && io_write o text) eqn:E; [left; split; [done|by apply wwids_append]|right]. split_and!; [done..|by intros ->].
  - destruct Hw as [_ Hw]. unfold wwid_line, strlen in *. cbn [length]. rewrite length_app. cbn [length]. lia.
Qed.

Lemma write_wwids_spec o mp : forall text ws, wwids_file text ws -> NoDup (ws ++ mp) -> Forall good_wwid mp ->
  let '(rc, text') := write_wwids o text mp in
  (rc = 0 \/ rc = -1 /\ o <> io_good) /\ exists n, wwids_file text' (ws ++ take n mp) /\ (rc = 0 -> take n mp = mp).
Proof.
  induction mp as [|w mp IH]; intros text ws HT HN HG; cbn [write_wwids].
  - split; [by left|]. exists O. rewrite app_nil_r. done.
  - apply Forall_cons in HG as [Hw HG]. assert (w ∉ ws) as Hno.
    { apply NoDup_app in HN as (_ & HN & _). intros Hin. apply (HN w Hin). by left. }
    pose proof (write_out_spec o text ws w HT Hw Hno) as H. destruct (write_out_wwid o text w) as [rc text1].
    destruct H as [[-> H1]|(-> & -> & Hio)]; cbn.
    2: { split; [by right|]. exists O. cbn. by rewrite app_nil_r. }
    specialize (IH text1 (ws ++ [w]) H1). rewrite <-(assoc_L (++)) in IH. specialize (IH HN HG).
    destruct (write_wwids o text1 mp) as [rc text']. destruct IH as [H2 (n & H3 & H4)]. split; [done|].
    exists (S n). cbn [take]. rewrite <-(assoc_L (++)) in H3. split; [done|]. intros Hrc. by rewrite H4.
Qed.

Lemma wwids_removed l1 l2 w : NoDup (omap line_wwid (l1 ++ Entry w :: l2)) ->
  omap line_wwid (l1 ++ Note (35 :: w ++ [47]) :: l2) = filter (.≠ w) (omap line_wwid (l1 ++ Entry w :: l2)).
Proof.
  rewrite !omap_app. cbn [omap list_omap line_wwid]. intros (_ & H & [Hw _]%NoDup_cons)%NoDup_app.
  rewrite filter_app, filter_cons_False by auto. assert (forall l : list cstr, w ∉ l -> filter (.≠ w) l = l) as Hid.
  { induction l as [|x l IH]; [done|]. intros [? ?]%not_elem_of_cons. rewrite filter_cons_True by done. by rewrite IH. }
  change (list_omap ?A ?B line_wwid l2) with (omap line_wwid l2). rewrite !Hid; [done|done|].
  intros Hin. apply (H w Hin). by left.
Qed.

Section FileSet.
Context (o : io) (text : cstr) (ws : list cstr) (HT : wwids_file text ws).

Lemma opened_good cw t : open_file o WWIDS_FILE_HEADER text = Some (cw, t) -> wwids_file t ws /\ (o = io_good -> cw = true).
Proof using HT.
  intros H. split; [by apply open_file_opened in H as ->; apply wwids_opened|]. intros ->. destruct text; by injection H as <- _.
Qed.

Lemma open_fails : open_file o WWIDS_FILE_HEADER text = None -> o <> io_good.
Proof using Type. clear ws HT. intros H ->. by destruct text. Qed.

Lemma check_ok w wr : good_wwid w ->
  let '(rc, text') := check_wwids_file o text w wr in
  rc = 0 /\ w ∈ ws /\ wwids_file text' ws \/
  rc = -1 /\ wwids_file text' ws /\ (o = io_good -> wr = false /\ (w ∉ ws)) \/
  rc = 1 /\ wr = true /\ (w ∉ ws) /\ wwids_file text' (ws ++ [w]).
Proof using HT.
  intros Hw. unfold check_wwids_file. destruct (open_file o _ text) as [[cw t]|] eqn:E.
  2: { right. left. split_and!; [done|done|]. intros Hio. by destruct (open_fails E Hio). }
  destruct (opened_good cw t E) as [H1 H2]. destruct (io_fdopen o) eqn:Ef; cbn [negb].
  2: { right. left. split_and!; [done|done|]. by intros ->. }
  rewrite (lookup_wwid_spec t ws) by done. destruct (decide (w ∈ ws)) as [Hin|Hin].
  { rewrite bool_decide_eq_true_2 by done. cbn match. by left. }
  rewrite bool_decide_eq_false_2 by done. cbn match.
  destruct (negb wr || negb cw || negb (io_flush o)) eqn:Ew.
  - right. left. split_and!; [done|done|]. intros Hio. split; [|done]. rewrite H2 in Ew by done. subst o. by destruct wr.
  - pose proof (write_out_spec o t ws w H1 Hw Hin) as H. destruct (write_out_wwid o t w) as [rc text'].
    destruct H as [[-> H]|(-> & -> & H)]; [right; right|by right; left].
    split_and!; [done|by destruct wr|done|done].
Qed.

Lemma remove_ok w : good_wwid w ->
  exists rc text', remove_wwid o text w = Some (rc, text') /\
    (rc = 0 /\ w ∈ ws /\ wwids_file text' (filter (.≠ w) ws) \/ rc = 1 /\ (w ∉ ws) /\ wwids_file text' ws \/
     rc = -1 /\ wwids_file text' ws /\ o <> io_good).
Proof using HT.
  intros Hw. unfold remove_wwid. destruct (open_file o _ text) as [[cw t]|] eqn:E.
  2: { exists (-1), text. split; [done|]. right. right. split_and!; [done|done|by apply open_fails]. }
  destruct (opened_good cw t E) as [H1 H2]. destruct cw; cbn [negb].
  2: { exists (-1), t. split; [done|]. right. right. split_and!; [done|done|]. intros Hio. by specialize (H2 Hio). }
  destruct (io_seek o && io_read o) eqn:Hio.
  2: { exists (-1), t. unfold do_remove_wwid, scan_file. cbn [scan_blocks]. rewrite Hio. split; [done|]. right. right.
       split_and!; [done|done|by intros ->]. }
  apply andb_true_iff in Hio as [Hs Hr]. destruct H1 as (lines & -> & HF & Hws & HN).
  rewrite do_remove_spec by done. pose proof (strstr_lines lines w HF Hw) as H.
  destruct (strstr _ _) as [p|].
  - destruct H as (l1 & l2 & -> & ->). destruct (io_write o _) eqn:Hwr.
    + eexists 0, _. split; [done|]. left. split_and!; [done| |].
      * rewrite <-Hws, omap_app. apply elem_of_app. right. by left.
      * rewrite removed_text. eexists. split_and!; [done| |by rewrite <-Hws, wwids_removed by by rewrite Hws|by apply NoDup_filter].
        apply Forall_app in HF as [HF1 [_ HF2]%Forall_cons]. apply Forall_app. split; [done|]. constructor; [by apply removed_good|done].
    + eexists (-1), _. split; [done|]. right. right. split_and!; [done|by eexists|by intros ->].
  - exists 1, (lines ≫= line_text). split; [done|]. right. left. split_and!; [done|by rewrite <-Hws|by exists lines].
Qed.

Lemma replace_ok mp : NoDup mp -> Forall good_wwid mp ->
  let '(rc, text') := replace_wwids o text mp in
  rc = 0 /\ wwids_file text' mp \/
  rc = -1 /\ o <> io_good /\ (wwids_file text' ws \/ exists n, wwids_file text' (take n mp)).
Proof using HT.
  intros HN HG. unfold replace_wwids. destruct (open_file o _ text) as [[cw t]|] eqn:E.
  2: { right. split_and!; [done|by apply open_fails|by left]. }
  destruct (opened_good cw t E) as [H1 H2]. destruct (negb cw || negb (io_truncate o)) eqn:E1.
  { right. split_and!; [done| |by left]. intros Hio. rewrite H2 in E1 by done. by subst o. }
  destruct (negb (io_seek o && io_write o [])) eqn:E2.
  { right. split_and!; [done|by intros ->|]. right. exists O. exists []. split_and!; [done|constructor|done|constructor]. }
  pose proof (write_wwids_spec o mp WWIDS_FILE_HEADER [] wwids_header HN HG) as H.
  destruct (write_wwids _ _ _) as [rc text']. destruct H as [[->|[-> Hio]] (n & H3 & H4)]; cbn [app] in H3.
  - left. split; [done|]. by rewrite H4 in H3.
  - right. split_and!; [done|done|]. right. by exists n.
Qed.

End FileSet.

(** C27: the WWID file implements a finite set: remembering adds the WWID, removing
    deletes it (and the loop over the blocks ends), replacing makes it the WWIDs
    of the maps, and the check is membership; on every error the file still holds
    a set, the old one or, when replacing fails, an initial part of the new one. *)
Theorem wwids_file_refines_set o text ws w mp :
  wwids_file text ws -> good_wwid w -> NoDup mp -> Forall good_wwid mp ->
  (let '(rc, text') := check_wwids_file o text w false in
     wwids_file text' ws /\ (rc = 0 \/ rc = -1) /\ (rc = 0 -> w ∈ ws) /\ (o = io_good -> w ∈ ws -> rc = 0)) /\
  (let '(rc, text') := remember_wwid o text w in
     rc = 1 /\ (w ∉ ws) /\ wwids_file text' (ws ++ [w]) \/ rc = 0 /\ w ∈ ws /\ wwids_file text' ws \/
     rc = -1 /\ wwids_file text' ws /\ o <> io_good) /\
  (exists rc text', remove_wwid o text w = Some (rc, text') /\
     (rc = 0 /\ w ∈ ws /\ wwids_file text' (filter (.≠ w) ws) \/ rc = 1 /\ (w ∉ ws) /\ wwids_file text' ws \/
      rc = -1 /\ wwids_file text' ws /\ o <> io_good)) /\
  (let '(rc, text') := replace_wwids o text mp in
     rc = 0 /\ wwids_file text' mp \/
     rc = -1 /\ o <> io_good /\ (wwids_file text' ws \/ exists n, wwids_file text' (take n mp))).
Proof.
  intros HT Hw HN HG. pose proof (check_ok o text ws HT w) as Hc.
  split_and!; [| |by apply remove_ok|by apply replace_ok].
  - specialize (Hc false Hw). destruct (check_wwids_file o text w false) as [rc text'].
    destruct Hc as [(-> & ? & ?)|[(-> & ? & H)|(-> & ? & _)]]; split_and!; try done; [by left|by right|naive_solver].
  - specialize (Hc true Hw). unfold remember_wwid. destruct (check_wwids_file o text w true) as [rc text'].
    destruct Hc as [(-> & ? & ?)|[(-> & ? & H)|(-> & _ & ? & ?)]]; cbn; [naive_solver| |naive_solver].
    right. right. split_and!; [done|done|]. intros Hio. by destruct (H Hio).
Qed.

Lemma wwids_file_refines_set_witness :
  let text := WWIDS_FILE_HEADER ++ s "/36001/" ++ [10] ++ s "/36002/" ++ [10] in
  wwids_file text [s "36001"; s "36002"] /\
  exists text', remove_wwid io_good text (s "36001") = Some (0, text') /\ wwids_file text' [s "36002"].
Proof.
  intros text. assert (wwids_file text [s "36001"; s "36002"]) as HT.
  { assert (text = (WWIDS_FILE_HEADER ++ wwid_line (s "36001")) ++ wwid_line (s "36002")) as -> by (vm_compute; reflexivity).
    apply (wwids_append _ [s "36001"] (s "36002")); [|split; [decide_closed|reflexivity]|decide_closed].
    apply (wwids_append _ [] (s "36001")); [exact wwids_header|split; [decide_closed|reflexivity]|decide_closed]. }
  split; [exact HT|].
  destruct (wwids_file_refines_set io_good text _ (s "36001") [] HT ltac:(split; [decide_closed|reflexivity])
    ltac:(constructor) ltac:(constructor)) as (_ & _ & (rc & text' & H1 & H2) & _).
  exists text'. assert (rc = 0) as ->.
  { destruct H2 as [[-> _]|[(_ & H & _)|(_ & _ & H)]]; [done|by destruct H; left|done]. }
  split; [exact H1|]. destruct H2 as [(_ & _ & H)|[[H _]|[H _]]]; [exact H|discriminate|discriminate].
Defined.
