(* ===== verification/Prkey.v ===== *)
(** * libmultipath/prkey.c: the file of persistent reservation keys

    with [select_reservation_key] of propsel.c, which reads a key back.  The file
    is a text (see File). *)

From S2P Require Import Prelude CString Util Structs File.

Definition PRKEYS_FILE_HEADER : cstr :=
  s "# Multipath persistent reservation keys, Version : 1.0" ++ [10] ++
  s "# NOTE: this file is automatically maintained by the multipathd program." ++ [10] ++
  s "# You should not need to edit this file in normal circumstances." ++ [10] ++
  s "#" ++ [10] ++ s "# Format:" ++ [10] ++ s "# prkey wwid" ++ [10] ++ s "#" ++ [10].

(** A key with its terminating byte. *)
Definition PRKEY_SIZE : nat := 19.

(** ** Finding the line of a WWID *)

(** The next match of [wwid] that a space precedes and a newline follows. *)
Fixpoint match_loop (fuel : nat) (buf wwid : cstr) (from : nat) : option nat :=
  match fuel with
  | O => None
  | S f =>
      q ← strstr (drop from buf) wwid;
      let ptr := (from + q)%nat in
      if (ptr =? 0)%nat || negb (bool_decide (buf !! (ptr - 1)%nat = Some 32))
         || negb (bool_decide (buf !! (ptr + length wwid)%nat = Some 10))
      then match_loop f buf wwid (ptr + length wwid)
      else Some ptr
  end.

Definition match_wwid (wwid buf : cstr) : option nat := match_loop (S (length buf)) buf wwid 0.

(** Where the line begins; [None] when the line is malformed. *)
Definition line_start (buf : cstr) (ptr : nat) : option nat :=
  if (ptr <? PRKEY_SIZE)%nat
     || negb (ptr =? PRKEY_SIZE)%nat && negb (bool_decide (buf !! (ptr - PRKEY_SIZE - 1)%nat = Some 10))
  then None else Some (ptr - PRKEY_SIZE)%nat.

(** [inl] is the return code 1; [inr] tells where the line is. *)
Definition find_line (o : io) (text wwid : cstr) : option (unit + option nat) :=
  r ← scan_file o text (match_wwid wwid);
  Some match r with
       | ReadError => inl tt
       | NotFound => inr None
       | FoundAt start ptr =>
           match line_start (cut_at [0] (read_block text start)) ptr with
           | None => inl tt
           | Some p => inr (Some (start + p)%nat)
           end
       end.

(** ** Reading and writing *)

(** [do_prkey] with PRKEY_READ: the key string. *)
Definition read_prkey (o : io) (text wwid : cstr) : option (option cstr) :=
  r ← find_line o text wwid;
  Some match r with
       | inr (Some p) => if bool_decide (text !! p = Some 35) then None else Some (take (PRKEY_SIZE - 1) (drop p text))
       | _ => None
       end.

(** Writing [new] over what is at [p]. *)
Definition overwrite (text : cstr) (p : nat) (new : cstr) : cstr := take p text ++ new ++ drop (p + length new) text.

(** [do_prkey] with PRKEY_WRITE: the return code and the file. *)
Definition write_prkey (o : io) (text wwid : cstr) (keystr : option cstr) : option (Z * cstr) :=
  r ← find_line o text wwid;
  Some match r, keystr with
       | inl _, _ => (1, text)
       | inr None, None => (0, text)
       | inr (Some p), None =>
           if io_seek o && io_write o text then (0, overwrite text p [35]) else (1, text)
       | inr ptr, Some keystr =>
           if io_seek o && io_write o text
           then (0, overwrite text (default (length text) ptr) (keystr ++ 32 :: wwid ++ [10])) else (1, text)
       end.

(** The return code, the key and the flags stored. *)
Definition get_prkey (o : io) (text wwid : cstr) (sa_flags : Z) : option (Z * option Z * Z) :=
  if strlen wwid =? 0 then Some (1, None, sa_flags)
  else
    match open_file o PRKEYS_FILE_HEADER text with
    | None => Some (1, None, sa_flags)
    | Some (_, text) =>
        keystr ← read_prkey o text wwid;
        Some match keystr with
             | None => (1, None, sa_flags)
             | Some keystr =>
                 let prkey := parse_prkey (Some keystr) in
                 (match prkey with Some _ => 0 | None => 1 end, prkey,
                  if bool_decide (strchr 88 keystr = None) then 0 else MPATH_F_APTPL_MASK)
             end
    end.

Inductive prkey_sources := PRKEY_SOURCE_NONE | PRKEY_SOURCE_CONF | PRKEY_SOURCE_FILE.

#[export] Instance prkey_sources_dec : EqDecision prkey_sources.
Proof. solve_decision. Defined.

Record reservation := { prkey_source : prkey_sources; reservation_key : Z; r_sa_flags : Z }.

(** What the map gets from its entry [mpe] or from [conf]. *)
Definition prkey_set (mpe : option reservation) (conf : reservation) : option reservation :=
  match mpe with
  | Some r => if decide (prkey_source r = PRKEY_SOURCE_NONE) then
                (if decide (prkey_source conf = PRKEY_SOURCE_NONE) then None else Some conf)
              else Some r
  | None => if decide (prkey_source conf = PRKEY_SOURCE_NONE) then None else Some conf
  end.

Definition select_reservation_key (o : io) (text wwid : cstr) (mpe : option reservation) (conf : reservation)
  : option reservation :=
  match prkey_set mpe conf with
  | None => Some {| prkey_source := PRKEY_SOURCE_NONE; reservation_key := 0; r_sa_flags := 0 |}
  | Some r =>
      if decide (prkey_source r = PRKEY_SOURCE_FILE)
      then '(ret, prkey, flags) ← get_prkey o text wwid (r_sa_flags r);
           Some {| prkey_source := PRKEY_SOURCE_FILE;
                   reservation_key := if ret =? 0 then default 0 prkey else 0;
                   r_sa_flags := flags |}
      else Some r
  end.

(** [%016x] *)
Definition hex16 (k : Z) : cstr := let d := ntoa 16 k in repeat 48 (16 - length d) ++ d.

(** The return code, the file and the reservation of the map, which was [mp]. *)
Definition set_prkey (o : io) (text wwid : cstr) (mpe : option reservation) (conf mp : reservation)
    (prkey sa_flags : Z) : option (Z * cstr * reservation) :=
  if strlen wwid =? 0 then Some (1, text, mp)
  else
    let sa_flags := Z.land sa_flags MPATH_F_APTPL_MASK in
    match open_file o PRKEYS_FILE_HEADER text with
    | None => Some (1, text, mp)
    | Some (can_write, text) =>
        if negb can_write then Some (1, text, mp)
        else
          '(ret, text) ←
            write_prkey o text wwid
              (if prkey =? 0 then None
               else Some ((if sa_flags =? 0 then s "0x" else s "0X") ++ hex16 prkey));
          mp ← (if ret =? 0 then select_reservation_key o text wwid mpe conf else Some mp);
          Some (if reservation_key mp =? prkey then ret else 1, text, mp)
    end.

(** ** The match is the text of the WWID between a space and a newline *)

Lemma prefixb_lookup a b j : prefixb a (drop j b) = true -> forall i, (i < length a)%nat -> b !! (j + i)%nat = a !! i.
Proof. intros [c Hc]%prefixb_spec i Hi. by rewrite <-lookup_drop, Hc, lookup_app_l. Qed.

Lemma occurrence_iff w buf j : prefixb (32 :: w ++ [10]) (drop j buf) = true <->
  buf !! j = Some 32 /\ prefixb w (drop (S j) buf) = true /\ buf !! (S j + length w)%nat = Some 10.
Proof.
  split.
  - intros H. pose proof (prefixb_lookup _ _ _ H) as Hl. cbn [length] in Hl. rewrite length_app in Hl. cbn [length] in Hl. split_and!.
    + specialize (Hl O ltac:(lia)). by rewrite Nat.add_0_r in Hl.
    + apply prefixb_spec in H as [c Hc]. replace (S j) with (j + 1)%nat by lia. rewrite <-drop_drop, Hc. cbn [drop app].
      rewrite <-(assoc_L (++)). apply prefixb_app.
    + specialize (Hl (S (length w)) ltac:(lia)). replace (S j + length w)%nat with (j + S (length w))%nat by lia.
      rewrite Hl. trans ((w ++ [10]) !! length w); [done|]. by rewrite lookup_app_r, Nat.sub_diag by lia.
  - intros (H1 & [c Hc]%prefixb_spec & H3). rewrite (drop_S buf 32 j) by done. rewrite Hc. cbn [prefixb]. rewrite Z.eqb_refl. cbn [andb].
    destruct c as [|x c].
    + apply lookup_lt_Some in H3. apply (f_equal length) in Hc. rewrite length_drop, app_nil_r in Hc. lia.
    + assert (x = 10) as ->.
      { rewrite <-lookup_drop, Hc, lookup_app_r, Nat.sub_diag in H3 by lia. by injection H3. }
      replace (w ++ 10 :: c) with ((w ++ [10]) ++ c) by by rewrite <-(assoc_L (++)). apply prefixb_app.
Qed.

Section Match.
Context (w buf : cstr) (Hw : w <> []) (Hsp : 32 ∉ w).

Abbreviation needle := (32 :: w ++ [10]).

Lemma match_loop_spec fuel : forall from, (length buf < fuel + from)%nat ->
  (forall j, (S j < from)%nat -> prefixb needle (drop j buf) = false) ->
  match_loop fuel buf w from = S <$> strstr buf needle.
Proof using Hw Hsp.
  induction fuel as [|f IH]; intros from Hfuel Hno; cbn [match_loop].
  - rewrite strstr_absent; [done|]. intros j. destruct (decide (S j < from)%nat); [by apply Hno|]. by rewrite drop_ge by lia.
  - destruct (strstr (drop from buf) w) as [q|] eqn:Hq; cbn [mbind option_bind].
    2: { rewrite strstr_absent; [done|]. intros j. destruct (decide (S j < from)%nat); [by apply Hno|].
         destruct (prefixb needle _) eqn:E; [|done]. apply occurrence_iff in E as (_ & E & _).
         rewrite <-(strstr_none _ _ Hq (S j - from) Hw), drop_drop, <-E. do 2 f_equal. lia. }
    apply strstr_found in Hq as [Hq Hbefore]. rewrite drop_drop in Hq. set (ptr := (from + q)%nat) in *.
    assert (forall j, (S j < ptr)%nat -> prefixb needle (drop j buf) = false) as Hno'.
    { intros j Hj. destruct (decide (S j < from)%nat); [by apply Hno|]. destruct (prefixb needle _) eqn:E; [|done].
      apply occurrence_iff in E as (_ & E & _). rewrite <-(Hbefore (S j - from)%nat ltac:(lia)), drop_drop, <-E. do 2 f_equal. lia. }
    destruct (_ || _) eqn:Htest.
    + apply IH; [destruct w; [done|]; cbn [length]; lia|]. intros j Hj. destruct (decide (S j < ptr)%nat); [by apply Hno'|].
      destruct (prefixb needle _) eqn:E; [|done]. apply occurrence_iff in E as (E1 & E2 & E3).
      destruct (decide (S j = ptr)) as [He|Hne].
      * rewrite <-He in Htest. replace (S j - 1)%nat with j in Htest by lia. rewrite !bool_decide_eq_true_2 in Htest by done. done.
      * exfalso. apply Hsp. pose proof (prefixb_lookup _ _ _ Hq (j - ptr)%nat ltac:(lia)) as Hl.
        replace (ptr + (j - ptr))%nat with j in Hl by lia. rewrite E1 in Hl. by apply list_elem_of_lookup_2 with (j - ptr)%nat.
    + rewrite !orb_false_iff, !negb_false_iff, !bool_decide_eq_true in Htest. destruct Htest as [[H0%Nat.eqb_neq H1] H2].
      rewrite (strstr_first buf needle (ptr - 1)).
      * cbn. f_equal. lia.
      * apply occurrence_iff. replace (S (ptr - 1)) with ptr by lia. done.
      * intros j Hj. apply Hno'. lia.
      * apply lookup_lt_Some in H1. lia.
Qed.

Lemma match_wwid_spec : match_wwid w buf = (fun p => p + 1)%nat <$> strstr buf needle.
Proof using Hw Hsp.
  unfold match_wwid. rewrite match_loop_spec by lia. destruct (strstr buf needle); cbn; [by rewrite Nat.add_1_r|done].
Qed.

End Match.

(** ** What the file holds *)

Inductive keyline := KNote (body : cstr) | Key (k w : cstr).

Definition keyline_text (l : keyline) : cstr := match l with KNote body => body ++ [10] | Key k w => k ++ 32 :: w ++ [10] end.
Definition line_key (l : keyline) : option (cstr * cstr) := match l with KNote _ => None | Key k w => Some (w, k) end.

(** The lines of the header and their last words. *)
Definition notes : list cstr :=
  [s "# Multipath persistent reservation keys, Version : 1.0";
   s "# NOTE: this file is automatically maintained by the multipathd program.";
   s "# You should not need to edit this file in normal circumstances.";
   s "#"; s "# Format:"; s "# prkey wwid"].

Definition note_words : list cstr := [s "1.0"; s "program."; s "circumstances."; s "Format:"; s "wwid"].

Definition word_char (c : Z) : Prop := 0 < c /\ c <> 10 /\ c <> 32.

#[export] Instance word_char_dec c : Decision (word_char c).
Proof. unfold word_char. apply _. Defined.

Record good_key_wwid (w : cstr) : Prop := {
  gw_nil : w <> []; gw_chars : Forall word_char w; gw_size : strlen w < WWID_SIZE; gw_word : w ∉ note_words }.

Record good_key (k : cstr) : Prop := { gk_size : length k = 18%nat; gk_chars : Forall word_char k }.

Definition good_keyline (l : keyline) : Prop :=
  match l with KNote body => body ∈ notes | Key k w => good_key k /\ good_key_wwid w end.

Definition keys_of (lines : list keyline) : list (cstr * cstr) := omap line_key lines.

Definition keys_lines (text : cstr) (lines : list keyline) : Prop :=
  text = lines ≫= keyline_text /\ Forall good_keyline lines /\ NoDup (fst <$> keys_of lines).

Definition keys_file (text : cstr) : Prop := exists lines, keys_lines text lines.

Lemma word_chars_no c a : Forall word_char a -> c = 10 \/ c = 32 -> c ∉ a.
Proof. rewrite Forall_forall. intros H Hc Hin. destruct (H c Hin) as (_ & ? & ?). lia. Qed.

Lemma keyline_proper l : good_keyline l -> proper_line (keyline_text l).
Proof.
  destruct l as [body|k w]; cbn [good_keyline keyline_text].
  - intros H. exists body. split; [done|]. assert (Forall (fun b : cstr => (10 ∉ b) /\ nul_free b /\ (length b + 1 < 100)%nat) notes) as HF.
    { unfold nul_free. decide_closed. }
    rewrite Forall_forall in HF. destruct (HF body H) as (? & ? & ?). split_and!; [done|done|unfold LINE_MAX; lia].
  - intros [[K1 K2] [_ W2 W3 _]]. exists (k ++ 32 :: w). split_and!; [by rewrite <-(assoc_L (++))| | |].
    + rewrite elem_of_app, elem_of_cons. intros [?|[?|?]]; [|done|]; [by apply (word_chars_no 10 k); [|lia|]|by apply (word_chars_no 10 w); [|lia|]].
    + apply Forall_app. split; [eapply Forall_impl; [exact K2|]; unfold word_char; cbn; lia|].
      constructor; [lia|]. eapply Forall_impl; [exact W2|]. unfold word_char. cbn. lia.
    + unfold strlen, WWID_SIZE, LINE_MAX in *. rewrite length_app. cbn [length]. lia.
Qed.

Lemma last_word_unique (a b u v : cstr) : (32 ∉ u) -> (32 ∉ v) -> a ++ 32 :: u = b ++ 32 :: v -> a = b /\ u = v.
Proof.
  intros Hu Hv H. apply (f_equal reverse) in H. rewrite !reverse_app, !reverse_cons, <-!(assoc_L (++)) in H. cbn [app] in H.
  pose proof (f_equal (strchr 32) H) as Hs. rewrite !strchr_skip, !length_reverse in Hs by by rewrite elem_of_reverse.
  injection Hs as Hs. apply app_inj_1 in H as [H1 [= H2]]; [|by rewrite !length_reverse].
  apply (f_equal reverse) in H1, H2. rewrite !reverse_involutive in H1, H2. done.
Qed.

Lemma note_last_word body pre w : body ∈ notes -> body = pre ++ 32 :: w -> (32 ∉ w) -> w ∈ note_words.
Proof.
  intros Hb -> Hw. assert (Forall (fun b : cstr => (32 ∉ b) \/ Exists (fun u => (32 ∉ u) /\ b = take (length b - length u - 1) b ++ 32 :: u) note_words) notes) as HF
    by decide_closed.
  rewrite Forall_forall in HF. destruct (HF _ Hb) as [Hno|Hu].
  - destruct Hno. apply elem_of_app. right. by left.
  - apply Exists_exists in Hu as (u & Hu & Hsp & He). by apply last_word_unique in He as [_ ->].
Qed.

(** A WWID ends its own line only. *)
Lemma keyline_of_wwid l pre w : good_keyline l -> good_key_wwid w -> keyline_text l = pre ++ (32 :: w) ++ [10] -> l = Key pre w.
Proof.
  intros Hl Hw H. pose proof (word_chars_no 32 w (gw_chars _ Hw) ltac:(lia)) as Hsp. rewrite (assoc_L (++)) in H.
  destruct l as [body|k v]; cbn [good_keyline keyline_text] in *.
  - apply app_inv_tail in H. exfalso. apply (gw_word _ Hw). by eapply note_last_word.
  - destruct Hl as [_ Hv]. replace (k ++ 32 :: v ++ [10]) with ((k ++ 32 :: v) ++ [10]) in H by by rewrite <-(assoc_L (++)).
    apply app_inv_tail, last_word_unique in H as [-> ->]; [done| |done]. by apply word_chars_no; [apply gw_chars|lia].
Qed.

Lemma keylines_proper lines : Forall good_keyline lines -> Forall (fun l => proper_line (keyline_text l)) lines.
Proof. intros H. eapply Forall_impl; [exact H|apply keyline_proper]. Qed.

(** *** Finding the line *)

Lemma key_line_length k w : good_key k -> length (keyline_text (Key k w)) = (20 + length w)%nat.
Proof. intros [H _]. cbn [keyline_text]. rewrite length_app. cbn [length]. rewrite length_app, H. cbn [length]. lia. Qed.

Lemma text_lookup (l1 : list keyline) t more i : (i < length t)%nat -> (((l1 ≫= keyline_text) ++ t ++ more) !! (length (l1 ≫= keyline_text) + i)%nat) = t !! i.
Proof. intros Hi. rewrite lookup_app_r by lia. rewrite lookup_app_l by lia. f_equal. lia. Qed.

Lemma bind_middle (l1 l2 : list keyline) l : (l1 ++ l :: l2) ≫= keyline_text = (l1 ≫= keyline_text) ++ keyline_text l ++ (l2 ≫= keyline_text).
Proof. by rewrite bind_app. Qed.

(** The block begins at a line, and the line of the key is in it. *)
Lemma line_start_ok l1 k w more b q : Forall good_keyline l1 -> good_key k -> good_key_wwid w ->
  let text := (l1 ≫= keyline_text) ++ keyline_text (Key k w) ++ more in
  let p := length (l1 ≫= keyline_text) in
  nul_free text -> (b + q = p + 18)%nat -> (b = O \/ exists b', b = S b' /\ text !! b' = Some 10) -> (q < BLOCK)%nat ->
  line_start (cut_at [0] (read_block text b)) (q + 1) = Some (p - b)%nat /\ (b <= p)%nat.
Proof.
  intros HF Hk Hw text p Hnul Hbq Hb Hq. assert (b <= p)%nat as Hbp.
  { destruct Hb as [->|(b' & -> & Hb')]; [lia|]. destruct (decide (S b' <= p)%nat); [done|]. exfalso.
    unfold text in Hb'. replace b' with (p + (b' - p))%nat in Hb' by lia. unfold p in Hb' at 1.
    rewrite text_lookup in Hb' by (rewrite key_line_length by done; lia). cbn [keyline_text] in Hb'.
    destruct Hk as [K1 K2]. rewrite lookup_app_l in Hb' by lia. apply list_elem_of_lookup_2 in Hb'.
    revert Hb'. by apply word_chars_no; [|lia]. }
  split; [|done]. rewrite block_text by done. unfold line_start, PRKEY_SIZE.
  rewrite (proj2 (Nat.ltb_ge _ _)) by lia. destruct (Nat.eqb_spec (q + 1) 19) as [He|Hne]; cbn [negb orb andb]; [f_equal; lia|].
  replace (q + 1 - 19 - 1)%nat with (p - b - 1)%nat by lia. unfold read_block. rewrite lookup_take_lt, lookup_drop by lia.
  rewrite bool_decide_eq_true_2; [cbn; f_equal; lia|]. replace (b + (p - b - 1))%nat with (p - 1)%nat by lia.
  unfold text. rewrite lookup_app_l by lia. destruct l1 as [|l l1 _] using rev_ind; [cbn in p; lia|].
  unfold p. rewrite bind_app. cbn. rewrite app_nil_r. apply Forall_app in HF as [_ HF%Forall_inv].
  destruct (keyline_proper l HF) as (t & Ht & _). rewrite Ht, (assoc_L (++)), length_app. cbn [length].
  rewrite Nat.add_sub. by rewrite lookup_app_r, Nat.sub_diag by lia.
Qed.

Lemma find_ok o text lines w : keys_lines text lines -> good_key_wwid w -> io_seek o = true -> io_read o = true ->
  (w ∉ (keys_of lines).*1) /\ find_line o text w = Some (inr None) \/
  exists l1 k l2, lines = l1 ++ Key k w :: l2 /\ find_line o text w = Some (inr (Some (length (l1 ≫= keyline_text)))).
Proof.
  intros (-> & HF & HN) Hw Hs Hr. pose proof (keylines_proper _ HF) as HP. pose proof (lines_nul_free keyline_text _ HP) as Hnul.
  pose proof (word_chars_no 32 w (gw_chars _ Hw) ltac:(lia)) as Hsp.
  assert (10 ∉ 32 :: w) as H10 by (rewrite elem_of_cons; intros [?|Hin]; [done|by apply (word_chars_no 10 w (gw_chars _ Hw) ltac:(lia))]).
  pose proof (strstr_in_lines keyline_text lines (32 :: w) HP H10) as Hstr. unfold find_line.
  destruct (scan_file_spec o (lines ≫= keyline_text) (match_wwid w) 1 (32 :: w) Hs Hr Hnul (lines_short keyline_text _ HP) H10) as
    [[H1 ->]|(b & q & H1 & -> & Hb & Hq)].
  - intros buf. by rewrite match_wwid_spec by (done || apply Hw).
  - left. rewrite H1 in Hstr. split; [|done]. rewrite list_elem_of_fmap. intros ([v k] & Hv & Hin).
    apply list_elem_of_omap in Hin as (l & Hl & Hlk). destruct l as [|k' w']; [done|]. injection Hlk as -> ->. cbn in Hv. subst v.
    rewrite Forall_forall in Hstr. apply (Hstr _ Hl k). done.
  - right. rewrite H1 in Hstr. destruct Hstr as (l1 & l & l2 & pre & -> & Hl & Hp & _).
    apply Forall_app in HF as [HF1 [Hgl HF2]%Forall_cons]. apply keyline_of_wwid in Hl as ->; [|done|done]. destruct Hgl as [Hk _].
    exists l1, pre, l2. split; [done|]. rewrite bind_middle in Hnul, Hb |- *.
    destruct (line_start_ok l1 pre w _ b q HF1 Hk Hw Hnul ltac:(rewrite Hp; by rewrite (gk_size _ Hk)) Hb Hq) as [H2 Hle].
    set (text := _ ++ _ ++ _) in *. cbn [mbind option_bind]. rewrite H2. do 3 f_equal. lia.
Qed.

(** *** What is read and written *)

(** The key string of a WWID; one that begins with a hash sign is deleted. *)
Fixpoint key_at (w : cstr) (kvs : list (cstr * cstr)) : option cstr :=
  match kvs with
  | [] => None
  | (v, k) :: r => if bool_decide (v = w) then Some k else key_at w r
  end.

Definition usable_key (k : cstr) : option cstr := if bool_decide (head k = Some 35) then None else Some k.

Lemma key_at_none w kvs : w ∉ kvs.*1 -> key_at w kvs = None.
Proof.
  induction kvs as [|[v k] kvs IH]; [done|]. cbn. intros [Hne H]%not_elem_of_cons. rewrite bool_decide_eq_false_2 by done. by apply IH.
Qed.

Lemma key_at_middle w w' k kvs1 kvs2 : NoDup (kvs1 ++ (w, k) :: kvs2).*1 ->
  key_at w' (kvs1 ++ (w, k) :: kvs2) = if bool_decide (w = w') then Some k else key_at w' (kvs1 ++ kvs2).
Proof.
  induction kvs1 as [|[v k1] kvs1 IH]; [done|]. cbn. intros [Hv HN]%NoDup_cons. rewrite IH by done.
  destruct (decide (v = w')) as [->|]; [|by rewrite (bool_decide_eq_false_2 (v = w'))].
  rewrite (bool_decide_eq_true_2 (w' = w')) by done. rewrite bool_decide_eq_false_2; [done|]. intros ->. apply Hv.
  rewrite fmap_app. cbn. set_solver.
Qed.

Lemma keys_of_middle l1 k w l2 : keys_of (l1 ++ Key k w :: l2) = keys_of l1 ++ (w, k) :: keys_of l2.
Proof. unfold keys_of. by rewrite omap_app. Qed.

Lemma key_line k w : keyline_text (Key k w) = k ++ 32 :: w ++ [10].
Proof. done. Qed.

Lemma read_ok o text lines w : keys_lines text lines -> good_key_wwid w -> io_seek o = true -> io_read o = true ->
  read_prkey o text w = Some (key_at w (keys_of lines) ≫= usable_key).
Proof.
  intros HT Hw Hs Hr. unfold read_prkey. destruct (find_ok o text lines w HT Hw Hs Hr) as [[Hno ->]|(l1 & k & l2 & -> & ->)].
  - cbn. by rewrite key_at_none.
  - destruct HT as (-> & HF & HN). rewrite keys_of_middle in HN |- *. rewrite key_at_middle, bool_decide_eq_true_2 by done.
    apply Forall_app in HF as [_ [[Hk _] _]%Forall_cons]. rewrite bind_middle, key_line, <-!(assoc_L (++)).
    set (p := l1 ≫= keyline_text). cbn [mbind option_bind]. unfold usable_key. f_equal.
    assert ((p ++ k ++ (32 :: w ++ [10]) ++ (l2 ≫= keyline_text)) !! length p = head k) as ->.
    { rewrite lookup_app_r, Nat.sub_diag by lia. destruct Hk as [Hk _]. by destruct k. }
    case_bool_decide; [done|]. f_equal. rewrite drop_app_length.
    replace (PRKEY_SIZE - 1)%nat with (length k) by (by rewrite (gk_size _ Hk)). by rewrite take_app_length.
Qed.

Lemma overwrite_middle (a old new c : cstr) : length new = length old -> overwrite (a ++ old ++ c) (length a) new = a ++ new ++ c.
Proof.
  intros H. unfold overwrite. rewrite take_app_length, <-drop_drop, drop_app_length, H. by rewrite drop_app_length.
Qed.

(** The new line of a WWID, in the place of its old line or at the end. *)
Definition written (lines lines' : list keyline) (w : cstr) (k : option cstr) : Prop :=
  Forall good_keyline lines' /\ NoDup (keys_of lines').*1 /\ key_at w (keys_of lines') ≫= usable_key = k /\
  forall w', w' <> w -> key_at w' (keys_of lines') = key_at w' (keys_of lines).

Lemma written_middle l1 k k' w l2 : Forall good_keyline (l1 ++ Key k w :: l2) -> NoDup (keys_of (l1 ++ Key k w :: l2)).*1 ->
  good_key k' -> written (l1 ++ Key k w :: l2) (l1 ++ Key k' w :: l2) w (usable_key k').
Proof.
  intros HF HN Hk'. apply Forall_app in HF as [HF1 [[_ Hw] HF2]%Forall_cons].
  assert (NoDup (keys_of (l1 ++ Key k' w :: l2)).*1) as HN' by (rewrite keys_of_middle, fmap_app in *; exact HN).
  split; [apply Forall_app; split; [done|by constructor]|]. split; [done|].
  rewrite !keys_of_middle in *. split; [by rewrite key_at_middle, bool_decide_eq_true_2|].
  intros w' Hne. rewrite !key_at_middle by done. by rewrite !bool_decide_eq_false_2.
Qed.

Lemma written_end lines k w : Forall good_keyline lines -> NoDup (keys_of lines).*1 -> (w ∉ (keys_of lines).*1) ->
  good_key k -> good_key_wwid w -> written lines (lines ++ [Key k w]) w (usable_key k).
Proof.
  intros HF HN Hno Hk Hw. assert (NoDup (keys_of (lines ++ [Key k w])).*1) as HN'.
  { rewrite keys_of_middle, fmap_app. apply NoDup_app. split_and!; [done| |apply NoDup_singleton].
    intros x Hx ->%list_elem_of_singleton. done. }
  split; [apply Forall_app; split; [done|by constructor]|]. split; [done|]. rewrite keys_of_middle in *.
  split; [by rewrite key_at_middle, bool_decide_eq_true_2|]. intros w' Hne. rewrite key_at_middle, bool_decide_eq_false_2 by done.
  by rewrite app_nil_r.
Qed.

Definition key_string (k : option cstr) : Prop := match k with Some k => good_key k /\ head k <> Some 35 | None => True end.

Lemma deleted_key k : good_key k -> exists c r, k = c :: r /\ good_key (35 :: r).
Proof.
  intros [H1 H2]. destruct k as [|c r]; [done|]. exists c, r. split; [done|]. split; [exact H1|].
  apply Forall_cons in H2 as [_ H2]. constructor; [unfold word_char; lia|exact H2].
Qed.

Lemma write_ok o text lines w k : keys_lines text lines -> good_key_wwid w -> key_string k ->
  exists rc text', write_prkey o text w k = Some (rc, text') /\
    (rc = 0 /\ (exists lines', text' = lines' ≫= keyline_text /\ written lines lines' w k) \/ rc = 1 /\ text' = text /\ o <> io_good).
Proof.
  intros HT Hw Hk. unfold write_prkey. destruct (io_seek o && io_read o) eqn:Hsr.
  2: { exists 1, text. unfold find_line, scan_file. cbn [scan_blocks]. rewrite Hsr. split; [done|]. right. split_and!; [done|done|by intros ->]. }
  apply andb_true_iff in Hsr as [Hs Hr]. rewrite Hs. cbn [andb].
  assert (io_write o text = false -> o <> io_good) as Hio by (by intros H ->).
  destruct (find_ok o text lines w HT Hw Hs Hr) as [[Hno ->]|(l1 & k0 & l2 & -> & ->)]; destruct HT as (-> & HF & HN); cbn [mbind option_bind].
  - destruct k as [k|].
    + destruct Hk as [Hk Hhd]. destruct (io_write o _); [|eexists 1, _; split; [done|]; right; by split_and!; [| |apply Hio]].
      eexists 0, _. split; [done|]. left. split; [done|]. exists (lines ++ [Key k w]). split.
      * cbn [default]. unfold overwrite. rewrite firstn_all, drop_ge by lia. rewrite bind_app. cbn. by rewrite !app_nil_r.
      * pose proof (written_end lines k w HF HN Hno Hk Hw) as H. unfold usable_key in H. by rewrite bool_decide_eq_false_2 in H.
    + eexists 0, _. split; [done|]. left. split; [done|]. exists lines. split; [done|]. split_and!; [done|done|by rewrite key_at_none|done].
  - pose proof HF as HF'. apply Forall_app in HF' as [_ [[Hk0 _] _]%Forall_cons]. rewrite bind_middle in Hio |- *.
    destruct k as [k|].
    + destruct Hk as [Hk Hhd]. destruct (io_write o _); [|eexists 1, _; split; [done|]; right; by split_and!; [| |apply Hio]].
      eexists 0, _. split; [done|]. left. split; [done|]. exists (l1 ++ Key k w :: l2). split.
      * cbn [default]. rewrite bind_middle, overwrite_middle; [done|]. rewrite key_line, !length_app, (gk_size _ Hk), (gk_size _ Hk0). done.
      * pose proof (written_middle l1 k0 k w l2 HF HN Hk) as H. unfold usable_key in H. by rewrite bool_decide_eq_false_2 in H.
    + destruct (io_write o _); [|eexists 1, _; split; [done|]; right; by split_and!; [| |apply Hio]].
      eexists 0, _. split; [done|]. left. split; [done|]. destruct (deleted_key k0 Hk0) as (c & r & -> & Hg).
      exists (l1 ++ Key (35 :: r) w :: l2). split; [|by apply (written_middle l1 (c :: r) (35 :: r) w l2 HF HN Hg)].
      rewrite bind_middle, !key_line. apply (overwrite_middle _ [c] [35] ((r ++ 32 :: w ++ [10]) ++ (l2 ≫= keyline_text))). done.
Qed.

(** *** The key strings *)

Definition keystr_of (prkey sa_flags : Z) : cstr :=
  (if Z.land sa_flags MPATH_F_APTPL_MASK =? 0 then s "0x" else s "0X") ++ hex16 prkey.

Lemma hex16_hex k : 0 <= k < 2 ^ 64 -> length (hex16 k) = 16%nat /\ Forall (fun c => is_hex c = true) (hex16 k).
Proof.
  intros Hk. unfold hex16. assert (length (ntoa 16 k) <= 16)%nat by (apply ntoa_aux_length; lia). split.
  - rewrite length_app, repeat_length. lia.
  - apply Forall_app. split.
    + apply Forall_forall. intros c Hc%list_elem_of_In%repeat_spec. by subst c.
    + eapply Forall_impl; [apply (ntoa_aux_chars _ 16 k); unfold good_base; lia|].
      cbn. intros c (e & He & ->). eapply is_hex_digit, base_digit_char; unfold good_base; lia.
Qed.

Lemma scan_hex16 k : 0 <= k -> scan_digits 16 0 (hex16 k) = (k, []).
Proof.
  intros Hk. unfold hex16. induction (16 - length (ntoa 16 k))%nat as [|n IH]; [|exact IH].
  cbn [repeat app]. rewrite <-(app_nil_r (ntoa 16 k)), scan_digits_ntoa; [done|unfold good_base; lia|done].
Qed.

Lemma parse_keystr k fl : 0 <= k < 2 ^ 64 -> parse_prkey (Some (keystr_of k fl)) = Some k.
Proof.
  intros Hk. destruct (hex16_hex k Hk) as [Hl Hh]. unfold keystr_of, parse_prkey.
  assert (forall x : cstr, x = s "0x" \/ x = s "0X" -> exists c, x = [48; c] /\ (c =? 120) || (c =? 88) = true) as Hx.
  { intros x [->| ->]; by eexists. }
  destruct (Hx (if Z.land fl MPATH_F_APTPL_MASK =? 0 then s "0x" else s "0X")) as (c & -> & Hc).
  { destruct (_ =? 0); auto. }
  cbn [app]. rewrite Z.eqb_refl, Hc. destruct (hex16 k) as [|d r] eqn:E; [done|]. rewrite <-E in *. unfold strlen. rewrite Hl.
  cbn [Z.of_nat]. rewrite strspn_all_intro by done. unfold strlen. rewrite Hl, scan_hex16 by lia. done.
Qed.

Lemma keystr_good k fl : 0 <= k < 2 ^ 64 -> key_string (Some (keystr_of k fl)).
Proof.
  intros Hk. destruct (hex16_hex k Hk) as [Hl Hh]. unfold keystr_of. split; [split|].
  - rewrite length_app, Hl. by destruct (_ =? 0).
  - apply Forall_app. split; [destruct (_ =? 0); decide_closed|]. eapply Forall_impl; [exact Hh|].
    intros c Hc. unfold is_hex, in_set in Hc. apply existsb_exists in Hc as (x & Hin & ->%Z.eqb_eq).
    apply list_elem_of_In in Hin. revert x Hin. apply Forall_forall. decide_closed.
  - by destruct (_ =? 0).
Qed.

Lemma strchr_keystr k fl : 0 <= k < 2 ^ 64 ->
  (if bool_decide (strchr 88 (keystr_of k fl) = None) then 0 else MPATH_F_APTPL_MASK) = Z.land fl MPATH_F_APTPL_MASK.
Proof.
  intros Hk. destruct (hex16_hex k Hk) as [_ Hh]. unfold keystr_of.
  destruct (Z.eqb_spec (Z.land fl MPATH_F_APTPL_MASK) 0) as [He|Hne].
  - rewrite bool_decide_eq_true_2; [by rewrite He|]. apply strchr_None, Forall_app. split; [decide_closed|].
    eapply Forall_impl; [exact Hh|]. intros c Hc ->. done.
  - rewrite bool_decide_eq_false_2 by done. unfold MPATH_F_APTPL_MASK in *. pose proof (Z.land_ones fl 1 ltac:(lia)) as Hl. change (Z.ones 1) with 1 in Hl. rewrite Hl in *.
    pose proof (Z.mod_pos_bound fl (2 ^ 1) ltac:(lia)). lia.
Qed.

(** ** A key that was set is read back *)

Lemma keys_opened text lines : keys_lines text lines ->
  exists lines', keys_lines (opened PRKEYS_FILE_HEADER text) lines' /\ keys_of lines' = keys_of lines.
Proof.
  intros H. destruct text as [|c t]; [|by exists lines]. destruct H as (Ht & HF & _). destruct lines as [|l lines].
  - exists (KNote <$> (notes ++ [s "#"])). split; [|vm_compute; reflexivity]. split; [vm_compute; reflexivity|].
    split; [|vm_compute; constructor]. apply Forall_fmap.
    change (Forall (fun b => b ∈ notes) (notes ++ [s "#"])). decide_closed.
  - apply Forall_inv in HF. destruct (keyline_proper l HF) as (b & Hb & _). cbn in Ht. rewrite Hb in Ht. by destruct b.
Qed.

(** What a later reader finds. *)
Definition prkey_in (text w : cstr) : option cstr :=
  match read_prkey io_good text w with Some (Some k) => Some k | _ => None end.

Lemma prkey_in_spec text lines w : keys_lines text lines -> good_key_wwid w ->
  prkey_in text w = key_at w (keys_of lines) ≫= usable_key.
Proof. intros HT Hw. unfold prkey_in. rewrite (read_ok io_good text lines) by done. by destruct (_ ≫= _). Qed.

Lemma wwid_strlen w : good_key_wwid w -> (strlen w =? 0) = false.
Proof. intros [H _ _ _]. apply Z.eqb_neq. destruct w; [done|]. unfold strlen. cbn. lia. Qed.

Lemma get_good text lines w fl : keys_lines text lines -> good_key_wwid w ->
  get_prkey io_good text w fl = Some match key_at w (keys_of lines) ≫= usable_key with
    | None => (1, None, fl)
    | Some k => (match parse_prkey (Some k) with Some _ => 0 | None => 1 end, parse_prkey (Some k),
                 if bool_decide (strchr 88 k = None) then 0 else MPATH_F_APTPL_MASK)
    end.
Proof.
  intros HT Hw. unfold get_prkey. rewrite wwid_strlen by done. destruct (keys_opened text lines HT) as (lines' & HO & HK).
  assert (open_file io_good PRKEYS_FILE_HEADER text = Some (true, opened PRKEYS_FILE_HEADER text)) as -> by by destruct text.
  rewrite (read_ok io_good _ lines'), HK by done. cbn [mbind option_bind]. by destruct (_ ≫= _).
Qed.

Lemma get_ends o text lines w fl : keys_lines text lines -> good_key_wwid w -> is_Some (get_prkey o text w fl).
Proof.
  intros HT Hw. unfold get_prkey. destruct (_ =? 0); [done|]. destruct (keys_opened text lines HT) as (lines' & HO & HK).
  destruct (open_file o _ text) as [[cw t]|] eqn:E; [|done]. apply open_file_opened in E as ->.
  destruct (io_seek o && io_read o) eqn:Hsr.
  - apply andb_true_iff in Hsr as [Hs Hr]. by rewrite (read_ok o _ lines').
  - unfold read_prkey, find_line, scan_file. cbn [scan_blocks]. by rewrite Hsr.
Qed.

Lemma select_good o text w mpe conf : (forall fl, is_Some (get_prkey o text w fl)) ->
  is_Some (select_reservation_key o text w mpe conf).
Proof.
  intros H. unfold select_reservation_key. destruct (prkey_set mpe conf) as [r|]; [|done]. case_decide; [|done].
  destruct (H (r_sa_flags r)) as [[[rc v] fl] ->]. by eexists.
Qed.

Lemma set_prkey_spec o text w mpe conf mp prkey sa_flags :
  keys_file text -> good_key_wwid w -> 0 <= prkey < 2 ^ 64 ->
  exists rc text' mp', set_prkey o text w mpe conf mp prkey sa_flags = Some (rc, text', mp') /\ keys_file text' /\
    (forall w', good_key_wwid w' -> w' <> w -> prkey_in text' w' = prkey_in text w') /\
    (rc = 0 -> reservation_key mp' = prkey /\ forall fl, get_prkey io_good text' w fl =
       Some (if prkey =? 0 then (1, None, fl) else (0, Some prkey, Z.land sa_flags MPATH_F_APTPL_MASK))) /\
    (o = io_good -> prkey_source <$> prkey_set mpe conf = Some PRKEY_SOURCE_FILE -> rc = 0).
Proof.
  intros [lines HT] Hw Hk. unfold set_prkey. rewrite wwid_strlen by done.
  destruct (keys_opened text lines HT) as (lines0 & HO & HK).
  assert (forall text1, keys_lines text1 lines0 -> forall w', good_key_wwid w' -> prkey_in text1 w' = prkey_in text w') as Hsame
    by (intros text1 HT1 w' Hw'; by rewrite (prkey_in_spec text1 lines0), (prkey_in_spec text lines), HK).
  destruct (open_file o _ text) as [[cw text1]|] eqn:E.
  2: { do 3 eexists. split; [done|]. split_and!; [by exists lines|done|done|]. intros ->. by destruct text. }
  assert (o = io_good -> cw = true) as Hcw by (intros ->; destruct text; by injection E as <- _).
  apply open_file_opened in E as ->. destruct cw; cbn [negb].
  2: { do 3 eexists. split; [done|]. split_and!; [by exists lines0|by auto|done|]. intros Hio. by specialize (Hcw Hio). }
  set (k := if prkey =? 0 then None else Some _).
  assert (key_string k /\ k = if prkey =? 0 then None else Some (keystr_of prkey sa_flags)) as [Hks Hk2].
  { unfold k. destruct (prkey =? 0); [done|]. split; [by apply keystr_good|done]. }
  rewrite Hk2 in *. clear k Hk2. destruct (write_ok o _ lines0 w _ HO Hw Hks) as (rc & text' & -> & Hw').
  destruct Hw' as [(-> & lines' & -> & H1 & H2 & H3 & H4)|(-> & -> & Hio)]; cbn [mbind option_bind].
  2: { do 3 eexists. split; [done|]. split_and!; [by exists lines0|by auto|by destruct (reservation_key mp =? prkey)|done]. }
  assert (keys_lines (lines' ≫= keyline_text) lines') as HT' by done. set (text' := lines' ≫= keyline_text) in *.
  assert (forall fl, get_prkey io_good text' w fl =
    Some (if prkey =? 0 then (1, None, fl) else (0, Some prkey, Z.land sa_flags MPATH_F_APTPL_MASK))) as Hget.
  { intros fl. rewrite (get_good text' lines'), H3 by done. destruct (Z.eqb_spec prkey 0); [done|].
    by rewrite parse_keystr, strchr_keystr. }
  destruct (select_good o text' w mpe conf) as [mp' Hsel]; [intros fl; by apply (get_ends o text' lines')|].
  change (0 =? 0) with true. cbn match. rewrite Hsel. do 3 eexists. split; [done|]. split_and!; [by exists lines'| | |].
  - intros w' Hw' Hne. rewrite (prkey_in_spec text' lines'), (prkey_in_spec text lines), H4, HK by done. done.
  - destruct (Z.eqb_spec (reservation_key mp') prkey); [done|by intros].
  - intros -> Hsrc. unfold select_reservation_key in Hsel. destruct (prkey_set mpe conf) as [r|]; [|done].
    injection Hsrc as Hsrc. rewrite decide_True, Hget in Hsel by done. destruct (Z.eqb_spec prkey 0) as [->|Hne]; injection Hsel as <-;
      cbn [reservation_key]; [done|]. by rewrite Z.eqb_refl.
Qed.

(** C30: a reservation key that was set is read back with its flag, and a key that
    was unset is not found; the keys of other WWIDs are untouched, whatever
    fails; the search of the file ends; and when everything works and the
    configuration takes the key from the file, setting it succeeds. *)
Theorem prkey_file_roundtrip o text w mpe conf mp prkey sa_flags :
  keys_file text -> good_key_wwid w -> 0 <= prkey < 2 ^ 64 ->
  exists rc text' mp', set_prkey o text w mpe conf mp prkey sa_flags = Some (rc, text', mp') /\ keys_file text' /\
    (forall w', good_key_wwid w' -> w' <> w -> prkey_in text' w' = prkey_in text w') /\
    (rc = 0 -> reservation_key mp' = prkey /\ forall fl, get_prkey io_good text' w fl =
       Some (if prkey =? 0 then (1, None, fl) else (0, Some prkey, Z.land sa_flags MPATH_F_APTPL_MASK))) /\
    (o = io_good -> prkey_source <$> prkey_set mpe conf = Some PRKEY_SOURCE_FILE -> rc = 0).
Proof. intros HT Hw Hk. destruct (set_prkey_spec o text w mpe conf mp prkey sa_flags HT Hw Hk) as (rc & text' & mp' & H). by exists rc, text', mp'. Qed.

Lemma prkey_file_roundtrip_witness :
  let text := PRKEYS_FILE_HEADER ++ s "0x0000000000000abc 36001" ++ [10] in
  let conf := {| prkey_source := PRKEY_SOURCE_FILE; reservation_key := 0; r_sa_flags := 0 |} in
  keys_file text /\
  exists text' mp', set_prkey io_good text (s "36002") None conf conf 7 1 = Some (0, text', mp') /\
    prkey_in text' (s "36001") = Some (s "0x0000000000000abc") /\
    get_prkey io_good text' (s "36002") 0 = Some (0, Some 7, 1).
Proof.
  intros text conf. assert (keys_file text) as HT.
  { exists ((KNote <$> (notes ++ [s "#"])) ++ [Key (s "0x0000000000000abc") (s "36001")]). split; [vm_compute; reflexivity|]. split; [|decide_closed].
    apply Forall_app. split; [apply Forall_fmap; change (Forall (fun b => b ∈ notes) (notes ++ [s "#"])); decide_closed|].
    constructor; [|constructor]. split; split; (reflexivity || discriminate || decide_closed). }
  split; [exact HT|].
  destruct (prkey_file_roundtrip io_good text (s "36002") None conf conf 7 1 HT) as (rc & text' & mp' & H1 & _ & H2 & H3 & H4).
  - split; (reflexivity || discriminate || decide_closed).
  - lia.
  - assert (rc = 0) as -> by by apply H4. exists text', mp'. split; [exact H1|]. split.
    + rewrite H2; [vm_compute; reflexivity| |discriminate]. split; (reflexivity || discriminate || decide_closed).
    + destruct (H3 eq_refl) as [_ Hget]. exact (Hget 0).
Defined.
