(* ===== verification/Dmparser.v ===== *)
(** * libmultipath/dmparser.c: device-mapper tables and status lines

    [assemble_map] prints the path groups of a map as a table for the kernel;
    [disassemble_map] and [disassemble_status] read back what the kernel
    reports.  The parsers run in a small state and error monad: the state is the
    unread text, the path store, the next free path pointer and the map; the
    outcome is a value, the return code 1, or the NULL dereference of
    [atoi(word)] on a text that ends too early ([Crash]). *)

From S2P Require Import Prelude CString Util Structs.

(** ** Building the table *)

(** [APPEND]: printing fails when the text would fill the buffer. *)
Definition append (len : nat) (acc piece : cstr) : option cstr :=
  if (length (acc ++ piece) <? len)%nat then Some (acc ++ piece) else None.

Definition sp : cstr := [32].

Fixpoint append_paths (len : nat) (h : pheap) (m : multipath) (acc : cstr) (ps : list ptr)
  : option cstr :=
  match ps with
  | [] => Some acc
  | p :: r =>
      let pp := h !!! p in
      let tmp_minio := if (rr_weight m =? RR_WEIGHT_PRIO) && (0 <? priority pp)
                       then s32 (minio m * priority pp) else minio m in
      if strlen (dev_t pp) =? 0 then None
      else
        acc' ← append len acc (sp ++ dev_t pp ++ sp ++ itoa tmp_minio);
        append_paths len h m acc' r
  end.

Fixpoint append_groups (len : nat) (h : pheap) (m : multipath) (acc : cstr)
    (gs : list pathgroup) : option cstr :=
  match gs with
  | [] => Some acc
  | g :: r =>
      acc' ← append len acc (sp ++ default [] (selector m) ++ sp ++
                             itoa (Z.of_nat (length (g_paths g))) ++ s " 1");
      acc'' ← append_paths len h m acc' (g_paths g);
      append_groups len h m acc'' r
  end.

(** The features [assemble_map] sees to before printing. *)
Definition assemble_features (version_code : Z) (m : multipath) : option cstr :=
  let f := features m in
  let f := if negb (no_path_retry m =? NO_PATH_RETRY_UNDEF) &&
              negb (no_path_retry m =? NO_PATH_RETRY_FAIL)
           then snd (add_feature f (Some (s "queue_if_no_path"))) else f in
  if (retain_hwhandler m =? RETAIN_HWHANDLER_ON) && (version_code <? KERNEL_VERSION 4 3 0)
  then snd (add_feature f (Some (s "retain_attached_hw_handler"))) else f.

(** The map with its features, and the table ([None] when the function returns 1). *)
Definition assemble_map (version_code : Z) (len : nat) (h : pheap) (m : multipath)
  : multipath * option cstr :=
  let m := m <| features := assemble_features version_code m |> in
  let groups := slots (pg m) in
  let n := Z.of_nat (length groups) in
  let initial_pg_nr := if n =? 0 then 0 else bestpg m in
  (m,
   acc ← append len [] (default [] (features m) ++ sp ++ default [] (hwhandler m) ++ sp ++
                        itoa n ++ sp ++ itoa initial_pg_nr);
   append_groups len h m acc groups).

(** ** The parser monad *)

Inductive outcome (A : Type) := Ret (a : A) | Fail | Crash.
Arguments Ret {A} _.
Arguments Fail {A}.
Arguments Crash {A}.

Record dstate := { d_text : cstr; d_heap : pheap; d_next : ptr; d_map : multipath }.

#[export] Instance eta_dstate : Eta dstate := fun x => {|
  d_text := d_text x; d_heap := d_heap x; d_next := d_next x; d_map := d_map x |}.

Definition D (A : Type) : Type := dstate -> outcome A * dstate.

#[export] Instance D_ret : MRet D := fun A a st => (Ret a, st).
#[export] Instance D_bind : MBind D := fun A B f m st =>
  match m st with
  | (Ret a, st') => f a st'
  | (Fail, st') => (Fail, st')
  | (Crash, st') => (Crash, st')
  end.

Definition dfail {A} : D A := fun st => (Fail, st).
Definition dcrash {A} : D A := fun st => (Crash, st).
Definition get_st : D dstate := fun st => (Ret st, st).
Definition modify (f : dstate -> dstate) : D unit := fun st => (Ret tt, f st).
Definition modify_map (f : multipath -> multipath) : D unit := modify (fun st => st <| d_map ::= f |>).

(** [p += get_word(p, &word)]: the word, if any. *)
Definition next_word : D (option cstr) := fun st =>
  let '(n, w) := get_word (d_text st) true in (Ret w, st <| d_text ::= drop n |>).

(** [p += get_word(p, NULL)]. *)
Definition skip_word : D unit := fun st =>
  let '(n, _) := get_word (d_text st) false in (Ret tt, st <| d_text ::= drop n |>).

(** [if (!word) return 1;]. *)
Definition need_word : D cstr :=
  w ← next_word; match w with Some w => mret w | None => dfail end.

(** The number of a word that is used without a NULL check. *)
Definition word_atoi : D Z :=
  w ← next_word; match w with Some w => mret (atoi w) | None => dcrash end.

Fixpoint repeat_m (n : nat) (body : D unit) : D unit :=
  match n with
  | O => mret tt
  | S n' => _ ← body; repeat_m n' body
  end.

(** [for (i = start; i < start + n; i++) body(i)]. *)
Fixpoint for_m (n : nat) (i : Z) (body : Z -> D unit) : D unit :=
  match n with
  | O => mret tt
  | S n' => _ ← body i; for_m n' (i + 1) body
  end.

(** ** Reading a table *)

Definition merge_words (dst word : cstr) : cstr := dst ++ sp ++ word.

(** A counted list of words, joined: features and hardware handler. *)
Fixpoint merge_n (n : nat) (acc : cstr) (store : option cstr -> multipath -> multipath) : D unit :=
  match n with
  | O => mret tt
  | S n' =>
      w ← need_word;
      let acc' := merge_words acc w in
      _ ← modify_map (store (Some acc'));
      merge_n n' acc' store
  end.

Definition counted_words (store : option cstr -> multipath -> multipath) : D unit :=
  w ← next_word;
  _ ← modify_map (store w);
  match w with
  | None => dfail
  | Some w => merge_n (Z.to_nat (atoi w)) w store
  end.

(** The first selector argument of a path updates [minio]. *)
Definition path_minio (p : ptr) : D unit :=
  def_minio ← word_atoi;
  st ← get_st;
  let m := d_map st in
  let def_minio :=
    if strneq 11 (default [] (selector m)) (s "round-robin") then
      if (rr_weight m =? RR_WEIGHT_PRIO) && (0 <? priority (d_heap st !!! p))
      then Z.quot def_minio (priority (d_heap st !!! p)) else def_minio
    else def_minio in
  if def_minio =? minio m then mret tt else modify_map (fun m => m <| minio := def_minio |>).

(** Adding a path to the last group of the map. *)
Definition add_to_last (p : ptr) (m : multipath) : multipath :=
  match reverse (slots (pg m)) with
  | g :: r => m <| pg := Some (reverse r ++
                [g <| g_paths ::= (fun l => l ++ [p]) |>
                   <| pg_id ::= (fun i => Z.lxor i (Z.of_nat p)) |>]) |>
  | [] => m
  end.

Section Map.
Variable pathvec : list ptr.

(** One path of group [i]; an unknown device becomes a fresh path. *)
Definition read_path (i num_paths_args : Z) : D unit :=
  w ← need_word;
  st ← get_st;
  p ← match find_path_by_devt (d_heap st) pathvec w with
      | Some p => mret p
      | None =>
          let p := d_next st in
          _ ← modify (fun st => st <| d_heap ::= (fun h =>
                        <[p := alloc_path <| dev_t := take (BLK_DEV_SIZE - 1) w |>]> h) |>
                     <| d_next := S p |>);
          mret p
      end;
  st ← get_st;
  _ ← match store_path (d_heap st) [] p with Some _ => mret tt | None => dfail end;
  _ ← modify_map (add_to_last p);
  _ ← modify (fun st => st <| d_heap ::= (fun h => <[p := (h !!! p) <| pgindex := i + 1 |>]> h) |>);
  if num_paths_args <=? 0 then mret tt
  else
    _ ← path_minio p;
    repeat_m (Z.to_nat (num_paths_args - 1)) skip_word.

(** One path group; the argument and the result are [num_pg_args], which keeps
    its value from one group to the next. *)
Definition read_group (i num_pg_args : Z) : D Z :=
  st ← get_st;
  num_pg_args ←
    match selector (d_map st) with
    | None =>
        sel ← need_word;
        _ ← modify_map (fun m => m <| selector := Some sel |>);
        w ← need_word;
        _ ← modify_map (fun m => m <| selector := Some (merge_words sel w) |>);
        mret (atoi w)
    | Some _ => _ ← skip_word; _ ← skip_word; mret num_pg_args
    end;
  _ ← repeat_m (Z.to_nat num_pg_args) skip_word;
  _ ← modify_map (fun m => m <| pg := Some (add_pathgroup (slots (pg m)) alloc_pathgroup) |>);
  num_paths ← need_word;
  num_paths_args ← need_word;
  _ ← for_m (Z.to_nat (atoi num_paths)) 0 (fun _ => read_path i (atoi num_paths_args));
  mret num_pg_args.

Fixpoint read_groups (n : nat) (i num_pg_args : Z) : D unit :=
  match n with
  | O => mret tt
  | S n' => a ← read_group i num_pg_args; read_groups n' (i + 1) a
  end.

Definition read_header : D Z :=
  _ ← counted_words (fun x m => m <| features := x |>);
  _ ← counted_words (fun x m => m <| hwhandler := x |>);
  w ← need_word;
  let num_pg := atoi w in
  _ ← modify_map (fun m =>
        if 0 <? num_pg then m <| pg := Some (slots (pg m)) |> else m <| pg := None |>);
  mret num_pg.

(** Errors after the header release the groups ([goto out]). *)
Definition read_body (num_pg : Z) : D unit :=
  w ← need_word;
  _ ← modify_map (fun m => m <| nextpg := atoi w |>);
  read_groups (Z.to_nat num_pg) 0 0.

Definition disassemble_map (params : cstr) (h : pheap) (next : ptr) (m : multipath)
  : outcome unit * dstate :=
  match read_header {| d_text := params; d_heap := h; d_next := next; d_map := m |} with
  | (Ret num_pg, st) =>
      match read_body num_pg st with
      | (Fail, st') => (Fail, st' <| d_map ::= (fun m => m <| pg := None |>) |>)
      | r => r
      end
  | (Fail, st) => (Fail, st)
  | (Crash, st) => (Crash, st)
  end.
End Map.

(** ** Reading a status line *)

Definition pg_status (w : cstr) : pgstates :=
  match w with
  | c :: _ => if c =? 68 then PGSTATE_DISABLED
              else if c =? 65 then PGSTATE_ACTIVE
              else if c =? 69 then PGSTATE_ENABLED
              else PGSTATE_UNDEF
  | [] => PGSTATE_UNDEF
  end.

Definition path_dmstate (w : cstr) (old : pathstates) : pathstates :=
  match w with
  | c :: _ => if c =? 70 then PSTATE_FAILED else if c =? 65 then PSTATE_ACTIVE else old
  | [] => old
  end.

Definition set_path (p : ptr) (f : path -> path) : D unit :=
  modify (fun st => st <| d_heap ::= (fun h => <[p := f (h !!! p)]> h) |>).

Definition status_path (num_pg_args : Z) (p : ptr) : D unit :=
  _ ← skip_word;
  w ← need_word;
  _ ← set_path p (fun pp => pp <| dmstate := path_dmstate w (dmstate pp) |>);
  f ← need_word;
  _ ← set_path p (fun pp => pp <| failcount := atoi f |>);
  repeat_m (Z.to_nat num_pg_args)
    (st ← get_st;
     match selector (d_map st) with
     | None => dcrash
     | Some sel =>
         if strneq 13 sel (s "least-pending") then
           w ← next_word;
           match w with
           | None => dcrash
           | Some w =>
               match scan_int w with
               | Some (v, _) =>
                   if v =? minio (d_map st) then mret tt
                   else modify_map (fun m => m <| minio := v |>)
               | None => mret tt
               end
           end
         else skip_word
     end).

Fixpoint status_paths (num_pg_args : Z) (ps : list ptr) : D unit :=
  match ps with
  | [] => mret tt
  | p :: r => _ ← status_path num_pg_args p; status_paths num_pg_args r
  end.

Definition status_group (i : nat) (g : pathgroup) : D unit :=
  w ← need_word;
  _ ← modify_map (fun m => m <| pg := Some (alter (fun g => g <| status := pg_status w |>) i
                                                  (slots (pg m))) |>);
  _ ← skip_word;
  n ← need_word;
  a ← need_word;
  if Z.of_nat (length (g_paths g)) <? atoi n then dfail
  else status_paths (atoi a) (take (Z.to_nat (atoi n)) (g_paths g)).

Fixpoint status_groups (n i : nat) : D unit :=
  match n with
  | O => mret tt
  | S n' =>
      st ← get_st;
      match slots (pg (d_map st)) !! i with
      | Some g => _ ← status_group i g; status_groups n' (S i)
      | None => dcrash
      end
  end.

Definition status_feature (i : Z) : D unit :=
  if i =? 1 then w ← need_word; modify_map (fun m => m <| queuedio := atoi w |>) else skip_word.

Definition read_status : D unit :=
  nf ← need_word;
  _ ← for_m (Z.to_nat (atoi nf)) 0 status_feature;
  nh ← need_word;
  _ ← repeat_m (Z.to_nat (atoi nh)) skip_word;
  np ← need_word;
  if atoi np =? 0 then mret tt
  else
    _ ← skip_word;
    st ← get_st;
    if Z.of_nat (length (slots (pg (d_map st)))) <? atoi np then dfail
    else status_groups (Z.to_nat (atoi np)) 0.

Definition disassemble_status (params : cstr) (h : pheap) (m : multipath) : outcome unit * dstate :=
  read_status {| d_text := params; d_heap := h; d_next := 0%nat; d_map := m |}.

(** ** Lemmas: reading words *)

(** The text of a list of words behind [k] blanks. *)
Definition text_of (k : nat) (ws : list cstr) : cstr :=
  match ws with
  | [] => []
  | w :: r => replicate k 32 ++ w ++ words_text r
  end.

Abbreviation st4 t h n m := {| d_text := t; d_heap := h; d_next := n; d_map := m |}.

(** The text left when the words [ws] are still to come; behind the last word
    nothing is known, since it is not skipped. *)
Definition left_over (ws : list cstr) (t : cstr) : Prop := ws <> [] -> exists k, t = text_of k ws.

Lemma words_text_text_of ws : words_text ws = text_of 1 ws.
Proof. by destruct ws. Qed.

Lemma text_of_cons k w r : r <> [] -> text_of k (w :: r) = replicate k 32 ++ w ++ 32 :: text_of 0 r.
Proof. by destruct r. Qed.

Lemma drop_word {A} (k : nat) (b : A) (w r : list A) :
  drop (k + length w) (replicate k b ++ w ++ r) = r.
Proof.
  rewrite app_assoc. apply drop_app_length'. len.
Qed.

Lemma next_word_spec t h n m w r :
  is_word w -> left_over (w :: r) t ->
  exists t', next_word (st4 t h n m) = (Ret (Some w), st4 t' h n m) /\ left_over r t'.
Proof.
  intros Hw Ht. destruct (Ht ltac:(done)) as [k ->]. unfold next_word. cbn [d_text].
  destruct (decide (r = [])) as [->|Hr].
  - unfold text_of, words_text. simpl. rewrite app_nil_r, get_word_last by done.
    eexists. split; [done|]. by intros [].
  - rewrite text_of_cons, get_word_more by done. cbn [upd d_text].
    rewrite drop_word. eexists. split; [done|]. intros _. exists 1%nat. by destruct r.
Qed.

Lemma need_word_spec t h n m w r :
  is_word w -> left_over (w :: r) t ->
  exists t', need_word (st4 t h n m) = (Ret w, st4 t' h n m) /\ left_over r t'.
Proof.
  intros Hw Ht. destruct (next_word_spec t h n m w r Hw Ht) as (t' & H & Hl).
  exists t'. split; [|done]. unfold need_word, mbind, D_bind. by rewrite H.
Qed.

Lemma word_atoi_spec t h n m w r :
  is_word w -> left_over (w :: r) t ->
  exists t', word_atoi (st4 t h n m) = (Ret (atoi w), st4 t' h n m) /\ left_over r t'.
Proof.
  intros Hw Ht. destruct (next_word_spec t h n m w r Hw Ht) as (t' & H & Hl).
  exists t'. split; [|done]. unfold word_atoi, mbind, D_bind. by rewrite H.
Qed.

Lemma skip_word_spec t h n m w r :
  is_word w -> left_over (w :: r) t ->
  exists t', skip_word (st4 t h n m) = (Ret tt, st4 t' h n m) /\ left_over r t'.
Proof.
  intros Hw Ht. destruct (Ht ltac:(done)) as [k ->]. unfold skip_word. cbn [d_text].
  destruct (decide (r = [])) as [->|Hr].
  - destruct (get_word _ _). eexists. split; [done|]. by intros [].
  - rewrite text_of_cons, get_word_more by done. cbn [upd d_text].
    rewrite drop_word. eexists. split; [done|]. intros _. exists 1%nat. by destruct r.
Qed.

Lemma bind_ret {A B} (m : D A) (f : A -> D B) st a st' :
  m st = (Ret a, st') -> (m ≫= f) st = f a st'.
Proof. unfold mbind, D_bind. by intros ->. Qed.

(** Runs the head of a monadic program by a specification lemma [lem] whose
    conclusion is an existential over the left-over text. *)
Ltac dstep lem :=
  let t := fresh "t" in
  let E := fresh "E" in
  let L := fresh "L" in
  edestruct lem as (t & E & L); [| |erewrite (bind_ret _ _ _ _ _ E)]; clear E.

Lemma itoa_is_word n : is_word (itoa n).
Proof.
  split; [apply itoa_not_nil|]. eapply Forall_impl; [apply itoa_chars|].
  simpl. intros c Hc. unfold isspace. lia.
Qed.

Lemma merge_n_spec store ws acc r t h n m :
  Forall is_word ws -> (forall x y m, store x (store y m) = store x m) ->
  left_over (ws ++ r) t ->
  exists t', merge_n (length ws) acc store (st4 t h n (store (Some acc) m)) =
    (Ret tt, st4 t' h n (store (Some (acc ++ words_text ws)) m)) /\ left_over r t'.
Proof.
  intros Hws Hst. revert acc t. induction Hws as [|w ws Hw _ IH]; intros acc t Ht; cbn [length merge_n].
  { exists t. rewrite app_nil_r. done. }
  destruct (need_word_spec t h n (store (Some acc) m) w (ws ++ r) Hw Ht) as (t1 & E1 & L1).
  erewrite bind_ret by exact E1. cbv zeta.
  erewrite bind_ret by reflexivity. cbn [upd d_map d_text d_heap d_next]. rewrite Hst.
  destruct (IH (merge_words acc w) t1 L1) as (t2 & E2 & L2). exists t2. split; [|done].
  rewrite E2. unfold merge_words, sp. do 4 f_equal. by rewrite <-!app_assoc.
Qed.

Lemma counted_words_spec store ws r t h n m :
  Forall is_word ws -> (forall x y m, store x (store y m) = store x m) ->
  Z.of_nat (length ws) < INT_MAX ->
  left_over (itoa (Z.of_nat (length ws)) :: ws ++ r) t ->
  exists t', counted_words store (st4 t h n m) =
    (Ret tt, st4 t' h n (store (Some (feature_text ws)) m)) /\ left_over r t'.
Proof.
  intros Hws Hst Hl Ht. unfold counted_words.
  destruct (next_word_spec t h n m _ (ws ++ r) (itoa_is_word _) Ht) as (t1 & E1 & L1).
  erewrite bind_ret by exact E1. erewrite bind_ret by reflexivity.
  cbn [upd d_map d_text d_heap d_next].
  rewrite atoi_itoa by (unfold is_int, INT_MIN, INT_MAX in *; lia).
  rewrite Nat2Z.id. by apply merge_n_spec.
Qed.

(** ** Lemmas: reading the paths of a group *)

Definition set_pgindex (i : Z) (p : ptr) (h : pheap) : pheap :=
  <[p := (h !!! p) <| pgindex := i |>]> h.

Lemma lookup_total_insert_cases (h : pheap) p q x :
  <[p := x]> h !!! q = if decide (p = q) then x else h !!! q.
Proof.
  destruct (decide (p = q)) as [->|Hn]; [apply lookup_total_insert_eq|by apply lookup_total_insert_ne].
Qed.

(** Stores that agree on everything reading a table looks at. *)
Definition same_devs (h h' : pheap) : Prop :=
  forall p, dev_t (h' !!! p) = dev_t (h !!! p) /\ priority (h' !!! p) = priority (h !!! p).

Lemma same_devs_refl h : same_devs h h.
Proof. done. Qed.

Lemma same_devs_pgindex i p h h' : same_devs h h' -> same_devs h (set_pgindex i p h').
Proof.
  intros H q. unfold set_pgindex. rewrite lookup_total_insert_cases.
  destruct (decide (p = q)) as [->|]; [apply (H q)|apply H].
Qed.

Section RoundTrip.
Context (h0 : pheap) (pathvec : list ptr) (m0 : multipath).

(** A path the table can name: it is in the path vector, the only one with its
    device number, and its number is a word. *)
Definition nameable (p : ptr) : Prop :=
  p ∈ pathvec /\ is_word (dev_t (h0 !!! p)) /\
  forall q, q ∈ pathvec -> dev_t (h0 !!! q) = dev_t (h0 !!! p) -> q = p.

Lemma find_nameable h p : nameable p -> same_devs h0 h ->
  find_path_by_devt h pathvec (dev_t (h0 !!! p)) = Some p.
Proof.
  intros (Hin & _ & Huniq) Hs. unfold find_path_by_devt.
  destruct (List.find _ pathvec) as [q|] eqn:E.
  - apply find_in in E as [Hq Hd]. apply streq_eq in Hd. destruct (Hs q) as [Hd' _].
    f_equal. apply Huniq; congruence.
  - apply find_none_spec in E. rewrite Forall_forall in E. specialize (E p Hin). cbn beta in E.
    destruct (Hs p) as [Hd _]. rewrite Hd, streq_refl in E. done.
Qed.

(** The [minio] value the table shows for a path. *)
Definition shown_minio (p : ptr) : Z :=
  if (rr_weight m0 =? RR_WEIGHT_PRIO) && (0 <? priority (h0 !!! p))
  then s32 (minio m0 * priority (h0 !!! p)) else minio m0.

(** Either weights are not by priority, or the selector is one that undoes the
    multiplication and no product overflows. *)
Definition minio_ok (p : ptr) : Prop :=
  is_int (minio m0) /\
  (rr_weight m0 = RR_WEIGHT_PRIO -> 0 < priority (h0 !!! p) ->
   strneq 11 (default [] (selector m0)) (s "round-robin") = true /\
   is_int (minio m0 * priority (h0 !!! p))).

Lemma minio_set_same m : m <| minio := minio m |> = m.
Proof. by destruct m. Qed.

Lemma path_minio_spec t h n m p r :
  same_devs h0 h -> minio_ok p -> selector m = selector m0 -> rr_weight m = rr_weight m0 ->
  left_over (itoa (shown_minio p) :: r) t ->
  exists t', path_minio p (st4 t h n m) = (Ret tt, st4 t' h n (m <| minio := minio m0 |>)) /\
             left_over r t'.
Proof.
  intros Hs (Hi & Hm) Hsel Hrr Ht. unfold path_minio.
  destruct (word_atoi_spec t h n m _ r (itoa_is_word _) Ht) as (t' & E & L).
  exists t'. split; [|done].
  erewrite bind_ret by exact E. erewrite bind_ret by reflexivity. cbn [d_map d_heap].
  rewrite Hsel, Hrr. destruct (Hs p) as [_ Hp]. rewrite Hp.
  assert (is_int (shown_minio p)) as Hint
    by (unfold shown_minio; case_match; [apply s32_range|done]).
  rewrite atoi_itoa by done.
  set (v := if strneq 11 _ _ then _ else _).
  assert (v = minio m0) as ->.
  { unfold v, shown_minio. destruct (rr_weight m0 =? RR_WEIGHT_PRIO) eqn:Hr; cbn [andb].
    - apply Z.eqb_eq in Hr. destruct (Z.ltb_spec 0 (priority (h0 !!! p))) as [Hpos|].
      + destruct (Hm Hr Hpos) as [-> Hint']. rewrite s32_id by done.
        rewrite Z.quot_mul; lia.
      + by destruct (strneq _ _ _).
    - by destruct (strneq _ _ _). }
  destruct (Z.eqb_spec (minio m0) (minio m)) as [->|]; [|done].
  by rewrite minio_set_same.
Qed.

(** The group a list of paths becomes. *)
Definition read_pg (ps : list ptr) : pathgroup :=
  alloc_pathgroup <| g_paths := ps |>
                  <| pg_id := foldl (fun i p => Z.lxor i (Z.of_nat p)) 0 ps |>.

Lemma add_to_last_snoc m gs ps p :
  pg m = Some (gs ++ [read_pg ps]) ->
  add_to_last p m = m <| pg := Some (gs ++ [read_pg (ps ++ [p])]) |>.
Proof.
  intros H. unfold add_to_last. rewrite H. cbn [slots default from_option id].
  rewrite reverse_snoc, reverse_involutive. unfold read_pg. cbn. by rewrite foldl_app.
Qed.

Definition path_words (p : ptr) : list cstr := [dev_t (h0 !!! p); itoa (shown_minio p)].

Lemma read_path_spec t h n m gs ps p r i :
  same_devs h0 h -> nameable p -> minio_ok p ->
  selector m = selector m0 -> rr_weight m = rr_weight m0 ->
  pg m = Some (gs ++ [read_pg ps]) ->
  left_over (path_words p ++ r) t ->
  exists t', read_path pathvec i 1 (st4 t h n m) =
    (Ret tt, st4 t' (set_pgindex (i + 1) p h) n
       (m <| pg := Some (gs ++ [read_pg (ps ++ [p])]) |> <| minio := minio m0 |>)) /\
    left_over r t'.
Proof.
  intros Hs Hp Hmi Hsel Hrr Hpg Ht. pose proof Hp as (Hin & Hw & _). unfold read_path.
  destruct (need_word_spec t h n m _ _ Hw Ht) as (t1 & E1 & L1).
  erewrite bind_ret by exact E1. erewrite bind_ret by reflexivity. cbn [d_heap].
  rewrite find_nameable by done. erewrite bind_ret by reflexivity.
  erewrite bind_ret by reflexivity. cbn [d_heap].
  assert (storable_word : store_path h [] p = Some [p]).
  { unfold store_path. destruct (Hs p) as [-> _]. destruct Hw as [Hne _].
    destruct (dev_t (h0 !!! p)); [done|]. unfold strlen. cbn [length]. by if_false. }
  rewrite storable_word. erewrite bind_ret by reflexivity. erewrite bind_ret by reflexivity.
  cbn [upd d_map d_text d_heap d_next]. rewrite (add_to_last_snoc m gs ps p Hpg).
  erewrite bind_ret by reflexivity. cbn [upd d_map d_text d_heap d_next]. cbn [Z.leb Z.compare].
  fold (set_pgindex (i + 1) p h).
  destruct (path_minio_spec t1 (set_pgindex (i + 1) p h) n
    (m <| pg := Some (gs ++ [read_pg (ps ++ [p])]) |>) p r) as (t2 & E2 & L2); try done.
  { by apply same_devs_pgindex. }
  erewrite bind_ret by exact E2. exists t2. done.
Qed.

Definition set_pgindexes (i : Z) (ps : list ptr) (h : pheap) : pheap :=
  foldl (fun h p => set_pgindex i p h) h ps.

Lemma same_devs_pgindexes i ps h h' : same_devs h h' -> same_devs h (set_pgindexes i ps h').
Proof.
  revert h'. induction ps as [|p ps IH]; intros h' H; [done|]. apply IH, same_devs_pgindex, H.
Qed.

Lemma read_paths_spec ps t h n m gs ps0 r i j :
  same_devs h0 h -> Forall nameable ps -> Forall minio_ok ps ->
  selector m = selector m0 -> rr_weight m = rr_weight m0 ->
  pg m = Some (gs ++ [read_pg ps0]) ->
  left_over ((ps ≫= path_words) ++ r) t ->
  exists t', for_m (length ps) j (fun _ => read_path pathvec i 1) (st4 t h n m) =
    (Ret tt, st4 t' (set_pgindexes (i + 1) ps h) n
       (if (length ps =? 0)%nat then m
        else m <| pg := Some (gs ++ [read_pg (ps0 ++ ps)]) |> <| minio := minio m0 |>)) /\
    left_over r t'.
Proof.
  revert t h m ps0 j. induction ps as [|p ps IH]; intros t h m ps0 j Hs Hps Hmi Hsel Hrr Hpg Ht.
  { exists t. done. }
  apply Forall_cons in Hps as [Hp Hps], Hmi as [Hmp Hmi].
  cbn [mbind list_bind] in Ht. rewrite <-app_assoc in Ht.
  destruct (read_path_spec t h n m gs ps0 p _ i Hs Hp Hmp Hsel Hrr Hpg Ht) as (t1 & E1 & L1).
  cbn [length for_m]. erewrite bind_ret by exact E1.
  destruct (IH t1 (set_pgindex (i + 1) p h)
    (m <| pg := Some (gs ++ [read_pg (ps0 ++ [p])]) |> <| minio := minio m0 |>) (ps0 ++ [p]) (j + 1))
    as (t2 & E2 & L2); try done.
  { by apply same_devs_pgindex. }
  exists t2. split; [|done]. rewrite E2. cbn [Nat.eqb].
  destruct ps as [|p' ps]; cbn [length Nat.eqb]; [done|]. by rewrite <-app_assoc.
Qed.

(** The words of a group behind the selector. *)
Definition group_words (sel : cstr) (g : pathgroup) : list cstr :=
  [sel; s "0"; itoa (Z.of_nat (length (g_paths g))); s "1"] ++ (g_paths g ≫= path_words).

Definition group_ok (g : pathgroup) : Prop :=
  Forall nameable (g_paths g) /\ Forall minio_ok (g_paths g) /\
  Z.of_nat (length (g_paths g)) < INT_MAX.

Lemma skip_two t h n m a b r :
  is_word a -> is_word b -> left_over (a :: b :: r) t ->
  exists t', (_ ← skip_word; skip_word) (st4 t h n m) = (Ret tt, st4 t' h n m) /\ left_over r t'.
Proof.
  intros Ha Hb Ht. destruct (skip_word_spec t h n m a _ Ha Ht) as (t1 & E1 & L1).
  erewrite bind_ret by exact E1. by apply (skip_word_spec t1 h n m b r).
Qed.

(** The map while groups are read: [gs] are done. *)
Definition reading (sel : cstr) (m : multipath) (gs : list pathgroup) : Prop :=
  pg m = Some ((fun g => read_pg (g_paths g)) <$> gs) /\ rr_weight m = rr_weight m0 /\
  selector m0 = Some (sel ++ s " 0") /\
  match gs with [] => selector m = None | _ => selector m = selector m0 end /\
  (existsb (fun g => negb (length (g_paths g) =? 0)%nat) gs = true -> minio m = minio m0).

Lemma read_group_spec sel g t h n m gs r i :
  same_devs h0 h -> group_ok g -> is_word sel -> reading sel m gs ->
  left_over (group_words sel g ++ r) t ->
  exists t' m', read_group pathvec i 0 (st4 t h n m) =
    (Ret 0, st4 t' (set_pgindexes (i + 1) (g_paths g) h) n m') /\
    left_over r t' /\ reading sel m' (gs ++ [g]) /\
    features m' = features m /\ hwhandler m' = hwhandler m /\ nextpg m' = nextpg m.
Proof.
  intros Hs (Hg1 & Hg2 & Hl) Hsel (Hpg & Hrr & Hsel0 & Hselm & Hmin) Ht. unfold read_group.
  erewrite bind_ret by reflexivity. cbn [d_map].
  assert (exists t1 m1,
    (match selector m with
     | None =>
         sel ← need_word;
         _ ← modify_map (fun m => m <| selector := Some sel |>);
         w ← need_word;
         _ ← modify_map (fun m => m <| selector := Some (merge_words sel w) |>);
         mret (atoi w)
     | Some _ => _ ← skip_word; _ ← skip_word; mret 0
     end : D Z) (st4 t h n m) = (Ret 0, st4 t1 h n m1) /\
    left_over ([itoa (Z.of_nat (length (g_paths g))); s "1"] ++ (g_paths g ≫= path_words) ++ r) t1 /\
    m1 = m <| selector := selector m0 |>) as (t1 & m1 & E1 & L1 & Hm1).
  { destruct gs as [|g0 gs].
    - rewrite Hselm. destruct (need_word_spec t h n m sel _ Hsel Ht) as (ta & Ea & La).
      erewrite bind_ret by exact Ea. erewrite bind_ret by reflexivity.
      cbn [upd d_map d_text d_heap d_next].
      destruct (need_word_spec ta h n (m <| selector := Some sel |>) (s "0") _ ltac:(decide_closed) La)
        as (tb & Eb & Lb).
      erewrite bind_ret by exact Eb. erewrite bind_ret by reflexivity.
      cbn [upd d_map d_text d_heap d_next]. do 2 eexists. split; [reflexivity|].
      split; [done|]. rewrite Hsel0. done.
    - rewrite Hselm, Hsel0. destruct (skip_word_spec t h n m sel _ Hsel Ht) as (ta & Ea & La).
      erewrite bind_ret by exact Ea.
      destruct (skip_word_spec ta h n m (s "0") _ ltac:(decide_closed) La) as (tb & Eb & Lb).
      erewrite bind_ret by exact Eb. do 2 eexists. split; [reflexivity|]. split; [done|].
      rewrite <-Hsel0, <-Hselm. by destruct m. }
  erewrite bind_ret by exact E1. erewrite bind_ret by reflexivity. erewrite bind_ret by reflexivity.
  cbn [upd d_map d_text d_heap d_next].
  set (m2 := m1 <| pg := Some (add_pathgroup (slots (pg m1)) alloc_pathgroup) |>).
  destruct (need_word_spec t1 h n m2 _ _ (itoa_is_word _) L1) as (t2 & E2 & L2).
  erewrite bind_ret by exact E2.
  destruct (need_word_spec t2 h n m2 (s "1") _ ltac:(decide_closed) L2) as (t3 & E3 & L3).
  erewrite bind_ret by exact E3.
  rewrite atoi_itoa, Nat2Z.id by (unfold is_int, INT_MIN, INT_MAX in *; lia).
  change (atoi (s "1")) with 1.
  assert (pg m2 = Some (((fun g => read_pg (g_paths g)) <$> gs) ++ [read_pg []])) as Hpg2.
  { unfold m2. rewrite Hm1. cbn. rewrite Hpg. done. }
  destruct (read_paths_spec (g_paths g) t3 h n m2 ((fun g => read_pg (g_paths g)) <$> gs) []
    r i 0 Hs Hg1 Hg2) as (t4 & E4 & L4);
    [by unfold m2; rewrite Hm1|by unfold m2; rewrite Hm1|exact Hpg2|done|].
  erewrite bind_ret by exact E4. do 2 eexists. split; [reflexivity|]. split; [done|].
  assert (forall m', m' = (if (length (g_paths g) =? 0)%nat then m2
      else m2 <| pg := Some (((fun g => read_pg (g_paths g)) <$> gs) ++ [read_pg ([] ++ g_paths g)]) |>
              <| minio := minio m0 |>) ->
    reading sel m' (gs ++ [g]) /\ features m' = features m /\ hwhandler m' = hwhandler m /\
    nextpg m' = nextpg m) as Hfin; [|by apply Hfin].
  intros m' ->. destruct (Nat.eqb_spec (length (g_paths g)) 0) as [Hz|Hz].
  - apply nil_length_inv in Hz. split; [|by unfold m2; rewrite Hm1]. unfold reading. split_and!.
    + rewrite Hpg2, fmap_app. cbn. by rewrite Hz.
    + unfold m2. by rewrite Hm1.
    + done.
    + unfold m2. rewrite Hm1. by destruct gs.
    + rewrite existsb_app. cbn. rewrite Hz. cbn. rewrite orb_false_r. unfold m2. by rewrite Hm1.
  - unfold m2. rewrite Hm1. split; [|done]. unfold reading. split_and!; try done.
    + cbn. by rewrite fmap_app.
    + by destruct gs.
Qed.
Lemma read_groups_spec sel gs2 t h n m gs r i :
  same_devs h0 h -> Forall group_ok gs2 -> is_word sel -> reading sel m gs ->
  left_over ((gs2 ≫= group_words sel) ++ r) t ->
  exists t' h' m', read_groups pathvec (length gs2) i 0 (st4 t h n m) =
    (Ret tt, st4 t' h' n m') /\
    same_devs h0 h' /\ reading sel m' (gs ++ gs2) /\
    features m' = features m /\ hwhandler m' = hwhandler m /\ nextpg m' = nextpg m.
Proof.
  revert t h m gs i. induction gs2 as [|g gs2 IH]; intros t h m gs i Hs Hg Hsel Hr Ht.
  { exists t, h, m. rewrite app_nil_r. done. }
  apply Forall_cons in Hg as [Hg Hgs]. cbn [mbind list_bind] in Ht. rewrite <-app_assoc in Ht.
  destruct (read_group_spec sel g t h n m gs _ i Hs Hg Hsel Hr Ht)
    as (t1 & m1 & E1 & L1 & Hr1 & Hf1 & Hh1 & Hn1).
  cbn [length read_groups]. erewrite bind_ret by exact E1.
  destruct (IH t1 _ m1 (gs ++ [g]) (i + 1) (same_devs_pgindexes (i + 1) (g_paths g) _ _ Hs) Hgs Hsel Hr1 L1)
    as (t2 & h2 & m2 & E2 & Hs2 & Hr2 & Hf2 & Hh2 & Hn2).
  exists t2, h2, m2. rewrite <-app_assoc in Hr2. split_and!; try done; congruence.
Qed.

(** ** Lemmas: the text [assemble_map] prints *)

Lemma append_Some len acc piece r : append len acc piece = Some r -> r = acc ++ piece.
Proof. unfold append. case_match; by intros; simplify_eq. Qed.

Lemma path_words_text p :
  words_text (path_words p) = sp ++ dev_t (h0 !!! p) ++ sp ++ itoa (shown_minio p).
Proof. unfold words_text. cbn. by rewrite app_nil_r. Qed.

Lemma group_words_text sel g :
  words_text (group_words sel g) =
  sp ++ (sel ++ s " 0") ++ sp ++ itoa (Z.of_nat (length (g_paths g))) ++ s " 1" ++
  words_text (g_paths g ≫= path_words).
Proof.
  unfold group_words. rewrite words_text_app.
  change (words_text [sel; s "0"; itoa (Z.of_nat (length (g_paths g))); s "1"]) with
    (sp ++ sel ++ s " 0" ++ sp ++ itoa (Z.of_nat (length (g_paths g))) ++ s " 1").
  by rewrite <-!app_assoc.
Qed.

Lemma append_paths_text len m acc ps r :
  minio m = minio m0 -> rr_weight m = rr_weight m0 ->
  append_paths len h0 m acc ps = Some r -> r = acc ++ words_text (ps ≫= path_words).
Proof.
  intros Hm Hrr. revert acc. induction ps as [|p ps IH]; intros acc; cbn [append_paths].
  { intros [= <-]. by rewrite app_nil_r. }
  case_match; [done|]. rewrite Hm, Hrr. fold (shown_minio p).
  destruct (append len acc _) as [acc'|] eqn:E; [|done]. cbn [mbind option_bind].
  intros ->%IH. apply append_Some in E as ->. cbn [mbind list_bind].
  by rewrite words_text_app, path_words_text, <-!app_assoc.
Qed.

Lemma append_groups_text len m sel acc gs r :
  minio m = minio m0 -> rr_weight m = rr_weight m0 -> selector m = Some (sel ++ s " 0") ->
  append_groups len h0 m acc gs = Some r -> r = acc ++ words_text (gs ≫= group_words sel).
Proof.
  intros Hm Hrr Hsel. revert acc. induction gs as [|g gs IH]; intros acc; cbn [append_groups].
  { intros [= <-]. by rewrite app_nil_r. }
  destruct (append len acc _) as [a1|] eqn:E1; [|done]. cbn [mbind option_bind].
  destruct (append_paths len h0 m a1 _) as [a2|] eqn:E2; [|done]. cbn [mbind option_bind].
  intros ->%IH. apply append_paths_text in E2 as ->; [|done|done].
  apply append_Some in E1 as ->. rewrite Hsel. cbn [mbind list_bind default from_option id].
  by rewrite words_text_app, group_words_text, <-!app_assoc.
Qed.
End RoundTrip.

Lemma words_text_cons w ws : words_text (w :: ws) = sp ++ w ++ words_text ws.
Proof. done. Qed.

Lemma read_header_spec fs hs num r t h n m :
  Forall is_word fs -> Z.of_nat (length fs) < INT_MAX ->
  Forall is_word hs -> Z.of_nat (length hs) < INT_MAX -> is_int num ->
  left_over ((itoa (Z.of_nat (length fs)) :: fs) ++ (itoa (Z.of_nat (length hs)) :: hs) ++
             itoa num :: r) t ->
  exists t', read_header (st4 t h n m) =
    (Ret num, st4 t' h n (m <| features := Some (feature_text fs) |>
                            <| hwhandler := Some (feature_text hs) |>
                            <| pg := if 0 <? num then Some (slots (pg m)) else None |>)) /\
    left_over r t'.
Proof.
  intros Hfs Hnf Hhs Hnh Hnum L0. unfold read_header.
  destruct (counted_words_spec (fun x m => m <| features := x |>) fs _ t h n m
    Hfs ltac:(done) Hnf L0) as (t1 & E1 & L1).
  erewrite bind_ret by exact E1.
  destruct (counted_words_spec (fun x m => m <| hwhandler := x |>) hs _ t1 h n
    (m <| features := Some (feature_text fs) |>) Hhs ltac:(done) Hnh L1) as (t2 & E2 & L2).
  erewrite bind_ret by exact E2.
  edestruct (need_word_spec t2 h n) as (t3 & E3 & L3); [apply itoa_is_word|exact L2|].
  erewrite bind_ret by exact E3. rewrite atoi_itoa by done.
  erewrite bind_ret by reflexivity. cbn [upd d_map d_text d_heap d_next].
  exists t3. split; [|done]. by destruct (0 <? num).
Qed.

(** The words of an assembled table. *)
Definition table_words (h : pheap) (m : multipath) fs hs sel init (gs : list pathgroup) : list cstr :=
  (itoa (Z.of_nat (length fs)) :: fs) ++ (itoa (Z.of_nat (length hs)) :: hs) ++
  itoa (Z.of_nat (length gs)) :: itoa init :: (gs ≫= group_words h m sel).

Definition table_init (m : multipath) (gs : list pathgroup) : Z :=
  if (length gs =? 0)%nat then 0 else bestpg m.

Lemma assemble_map_text version len h m m1 params fs hs sel gs :
  assemble_map version len h m = (m1, Some params) ->
  pg m = Some gs -> features m1 = Some (feature_text fs) -> hwhandler m = Some (feature_text hs) ->
  selector m = Some (sel ++ s " 0") ->
  params = text_of 0 (table_words h m fs hs sel (table_init m gs) gs).
Proof.
  intros Ha Hpg Hf Hh Hsel. unfold assemble_map in Ha. injection Ha as <- Ha. cbn in Hf.
  cbn [upd features hwhandler pg bestpg] in Ha. rewrite Hf, Hh, Hpg in Ha.
  cbn [slots default from_option id] in Ha.
  destruct (append len [] _) as [a0|] eqn:E0; [|done]. cbn [mbind option_bind] in Ha.
  apply append_Some in E0. cbn [app] in E0.
  apply (append_groups_text h m len _ sel) in Ha; [|done|done|done].
  replace (if Z.of_nat (length gs) =? 0 then 0 else bestpg m) with (table_init m gs) in E0
    by (unfold table_init; by destruct gs).
  rewrite Ha, E0. unfold text_of, table_words, feature_text. cbn [replicate app].
  cbn [app]. rewrite words_text_app, words_text_cons, words_text_app, !words_text_cons.
  unfold sp. by app_norm.
Qed.

(** * Properties *)


(** Two paths in two groups, weights by priority. *)
Definition table_heap : pheap :=
  {[ 0%nat := alloc_path <| dev_t := s "8:0" |> <| priority := 5 |>;
     1%nat := alloc_path <| dev_t := s "8:16" |> <| priority := 2 |> ]}.

Definition table_map : multipath :=
  alloc_multipath <| features := Some (s "0") |> <| hwhandler := Some (s "1 alua") |>
    <| selector := Some (s "round-robin 0") |> <| minio := 100 |> <| rr_weight := RR_WEIGHT_PRIO |>
    <| no_path_retry := 12 |> <| bestpg := 2 |>
    <| pg := Some [alloc_pathgroup <| g_paths := [0%nat] |>;
                   alloc_pathgroup <| g_paths := [1%nat] |>] |>.

