(* ===== verification/World.v ===== *)
(** * The state of the daemon and its environment

    [world] holds the two stores of shared objects, the path and map vectors of
    [struct vectors], the next free pointer, and the history of calls that left
    the program.  What the outside answers (kernel, udev, checkers, clock) is a
    function of that history, so that no two calls are assumed to agree. *)

From S2P Require Import Prelude CString Util Structs.

(** The device-mapper tasks of map creation and reload, and their udev flags. *)
Inductive dm_op := OpCreate | OpReload | OpResume (noflush : bool).
Inductive udev_flag := NO_KPARTX_FLAG | NO_PATHS_FLAG | RELOAD_FLAG.

(** Calls that leave the program. *)
Inductive event :=
  | DmFailPath (alias dev_t : cstr)
  | DmReinstatePath (alias dev_t : cstr)
  | DmQueueIfNoPath (alias : cstr) (enable : bool)
  | DmSwitchGroup (alias : cstr) (group : Z)
  | DmEnableGroup (alias : cstr) (group : Z)
  | DmGetMap (alias : cstr)
  | DmGetStatus (alias : cstr)
  | PathInfo (p : ptr) (flags : Z)
  | Probe (p : ptr)
  | GetUdev (dev_t : cstr)
  | ReadSysfsDev (p : ptr)
  | TriggerChange (p : ptr)
  | PrHandler (p : ptr)
  | StartIoErrCheck (p : ptr)
  | DmTask (op : dm_op) (alias params : cstr) (ro : bool) (flags : list udev_flag)
  | DmRename (old new : cstr)
  | DmFlush (alias : cstr) (nopaths : bool)
  | DmInfo (alias : cstr)
  | DmIsMpath (alias : cstr)
  | DmCancelDeferredRemove (alias : cstr)
  | DmReassign (alias : cstr)
  | DmSetGeometry (alias : cstr)
  | Flock (p : ptr) (lock : bool)
  | SetMaxSectors (m : ptr) (is_reload : bool)
  | PathsUevent (m : ptr) (is_mpath : bool)
  | UdevOfMap (m : ptr)
  | RememberWwid (wwid : cstr)
  | MarkFailedWwid (wwid : cstr) (failed : bool)
  | ReadWwidsFile (wwid : cstr)
  | StartIoErrThread
  | WaitForEvents (m : ptr)
  | StopWaiter (m : ptr)
  | DmMapName
  | DmGetMaps
  | GetUid (p : ptr)
  | Foreign (kernel : cstr)
  | Reconfigure
  | TriggerMapChange (m : option ptr)
  | TriggerIncomplete (name : cstr)
  | CheckDaemon
  | Sleep
  | DmSuspend (alias : cstr)
  | DmResume (alias : cstr) (flags : list udev_flag)
  | DmFlushMaps
  | DmGetMajorMinor (name : cstr)
  | FindDevice (name : cstr)
  | SysfsSize (p : ptr)
  | CheckerSwitch (p : ptr) (enable : bool).

Abbreviation history := (list event).

Inductive dmp_result := DMP_ERR | DMP_OK | DMP_NOT_FOUND.
Inductive pathinfo_result := PATHINFO_OK | PATHINFO_FAILED | PATHINFO_SKIPPED.

#[export] Instance dmp_result_dec : EqDecision dmp_result.
Proof. solve_decision. Defined.
#[export] Instance pathinfo_result_dec : EqDecision pathinfo_result.
Proof. solve_decision. Defined.

Definition DI_SYSFS : Z := 1.
Definition DI_SERIAL : Z := 2.
Definition DI_CHECKER : Z := 4.
Definition DI_PRIO : Z := 8.
Definition DI_WWID : Z := 16.
Definition DI_BLACKLIST : Z := 32.
Definition DI_NOIO : Z := 64.
Definition DI_ALL : Z := 31.

(** The configuration values the daemon reads while it runs. *)
Record config := {
  c_checkint : Z; c_max_checkint : Z; c_retrigger_tries : Z; c_marginal_pathgroups : bool;
  c_uev_wait_timeout : Z; c_force_sync : bool; c_find_multipaths : Z; c_reassign_maps : bool;
  c_delayed_reconfig : bool; c_poll_dmevents : bool }.

(** What propsel.c selects for a map from the configuration, in the order of
    [setup_map]. *)
Record selectors := {
  sel_failback_policy : multipath -> multipath; sel_selector : multipath -> multipath;
  sel_retry_hwhandler : multipath -> multipath; sel_features : multipath -> multipath;
  sel_hwhandler : multipath -> multipath; sel_rest : multipath -> multipath }.

(** The environment: answers as functions of the history. *)
Record env := {
  e_conf : config;
  e_reinstate_fails : history -> bool;             (* dm_reinstate_path *)
  e_get_map : history -> dmp_result * Z * cstr;    (* result, size, table *)
  e_get_status : history -> dmp_result * cstr;
  e_pathinfo : history -> path -> pathinfo_result * path;
  e_path_offline : history -> path_check_state;    (* path_offline(): sysfs state *)
  e_select_checker : history -> bool;              (* does select_checker() find one? *)
  e_checker_init : history -> bool;                (* checker_init() succeeds *)
  e_checker_check : history -> path_check_state;   (* checker_check() *)
  e_udev : history -> bool;                        (* does get_udev_device() find it? *)
  e_devname : history -> cstr;                     (* devt2devname() *)
  e_sysfs_dev : history -> option cstr;            (* the sysfs attribute dev *)
  e_time : history -> Z;                           (* monotonic seconds *)
  e_tpgs_implicit : path -> bool;                  (* path_get_tpgs(pp) == TPGS_IMPLICIT *)
  e_io_err_thread : bool;                          (* io_err_thread_running *)
  e_enqueue_fails : history -> bool;               (* enqueue_io_err_stat_by_path() == 1 *)
  e_select : selectors;
  e_select_alias : multipath -> option cstr;       (* select_alias() *)
  e_adapter_name : path -> option cstr;            (* sysfs_get_host_adapter_name() *)
  e_version_code : Z;                              (* get_linux_version_code() *)
  e_map_present : history -> bool;                 (* dm_map_present() *)
  e_dm_info : history -> option (Z * Z);           (* dm_get_info(): major and minor *)
  e_uuid : history -> option cstr;                 (* dm_get_uuid() *)
  e_is_mpath : history -> Z;                       (* dm_is_mpath() *)
  e_dm_task : history -> bool * bool;              (* did the task succeed, else is errno EROFS *)
  e_suspended : history -> bool;                   (* dm_is_suspended() *)
  e_rename : history -> bool;                      (* dm_rename() *)
  e_flush : history -> Z;                          (* dm_flush_map() *)
  e_flock_blocked : history -> bool;               (* flock() fails with EWOULDBLOCK *)
  e_wwid_changed : history -> bool;                (* (un)mark_failed_wwid() == WWID_FAILED_CHANGED *)
  e_remember_wwid : history -> Z;                  (* remember_wwid() *)
  e_in_wwids_file : history -> bool;               (* check_wwids_file(wwid, 0) >= 0 *)
  e_udev_of_map : history -> option bool;          (* the map in udev: is MPATH_DEVICE_READY 1? *)
  e_filtered : path -> bool;                       (* filter_path() > 0 *)
  e_wait_fails : history -> bool;                  (* wait_for_events() *)
  e_mapname : history -> option cstr;              (* dm_mapname() *)
  e_get_uid : history -> option cstr;              (* get_uid(): the WWID, or a failure *)
  e_foreign_ok : history -> bool;                  (* change_foreign() == FOREIGN_OK *)
  e_keep_queueing : history -> bool;               (* allow_queueing || check_daemon() *)
  e_queue_fails : history -> bool;                 (* dm_queue_if_no_path() *)
  e_deferred : history -> bool                     (* dm_get_deferred_remove() *)
}.

Record world := {
  w_paths : pheap; w_maps : mheap;
  pathvec : list ptr; mpvec : list ptr;
  next_ptr : ptr; trace : history }.

#[export] Instance eta_world : Eta world := fun x => {|
  w_paths := w_paths x; w_maps := w_maps x;
  pathvec := pathvec x; mpvec := mpvec x; next_ptr := next_ptr x; trace := trace x |}.

Definition wp (w : world) (p : ptr) : path := w_paths w !!! p.
Definition wm (w : world) (m : ptr) : multipath := w_maps w !!! m.

Definition upd_path (p : ptr) (f : path -> path) (w : world) : world :=
  w <| w_paths ::= (fun h => <[p := f (h !!! p)]> h) |>.
Definition upd_map (m : ptr) (f : multipath -> multipath) (w : world) : world :=
  w <| w_maps ::= (fun h => <[m := f (h !!! m)]> h) |>.

(** The history is kept newest first. *)
Definition emit (e : event) (w : world) : world := w <| trace ::= cons e |>.

(** ** Lemmas *)

Lemma wp_upd_path w p f q : wp (upd_path p f w) q = if decide (p = q) then f (wp w p) else wp w q.
Proof.
  unfold wp, upd_path. cbn. destruct (decide (p = q)) as [->|Hn].
  - by rewrite lookup_total_insert_eq.
  - by rewrite lookup_total_insert_ne.
Qed.

Lemma wm_upd_map w m f n : wm (upd_map m f w) n = if decide (m = n) then f (wm w m) else wm w n.
Proof.
  unfold wm, upd_map. cbn. destruct (decide (m = n)) as [->|Hn].
  - by rewrite lookup_total_insert_eq.
  - by rewrite lookup_total_insert_ne.
Qed.

Lemma wp_upd_path_eq w p f : wp (upd_path p f w) p = f (wp w p).
Proof. rewrite wp_upd_path. by destruct (decide (p = p)). Qed.

Lemma wm_upd_map_eq w m f : wm (upd_map m f w) m = f (wm w m).
Proof. rewrite wm_upd_map. by destruct (decide (m = m)). Qed.

Lemma wp_upd_path_ne w p f q : p <> q -> wp (upd_path p f w) q = wp w q.
Proof. intros H. rewrite wp_upd_path. by destruct (decide (p = q)). Qed.

Lemma wm_upd_map_ne w m f n : m <> n -> wm (upd_map m f w) n = wm w n.
Proof. intros H. rewrite wm_upd_map. by destruct (decide (m = n)). Qed.

Lemma wp_upd_map w m f p : wp (upd_map m f w) p = wp w p.
Proof. done. Qed.
Lemma wm_upd_path w p f m : wm (upd_path p f w) m = wm w m.
Proof. done. Qed.
Lemma wp_emit w e p : wp (emit e w) p = wp w p.
Proof. done. Qed.
Lemma wm_emit w e m : wm (emit e w) m = wm w m.
Proof. done. Qed.
Lemma trace_upd_map w m f : trace (upd_map m f w) = trace w.
Proof. done. Qed.
Lemma trace_upd_path w p f : trace (upd_path p f w) = trace w.
Proof. done. Qed.
Lemma trace_emit w e : trace (emit e w) = e :: trace w.
Proof. done. Qed.

Create Rewrite HintDb world.
#[export] Hint Rewrite wp_upd_path_eq wm_upd_map_eq wp_upd_map wm_upd_path wp_emit wm_emit
  trace_upd_map trace_upd_path trace_emit : world.
#[export] Hint Rewrite wp_upd_path_ne wm_upd_map_ne using done : world.

(** ** What a step tells the outside *)

(** [w'] is [w] with more history, and all of it satisfies [P]. *)
Definition adds (P : event -> Prop) (w w' : world) : Prop :=
  exists evs, trace w' = evs ++ trace w /\ Forall P evs.

Lemma adds_refl P w : adds P w w.
Proof. by exists []. Qed.

Lemma adds_trans P w1 w2 w3 : adds P w1 w2 -> adds P w2 w3 -> adds P w1 w3.
Proof.
  intros (e1 & T1 & F1) (e2 & T2 & F2). exists (e2 ++ e1).
  split; [by rewrite T2, T1, app_assoc|by apply Forall_app].
Qed.

Lemma adds_emit (P : event -> Prop) e w w' : P e -> adds P w w' -> adds P w (emit e w').
Proof. intros He (evs & HT & HF). exists (e :: evs). cbn. rewrite HT. split; [done|by constructor]. Qed.

Lemma adds_upd_path P p f w w' : adds P w w' -> adds P w (upd_path p f w').
Proof. done. Qed.

Lemma adds_upd_map P m f w w' : adds P w w' -> adds P w (upd_map m f w').
Proof. done. Qed.

Lemma adds_foldl {A} P (f : world -> A -> world) l :
  (forall w x, adds P w (f w x)) -> forall w w', adds P w w' -> adds P w (foldl f w' l).
Proof.
  intros Hf. induction l as [|x l IH]; intros w w' H; [done|]. cbn.
  apply IH. eapply adds_trans; [exact H|apply Hf].
Qed.

Lemma adds_weaken (P Q : event -> Prop) w w' : (forall e, P e -> Q e) -> adds P w w' -> adds Q w w'.
Proof. intros H (evs & HT & HF). exists evs. split; [done|]. by eapply Forall_impl. Qed.

Create HintDb adds.
#[export] Hint Resolve adds_refl adds_emit adds_upd_path adds_upd_map : adds.

(** ** A sample environment *)

(** Checks every five seconds, at most every twenty; everything is up. *)
Definition calm : env := {|
  e_conf := {| c_checkint := 5; c_max_checkint := 20; c_retrigger_tries := 3;
               c_marginal_pathgroups := false; c_uev_wait_timeout := 30; c_force_sync := false;
               c_find_multipaths := 0; c_reassign_maps := false; c_delayed_reconfig := false;
               c_poll_dmevents := true |};
  e_reinstate_fails := fun _ => false; e_get_map := fun _ => (DMP_OK, 0, []);
  e_get_status := fun _ => (DMP_OK, []); e_pathinfo := fun _ pp => (PATHINFO_OK, pp);
  e_path_offline := fun _ => PATH_UP; e_select_checker := fun _ => true;
  e_checker_init := fun _ => true; e_checker_check := fun _ => PATH_UP;
  e_udev := fun _ => true; e_devname := fun _ => s "sda"; e_sysfs_dev := fun _ => None;
  e_time := fun h => Z.of_nat (length h); e_tpgs_implicit := fun _ => false;
  e_io_err_thread := false; e_enqueue_fails := fun _ => false;
  e_select := {| sel_failback_policy := id; sel_selector := id; sel_retry_hwhandler := id;
                 sel_features := id; sel_hwhandler := id; sel_rest := id |};
  e_select_alias := fun m => Some (m_wwid m); e_adapter_name := fun _ => None;
  e_version_code := KERNEL_VERSION 5 4 0;
  e_map_present := fun _ => true; e_dm_info := fun _ => Some (253, 0); e_uuid := fun _ => None;
  e_is_mpath := fun _ => 1; e_dm_task := fun _ => (true, false); e_suspended := fun _ => false;
  e_rename := fun _ => true; e_flush := fun _ => 0; e_flock_blocked := fun _ => false;
  e_wwid_changed := fun _ => false; e_remember_wwid := fun _ => 0; e_in_wwids_file := fun _ => true;
  e_udev_of_map := fun _ => Some true; e_filtered := fun _ => false; e_wait_fails := fun _ => false;
  e_mapname := fun _ => None; e_get_uid := fun _ => None; e_foreign_ok := fun _ => false;
  e_keep_queueing := fun _ => true; e_queue_fails := fun _ => false;
  e_deferred := fun _ => false |}.
