(* ===== verification/StructsVec.v ===== *)
(** * libmultipath/structs_vec.c: keeping paths, maps and the kernel in step

    Ownership of paths by maps, the synchronisation of a map with the kernel's
    table, and the recovery mode that queues I/O while no path works. *)

From S2P Require Import Prelude CString Util Structs Pgpolicies Dmparser World.

Section StructsVec.
Variable E : env.

(** ** Paths of a map *)

(** The loop of [update_mpp_paths]: the new path vector and whether a path
    could not be stored. *)
Fixpoint update_paths_loop (h : pheap) (pv : list ptr) (ps : list ptr) (paths : list ptr)
  : list ptr * bool :=
  match ps with
  | [] => (paths, false)
  | p :: r =>
      let pp := h !!! p in
      match find_path_by_devt h paths (dev_t pp) with
      | Some _ => update_paths_loop h pv r paths
      | None =>
          if bool_decide (is_Some (find_path_by_devt h pv (dev_t pp))) &&
             negb (eqb (initialized pp) INIT_REMOVED)
          then match store_path h paths p with
               | Some paths' => update_paths_loop h pv r paths'
               | None => let '(paths', _) := update_paths_loop h pv r paths in (paths', true)
               end
          else update_paths_loop h pv r paths
      end
  end.

Definition update_mpp_paths (m : ptr) (w : world) : bool * world :=
  match pg (wm w m) with
  | None => (false, w)
  | Some groups =>
      let '(paths, failure) := update_paths_loop (w_paths w) (pathvec w) (groups ≫= g_paths)
                                 (slots (m_paths (wm w m))) in
      (failure, upd_map m (fun mm => mm <| m_paths := Some paths |>) w)
  end.

(** The path a map without WWID takes it from. *)
Definition guess_mpp_wwid (m : ptr) (w : world) : bool * world :=
  let mm := wm w m in
  if negb (strlen (m_wwid mm) =? 0) || bool_decide (pg mm = None) then (true, w)
  else
    match List.find (fun p => eqb (initialized (wp w p)) INIT_OK && negb (strlen (wwid (wp w p)) =? 0))
                    (all_paths mm) with
    | Some p => (true, upd_map m (fun mm => mm <| m_wwid := take (Z.to_nat (WWID_SIZE - 1)) (wwid (wp w p)) |>) w)
    | None => (false, w)
    end.

(** ** Orphans *)

Definition orphan_path (p : ptr) (w : world) : world :=
  let pp := wp w p in
  let w := match mpp pp with
           | Some m =>
               if bool_decide (is_Some (hwe pp)) && bool_decide (m_hwe (wm w m) = hwe pp)
               then upd_map m (fun mm => mm <| m_hwe := None |>) w else w
           | None => w
           end in
  upd_path p (fun pp => uninitialize_path (pp <| mpp := None |>)) w.

(** [free_path] ends the life of a path. *)
Definition free_path (p : ptr) (w : world) : world := w <| w_paths ::= delete p |>.

Fixpoint orphan_loop (m : ptr) (ps : list ptr) (kept : list ptr) (w : world) : world :=
  match ps with
  | [] => w <| pathvec := kept |>
  | p :: r =>
      if bool_decide (mpp (wp w p) = Some m) then
        if eqb (initialized (wp w p)) INIT_REMOVED then orphan_loop m r kept (free_path p w)
        else orphan_loop m r (kept ++ [p]) (orphan_path p w)
      else orphan_loop m r (kept ++ [p]) w
  end.

Definition orphan_paths (m : ptr) (w : world) : world :=
  let w := upd_map m (fun mm => mm <| m_hwe := None |>) w in
  orphan_loop m (pathvec w) [] w.

Definition set_path_removed (p : ptr) (w : world) : world :=
  let m := mpp (wp w p) in
  let w := orphan_path p w in
  match m with
  | None => w
  | Some _ => upd_path p (fun pp => pp <| mpp := m |> <| initialized := INIT_REMOVED |>) w
  end.

(** ** Removing maps *)

Definition remove_first (x : ptr) (l : list ptr) : list ptr :=
  match list_find (x =.) l with Some (i, _) => delete i l | None => l end.

Definition free_multipath (m : ptr) (w : world) : world :=
  w <| w_paths ::= free_multipath_backrefs m (slots (pg (wm w m))) |>
    <| w_maps ::= delete m |>.

Definition remove_map (m : ptr) (purge_vec : bool) (w : world) : world :=
  let w := orphan_paths m w in
  let w := if purge_vec then w <| mpvec ::= remove_first m |> else w in
  free_multipath m w.

Definition remove_map_by_alias (alias : cstr) (purge_vec : bool) (w : world) : world :=
  match find_mp_by_alias (w_maps w) (mpvec w) alias with
  | Some m => remove_map m purge_vec w
  | None => w
  end.

Definition remove_maps (w : world) : world :=
  foldl (fun w m => remove_map m true w) w (mpvec w).

(** ** Hardware entries *)

Definition extract_hwe_from_path (m : ptr) (w : world) : world :=
  let mm := wm w m in
  match m_hwe mm, m_paths mm with
  | None, Some paths =>
      let has p := bool_decide (is_Some (hwe (wp w p))) in
      let up p := eqb (state (wp w p)) PATH_UP in
      match List.find (fun p => up p && has p) paths with
      | Some p => upd_map m (fun mm => mm <| m_hwe := hwe (wp w p) |>) w
      | None =>
          match List.find (fun p => negb (up p) && has p) paths with
          | Some p => upd_map m (fun mm => mm <| m_hwe := hwe (wp w p) |>) w
          | None => w
          end
      end
  | _, _ => w
  end.

(** ** Synchronising with the kernel's table *)

Definition run_pathinfo (p : ptr) (flags : Z) (w : world) : pathinfo_result * world :=
  let '(rc, pp) := e_pathinfo E (trace w) (wp w p) in
  (rc, emit (PathInfo p flags) (upd_path p (fun _ => pp) w)).

(** The WWID check that ends the treatment of a path: is the path kept? *)
Definition check_path_wwid (m p : ptr) (w : world) : bool * world :=
  let mm := wm w m in
  let pp := wp w p in
  if negb (strlen (wwid pp) =? 0) then
    if streq (m_wwid mm) (wwid pp) then (true, w)
    else
      let w := emit (DmFailPath (m_alias mm) (dev_t pp)) w in
      let w := orphan_path p w in
      (false, upd_path p (fun pp => pp <| tick := 1 |>) w)
  else (true, upd_path p (fun pp => pp <| wwid := take (Z.to_nat (WWID_SIZE - 1)) (m_wwid mm) |>) w).

(** One path of a group read from the kernel: is it kept in the group? *)
Definition update_dm_path (m : ptr) (flags : Z) (has_wwid : bool) (p : ptr) (w : world)
  : bool * world :=
  let pp := wp w p in
  if bool_decide (is_Some (mpp pp)) && negb (bool_decide (mpp pp = Some m)) then
    (false, emit (DmFailPath (m_alias (wm w m)) (dev_t pp)) w)
  else
    let w := upd_path p (fun pp => pp <| mpp := Some m |>) w in
    let finish w := if has_wwid then check_path_wwid m p w else (true, w) in
    if udev (wp w p) then
      finish (if Z.land flags (Z.lnot DI_NOIO) =? 0 then w
              else snd (run_pathinfo p (Z.lor flags DI_WWID) w))
    else
      let found := e_udev E (trace w) in
      let w := emit (GetUdev (dev_t pp)) w in
      if negb found then (false, free_path p w)
      else
        let w := upd_path p (fun pp => pp <| udev := true |> <| dev := e_devname E (trace w) |>
                                          <| checkint := c_checkint (e_conf E) |>) w in
        let '(rc, w) := run_pathinfo p (Z.lor (Z.lor (Z.lor DI_SYSFS DI_WWID) DI_BLACKLIST) flags) w in
        match rc with
        | PATHINFO_OK =>
            let w := w <| pathvec := default (pathvec w) (store_path (w_paths w) (pathvec w) p) |> in
            finish (upd_path p (fun pp => pp <| tick := 1 |>) w)
        | _ => (false, free_path p w)
        end.

(** The paths kept, and whether one was dropped. *)
Fixpoint update_dm_paths (m : ptr) (flags : Z) (has_wwid : bool) (ps kept : list ptr)
    (must_reload : bool) (w : world) : list ptr * bool * world :=
  match ps with
  | [] => (kept, must_reload, w)
  | p :: r =>
      let '(keep, w) := update_dm_path m flags has_wwid p w in
      if keep then update_dm_paths m flags has_wwid r (kept ++ [p]) must_reload w
      else update_dm_paths m flags has_wwid r kept true w
  end.

(** The groups, with the paths that stay; empty groups go. While a group is
    treated the map holds the groups before and after it unchanged. *)
Fixpoint update_dm_groups (m : ptr) (flags : Z) (has_wwid : bool) (gs kept : list pathgroup)
    (must_reload : bool) (w : world) : list pathgroup * bool * world :=
  match gs with
  | [] => (kept, must_reload, w)
  | g :: r =>
      let '(ps, must_reload, w) := update_dm_paths m flags has_wwid (g_paths g) [] must_reload w in
      if (length ps =? 0)%nat then update_dm_groups m flags has_wwid r kept true w
      else update_dm_groups m flags has_wwid r (kept ++ [g <| g_paths := ps |>]) must_reload w
  end.

(** The result: is an immediate reload desirable? *)
Definition update_pathvec_from_dm (m : ptr) (flags : Z) (w : world) : bool * world :=
  match pg (wm w m) with
  | None => (false, w)
  | Some groups =>
      let '(has_wwid, w) := guess_mpp_wwid m w in
      let '(groups', must_reload, w) := update_dm_groups m flags has_wwid groups [] false w in
      (must_reload, upd_map m (fun mm => mm <| pg := Some groups' |>) w)
  end.

(** The NULL dereference of the table parser cannot happen on a kernel's table;
    it is treated as a parse failure here. *)
Definition update_multipath_table (m : ptr) (flags : Z) (w : world) : dmp_result * world :=
  let '(r, sz, params) := e_get_map E (trace w) in
  let w := emit (DmGetMap (m_alias (wm w m))) w in
  match r with
  | DMP_OK =>
      let w := upd_map m (fun mm => mm <| m_size := sz |>) w in
      let '(o, st) := disassemble_map (pathvec w) params (w_paths w) (next_ptr w) (wm w m) in
      let w := upd_map m (fun _ => d_map st)
                 (w <| w_paths := d_heap st |> <| next_ptr := d_next st |>) in
      match o with
      | Ret _ => (DMP_OK, snd (update_pathvec_from_dm m flags w))
      | _ => (DMP_ERR, w)
      end
  | r => (r, w)
  end.

Definition update_multipath_status (m : ptr) (w : world) : dmp_result * world :=
  let '(r, status) := e_get_status E (trace w) in
  let w := emit (DmGetStatus (m_alias (wm w m))) w in
  match r with
  | DMP_OK =>
      let '(o, st) := disassemble_status status (w_paths w) (wm w m) in
      let w := upd_map m (fun _ => d_map st) (w <| w_paths := d_heap st |>) in
      match o with Ret _ => (DMP_OK, w) | _ => (DMP_ERR, w) end
  | r => (r, w)
  end.

Definition in_pathgroups (w : world) (m p : ptr) : bool :=
  existsb (fun g => existsb (Nat.eqb p) (g_paths g)) (slots (pg (wm w m))).

Definition find_devt_in_pathgroups (w : world) (m : ptr) (d : cstr) : option ptr :=
  List.find (fun p => streq (dev_t (wp w p)) d) (all_paths (wm w m)).

Fixpoint check_removed_loop (m : ptr) (ps kept : list ptr) (w : world) : world :=
  match ps with
  | [] => w <| pathvec := kept |>
  | p :: r =>
      if negb (eqb (initialized (wp w p)) INIT_REMOVED) || negb (bool_decide (mpp (wp w p) = Some m))
      then check_removed_loop m r (kept ++ [p]) w
      else
        match find_devt_in_pathgroups w m (dev_t (wp w p)) with
        | Some _ => check_removed_loop m r (kept ++ [p]) w
        | None => check_removed_loop m r kept (free_path p w)
        end
  end.

Definition check_removed_paths (m : ptr) (w : world) : world :=
  check_removed_loop m (pathvec w) [] w.

(** The first loop of [sync_paths]: paths in no group leave the map. *)
Fixpoint drop_ungrouped (m : ptr) (ps kept : list ptr) (w : world) : world :=
  match ps with
  | [] => upd_map m (fun mm => mm <| m_paths ::= option_map (fun _ => kept) |>) w
  | p :: r =>
      if in_pathgroups w m p then drop_ungrouped m r (kept ++ [p]) w
      else
        let w := if bool_decide (m_hwe (wm w m) = hwe (wp w p))
                 then upd_map m (fun mm => mm <| m_hwe := None |>) w else w in
        drop_ungrouped m r kept (orphan_path p w)
  end.

Definition sync_paths (m : ptr) (w : world) : world :=
  let w := drop_ungrouped m (slots (m_paths (wm w m))) [] w in
  let w := check_removed_paths m w in
  let w := snd (update_mpp_paths m w) in
  let w := foldl (fun w p => upd_path p (fun pp => pp <| mpp := Some m |>) w) w
             (slots (m_paths (wm w m))) in
  extract_hwe_from_path m w.

Definition update_multipath_strings (m : ptr) (w : world) : dmp_result * world :=
  let w := snd (update_mpp_paths m w) in
  let w := upd_map m (fun mm => free_multipath_attributes mm <| pg := None |>) w in
  let '(r, w) := update_multipath_table m 0 w in
  match r with
  | DMP_OK =>
      let w := sync_paths m w in
      let '(r, w) := update_multipath_status m w in
      match r with
      | DMP_OK => (DMP_OK, upd_map m (fun mm => mm <| pg ::= option_map (map (path_group_prio_update (w_paths w))) |>) w)
      | r => (r, w)
      end
  | r => (r, w)
  end.

(** ** Recovery mode *)

Definition active_paths (w : world) (m : ptr) : Z := count_active_paths (w_paths w) (wm w m).

Definition dm_queue_if_no_path (m : ptr) (enable : bool) (w : world) : world :=
  emit (DmQueueIfNoPath (m_alias (wm w m)) enable) w.

Definition enter_recovery_mode (m : ptr) (w : world) : world :=
  let mm := wm w m in
  if in_recovery mm || (no_path_retry mm <=? 0) then w
  else upd_map m (fun mm => mm <| in_recovery := true |>
         <| stat_queueing_timeouts ::= (fun n => u32 (n + 1)) |>
         <| retry_tick := s32 (no_path_retry mm * c_checkint (e_conf E) + 1) |>) w.

Definition leave_recovery_mode (m : ptr) (w : world) : world :=
  let recovery := in_recovery (wm w m) in
  let w := upd_map m (fun mm => mm <| in_recovery := false |> <| retry_tick := 0 |>) w in
  if recovery && ((no_path_retry (wm w m) =? NO_PATH_RETRY_QUEUE) || (0 <? no_path_retry (wm w m)))
  then dm_queue_if_no_path m true w else w.

Definition set_no_path_retry (check_features : bool) (m : ptr) (w : world) : world :=
  let mm := wm w m in
  let check_features := check_features && bool_decide (is_Some (features mm)) in
  let is_queueing := has_strstr (default [] (features mm)) (s "queue_if_no_path") in
  if no_path_retry mm =? NO_PATH_RETRY_UNDEF then w
  else if no_path_retry mm =? NO_PATH_RETRY_FAIL then
    if negb check_features || is_queueing then dm_queue_if_no_path m false w else w
  else if no_path_retry mm =? NO_PATH_RETRY_QUEUE then
    if negb check_features || negb is_queueing then dm_queue_if_no_path m true w else w
  else if 0 <? active_paths w m then
    let w := if (negb check_features || negb is_queueing) && negb (in_recovery mm)
             then dm_queue_if_no_path m true w else w in
    leave_recovery_mode m w
  else enter_recovery_mode m w.

Definition update_queue_mode_del_path (m : ptr) (w : world) : world :=
  if active_paths w m =? 0 then
    let w := enter_recovery_mode m w in
    if no_path_retry (wm w m) =? NO_PATH_RETRY_QUEUE then w
    else upd_map m (fun mm => mm <| stat_map_failures ::= (fun n => u32 (n + 1)) |>) w
  else w.

Definition update_queue_mode_add_path (m : ptr) (w : world) : world :=
  if 0 <? active_paths w m then leave_recovery_mode m w else w.

(** ** Telling the kernel what the checkers found *)

(** The call [sync_map_state] makes for a path, if any. *)
Definition sync_call (mm : multipath) (pp : path) : option event :=
  if eqb (state pp) PATH_UNCHECKED || eqb (state pp) PATH_WILD || eqb (state pp) PATH_DELAYED
  then None
  else if 0 <? ghost_delay_tick mm then None
  else if (eqb (dmstate pp) PSTATE_FAILED || eqb (dmstate pp) PSTATE_UNDEF) &&
          (eqb (state pp) PATH_UP || eqb (state pp) PATH_GHOST)
  then Some (DmReinstatePath (m_alias mm) (dev_t pp))
  else if (eqb (dmstate pp) PSTATE_ACTIVE || eqb (dmstate pp) PSTATE_UNDEF) &&
          (eqb (state pp) PATH_DOWN || eqb (state pp) PATH_SHAKY)
  then Some (DmFailPath (m_alias mm) (dev_t pp))
  else None.

Definition sync_map_state (m : ptr) (w : world) : world :=
  foldl (fun w p => match sync_call (wm w m) (wp w p) with
                    | Some e => emit e w
                    | None => w
                    end) w (all_paths (wm w m)).

(** ** Verifying and adopting paths *)

(** The result: the number of paths that left the map. *)
Fixpoint verify_loop (m : ptr) (ps kept : list ptr) (count : Z) (w : world) : Z * world :=
  match ps with
  | [] => (count, upd_map m (fun mm => mm <| m_paths ::= option_map (fun _ => kept) |>) w)
  | p :: r =>
      let answer := if udev (wp w p) then e_sysfs_dev E (trace w) else None in
      let w := if udev (wp w p) then emit (ReadSysfsDev p) w else w in
      match answer with
      | Some d => verify_loop m r (kept ++ [p]) count
                    (upd_path p (fun pp => pp <| dev_t := take (BLK_DEV_SIZE - 1) d |>) w)
      | None =>
          let w := if bool_decide (m_hwe (wm w m) = hwe (wp w p))
                   then upd_map m (fun mm => mm <| m_hwe := None |>) w else w in
          verify_loop m r kept (count + 1) (set_path_removed p w)
      end
  end.

Definition verify_paths (m : ptr) (w : world) : Z * world :=
  let '(count, w) := verify_loop m (slots (m_paths (wm w m))) [] 0 w in
  (count, extract_hwe_from_path m w).

(** One path of the path vector; [None] is the error exit. *)
Definition adopt_path (m p : ptr) (w : world) : option world :=
  let mm := wm w m in
  let pp := wp w p in
  if negb (strneq (Z.to_nat WWID_SIZE) (m_wwid mm) (wwid pp)) then Some w
  else if negb (size pp =? 0) && negb (m_size mm =? 0) && negb (size pp =? m_size mm) then Some w
  else if eqb (initialized pp) INIT_REMOVED then Some w
  else
    let w := upd_map m (fun mm => mm <| m_paths := Some (slots (m_paths mm)) |>) w in
    let '(ret, w) := run_pathinfo p (Z.lor DI_PRIO DI_CHECKER) w in
    if negb (eqb ret PATHINFO_OK) then Some w
    else
      let paths := slots (m_paths (wm w m)) in
      stored ← (if bool_decide (is_Some (find_path_by_devt (w_paths w) paths (dev_t (wp w p))))
                then Some paths else store_path (w_paths w) paths p);
      Some (upd_path p (fun pp => pp <| mpp := Some m |>)
             (upd_map m (fun mm => mm <| m_paths := Some stored |>) w)).

Fixpoint adopt_loop (m : ptr) (ps : list ptr) (w : world) : bool * world :=
  match ps with
  | [] => (false, w)
  | p :: r => match adopt_path m p w with
              | Some w' => adopt_loop m r w'
              | None => (true, w)
              end
  end.

(** [true] is the return code 1. *)
Definition adopt_paths (m : ptr) (w : world) : bool * world :=
  let '(failure, w) := update_mpp_paths m w in
  if failure then (true, w) else adopt_loop m (pathvec w) w.
End StructsVec.

(** ** Lemmas: removing a map *)

Definition owned (m : ptr) (w : world) (p : ptr) : bool := bool_decide (mpp (wp w p) = Some m).
Definition removed (w : world) (p : ptr) : bool := eqb (initialized (wp w p)) INIT_REMOVED.

(** An orphan: no map, and released. *)
Definition orphaned (pp : path) : path := uninitialize_path (pp <| mpp := None |>).

Lemma orphan_path_wp p w q :
  wp (orphan_path p w) q = if decide (p = q) then orphaned (wp w p) else wp w q.
Proof.
  unfold orphan_path. rewrite wp_upd_path. unfold orphaned.
  destruct (mpp (wp w p)) as [m|]; [|done].
  by destruct (bool_decide (is_Some _) && _).
Qed.

Lemma orphan_path_maps p w n : pg (wm (orphan_path p w) n) = pg (wm w n).
Proof.
  unfold orphan_path. rewrite wm_upd_path. destruct (mpp (wp w p)) as [m|]; [|done].
  case_match; [|done]. rewrite wm_upd_map. by destruct (decide (m = n)) as [->|].
Qed.

Lemma orphan_path_rest p w :
  pathvec (orphan_path p w) = pathvec w /\ mpvec (orphan_path p w) = mpvec w /\
  trace (orphan_path p w) = trace w.
Proof. unfold orphan_path. destruct (mpp (wp w p)); [case_match|]; done. Qed.

Lemma free_path_wp p w q : p <> q -> wp (free_path p w) q = wp w q.
Proof. intros H. unfold wp, free_path. cbn. by rewrite lookup_total_delete_ne. Qed.

Record orphaned_world (m : ptr) (ps : list ptr) (kept : list ptr) (w w' : world) : Prop := {
  ow_pathvec : pathvec w' = kept ++ filter (fun p => negb (owned m w p && removed w p)) ps;
  ow_mpvec : mpvec w' = mpvec w;
  ow_pg : forall n, pg (wm w' n) = pg (wm w n);
  ow_other : forall q, q ∉ ps \/ owned m w q = false -> wp w' q = wp w q;
  ow_orphan : forall q, q ∈ ps -> owned m w q = true -> removed w q = false ->
                wp w' q = orphaned (wp w q);
  ow_freed : forall q, q ∈ ps -> owned m w q = true -> removed w q = true -> w_paths w' !! q = None
}.

Lemma orphan_loop_freed m ps kept w q :
  q ∉ ps -> w_paths w !! q = None -> w_paths (orphan_loop m ps kept w) !! q = None.
Proof.
  revert kept w. induction ps as [|p ps IH]; intros kept w Hq Hn; [done|].
  apply not_elem_of_cons in Hq as [Hqp Hq]. cbn [orphan_loop].
  repeat case_match; apply IH; try done.
  - cbn. by rewrite lookup_delete_ne by congruence.
  - unfold orphan_path. cbn. rewrite lookup_insert_ne by congruence.
    destruct (mpp (wp w p)); [case_match|]; done.
Qed.

Lemma orphan_loop_spec m ps kept w :
  NoDup ps -> orphaned_world m ps kept w (orphan_loop m ps kept w).
Proof.
  revert kept w. induction ps as [|p ps IH]; intros kept w Hnd.
  { split; try done; [by rewrite app_nil_r|set_solver..]. }
  apply NoDup_cons in Hnd as [Hp Hnd]. cbn [orphan_loop]. fold (owned m w p) (removed w p).
  assert (forall w1 kept1, (forall q, q <> p -> wp w1 q = wp w q) ->
    mpvec w1 = mpvec w -> (forall n, pg (wm w1 n) = pg (wm w n)) ->
    kept1 ++ filter (fun p => negb (owned m w p && removed w p)) ps =
      kept ++ filter (fun p => negb (owned m w p && removed w p)) (p :: ps) ->
    (owned m w p = false -> wp w1 p = wp w p) ->
    (owned m w p = true -> removed w p = false -> wp w1 p = orphaned (wp w p)) ->
    (owned m w p = true -> removed w p = true -> w_paths w1 !! p = None) ->
    orphaned_world m (p :: ps) kept w (orphan_loop m ps kept1 w1)) as Hgo.
  { intros w1 kept1 Hw1 Hmv Hpg Hf Hno Hor Hfr. destruct (IH kept1 w1 Hnd) as [I1 I2 I3 I4 I5 I6].
    assert (forall q, q <> p -> owned m w1 q = owned m w q /\ removed w1 q = removed w q) as Heq
      by (intros q Hq; unfold owned, removed; by rewrite Hw1).
    split.
    - rewrite I1, <-Hf. f_equal. apply list_filter_iff_in. intros q Hq.
      destruct (Heq q) as [-> ->]; [set_solver|done].
    - congruence.
    - intros n. by rewrite I3.
    - intros q Hq. destruct (decide (q = p)) as [->|Hqp].
      + rewrite I4 by auto. destruct Hq as [Hq|Hq]; [set_solver|auto].
      + rewrite I4; [auto|]. destruct (Heq q Hqp) as [-> _].
        destruct Hq as [Hq|Hq]; [left; set_solver|auto].
    - intros q [->|Hq]%elem_of_cons Ho Hr; [rewrite I4 by auto; auto|].
      assert (q <> p) as Hqp by set_solver. destruct (Heq q Hqp) as [H1 H2].
      rewrite I5 by congruence. by rewrite Hw1.
    - intros q [->|Hq]%elem_of_cons Ho Hr; [by apply orphan_loop_freed; auto|].
      assert (q <> p) as Hqp by set_solver. destruct (Heq q Hqp) as [H1 H2].
      apply I6; congruence. }
  rewrite !filter_consb in Hgo.
  destruct (owned m w p) eqn:Ho; [destruct (removed w p) eqn:Hr|]; cbn [andb negb] in *; apply Hgo;
    try done.
  - intros q Hq. by apply free_path_wp.
  - intros _ _. cbn. by rewrite lookup_delete_eq.
  - intros q Hq. rewrite orphan_path_wp. by destruct (decide (p = q)).
  - apply orphan_path_rest.
  - apply orphan_path_maps.
  - by rewrite <-app_assoc.
  - intros _ _. rewrite orphan_path_wp. by destruct (decide (p = p)).
  - by rewrite <-app_assoc.
Qed.

Lemma free_backrefs_other m gs h q :
  mpp (h !!! q) <> Some m -> free_multipath_backrefs m gs h !! q = h !! q.
Proof.
  unfold free_multipath_backrefs. revert h.
  assert (forall ps h, mpp (h !!! q) <> Some m ->
    foldl (fun (h : pheap) (p : ptr) => if bool_decide (mpp (h !!! p) = Some m)
      then <[p := (h !!! p) <| mpp := None |>]> h else h) h ps !! q = h !! q) as Hin.
  { induction ps as [|p ps IH]; intros h Hq; [done|]. cbn [foldl].
    case_bool_decide as Hp; [|by apply IH].
    assert (p <> q) as Hpq by congruence.
    rewrite IH; [by rewrite lookup_insert_ne|]. by rewrite lookup_total_insert_ne. }
  induction gs as [|g gs IH]; intros h Hq; [done|]. cbn [foldl].
  assert (Hl := Hin (g_paths g) h Hq). rewrite IH, Hl; [done|].
  rewrite lookup_total_alt. rewrite Hl. by rewrite <-lookup_total_alt.
Qed.

Lemma remove_first_NoDup x l : NoDup l -> remove_first x l = filter (fun y => negb (y =? x)%nat) l.
Proof.
  induction l as [|y l IH]; intros Hnd; [done|]. apply NoDup_cons in Hnd as [Hy Hnd].
  unfold remove_first in *. cbn [list_find]. rewrite filter_consb.
  destruct (decide (x = y)) as [->|Hne].
  - rewrite Nat.eqb_refl. cbn. symmetry. apply filter_all. rewrite Forall_forall. intros z Hz.
    apply negb_true_iff, Nat.eqb_neq. congruence.
  - replace (y =? x)%nat with false by (symmetry; apply Nat.eqb_neq; congruence). cbn [negb].
    rewrite <-IH by done. destruct (list_find (x =.) l) as [[i z]|]; done.
Qed.

Lemma filter_idx_elem {A} (f : A -> bool) (l : list A) x : x ∈ filter f l <-> x ∈ l /\ f x = true.
Proof. rewrite list_elem_of_filter, Is_true_true. tauto. Qed.

(** ** Lemmas: the paths of a map *)

Lemma find_devt_None h ps d :
  find_path_by_devt h ps d = None <-> forall p, p ∈ ps -> dev_t (h !!! p) <> d.
Proof.
  unfold find_path_by_devt. rewrite find_none_spec, Forall_forall. split.
  - intros H p Hp Hd. specialize (H p Hp). cbn in H. rewrite Hd, streq_refl in H. done.
  - intros H p Hp. apply not_true_iff_false. rewrite streq_eq. auto.
Qed.

Lemma update_paths_loop_spec h pv ps paths :
  exists new, fst (update_paths_loop h pv ps paths) = paths ++ new /\
    Forall (fun p => p ∈ ps /\ initialized (h !!! p) <> INIT_REMOVED /\
                     is_Some (find_path_by_devt h pv (dev_t (h !!! p)))) new /\
    (NoDup ((fun p => dev_t (h !!! p)) <$> paths) ->
     NoDup ((fun p => dev_t (h !!! p)) <$> paths ++ new)) /\
    (snd (update_paths_loop h pv ps paths) = false ->
     forall p, p ∈ ps -> initialized (h !!! p) <> INIT_REMOVED ->
       is_Some (find_path_by_devt h pv (dev_t (h !!! p))) ->
       is_Some (find_path_by_devt h (paths ++ new) (dev_t (h !!! p)))).
Proof.
  revert paths. induction ps as [|p ps IH]; intros paths; cbn [update_paths_loop].
  { exists []. rewrite app_nil_r. split_and!; [done|done|done|]. intros _ q Hq. set_solver. }
  assert (forall new, Forall (fun q => q ∈ ps /\ initialized (h !!! q) <> INIT_REMOVED /\
                     is_Some (find_path_by_devt h pv (dev_t (h !!! q)))) new ->
    Forall (fun q => q ∈ p :: ps /\ initialized (h !!! q) <> INIT_REMOVED /\
                     is_Some (find_path_by_devt h pv (dev_t (h !!! q)))) new) as Hweak.
  { intros new Hnew. eapply Forall_impl; [exact Hnew|]. cbn. intros q (Hq & H). split; [set_solver|done]. }
  assert (forall l1 l2 d, is_Some (find_path_by_devt h l1 d) -> is_Some (find_path_by_devt h (l1 ++ l2) d))
    as Hmono.
  { intros l1 l2 d Hs. apply not_eq_None_Some. rewrite find_devt_None. intros Hn.
    apply not_eq_None_Some in Hs. apply Hs. apply find_devt_None. set_solver. }
  destruct (find_path_by_devt h paths (dev_t (h !!! p))) as [q|] eqn:Ef.
  { destruct (IH paths) as (new & H1 & H2 & H3 & H4). exists new. split_and!; auto.
    intros Hf r [->|Hr]%elem_of_cons Hi Hk; [|by apply H4]. apply Hmono. by rewrite Ef. }
  destruct (bool_decide _ && _) eqn:Hk.
  2:{ destruct (IH paths) as (new & H1 & H2 & H3 & H4). exists new. split_and!; auto.
      intros Hf r [->|Hr]%elem_of_cons Hi Hs; [|by apply H4].
      rewrite bool_decide_true in Hk by done. unfold eqb in Hk.
      by rewrite bool_decide_false in Hk. }
  apply andb_true_iff in Hk as [Hk1 Hk2]. apply bool_decide_eq_true in Hk1.
  apply negb_true_iff, bool_decide_eq_false in Hk2.
  destruct (store_path h paths p) as [paths'|] eqn:Est.
  - unfold store_path in Est. case_match; [done|]. injection Est as <-.
    destruct (IH (paths ++ [p])) as (new & H1 & H2 & H3 & H4). exists (p :: new).
    rewrite <-app_assoc in H1, H3, H4. split_and!; [done| | |].
    + constructor; [|auto]. split; [set_solver|done].
    + intros Hnd. apply H3. rewrite fmap_app. apply NoDup_app. split; [done|]. split.
      * intros d (q & -> & Hq)%list_elem_of_fmap Hd. cbn in Hd. apply list_elem_of_singleton in Hd.
        by apply (proj1 (find_devt_None h paths _) Ef q Hq).
      * apply NoDup_singleton.
    + intros Hf r [->|Hr]%elem_of_cons Hi Hs; [|by apply H4].
      apply not_eq_None_Some. rewrite find_devt_None. intros Hn.
      apply (Hn p); [set_solver|done].
  - destruct (IH paths) as (new & H1 & H2 & H3 & _). exists new.
    destruct (update_paths_loop h pv ps paths) as [l b]. split_and!; auto. done.
Qed.

(** ** Lemmas: synchronising the paths of a map *)

Lemma sync_map_state_spec m w :
  sync_map_state m w =
  w <| trace := reverse (omap (fun p => sync_call (wm w m) (wp w p)) (all_paths (wm w m))) ++ trace w |>.
Proof.
  unfold sync_map_state.
  assert (forall ps w', wm w' m = wm w m -> (forall p, wp w' p = wp w p) ->
    foldl (fun w p => match sync_call (wm w m) (wp w p) with Some e => emit e w | None => w end) w' ps =
    w' <| trace := reverse (omap (fun p => sync_call (wm w m) (wp w p)) ps) ++ trace w' |>) as H.
  { induction ps as [|p ps IH]; intros w' Hm Hp; [by destruct w'|]. cbn [foldl omap list_omap].
    rewrite Hm, Hp. destruct (sync_call _ _) as [e|]; [|by apply IH].
    rewrite IH by done. by rewrite reverse_cons, <-app_assoc. }
  by apply H.
Qed.

Lemma drop_ungrouped_spec m ps kept w :
  let w' := drop_ungrouped m ps kept w in
  pg (wm w' m) = pg (wm w m) /\ pathvec w' = pathvec w /\
  slots (m_paths (wm w' m)) =
    match m_paths (wm w m) with None => [] | _ => kept ++ filter (in_pathgroups w m) ps end.
Proof.
  revert kept w. induction ps as [|p ps IH]; intros kept w; cbn [drop_ungrouped].
  { cbn zeta. rewrite wm_upd_map_eq. cbn. split_and!; try done.
    rewrite app_nil_r. by destruct (m_paths (wm w m)). }
  rewrite filter_consb. destruct (in_pathgroups w m p) eqn:Hin.
  { destruct (IH (kept ++ [p]) w) as (H1 & H2 & H3). split_and!; try done.
    rewrite H3. by destruct (m_paths (wm w m)); [rewrite <-app_assoc|]. }
  set (w1 := if bool_decide _ then _ else _).
  assert (pg (wm w1 m) = pg (wm w m) /\ m_paths (wm w1 m) = m_paths (wm w m) /\
    pathvec w1 = pathvec w) as (Hp1 & Hm1 & Hv1).
  { unfold w1. case_bool_decide; [rewrite wm_upd_map_eq|]; done. }
  assert (m_paths (wm (orphan_path p w1) m) = m_paths (wm w m)) as Hm2.
  { unfold orphan_path. rewrite wm_upd_path. destruct (mpp (wp w1 p)) as [n|]; [|done].
    case_match; [|done]. rewrite wm_upd_map. by destruct (decide (n = m)) as [->|]. }
  destruct (IH kept (orphan_path p w1)) as (H1 & H2 & H3).
  rewrite orphan_path_maps in H1. destruct (orphan_path_rest p w1) as (Hv & _).
  split_and!; [congruence|congruence|]. rewrite H3, Hm2.
  destruct (m_paths (wm w m)); [|done]. f_equal. apply list_filter_iff_in. intros q _.
  unfold in_pathgroups. by rewrite orphan_path_maps, Hp1.
Qed.

Lemma check_removed_maps m ps kept w : w_maps (check_removed_loop m ps kept w) = w_maps w.
Proof.
  revert kept w. induction ps as [|p ps IH]; intros kept w; cbn [check_removed_loop]; [done|].
  case_match; [apply IH|]. case_match; by rewrite IH.
Qed.

Lemma in_pathgroups_all w m p : in_pathgroups w m p = true <-> p ∈ all_paths (wm w m).
Proof.
  unfold in_pathgroups, all_paths. rewrite list_elem_of_bind. rewrite existsb_exists. split.
  - intros (g & Hg & (q & Hq & Heq)%existsb_exists). apply Nat.eqb_eq in Heq as ->.
    exists g. by rewrite !list_elem_of_In.
  - intros (g & Hp & Hg). exists g. rewrite <-list_elem_of_In. split; [done|].
    apply existsb_exists. exists p. by rewrite <-list_elem_of_In, Nat.eqb_refl.
Qed.

Lemma own_all_spec m ps w :
  let w' := foldl (fun w p => upd_path p (fun pp => pp <| mpp := Some m |>) w) w ps in
  w_maps w' = w_maps w /\ forall p, p ∈ ps \/ mpp (wp w p) = Some m -> mpp (wp w' p) = Some m.
Proof.
  revert w. induction ps as [|q ps IH]; intros w; cbn [foldl].
  { split; [done|]. intros p [?|?]; [set_solver|done]. }
  destruct (IH (upd_path q (fun pp => pp <| mpp := Some m |>) w)) as [H1 H2].
  split; [done|]. intros p Hp. apply H2. rewrite wp_upd_path.
  destruct (decide (q = p)) as [->|]; [by right|]. destruct Hp as [[->|?]%elem_of_cons|?]; auto; done.
Qed.

Lemma extract_hwe_same m w :
  w_paths (extract_hwe_from_path m w) = w_paths w /\
  m_paths (wm (extract_hwe_from_path m w) m) = m_paths (wm w m) /\
  pg (wm (extract_hwe_from_path m w) m) = pg (wm w m).
Proof.
  unfold extract_hwe_from_path. destruct (m_hwe (wm w m)); [done|].
  destruct (m_paths (wm w m)) eqn:E1; [|done].
  destruct (List.find _ _); [rewrite wm_upd_map_eq; done|].
  destruct (List.find _ _); [rewrite wm_upd_map_eq; done|]. done.
Qed.

(** * Properties *)

(** C38: Removing a map leaves no trace of it: it is gone from the store and the
    map vector, no path of the path vector refers to it any more, the paths that
    were only waiting for its removal are freed and dropped, its other paths are
    released orphans, and the paths of other maps are untouched. *)
Theorem remove_map_clean m w :
  NoDup (pathvec w) -> NoDup (mpvec w) ->
  let w' := remove_map m true w in
  w_maps w' !! m = None /\
  mpvec w' = filter (fun n => negb (n =? m)%nat) (mpvec w) /\
  pathvec w' = filter (fun p => negb (owned m w p && removed w p)) (pathvec w) /\
  (forall p, p ∈ pathvec w' ->
     mpp (wp w' p) <> Some m /\
     wp w' p = if owned m w p then orphaned (wp w p) else wp w p) /\
  (forall p, p ∈ pathvec w -> owned m w p = true -> removed w p = true -> w_paths w' !! p = None).
Proof.
  intros Hnp Hnm w'.
  set (w0 := upd_map m (fun mm => mm <| m_hwe := None |>) w).
  assert (forall p, wp w0 p = wp w p) as Hw0 by done.
  destruct (orphan_loop_spec m (pathvec w0) [] w0 Hnp) as [I1 I2 I3 I4 I5 I6].
  set (w1 := orphan_loop m (pathvec w0) [] w0) in *.
  assert (w' = free_multipath m (w1 <| mpvec ::= remove_first m |>)) as Hw' by done.
  clearbody w'. subst w'.
  change (pathvec w0) with (pathvec w) in *. change (owned m w0) with (owned m w) in *.
  change (removed w0) with (removed w) in *. cbn [app] in I1.
  assert (forall p, p ∈ pathvec w1 -> mpp (wp w1 p) <> Some m /\
    wp w1 p = if owned m w p then orphaned (wp w p) else wp w p) as Hkept.
  { intros p Hp. rewrite I1 in Hp. apply filter_idx_elem in Hp as [Hp Hk].
    destruct (owned m w p) eqn:Ho.
    - rewrite I5 by (done || by destruct (removed w p)). done.
    - rewrite I4 by auto. split; [|done]. by apply bool_decide_eq_false in Ho. }
  split_and!.
  - apply lookup_delete_eq.
  - change (remove_first m (mpvec w1) = filter (fun n => negb (n =? m)%nat) (mpvec w)).
    rewrite I2. by apply remove_first_NoDup.
  - exact I1.
  - intros p Hp. destruct (Hkept p Hp) as [Hm Heq].
    assert (wp (free_multipath m (w1 <| mpvec ::= remove_first m |>)) p = wp w1 p) as ->; [|done].
    unfold wp. cbn. rewrite !lookup_total_alt. by rewrite free_backrefs_other.
  - intros p Hp Ho Hr. specialize (I6 p Hp Ho Hr). unfold free_multipath. cbn.
    rewrite free_backrefs_other; [done|]. rewrite lookup_total_alt, I6. done.
Qed.

(** Map 0 owns paths 0 and 1 (the latter removed), map 1 owns path 2. *)
Definition two_maps : world := {|
  w_paths := {[ 0%nat := alloc_path <| mpp := Some 0%nat |> <| dev_t := s "8:0" |>;
                1%nat := alloc_path <| mpp := Some 0%nat |> <| initialized := INIT_REMOVED |>;
                2%nat := alloc_path <| mpp := Some 1%nat |> <| dev_t := s "8:32" |> ]};
  w_maps := {[ 0%nat := alloc_multipath <| pg := Some [alloc_pathgroup <| g_paths := [0%nat] |>] |>
                          <| m_paths := Some [0%nat] |>;
               1%nat := alloc_multipath <| m_alias := s "b" |> ]};
  pathvec := [0; 1; 2]%nat; mpvec := [0; 1]%nat; next_ptr := 3%nat; trace := [] |}.

Lemma remove_map_clean_witness :
  pathvec (remove_map 0%nat true two_maps) = [0; 2]%nat /\
  mpp (wp (remove_map 0%nat true two_maps) 0%nat) <> Some 0%nat.
Proof.
  destruct (remove_map_clean 0%nat two_maps ltac:(decide_closed) ltac:(decide_closed))
    as (_ & _ & H & Hp & _).
  split; [exact H|]. apply Hp. rewrite H. vm_compute. by left.
Defined.

(** [update_mpp_paths] keeps the paths a map has and appends paths of its
    groups that are in the path vector and not removed; no device number is
    added twice, and unless storing fails every such path is present. *)
Theorem update_mpp_paths_complete m w groups :
  pg (wm w m) = Some groups ->
  let old := slots (m_paths (wm w m)) in
  let devt p := dev_t (wp w p) in
  let eligible p := p ∈ groups ≫= g_paths /\ initialized (wp w p) <> INIT_REMOVED /\
                    is_Some (find_path_by_devt (w_paths w) (pathvec w) (devt p)) in
  exists failure new w', update_mpp_paths m w = (failure, w') /\
    m_paths (wm w' m) = Some (old ++ new) /\ w_paths w' = w_paths w /\
    Forall eligible new /\
    (NoDup (devt <$> old) -> NoDup (devt <$> old ++ new)) /\
    (failure = false -> forall p, eligible p -> exists q, q ∈ old ++ new /\ devt q = devt p).
Proof.
  intros Hpg old devt eligible. unfold update_mpp_paths. rewrite Hpg. fold old.
  destruct (update_paths_loop_spec (w_paths w) (pathvec w) (groups ≫= g_paths) old)
    as (new & H1 & H2 & H3 & H4).
  destruct (update_paths_loop _ _ _ _) as [paths failure]. cbn in H1, H4. subst paths.
  exists failure, new. eexists. split; [reflexivity|]. rewrite wm_upd_map_eq. split_and!; try done.
  intros Hf p (Hp & Hi & Hs). destruct (H4 Hf p Hp Hi Hs) as [q Hq].
  apply find_in in Hq as [Hq Hd]. apply streq_eq in Hd. by exists q.
Qed.

Lemma update_mpp_paths_complete_witness :
  exists new w', update_mpp_paths 0%nat (upd_map 0%nat (fun m => m <| m_paths := None |>) two_maps) =
      (false, w') /\ m_paths (wm w' 0%nat) = Some new /\ new = [0%nat].
Proof.
  destruct (update_mpp_paths_complete 0%nat (upd_map 0%nat (fun m => m <| m_paths := None |>) two_maps)
    [alloc_pathgroup <| g_paths := [0%nat] |>]) as (f & new & w' & H & Hm & _); [reflexivity|].
  exists new, w'. assert (f = false) as -> by (vm_compute in H; congruence).
  split; [exact H|]. split; [exact Hm|]. injection H as <-. vm_compute in Hm. congruence.
Defined.

(** After [sync_paths] every path of a map is in one of its groups and is
    owned by the map. *)
Theorem sync_paths_owned m w :
  let w' := sync_paths m w in
  pg (wm w' m) = pg (wm w m) /\
  forall p, p ∈ slots (m_paths (wm w' m)) ->
    mpp (wp w' p) = Some m /\ p ∈ all_paths (wm w' m).
Proof.
  unfold sync_paths.
  destruct (drop_ungrouped_spec m (slots (m_paths (wm w m))) [] w) as (Hpg1 & _ & Hps1).
  set (w1 := drop_ungrouped m _ [] w) in *.
  assert (w_maps (check_removed_paths m w1) = w_maps w1) as Hm2 by apply check_removed_maps.
  set (w2 := check_removed_paths m w1) in *.
  assert (forall n, wm w2 n = wm w1 n) as Hw2 by (intros n; unfold wm; by rewrite Hm2).
  set (w3 := snd (update_mpp_paths m w2)).
  assert (pg (wm w3 m) = pg (wm w m) /\
    forall p, p ∈ slots (m_paths (wm w3 m)) -> p ∈ all_paths (wm w m)) as [Hpg3 Hps3].
  { assert (forall p, p ∈ slots (m_paths (wm w2 m)) -> p ∈ all_paths (wm w m)) as Hold.
    { intros p Hp. rewrite Hw2, Hps1 in Hp. destruct (m_paths (wm w m)) eqn:E; [|set_solver].
      apply filter_idx_elem in Hp as [_ Hp]. by apply in_pathgroups_all. }
    unfold w3, update_mpp_paths. destruct (pg (wm w2 m)) as [groups|] eqn:Eg.
    2:{ cbn. rewrite Eg. split; [by rewrite <-Hpg1, <-Hw2|done]. }
    destruct (update_paths_loop_spec (w_paths w2) (pathvec w2) (groups ≫= g_paths)
      (slots (m_paths (wm w2 m)))) as (new & H1 & H2 & _).
    destruct (update_paths_loop _ _ _ _) as [paths failure]. cbn in H1. subst paths.
    cbn [snd]. rewrite wm_upd_map_eq. cbn. rewrite Eg.
    assert (pg (wm w m) = Some groups) as Hg by (by rewrite <-Hpg1, <-Hw2).
    split; [done|]. intros p [Hp|Hp]%elem_of_app; [by apply Hold|].
    rewrite Forall_forall in H2. destruct (H2 p Hp) as [Hin _].
    unfold all_paths. by rewrite Hg. }
  destruct (own_all_spec m (slots (m_paths (wm w3 m))) w3) as [Ho1 Ho2].
  set (w4 := foldl _ w3 _) in *.
  assert (wm w4 m = wm w3 m) as Hw4 by (unfold wm; by rewrite Ho1).
  destruct (extract_hwe_same m w4) as (Hx1 & Hx2 & Hx3).
  cbn zeta. rewrite Hx2, Hx3, Hw4. split; [done|]. intros p Hp. split.
  - unfold wp. rewrite Hx1. apply Ho2. by left.
  - unfold all_paths. rewrite Hx3, Hw4, Hpg3. by apply Hps3.
Qed.

(** [sync_map_state] changes nothing but sends the kernel, in path order,
    one call per path whose kernel state contradicts its checker state: a fail
    only for a path the checker found down or shaky, a reinstate only for one it
    found up or ghost, and none while the ghost delay runs. *)
Theorem sync_map_state_reconciles m w :
  let calls := omap (fun p => sync_call (wm w m) (wp w p)) (all_paths (wm w m)) in
  sync_map_state m w = w <| trace := reverse calls ++ trace w |> /\
  (0 < ghost_delay_tick (wm w m) -> calls = []) /\
  forall p e, sync_call (wm w m) (wp w p) = Some e ->
    (e = DmFailPath (m_alias (wm w m)) (dev_t (wp w p)) /\
     (state (wp w p) = PATH_DOWN \/ state (wp w p) = PATH_SHAKY) /\
     dmstate (wp w p) <> PSTATE_FAILED) \/
    (e = DmReinstatePath (m_alias (wm w m)) (dev_t (wp w p)) /\
     (state (wp w p) = PATH_UP \/ state (wp w p) = PATH_GHOST) /\
     dmstate (wp w p) <> PSTATE_ACTIVE).
Proof.
  split; [apply sync_map_state_spec|]. split.
  - intros Hg. induction (all_paths (wm w m)) as [|p ps IH]; [done|]. cbn.
    unfold sync_call at 1. replace (0 <? ghost_delay_tick (wm w m)) with true by blia.
    by destruct (eqb _ _ || _ || _).
  - intros p e. unfold sync_call.
    destruct (state (wp w p)), (dmstate (wp w p)); eqb_eval;
      destruct (0 <? ghost_delay_tick (wm w m)); intros H; simplify_eq;
      first [left; split_and!; (done || (by left) || (by right)) | right; split_and!; (done || (by left) || (by right))].
Qed.

Lemma sync_map_state_reconciles_witness :
  let w := upd_path 0%nat (fun p => p <| state := PATH_UP |> <| dmstate := PSTATE_FAILED |>) two_maps in
  trace (sync_map_state 0%nat w) = [DmReinstatePath [] (s "8:0")] /\
  0 < ghost_delay_tick (alloc_multipath <| ghost_delay_tick := 5 |>) /\
  omap (fun p => sync_call (alloc_multipath <| ghost_delay_tick := 5 |>) (wp w p)) [0%nat] = [].
Proof.
  intros w. split; [|split; [reflexivity|]].
  - destruct (sync_map_state_reconciles 0%nat w) as (H & _). rewrite H. reflexivity.
  - set (w2 := upd_map 0%nat (fun m => m <| ghost_delay_tick := 5 |>) w).
    destruct (sync_map_state_reconciles 0%nat w2) as (_ & H & _). exact (H ltac:(reflexivity)).
Defined.
