(* ===== verification/Configure.v ===== *)
(** * libmultipath/configure.c: setting up a map and pushing it to the kernel

    The ordering of the paths of a group over host adapters, [setup_map], the
    choice of the action a map needs, and [domap], which carries it out with
    the device-mapper calls of devmapper.c.  What propsel.c selects is
    [e_select]; the selectors themselves are in Propsel. *)

From S2P Require Import Prelude CString Util Structs Pgpolicies Dmparser World StructsVec.

(** ** Alternating between host adapters *)

(** The counters [num_hosts] and [num_paths] of the source are the lengths. *)
Record host_group := { hg_host_no : Z; hg_paths : list ptr }.
Record adapter_group := { ag_name : cstr; ag_hosts : list host_group; ag_next : nat }.

#[export] Instance eta_host_group : Eta host_group := fun x => {|
  hg_host_no := hg_host_no x; hg_paths := hg_paths x |}.
#[export] Instance eta_adapter_group : Eta adapter_group := fun x => {|
  ag_name := ag_name x; ag_hosts := ag_hosts x; ag_next := ag_next x |}.

Section Order.
Variable h : pheap.
Variable adapter_name : path -> option cstr.

Definition host_no_of (p : ptr) : Z := host_no (h !!! p).
Definition can_store (p : ptr) : bool := bool_decide (is_Some (store_path h [] p)).

(** Adding a path of the adapter to the host group of its host. *)
Fixpoint add_to_host (p : ptr) (hs : list host_group) : list host_group :=
  match hs with
  | [] => [{| hg_host_no := host_no_of p; hg_paths := [p] |}]
  | g :: r => if hg_host_no g =? host_no_of p then g <| hg_paths ::= (fun l => l ++ [p]) |> :: r
              else g :: add_to_host p r
  end.

(** The paths of the same adapter leave the group; [None] is an error, with the
    paths that are left and the hosts so far. *)
Fixpoint same_adapter (name : cstr) (ps kept : list ptr) (hs : list host_group)
  : bool * list ptr * list host_group :=
  match ps with
  | [] => (true, kept, hs)
  | p :: r =>
      match adapter_name (h !!! p) with
      | None => (false, kept ++ ps, hs)
      | Some n =>
          if streq name n then
            if can_store p then same_adapter name r kept (add_to_host p hs)
            else (false, kept ++ ps, hs)
          else same_adapter name r (kept ++ [p]) hs
      end
  end.

(** The paths left in the group and the adapters; [fuel] bounds the number of
    adapters. *)
Fixpoint group_by_adapter (fuel : nat) (ps : list ptr) (ads : list adapter_group)
  : bool * list ptr * list adapter_group :=
  match ps, fuel with
  | [], _ => (true, [], ads)
  | _, O => (false, ps, ads)
  | p :: r, S f =>
      match adapter_name (h !!! p) with
      | None => (false, ps, ads)
      | Some name =>
          if negb (can_store p) then (false, ps, ads)
          else
            let '(ok, left_over, hs) :=
              same_adapter name r [] [{| hg_host_no := host_no_of p; hg_paths := [p] |}] in
            let ads := ads ++ [{| ag_name := take (SLOT_NAME_SIZE - 1) name; ag_hosts := hs;
                                  ag_next := 0%nat |}] in
            if ok then group_by_adapter f left_over ads else (false, left_over, ads)
      end
  end.

Definition paths_of_adapter (a : adapter_group) : list ptr := ag_hosts a ≫= hg_paths.

(** On failure the paths go back to the group. *)
Definition group_by_host_adapter (ps : list ptr) : bool * list ptr * list adapter_group :=
  let '(ok, left_over, ads) := group_by_adapter (length ps) ps [] in
  if ok then (true, left_over, ads) else (false, left_over ++ (ads ≫= paths_of_adapter), []).

Definition wrap (n i : nat) : nat := (S i mod n)%nat.

(** The loop of [order_paths_in_pg_by_alt_adapters]: [None] is the end of
    [fuel]; the other result is the error flag and the paths. *)
Fixpoint order_loop (fuel : nat) (total cur : nat) (ads : list adapter_group) (acc : list ptr)
  : option (bool * list ptr) :=
  match fuel with
  | O => None
  | S f =>
      match total with
      | O => Some (false, acc)
      | S total' =>
          match ads !! cur with
          | None => Some (true, acc)
          | Some a =>
              match ag_hosts a !! ag_next a with
              | None => Some (true, acc)
              | Some g =>
                  let next := wrap (length (ag_hosts a)) (ag_next a) in
                  match hg_paths g with
                  | [] => order_loop f total (wrap (length ads) cur) (<[cur := a <| ag_next := next |>]> ads) acc
                  | p :: r =>
                      if negb (can_store p) then Some (true, acc)
                      else
                        let hs := <[ag_next a := g <| hg_paths := r |>]> (ag_hosts a) in
                        order_loop f total' (wrap (length ads) cur)
                          (<[cur := a <| ag_hosts := hs |> <| ag_next := next |>]> ads) (acc ++ [p])
                  end
              end
          end
      end
  end.

(** Enough: between two paths every host of every adapter is visited once. *)
Definition order_fuel (total : nat) (ads : list adapter_group) : nat :=
  S (total * (length ads * max_list ((fun a => length (ag_hosts a)) <$> ads))).

Definition order_paths_in_pg_by_alt_adapters (total : nat) (ads : list adapter_group)
    (acc : list ptr) : option (bool * list ptr) :=
  order_loop (order_fuel total ads) total 0 ads acc.

Definition has_adapter (p : ptr) : bool :=
  let id := proto_id (h !!! p) in
  (id =? SCSI_PROTOCOL_FCP) || (id =? SCSI_PROTOCOL_SAS) || (id =? SCSI_PROTOCOL_ISCSI) ||
  (id =? SCSI_PROTOCOL_SRP).

(** The error flag and the paths of the group. *)
Definition rr_optimize_path_order (ps : list ptr) : option (bool * list ptr) :=
  if negb (forallb has_adapter ps) then Some (false, ps)
  else
    match group_by_host_adapter ps with
    | (true, left_over, ads) => order_paths_in_pg_by_alt_adapters (length ps) ads left_over
    | (false, ps', _) => Some (false, ps')
    end.
End Order.

(** ** Setting up a map *)

Definition WAIT_CHECKERS_PENDING_MS : nat := 10.
Definition WAIT_ALL_CHECKERS_PENDING_MS : nat := 90.

Section Configure.
Variable E : env.

(** [get_state]: a path without a checker is given one first; the daemon reads
    its sysfs attributes before. *)
Definition get_state (p : ptr) (daemon : bool) (w : world) : path_check_state * world :=
  let run w := (e_checker_check E (trace w), emit (Probe p) w) in
  if checker_selected (wp w p) then run w
  else
    let '(ret, w) := if daemon then run_pathinfo E p DI_SYSFS w else (PATHINFO_OK, w) in
    if negb (eqb ret PATHINFO_OK) || negb (e_select_checker E (trace w)) then (PATH_UNCHECKED, w)
    else if negb (e_checker_init E (trace w))
    then (PATH_UNCHECKED, upd_path p (fun pp => pp <| checker_selected := false |>) (emit (Probe p) w))
    else run (upd_path p (fun pp => pp <| checker_selected := true |>) (emit (Probe p) w)).

(** One round over the paths; the flag tells that the goal was reached. *)
Fixpoint poll_pending (ps : list ptr) (n goal : Z) (w : world) : bool * Z * world :=
  match ps with
  | [] => (false, n, w)
  | p :: r =>
      if negb (eqb (state (wp w p)) PATH_PENDING) then poll_pending r n goal w
      else
        let '(st, w) := get_state p false w in
        let w := upd_path p (fun pp => pp <| state := st |>) w in
        if eqb st PATH_PENDING then poll_pending r n goal w
        else if n - 1 <=? goal then (true, n - 1, w) else poll_pending r (n - 1) goal w
  end.

(** At most [rounds] rounds, a millisecond apart. *)
Fixpoint wait_for_pending_paths (rounds : nat) (m : ptr) (n goal : Z) (w : world) : Z * world :=
  match rounds with
  | O => (n, w)
  | S r =>
      let '(done, n, w) := poll_pending (all_paths (wm w m)) n goal w in
      if done then (0, w) else wait_for_pending_paths r m n goal (emit Sleep w)
  end.

(** An attribute is selected anew; the old one stays when none is found. *)
Definition reselect (get : multipath -> option cstr) (set : option cstr -> multipath -> multipath)
    (sel : multipath -> multipath) (m : multipath) : multipath :=
  let m' := sel (set None m) in
  match get m' with None => set (get m) m' | Some _ => m' end.

Definition select_properties (S : selectors) (m : multipath) : multipath :=
  let m := sel_failback_policy S m in
  let m := reselect selector (fun x m => m <| selector := x |>) (sel_selector S) m in
  let m := sel_retry_hwhandler S m in
  let m := reselect features (fun x m => m <| features := x |>) (sel_features S) m in
  let m := reselect hwhandler (fun x m => m <| hwhandler := x |>) (sel_hwhandler S) m in
  sel_rest S m.

(** Reordering the larger groups; [None] is the error exit. *)
Fixpoint optimize_groups (h : pheap) (gs : list pathgroup) : option (list pathgroup) :=
  match gs with
  | [] => Some []
  | g :: r =>
      g' ← (if (length (g_paths g) <=? 2)%nat then Some g
            else match rr_optimize_path_order h (e_adapter_name E) (g_paths g) with
                 | Some (false, ps) => Some (g <| g_paths := ps |>)
                 | _ => None
                 end);
      r' ← optimize_groups h r;
      Some (g' :: r')
  end.

(** Waiting for the checkers: [n_paths] paths are grouped. *)
Definition wait_checkers (m : ptr) (n_paths : Z) (w : world) : world :=
  if c_force_sync (e_conf E) || (n_paths <=? 0) then w
  else
    let n := pathcount (w_paths w) (wm w m) PATH_PENDING in
    let '(n, w) := if 0 <? n then wait_for_pending_paths WAIT_CHECKERS_PENDING_MS m n 0 w else (n, w) in
    if n =? n_paths
    then snd (wait_for_pending_paths WAIT_ALL_CHECKERS_PENDING_MS m n (if 4 <=? n_paths then 2 else 1) w)
    else w.

(** The table of the map, or [None] when [setup_map] returns 1. *)
Definition setup_map (m : ptr) (w : world) : option cstr * world :=
  if m_size (wm w m) <=? 0 then (None, w)
  else
    let w := upd_map m (fun mm =>
      if disable_queueing mm && negb (length (slots (m_paths mm)) =? 0)%nat
      then mm <| disable_queueing := false |> else mm) w in
    let w := upd_map m (select_properties (e_select E)) w in
    let mm := wm w m in
    if bool_decide (features mm = None) || bool_decide (hwhandler mm = None) ||
       bool_decide (selector mm = None) then (None, w)
    else
      let w := if marginal_path_check_enabled mm then emit StartIoErrThread w else w in
      let n_paths := Z.of_nat (length (slots (m_paths mm))) in
      let w := upd_map m (fun mm => mm <| pg := None |>) w in
      let '(fail, mm) := group_paths (w_paths w) (wm w m) (c_marginal_pathgroups (e_conf E)) in
      let w := upd_map m (fun _ => mm) w in
      if negb (fail =? 0) then (None, w)
      else
        let w := wait_checkers m n_paths w in
        let '(best, mm) := select_path_group (w_paths w) (wm w m) in
        let w := upd_map m (fun _ => mm <| bestpg := best |>) w in
        let optimized :=
          if strneq 11 (default [] (selector (wm w m))) (s "round-robin")
          then optimize_groups (w_paths w) (slots (pg (wm w m)))
          else Some (slots (pg (wm w m))) in
        match optimized with
        | None => (None, w)
        | Some gs =>
            let w := upd_map m (fun mm => mm <| pg ::= option_map (fun _ => gs) |>) w in
            let '(mm, params) := assemble_map (e_version_code E) PARAMS_SIZE (w_paths w) (wm w m) in
            (params, upd_map m (fun _ => mm) w)
        end.

(** ** What does a map need? *)

(** [pgp->id ^= (long)pp] over the paths. *)
Definition compute_pgid (g : pathgroup) : pathgroup :=
  g <| pg_id := foldl (fun i p => Z.lxor i (Z.of_nat p)) (pg_id g) (g_paths g) |>.

(** The inner loop of [pgcmp]: the groups passed before a match. *)
Fixpoint pgcmp_scan (g : pathgroup) (cgs : list pathgroup) (r : Z) : Z :=
  match cgs with
  | [] => r
  | cg :: rest => if (pg_id g =? pg_id cg) && (pathcmp g cg =? 0) then 0
                  else pgcmp_scan g rest (r + 1)
  end.

(** Groups [i] to [i + n - 1] of map [m] against those of map [c]; both may be
    the same map. *)
Fixpoint pgcmp_loop (n i : nat) (m c : ptr) (w : world) : Z * world :=
  match n with
  | O => (0, w)
  | S n' =>
      let w := upd_map m (fun mm => mm <| pg ::= option_map (alter compute_pgid i) |>) w in
      match slots (pg (wm w m)) !! i with
      | None => (0, w)
      | Some g =>
          let r := pgcmp_scan g (slots (pg (wm w c))) 0 in
          if r =? 0 then pgcmp_loop n' (S i) m c w else (r, w)
      end
  end.

Definition pgcmp (m c : ptr) (w : world) : Z * world :=
  pgcmp_loop (length (slots (pg (wm w m)))) 0 m c w.

Definition set_action (a : actions) (m : ptr) (w : world) : world :=
  upd_map m (fun mm => mm <| action := a |>) w.

Definition select_reload_action (m c : ptr) (w : world) : world :=
  let ready := e_udev_of_map E (trace w) in
  let w := emit (UdevOfMap c) w in
  let w := if negb (bool_decide (ready = Some true)) && (0 <? active_paths w m)
           then upd_map m (fun mm => mm <| force_udev_reload := true |>) w else w in
  set_action ACT_RELOAD m w.

Definition text (x : option cstr) : cstr := default [] x.

(** The features without the ones that are compared by themselves. *)
Definition without_feature (name : cstr) (x : option cstr) : option cstr :=
  match remove_feature x (Some name) with Some (_, x') => x' | None => x end.
Definition plain_features (x : option cstr) : cstr :=
  text (without_feature (s "retain_attached_hw_handler") (without_feature (s "queue_if_no_path") x)).

(** The differences that call for a reload, in the order they are looked for. *)
Definition settings_differ (mm cm : multipath) : bool :=
  let has x f := has_strstr (text x) f in
  (negb (no_path_retry mm =? NO_PATH_RETRY_UNDEF) &&
   negb (eqb (has (features mm) (s "queue_if_no_path")) (has (features cm) (s "queue_if_no_path")))) ||
  ((negb (retain_hwhandler mm =? RETAIN_HWHANDLER_ON) || streq (text (hwhandler cm)) (s "0")) &&
   (negb (strlen (text (hwhandler cm)) =? strlen (text (hwhandler mm))) ||
    negb (strneq (length (text (hwhandler mm))) (text (hwhandler cm)) (text (hwhandler mm))))) ||
  (negb (retain_hwhandler mm =? RETAIN_HWHANDLER_UNDEF) &&
   negb (eqb (has (features mm) (s "retain_attached_hw_handler"))
             (has (features cm) (s "retain_attached_hw_handler"))) &&
   (e_version_code E <? KERNEL_VERSION 4 3 0)) ||
  (bool_decide (is_Some (features cm)) && bool_decide (is_Some (features mm)) &&
   negb (strneq PARAMS_SIZE (plain_features (features mm)) (plain_features (features cm)))) ||
  bool_decide (selector cm = None) ||
  negb (strneq (length (text (selector mm))) (text (selector cm)) (text (selector mm))) ||
  negb (minio cm =? minio mm) ||
  bool_decide (pg cm = None) ||
  negb (length (slots (pg cm)) =? length (slots (pg mm)))%nat.

Definition select_action (m : ptr) (curmp : list ptr) (force_reload : bool) (w : world) : world :=
  let mm := wm w m in
  match find_mp_by_wwid (w_maps w) curmp (m_wwid mm), find_mp_by_alias (w_maps w) curmp (m_alias mm) with
  | Some c, None =>
      let w := upd_map m (fun mm => mm <| alias_old := take (Z.to_nat (WWID_SIZE - 1)) (m_alias (wm w c)) |>
                                       <| action := ACT_RENAME |>) w in
      if force_reload
      then upd_map m (fun mm => mm <| force_udev_reload := true |> <| action := ACT_FORCERENAME |>) w
      else w
  | None, None => set_action ACT_CREATE m w
  | None, Some _ => set_action ACT_CREATE m (upd_map m (fun mm => mm <| m_alias := m_wwid mm |>) w)
  | Some c, Some c' =>
      if negb (c =? c')%nat then
        set_action ACT_IMPOSSIBLE m (upd_map m (fun mm => mm <| m_alias := m_alias (wm w c) |>) w)
      else if force_reload then
        set_action ACT_RELOAD m (upd_map m (fun mm => mm <| force_udev_reload := true |>) w)
      else if negb (m_size (wm w c) =? m_size mm) then
        set_action ACT_RESIZE m (upd_map m (fun mm => mm <| force_udev_reload := true |>) w)
      else if settings_differ mm (wm w c) then select_reload_action m c w
      else
        let '(r, w) := pgcmp m c w in
        if negb (r =? 0) then select_reload_action m c w
        else if negb (nextpg (wm w c) =? bestpg (wm w m)) then set_action ACT_SWITCHPG m w
        else
          let known := bool_decide (is_Some (e_udev_of_map E (trace w))) in
          let w := emit (UdevOfMap c) w in
          if known then set_action ACT_NOTHING m w else set_action ACT_RELOAD m w
  end.

(** ** Device-mapper calls of devmapper.c *)

Definition build_udev_flags (w : world) (m : ptr) (reload : bool) : list udev_flag :=
  let mm := wm w m in
  (if skip_kpartx mm =? YNU_YES then [NO_KPARTX_FLAG] else []) ++
  (if (count_active_pending_paths (w_paths w) mm =? 0) || (0 <? ghost_delay_tick mm)
   then [NO_PATHS_FLAG] else []) ++
  (if reload && negb (force_udev_reload mm) then [RELOAD_FLAG] else []).

(** A task that reaches the kernel: did it succeed, and else is errno EROFS? *)
Definition dm_task (op : dm_op) (m : ptr) (params : cstr) (ro : bool) (flags : list udev_flag)
    (w : world) : bool * bool * world :=
  let '(ok, erofs) := e_dm_task E (trace w) in
  (ok, negb ok && erofs, emit (DmTask op (m_alias (wm w m)) params ro flags) w).

(** A map without WWID is not created; errno, left from an earlier call, is taken
    not to be EROFS then. *)
Definition dm_addmap (op : dm_op) (m : ptr) (params : cstr) (ro : bool) (flags : list udev_flag)
    (w : world) : bool * bool * world :=
  match op with
  | OpCreate => if strlen (m_wwid (wm w m)) =? 0 then (false, false, w) else dm_task op m params ro flags w
  | _ => dm_task op m params ro flags w
  end.

(** [mark_failed_wwid] and [unmark_failed_wwid]. *)
Definition mark_wwid (failed : bool) (m : ptr) (w : world) : world :=
  let changed := e_wwid_changed E (trace w) in
  let w := emit (MarkFailedWwid (m_wwid (wm w m)) failed) w in
  if changed then upd_map m (fun mm => mm <| needs_paths_uevent := 1 |>) w else w.

(** Half-created maps are removed after a failure; a read-only failure is tried
    again read-only. *)
Definition dm_addmap_create (m : ptr) (params : cstr) (w : world) : bool * world :=
  let flags := build_udev_flags w m false in
  let clean w := if e_map_present E (trace w)
                 then emit (DmFlush (m_alias (wm w m)) false) (emit (DmInfo (m_alias (wm w m))) w)
                 else emit (DmInfo (m_alias (wm w m))) w in
  let '(ok, erofs, w) := dm_addmap OpCreate m params false flags w in
  if ok then (true, mark_wwid false m w)
  else
    let w := clean w in
    if negb erofs then (false, mark_wwid true m w)
    else
      let '(ok, _, w) := dm_addmap OpCreate m params true flags w in
      if ok then (true, mark_wwid false m w) else (false, mark_wwid true m (clean w)).

Definition dm_addmap_reload (m : ptr) (params : cstr) (flush : bool) (w : world) : bool * world :=
  let flags := build_udev_flags w m true in
  let readonly := force_readonly (wm w m) in
  let '(ok, erofs, w) :=
    if readonly then (false, true, w) else dm_addmap OpReload m params false [] w in
  if negb ok && negb erofs then (false, w)
  else
    let '(ok, _, w) := if ok then (ok, erofs, w) else dm_addmap OpReload m params true [] w in
    let '(resumed, _, w) :=
      if ok then dm_task (OpResume (negb flush)) m [] false flags w else (false, false, w) in
    if resumed then (true, w)
    else
      let suspended := e_suspended E (trace w) in
      let w := emit (DmInfo (m_alias (wm w m))) w in
      (false, if suspended then snd (dm_task (OpResume (negb flush)) m [] false flags w) else w).

(** ** Pushing a map to the kernel *)

Inductive domap_result := DOMAP_RETRY | DOMAP_FAIL | DOMAP_OK | DOMAP_EXIST | DOMAP_DRY.

(** The paths [reinstate_paths] calls the kernel for. *)
Definition reinstate_paths (m : ptr) (w : world) : world :=
  foldl (fun w g => foldl (fun w p =>
      let pp := wp w p in
      if negb (eqb (state pp) PATH_UP) && (eqb (status g) PGSTATE_DISABLED || eqb (status g) PGSTATE_ACTIVE)
      then w
      else if eqb (dmstate pp) PSTATE_FAILED then emit (DmReinstatePath (m_alias (wm w m)) (dev_t pp)) w
      else w) w (g_paths g)) w (slots (pg (wm w m))).

(** Locking path by path: the paths locked so far, and did all locks succeed? *)
Fixpoint lock_paths (ps : list ptr) (locked : list ptr) (w : world) : bool * list ptr * world :=
  match ps with
  | [] => (true, locked, w)
  | p :: r =>
      let blocked := e_flock_blocked E (trace w) in
      let w := emit (Flock p true) w in
      if blocked then (false, locked, w) else lock_paths r (locked ++ [p]) w
  end.

Definition unlock_paths (ps : list ptr) (w : world) : world :=
  foldl (fun w p => emit (Flock p false) w) w ps.

(** Does locking fail?  The locks taken before the failure are given back. *)
Definition lock_multipath (m : ptr) (lock : bool) (w : world) : bool * world :=
  if lock then
    let '(ok, locked, w) := lock_paths (all_paths (wm w m)) [] w in
    if ok then (false, w) else (true, unlock_paths locked w)
  else (false, unlock_paths (all_paths (wm w m)) w).

(** On reload the device numbers of the map are looked up first; the sysfs files
    read and written are one event. *)
Definition sysfs_set_max_sectors_kb (m : ptr) (is_reload : bool) (w : world) : world :=
  if max_sectors_kb (wm w m) =? 0 then w
  else if is_reload && bool_decide (dmi (wm w m) = None) then
    let info := e_dm_info E (trace w) in
    let w := upd_map m (fun mm => mm <| dmi := info |>) (emit (DmInfo (m_alias (wm w m))) w) in
    match info with
    | None => w
    | Some _ => emit (SetMaxSectors m is_reload) w
    end
  else emit (SetMaxSectors m is_reload) w.

Definition trigger_paths_udev_change (m : ptr) (is_mpath : bool) (w : world) : world :=
  match pg (wm w m) with
  | None => w
  | Some _ => upd_map m (fun mm => mm <| needs_paths_uevent := 0 |>) (emit (PathsUevent m is_mpath) w)
  end.

(** A good path ends the wait of [ghost_delay]. *)
Definition stop_ghost_delay (m : ptr) (w : world) : world :=
  if (0 <? ghost_delay_tick (wm w m)) && (0 <? pathcount (w_paths w) (wm w m) PATH_UP)
  then upd_map m (fun mm => mm <| ghost_delay_tick := 0 |>) w else w.

Definition reload_kernel_map (m : ptr) (params : cstr) (flush : bool) (w : world) : bool * world :=
  dm_addmap_reload m params flush (stop_ghost_delay m (sysfs_set_max_sectors_kb m true w)).

Definition rename_kernel_map (m : ptr) (w : world) : bool * world :=
  (e_rename E (trace w), emit (DmRename (alias_old (wm w m)) (m_alias (wm w m))) w).

(** A map to be created may be there already. *)
Definition check_present (m : ptr) (w : world) : world :=
  if eqb (action (wm w m)) ACT_CREATE then
    let present := e_map_present E (trace w) in
    let w := emit (DmInfo (m_alias (wm w m))) w in
    if present then
      let uuid := e_uuid E (trace w) in
      let w := emit (DmInfo (m_alias (wm w m))) w in
      match uuid with
      | Some wwid => set_action (if strneq (Z.to_nat WWID_SIZE) (m_wwid (wm w m)) wwid
                                 then ACT_RELOAD else ACT_REJECT) m w
      | None => w
      end
    else w
  else w.

(** What the action does to the kernel: an early result, or did it succeed? *)
Definition perform_action (m : ptr) (params : cstr) (is_daemon : bool) (w : world)
  : (domap_result + bool) * world :=
  match action (wm w m) with
  | ACT_REJECT | ACT_NOTHING | ACT_IMPOSSIBLE => (inl DOMAP_EXIST, w)
  | ACT_SWITCHPG =>
      let w := emit (DmSwitchGroup (m_alias (wm w m)) (bestpg (wm w m))) w in
      (inl DOMAP_EXIST, reinstate_paths m w)
  | ACT_CREATE =>
      let '(failed, w) := lock_multipath m true w in
      if failed then (inl DOMAP_RETRY, w)
      else
        let w := sysfs_set_max_sectors_kb m false w in
        let mm := wm w m in
        let w := if is_daemon && (0 <? ghost_delay mm) && negb (active_paths w m =? 0) &&
                    (pathcount (w_paths w) mm PATH_UP =? 0)
                 then upd_map m (fun mm => mm <| ghost_delay_tick := ghost_delay mm |>) w else w in
        let '(ok, w) := dm_addmap_create m params w in
        (inr ok, snd (lock_multipath m false w))
  | ACT_RELOAD => let '(ok, w) := reload_kernel_map m params false w in (inr ok, w)
  | ACT_RESIZE => let '(ok, w) := reload_kernel_map m params true w in (inr ok, w)
  | ACT_RENAME => let '(ok, w) := rename_kernel_map m w in (inr ok, w)
  | ACT_FORCERENAME =>
      let '(ok, w) := rename_kernel_map m w in
      if ok then let '(ok, w) := reload_kernel_map m params false w in (inr ok, w) else (inr false, w)
  | ACT_UNDEF | ACT_DRY_RUN => (inr false, w)
  end.

(** The bookkeeping after success. *)
Definition domap_done (m : ptr) (is_daemon : bool) (w : world) : world :=
  let w := upd_map m (fun mm => mm <| force_udev_reload := false |>) w in
  let created := eqb (action (wm w m)) ACT_CREATE in
  let w :=
    if created then
      let remembered := e_remember_wwid E (trace w) in
      let w := emit (RememberWwid (m_wwid (wm w m))) w in
      if (remembered =? 1) || negb (needs_paths_uevent (wm w m) =? 0)
      then trigger_paths_udev_change m true w else w
    else w in
  let w :=
    if negb is_daemon then emit (DmSwitchGroup (m_alias (wm w m)) (bestpg (wm w m))) w
    else
      let w := upd_map m (fun mm => mm <| stat_map_loads ::= (fun n => u32 (n + 1)) |>) w in
      if created
      then upd_map m (fun mm => mm <| wait_for_udev := 1 |>
                                   <| uev_wait_tick := c_uev_wait_timeout (e_conf E) |>) w
      else set_action ACT_NOTHING m w in
  emit (DmSetGeometry (m_alias (wm w m))) w.

Definition domap (m : ptr) (params : cstr) (is_daemon : bool) (w : world) : domap_result * world :=
  if eqb (action (wm w m)) ACT_DRY_RUN then (DOMAP_DRY, w)
  else
    let w := check_present m w in
    match perform_action m params is_daemon w with
    | (inl r, w) => (r, w)
    | (inr true, w) => (DOMAP_OK, domap_done m is_daemon w)
    | (inr false, w) =>
        (DOMAP_FAIL,
         if eqb (action (wm w m)) ACT_CREATE && negb (needs_paths_uevent (wm w m) =? 0)
         then trigger_paths_udev_change m false w else w)
    end.

(** No path of the map has a device name. *)
Definition deadmap (w : world) (m : ptr) : bool :=
  forallb (fun p => strlen (dev (wp w p)) =? 0) (all_paths (wm w m)).
End Configure.

(** ** Lemmas: ordering paths *)

Section OrderLemmas.
Context (h : pheap) (adapter_name : path -> option cstr).

Abbreviation in_hosts hs := (hs ≫= hg_paths).
Abbreviation in_adapters ads := (ads ≫= paths_of_adapter).

Lemma add_to_host_perm p hs : in_hosts (add_to_host h p hs) ≡ₚ p :: in_hosts hs.
Proof using Type.
  induction hs as [|g r IH]; [done|]. cbn [add_to_host]. case_match.
  - rewrite !bind_cons. cbn [hg_paths]. solve_Permutation.
  - rewrite !bind_cons, IH. solve_Permutation.
Qed.

(** The paths of host groups can be stored. *)
Definition hosts_ok (hs : list host_group) : Prop :=
  hs <> [] /\ Forall (fun p => can_store h p = true) (in_hosts hs).

Lemma add_to_host_ok p hs : hosts_ok hs -> can_store h p = true -> hosts_ok (add_to_host h p hs).
Proof using Type.
  intros [Hn Hs] Hp. split.
  - destruct hs as [|g r]; [done|]. cbn. by case_match.
  - rewrite add_to_host_perm. by constructor.
Qed.

Lemma same_adapter_spec name ps : forall kept hs ok left_over hs',
  same_adapter h adapter_name name ps kept hs = (ok, left_over, hs') -> hosts_ok hs ->
  left_over ++ in_hosts hs' ≡ₚ kept ++ ps ++ in_hosts hs /\ hosts_ok hs' /\
  (length left_over <= length kept + length ps)%nat.
Proof using Type.
  induction ps as [|p r IH]; intros kept hs ok left_over hs' Heq Hok; cbn in Heq.
  { simplify_eq. split_and!; [done..|cbn; lia]. }
  repeat case_match; simplify_eq; try (split_and!; [by rewrite <-app_assoc|done|by rewrite length_app]).
  - apply IH in Heq as (HP & Hok' & Hl); [|by apply add_to_host_ok].
    split_and!; [|done|cbn; lia]. rewrite HP, add_to_host_perm. solve_Permutation.
  - apply IH in Heq as (HP & Hok' & Hl); [|done].
    split_and!; [|done|rewrite length_app in Hl; cbn in *; lia]. rewrite HP. solve_Permutation.
Qed.

Definition adapters_ok (ads : list adapter_group) : Prop :=
  Forall (fun a => (ag_next a < length (ag_hosts a))%nat) ads /\
  Forall (fun p => can_store h p = true) (in_adapters ads).

Lemma group_by_adapter_spec fuel : forall ps ads ok left_over ads',
  group_by_adapter h adapter_name fuel ps ads = (ok, left_over, ads') ->
  (length ps <= fuel)%nat -> adapters_ok ads ->
  left_over ++ in_adapters ads' ≡ₚ ps ++ in_adapters ads /\ adapters_ok ads' /\
  (ok = true -> left_over = []).
Proof using Type.
  induction fuel as [|fuel IH]; intros ps ads ok left_over ads' Heq Hf Hok.
  { destruct ps; [|cbn in Hf; lia]. cbn in Heq. by simplify_eq. }
  destruct ps as [|p r]; cbn in Heq; [by simplify_eq|].
  destruct (adapter_name (h !!! p)) as [name|]; [|by simplify_eq].
  destruct (can_store h p) eqn:Hst; cbn [negb] in Heq; [|by simplify_eq].
  destruct (same_adapter h adapter_name name r [] _) as [[ok1 left1] hs] eqn:Hsame.
  apply same_adapter_spec in Hsame as (HP & [Hne Hs] & Hl); cycle 1.
  { split; [done|]. by repeat constructor. }
  set (a := {| ag_name := _; ag_hosts := hs; ag_next := 0%nat |}) in *.
  assert (adapters_ok (ads ++ [a])) as Hok'.
  { destruct Hok as [H1 H2]. split.
    - apply Forall_app. split; [done|]. constructor; [|done]. cbn. by destruct hs; [|cbn; lia].
    - rewrite bind_app. apply Forall_app. split; [done|]. cbn. by rewrite app_nil_r. }
  assert (left1 ++ in_adapters (ads ++ [a]) ≡ₚ p :: r ++ in_adapters ads) as HP'.
  { rewrite bind_app. cbn. rewrite app_nil_r. unfold paths_of_adapter. cbn [ag_hosts a].
    cbn in HP. rewrite (Permutation_app_comm (in_adapters ads)), app_assoc, HP. solve_Permutation. }
  destruct ok1; [|by simplify_eq].
  apply IH in Heq as (HP2 & Hok2 & Hl2); [|cbn in *; lia|done].
  split_and!; [|done..]. by rewrite HP2, HP'.
Qed.

(** *** The alternating loop *)

Lemma bind_insert {A B} (f : A -> list B) l i x y a b : l !! i = Some x -> f x ≡ₚ a ++ b -> f y ≡ₚ b ->
  l ≫= f ≡ₚ a ++ (<[i := y]> l ≫= f).
Proof using Type.
  intros Hi Hx Hy. pose proof (lookup_lt_Some _ _ _ Hi).
  rewrite <-(take_drop_middle l i x Hi) at 1. rewrite insert_take_drop by done.
  rewrite !bind_app, !bind_cons, Hx, Hy. solve_Permutation.
Qed.

(** Steps of a cyclic index from [i] to [j]. *)
Definition dist (n i j : nat) : nat := if (i <=? j)%nat then (j - i)%nat else (n - i + j)%nat.

Ltac leb_cases :=
  repeat match goal with |- context [Nat.leb ?a ?b] => destruct (Nat.leb_spec a b) end; lia.

Lemma wrap_lt n i : (i < n)%nat -> (wrap n i < n)%nat.
Proof using Type. intros H. apply Nat.mod_upper_bound. lia. Qed.

Lemma wrap_cases n i : (i < n)%nat -> wrap n i = if (S i =? n)%nat then 0%nat else S i.
Proof using Type.
  intros H. unfold wrap. destruct (Nat.eqb_spec (S i) n) as [<-|]; [apply Nat.Div0.mod_same|].
  apply Nat.mod_small. lia.
Qed.

Lemma dist_wrap n i j : (i < n)%nat -> (j < n)%nat -> i <> j -> S (dist n (wrap n i) j) = dist n i j.
Proof using Type.
  intros Hi Hj Hn. rewrite wrap_cases by done. unfold dist.
  destruct (Nat.eqb_spec (S i) n); leb_cases.
Qed.

Lemma dist_wrap_self n i : (i < n)%nat -> dist n (wrap n i) i = (n - 1)%nat.
Proof using Type.
  intros Hi. rewrite wrap_cases by done. unfold dist.
  destruct (Nat.eqb_spec (S i) n); leb_cases.
Qed.

Lemma dist_self n i : dist n i i = 0%nat.
Proof using Type. unfold dist. rewrite Nat.leb_refl. lia. Qed.

Lemma dist_lt n i j : (i < n)%nat -> (j < n)%nat -> (dist n i j < n)%nat.
Proof using Type. intros. unfold dist. leb_cases. Qed.

(** A host with paths: the adapter number, the host number, and the number of
    steps until the loop is there. *)
Definition target (ads : list adapter_group) (cur i j mu : nat) : Prop :=
  exists a g, ads !! i = Some a /\ ag_hosts a !! j = Some g /\ hg_paths g <> [] /\
    mu = (dist (length ads) cur i + length ads * dist (length (ag_hosts a)) (ag_next a) j)%nat.

Lemma target_exists ads cur : in_adapters ads <> [] -> (cur < length ads)%nat -> adapters_ok ads ->
  exists i j mu, target ads cur i j mu /\
    (mu < length ads * max_list ((fun a => length (ag_hosts a)) <$> ads))%nat.
Proof using Type.
  intros Hne Hcur [Hnext _].
  destruct (in_adapters ads) as [|p l] eqn:Hin; [done|].
  assert (p ∈ in_adapters ads) as Hp by (rewrite Hin; left).
  apply list_elem_of_bind in Hp as (a & Hp & Ha). apply list_elem_of_bind in Hp as (g & Hp & Hg).
  apply list_elem_of_lookup in Ha as [i Hi], Hg as [j Hj].
  exists i, j. eexists. split.
  { exists a, g. split_and!; [done|done| |reflexivity]. intros Hnil. rewrite Hnil in Hp. set_solver. }
  pose proof (lookup_lt_Some _ _ _ Hi). pose proof (lookup_lt_Some _ _ _ Hj).
  rewrite Forall_lookup in Hnext. specialize (Hnext _ _ Hi). cbn in Hnext.
  pose proof (dist_lt (length ads) cur i ltac:(done) ltac:(done)).
  pose proof (dist_lt (length (ag_hosts a)) (ag_next a) j ltac:(done) ltac:(done)).
  assert (length (ag_hosts a) <= max_list ((fun a => length (ag_hosts a)) <$> ads))%nat as Hmax.
  { apply max_list_elem_of_le. apply list_elem_of_fmap. exists a. split; [done|].
    by eapply list_elem_of_lookup_2. }
  nia.
Qed.

Definition width (ads : list adapter_group) : nat := max_list ((fun a => length (ag_hosts a)) <$> ads).

Lemma width_insert ads cur a a' : ads !! cur = Some a -> length (ag_hosts a') = length (ag_hosts a) ->
  width (<[cur := a']> ads) = width ads.
Proof using Type.
  intros Ha Hl. unfold width. rewrite list_fmap_insert, list_insert_id; [done|].
  rewrite list_lookup_fmap, Ha. cbn. by rewrite Hl.
Qed.

(** The adapter the loop is at moves on to its next host. *)
Lemma adapters_ok_insert ads cur a a' : adapters_ok ads -> ads !! cur = Some a ->
  (ag_next a' < length (ag_hosts a'))%nat ->
  Forall (fun p => can_store h p = true) (in_adapters (<[cur := a']> ads)) ->
  adapters_ok (<[cur := a']> ads).
Proof using Type. intros [H1 H2] Ha Hn Hs. split; [|done]. by apply Forall_insert. Qed.

(** A step that gives no path brings the target nearer. *)
Lemma target_step ads cur a g i j mu : adapters_ok ads -> ads !! cur = Some a ->
  ag_hosts a !! ag_next a = Some g -> hg_paths g = [] -> target ads cur i j mu ->
  exists mu', mu = S mu' /\
    target (<[cur := a <| ag_next := wrap (length (ag_hosts a)) (ag_next a) |>]> ads)
      (wrap (length ads) cur) i j mu'.
Proof using Type.
  intros [Hnext _] Ha Hg Hnil (b & gb & Hb & Hgb & Hne & Hmu).
  pose proof (lookup_lt_Some _ _ _ Ha). pose proof (lookup_lt_Some _ _ _ Hb).
  pose proof (lookup_lt_Some _ _ _ Hg). pose proof (lookup_lt_Some _ _ _ Hgb).
  rewrite Forall_lookup in Hnext. pose proof (Hnext _ _ Ha) as Hna. cbn in Hna.
  destruct (decide (cur = i)) as [->|Hci].
  - rewrite Ha in Hb. simplify_eq.
    assert (ag_next b <> j) as Hnj by (intros <-; rewrite Hg in Hgb; simplify_eq; done).
    pose proof (dist_wrap (length (ag_hosts b)) (ag_next b) j ltac:(done) ltac:(done) Hnj) as Hd.
    rewrite dist_self, <-Hd. exists (length ads - 1 + length ads * dist (length (ag_hosts b)) (wrap (length (ag_hosts b)) (ag_next b)) j)%nat.
    split; [lia|]. eexists _, gb. rewrite list_lookup_insert_eq by done.
    split_and!; [done..|]. rewrite length_insert, dist_wrap_self by done. done.
  - pose proof (dist_wrap (length ads) cur i ltac:(done) ltac:(done) Hci) as Hd.
    eexists. split; [rewrite Hmu, <-Hd; done|]. exists b, gb.
    rewrite list_lookup_insert_ne, length_insert by done. by split_and!.
Qed.

Lemma order_loop_ok fuel : forall total cur ads acc i j mu,
  adapters_ok ads -> length (in_adapters ads) = S total -> (cur < length ads)%nat ->
  target ads cur i j mu -> (mu + 2 + total * (length ads * width ads) <= fuel)%nat ->
  exists ps, order_loop h fuel (S total) cur ads acc = Some (false, acc ++ ps) /\ ps ≡ₚ in_adapters ads.
Proof using Type.
  induction fuel as [|fuel IH]; intros total cur ads acc i j mu Hok Hlen Hcur Ht Hf; [lia|].
  cbn [order_loop]. destruct (lookup_lt_is_Some_2 ads cur Hcur) as [a Ha]. rewrite Ha.
  destruct (Hok) as [Hnext Hst]. rewrite Forall_lookup in Hnext. pose proof (Hnext _ _ Ha) as Hna. cbn in Hna.
  destruct (lookup_lt_is_Some_2 (ag_hosts a) (ag_next a) Hna) as [g Hg]. rewrite Hg.
  set (nx := wrap (length (ag_hosts a)) (ag_next a)).
  assert (nx < length (ag_hosts a))%nat as Hnx by by apply wrap_lt.
  destruct (hg_paths g) as [|p r] eqn:Hps.
  - destruct (target_step ads cur a g i j mu) as (mu' & -> & Ht'); [done..|].
    assert (in_adapters (<[cur := a <| ag_next := nx |>]> ads) ≡ₚ in_adapters ads) as HP.
    { symmetry. by apply (bind_insert paths_of_adapter ads cur a _ [] (paths_of_adapter a)). }
    destruct (IH total (wrap (length ads) cur) (<[cur := a <| ag_next := nx |>]> ads) acc i j mu')
      as (ps & -> & HPs); [ | |by rewrite length_insert; apply wrap_lt|done| |].
    + eapply adapters_ok_insert; [done..|]. by rewrite HP.
    + by rewrite HP.
    + rewrite length_insert, (width_insert _ _ a) by done. fold nx in Hf. lia.
    + exists ps. split; [done|]. by rewrite HPs.
  - set (a' := a <| ag_hosts := <[ag_next a := g <| hg_paths := r |>]> (ag_hosts a) |> <| ag_next := nx |>).
    assert (in_adapters ads ≡ₚ [p] ++ in_adapters (<[cur := a']> ads)) as HP.
    { apply (bind_insert paths_of_adapter ads cur a a' [p] (paths_of_adapter a')); try done.
      apply (bind_insert hg_paths (ag_hosts a) (ag_next a) g _ [p] r); [done| |reflexivity]. by rewrite Hps. }
    rewrite HP in Hst. apply Forall_cons in Hst as [Hp Hst]. rewrite Hp. cbn [negb].
    assert (adapters_ok (<[cur := a']> ads)) as Hok'.
    { eapply adapters_ok_insert; [done..| |done]. cbn. by rewrite length_insert. }
    assert (width (<[cur := a']> ads) = width ads) as Hw.
    { eapply width_insert; [done|]. cbn. by rewrite length_insert. }
    rewrite HP in Hlen. cbn in Hlen. destruct total as [|total].
    + destruct fuel as [|fuel]; [lia|]. exists [p]. split; [done|].
      rewrite HP. by destruct (in_adapters (<[cur := a']> ads)).
    + destruct (target_exists (<[cur := a']> ads) (wrap (length ads) cur)) as (i' & j' & mu' & Ht' & Hmu');
        [by destruct (in_adapters (<[cur := a']> ads))|rewrite length_insert; by apply wrap_lt|done|].
      fold (width (<[cur := a']> ads)) in Hmu'. rewrite Hw, length_insert in Hmu'.
      destruct (IH total (wrap (length ads) cur) (<[cur := a']> ads) (acc ++ [p]) i' j' mu')
        as (ps & -> & HPs); [done|lia|rewrite length_insert; by apply wrap_lt|done| |].
      * rewrite Hw, length_insert. lia.
      * exists (p :: ps). split; [by rewrite <-app_assoc|]. by rewrite HP, HPs.
Qed.
End OrderLemmas.

Lemma rr_optimize_spec h adapter_name ps :
  exists ps', rr_optimize_path_order h adapter_name ps = Some (false, ps') /\ ps' ≡ₚ ps.
Proof.
  unfold rr_optimize_path_order. case_match; [by exists ps|].
  unfold group_by_host_adapter.
  destruct (group_by_adapter h adapter_name (length ps) ps []) as [[ok left_over] ads] eqn:Hg.
  apply group_by_adapter_spec in Hg as (HP & Hok & Hleft); [|done|by split; constructor].
  cbn in HP. rewrite app_nil_r in HP.
  destruct ok; [|by exists (left_over ++ (ads ≫= paths_of_adapter))].
  rewrite Hleft in * by done. cbn [app] in *.
  unfold order_paths_in_pg_by_alt_adapters, order_fuel.
  assert (length ps = length (ads ≫= paths_of_adapter)) as -> by by rewrite HP.
  destruct (length (ads ≫= paths_of_adapter)) as [|total] eqn:Hlen.
  { exists []. split; [done|]. rewrite <-HP. by destruct (ads ≫= paths_of_adapter). }
  destruct ads as [|a0 ads0]; [done|].
  destruct (target_exists h (a0 :: ads0) 0) as (i & j & mu & Ht & Hmu);
    [by destruct ((a0 :: ads0) ≫= paths_of_adapter)|cbn; lia|done|].
  destruct (order_loop_ok h (S (S total * (length (a0 :: ads0) * width (a0 :: ads0)))) total 0 (a0 :: ads0) [] i j mu)
    as (ps' & Heq & HPs); [done|done|cbn; lia|done| |].
  - fold (width (a0 :: ads0)) in Hmu. lia.
  - exists ps'. split; [exact Heq|]. by rewrite HPs, HP.
Qed.

(** Ordering the paths of a group for round robin ends, never fails and only
    reorders the paths. *)
Theorem rr_optimize_permutes h adapter_name ps :
  exists ps', rr_optimize_path_order h adapter_name ps = Some (false, ps') /\ ps' ≡ₚ ps.
Proof. apply rr_optimize_spec. Qed.

(** ** Lemmas: setting up a map *)

Section SetupMap.
Context (E : env).

Lemma optimize_groups_spec h gs : exists gs', optimize_groups E h gs = Some gs' /\
  Forall2 (fun g g' => g_paths g' ≡ₚ g_paths g) gs gs'.
Proof using Type.
  induction gs as [|g gs (gs' & IH & HF)]; [by exists []|]. cbn. destruct (length (g_paths g) <=? 2)%nat.
  - cbn. rewrite IH. cbn. eexists. split; [done|]. by constructor.
  - destruct (rr_optimize_spec h (e_adapter_name E) (g_paths g)) as (ps' & -> & HP). cbn. rewrite IH. cbn.
    eexists. split; [done|]. by constructor.
Qed.

Lemma same_groups gs gs' : Forall2 (fun g g' => g_paths g' ≡ₚ g_paths g) gs gs' ->
  gs' ≫= g_paths ≡ₚ gs ≫= g_paths /\ length gs' = length gs /\
  (Forall (fun g => g_paths g <> []) gs -> Forall (fun g => g_paths g <> []) gs').
Proof using Type.
  induction 1 as [|g g' gs gs' HP _ (H1 & H2 & H3)]; [done|]. cbn. rewrite HP, H1, H2. split_and!; [done..|].
  intros [Hg Hgs]%Forall_cons. constructor; [|by apply H3]. intros Heq. rewrite Heq in HP.
  by apply Permutation_nil_l in HP.
Qed.

(** Waiting for checkers changes states of paths only. *)
Lemma get_state_maps p w : w_maps (snd (get_state E p false w)) = w_maps w.
Proof using Type. unfold get_state. by repeat case_match. Qed.

Lemma poll_pending_maps ps : forall n goal w, w_maps (snd (poll_pending E ps n goal w)) = w_maps w.
Proof using Type.
  induction ps as [|p ps IH]; intros n goal w; [done|]. cbn [poll_pending]. case_match; [apply IH|].
  pose proof (get_state_maps p w) as H1. destruct (get_state E p false w) as [st w1].
  repeat case_match; rewrite ?IH; done.
Qed.

Lemma wait_for_pending_maps rounds : forall m n goal w,
  w_maps (snd (wait_for_pending_paths E rounds m n goal w)) = w_maps w.
Proof using Type.
  induction rounds as [|r IH]; intros m n goal w; [done|]. cbn [wait_for_pending_paths].
  pose proof (poll_pending_maps (all_paths (wm w m)) n goal w) as H1.
  destruct (poll_pending E (all_paths (wm w m)) n goal w) as [[done n1] w1].
  destruct done; [done|]. by rewrite IH.
Qed.

Lemma wait_checkers_maps m n w : w_maps (wait_checkers E m n w) = w_maps w.
Proof using Type.
  unfold wait_checkers. destruct (c_force_sync (e_conf E) || (n <=? 0)); [done|].
  match goal with |- context [if 0 <? ?k then _ else _] => set (k0 := k) end.
  assert (exists n1 w1, (if 0 <? k0 then wait_for_pending_paths E WAIT_CHECKERS_PENDING_MS m k0 0 w else (k0, w))
    = (n1, w1) /\ w_maps w1 = w_maps w) as (n1 & w1 & -> & H1).
  { destruct (0 <? k0); [|by eexists _, _]. eexists _, _. split; [apply surjective_pairing|].
    apply wait_for_pending_maps. }
  destruct (n1 =? n); [|done]. by rewrite wait_for_pending_maps.
Qed.
Lemma group_paths_inv h m ps mp r m' : pg m = None -> m_paths m = Some ps -> ps <> [] ->
  Forall (storable h) ps -> group_paths h m mp = (r, m') ->
  (pgpolicyfn m = None /\ r <> 0) \/
  (r = 0 /\ exists gs, m' = m <| pg := Some gs |> <| m_paths := None |> /\ gs ≫= g_paths ≡ₚ ps /\
     Forall (fun g => g_paths g <> []) gs).
Proof using Type.
  intros Hpg Hps Hne Hst Heq. destruct (pgpolicyfn m) as [f|] eqn:Hf.
  - right. destruct (group_paths_ok h m f ps mp Hpg Hps Hf Hne Hst) as (gs & Heq' & HP & HF & _).
    rewrite Heq in Heq'. injection Heq' as -> ->. split; [done|]. exists gs. split_and!; [done..|].
    eapply Forall_impl; [exact HF|]. by intros g [H _].
  - left. split; [done|]. unfold group_paths in Heq. rewrite Hps, Hf in Heq. cbn [slots default from_option] in Heq.
    destruct ps; [done|]. by injection Heq as <- _.
Qed.

Lemma prio_update_paths h gs : (path_group_prio_update h <$> gs) ≫= g_paths = gs ≫= g_paths.
Proof using Type. induction gs as [|g gs IH]; [done|]. cbn. by rewrite update_paths, IH. Qed.

(** The group chosen exists. *)
Lemma best_in_range gs a : gs <> [] -> select_inv gs a -> 1 <= best a <= Z.of_nat (length gs).
Proof using Type.
  intros Hne Hi. assert (0 < length gs)%nat by (destruct gs; cbn; [done|lia]).
  assert (forall k (g : pathgroup), gs !! k = Some g -> 1 <= Z.of_nat k + 1 <= Z.of_nat (length gs)) as Hk.
  { intros k g Hl%lookup_lt_Some. lia. }
  unfold select_inv in Hi. destruct (normal_pgp a).
  - destruct Hi as (k & g & (Hl & _) & -> & _). by eapply Hk.
  - destruct Hi as (_ & _ & [(-> & _)|(k & g & Hl & _ & -> & _)]); [lia|by eapply Hk].
Qed.

(** The selectors leave the paths of the map alone. *)
Definition keeps_paths (S : selectors) : Prop := forall m,
  m_paths (sel_failback_policy S m) = m_paths m /\ m_paths (sel_selector S m) = m_paths m /\
  m_paths (sel_retry_hwhandler S m) = m_paths m /\ m_paths (sel_features S m) = m_paths m /\
  m_paths (sel_hwhandler S m) = m_paths m /\ m_paths (sel_rest S m) = m_paths m.

Lemma select_properties_paths m : keeps_paths (e_select E) -> m_paths (select_properties (e_select E) m) = m_paths m.
Proof using Type.
  intros HK. unfold select_properties.
  assert (forall get set sel m, (forall x m, m_paths (set x m) = m_paths m) ->
    (forall m, m_paths (sel m) = m_paths m) -> m_paths (reselect get set sel m) = m_paths m) as Hr.
  { intros get set sel m0 Hset Hsel. unfold reselect. case_match; rewrite ?Hset, ?Hsel, ?Hset; done. }
  repeat (rewrite (proj2 (proj2 (proj2 (proj2 (proj2 (HK _)))))) || (rewrite Hr; [|done|intros; apply HK])
    || rewrite (proj1 (proj2 (proj2 (HK _)))) || rewrite (proj1 (HK _))). done.
Qed.
End SetupMap.

(** The map as the selectors leave it. *)
Definition selected (E : env) (m : ptr) (w : world) : multipath :=
  let mm := wm w m in
  select_properties (e_select E) (if disable_queueing mm then mm <| disable_queueing := false |> else mm).

Lemma optimized_groups E (b : bool) h gs ps : gs ≫= g_paths ≡ₚ ps -> Forall (fun g => g_paths g <> []) gs ->
  exists gs', (if b then optimize_groups E h gs else Some gs) = Some gs' /\ gs' ≫= g_paths ≡ₚ ps /\
    length gs' = length gs /\ Forall (fun g => g_paths g <> []) gs'.
Proof.
  intros HP HF. destruct b; [|by exists gs].
  destruct (optimize_groups_spec E h gs) as (gs' & -> & (H1 & H2 & H3)%same_groups).
  exists gs'. split_and!; [done|by rewrite H1|done|by apply H3].
Qed.

(** The end of [setup_map]. *)
Lemma setup_assemble E m w ps gs : pg (wm w m) = Some gs -> gs ≫= g_paths ≡ₚ ps ->
  Forall (fun g => g_paths g <> []) gs -> 1 <= bestpg (wm w m) <= Z.of_nat (length gs) ->
  let '(mm, params) := assemble_map (e_version_code E) PARAMS_SIZE (w_paths w) (wm w m) in
  let w' := upd_map m (fun _ => mm) w in
  let table mm := snd (assemble_map (e_version_code E) PARAMS_SIZE (w_paths w') mm) in
  match params with
  | Some params =>
      all_paths (wm w' m) ≡ₚ ps /\ Forall (fun g => g_paths g <> []) (slots (pg (wm w' m))) /\
      1 <= bestpg (wm w' m) <= Z.of_nat (length (slots (pg (wm w' m)))) /\
      exists mm, pg mm = pg (wm w' m) /\ bestpg mm = bestpg (wm w' m) /\ table mm = Some params
  | None => exists mm, all_paths mm ≡ₚ ps /\ table mm = None
  end.
Proof.
  intros Hpg HP HF Hbest.
  destruct (assemble_map (e_version_code E) PARAMS_SIZE (w_paths w) (wm w m)) as [mm params] eqn:Hasm.
  assert (pg mm = Some gs /\ bestpg mm = bestpg (wm w m)) as [Hpg1 Hbest1].
  { unfold assemble_map in Hasm. by injection Hasm as <- _. }
  cbv zeta. change (w_paths (upd_map m (fun _ => mm) w)) with (w_paths w). rewrite wm_upd_map_eq.
  destruct params as [t|].
  - unfold all_paths. rewrite Hpg1, Hbest1. split_and!; [exact HP|exact HF|apply Hbest|apply Hbest|].
    exists (wm w m). by rewrite Hasm.
  - exists (wm w m). rewrite Hasm. split; [|done]. unfold all_paths. by rewrite Hpg.
Qed.


(** ** Lemmas: locking *)

(** Is the path locked after this history?  An attempt succeeds unless it
    would block. *)
Fixpoint held (E : env) (p : ptr) (h : history) : bool :=
  match h with
  | [] => false
  | Flock q true :: r => if (q =? p)%nat && negb (e_flock_blocked E r) then true else held E p r
  | Flock q false :: r => if (q =? p)%nat then false else held E p r
  | _ :: r => held E p r
  end.

Definition no_flock (e : event) : Prop := match e with Flock _ _ => False | _ => True end.

Definition is_create (e : event) : Prop :=
  match e with DmTask OpCreate _ _ _ _ => True | _ => False end.

Lemma held_app E p evs h : Forall no_flock evs -> held E p (evs ++ h) = held E p h.
Proof.
  intros HF. induction evs as [|e evs IH]; [done|]. apply Forall_cons in HF as [He HF].
  destruct e; cbn; try done; by apply IH.
Qed.

Lemma held_adds E p w w' : adds no_flock w w' -> held E p (trace w') = held E p (trace w).
Proof. intros (evs & -> & HF). by apply held_app. Qed.

Section Locks.
Context (E : env).

Lemma lock_paths_spec ps : forall locked w, 
  let '(ok, l, w') := lock_paths E ps locked w in
  adds (fun e => ~ is_create e) w w' /\ w_maps w' = w_maps w /\
  exists new, l = locked ++ new /\ (ok = true -> new = ps) /\
    forall p, held E p (trace w') = held E p (trace w) || bool_decide (p ∈ new).
Proof.
  induction ps as [|p ps IH]; intros locked w; cbn.
  { split_and!; [apply adds_refl|done|]. exists []. split_and!; [by rewrite app_nil_r|done|].
    intros q. by rewrite bool_decide_eq_false_2, orb_false_r by apply not_elem_of_nil. }
  destruct (e_flock_blocked E (trace w)) eqn:Hb.
  - split_and!; [by apply adds_emit, adds_refl; intros []|done|]. exists []. split_and!; [by rewrite app_nil_r|done|].
    intros q. cbn. rewrite Hb, andb_false_r, bool_decide_eq_false_2 by apply not_elem_of_nil.
    by rewrite orb_false_r.
  - specialize (IH (locked ++ [p]) (emit (Flock p true) w)).
    destruct (lock_paths E ps _ _) as [[ok l] w']. destruct IH as (A & M & new & -> & Hok & Hh).
    split_and!; [eapply adds_trans; [|exact A]; by apply adds_emit, adds_refl; intros []|done|].
    exists (p :: new). split_and!; [by rewrite <-app_assoc|intros ->; by rewrite Hok|].
    intros q. rewrite Hh. cbn. rewrite Hb, andb_true_r. destruct (Nat.eqb_spec p q) as [->|Hn].
    + rewrite (bool_decide_eq_true_2 (q ∈ q :: new)) by left. by rewrite orb_true_r.
    + f_equal. apply bool_decide_ext. rewrite elem_of_cons. naive_solver.
Qed.

Lemma unlock_paths_spec ps : forall w,
  adds (fun e => ~ is_create e) w (unlock_paths ps w) /\ w_maps (unlock_paths ps w) = w_maps w /\
  forall p, held E p (trace (unlock_paths ps w)) = held E p (trace w) && negb (bool_decide (p ∈ ps)).
Proof.
  induction ps as [|p ps IH]; intros w.
  { split_and!; [apply adds_refl|done|]. intros q.
    by rewrite bool_decide_eq_false_2, andb_true_r by apply not_elem_of_nil. }
  unfold unlock_paths. cbn [foldl]. destruct (IH (emit (Flock p false) w)) as (A & M & Hh).
  split_and!; [eapply adds_trans; [|exact A]; by apply adds_emit, adds_refl; intros []|done|].
  intros q. fold (unlock_paths ps (emit (Flock p false) w)). rewrite Hh. cbn.
  destruct (Nat.eqb_spec p q) as [->|Hn].
  - rewrite (bool_decide_eq_true_2 (q ∈ q :: ps)) by left. by rewrite andb_false_r.
  - f_equal. f_equal. apply bool_decide_ext. rewrite elem_of_cons. naive_solver.
Qed.

(** *** Everything else leaves the locks alone *)

(** Events that lock nothing and create no map. *)
Definition ordinary (e : event) : Prop :=
  match e with Flock _ _ | DmTask OpCreate _ _ _ _ => False | _ => True end.

(** Only events of this kind happen and the groups stay. *)
Definition unlocked (P : event -> Prop) (w w' : world) : Prop :=
  adds P w w' /\ forall m, pg (wm w' m) = pg (wm w m).

Lemma unlocked_refl P w : unlocked P w w.
Proof using Type. split; [apply adds_refl|done]. Qed.

Lemma unlocked_trans P w1 w2 w3 : unlocked P w1 w2 -> unlocked P w2 w3 -> unlocked P w1 w3.
Proof using Type. intros [A B] [C D]. split; [by eapply adds_trans|congruence]. Qed.

Lemma unlocked_emit (P : event -> Prop) e w w' : P e -> unlocked P w w' -> unlocked P w (emit e w').
Proof using Type. intros He [A B]. split; [by apply adds_emit|done]. Qed.

Lemma unlocked_upd_map P m f w w' : (forall mm, pg (f mm) = pg mm) -> unlocked P w w' -> unlocked P w (upd_map m f w').
Proof using Type.
  intros Hf [A B]. split; [done|]. intros n. rewrite wm_upd_map. case_decide; [|done]. subst. by rewrite Hf.
Qed.

Lemma unlocked_weaken (P Q : event -> Prop) w w' : (forall e, P e -> Q e) -> unlocked P w w' -> unlocked Q w w'.
Proof using Type. intros H [A B]. split; [by eapply adds_weaken|done]. Qed.

Section Ordinary.
Context (P : event -> Prop) (HP : forall e, ordinary e -> P e).

Ltac no_flock_step :=
  repeat match goal with
  | |- unlocked _ ?w ?w => apply unlocked_refl
  | |- unlocked _ _ (emit _ _) => apply unlocked_emit; [by apply HP|]
  | |- unlocked _ _ (upd_map _ _ _) => apply unlocked_upd_map; [done|]
  | |- unlocked _ _ (if ?b then _ else _) => destruct b
  | |- unlocked _ _ (match ?x with _ => _ end) => destruct x
  end.

Lemma dm_task_flock op m params ro flags w ok e w' w0 : dm_task E op m params ro flags w = (ok, e, w') ->
  P (DmTask op (m_alias (wm w m)) params ro flags) -> unlocked P w0 w -> unlocked P w0 w'.
Proof using HP.
  unfold dm_task. intros H HPe Hw. destruct (e_dm_task E (trace w)). simplify_eq. by apply unlocked_emit.
Qed.

Lemma dm_addmap_flock op m params ro flags w ok e w' w0 : dm_addmap E op m params ro flags w = (ok, e, w') ->
  P (DmTask op (m_alias (wm w m)) params ro flags) -> unlocked P w0 w -> unlocked P w0 w'.
Proof using HP.
  unfold dm_addmap. intros H HPe Hw. destruct op; [case_match|..]; try (by eapply dm_task_flock).
  by simplify_eq.
Qed.

Lemma mark_wwid_flock b m w0 w : unlocked P w0 w -> unlocked P w0 (mark_wwid E b m w).
Proof using HP. intros H. unfold mark_wwid. no_flock_step; done. Qed.

Lemma dm_addmap_create_flock m params w0 w : (forall a pa ro fl, P (DmTask OpCreate a pa ro fl)) ->
  unlocked P w0 w ->
  unlocked P w0 (snd (dm_addmap_create E m params w)).
Proof using HP.
  intros Hc H. unfold dm_addmap_create.
  assert (forall w', unlocked P w0 w' -> unlocked P w0
    (if e_map_present E (trace w') then emit (DmFlush (m_alias (wm w' m)) false) (emit (DmInfo (m_alias (wm w' m))) w')
     else emit (DmInfo (m_alias (wm w' m))) w')) as Hclean.
  { intros w' H'. case_match; repeat (apply unlocked_emit; [by apply HP|]); done. }
  destruct (dm_addmap E OpCreate m params false _ w) as [[ok e] w1] eqn:H1.
  apply (dm_addmap_flock _ _ _ _ _ _ _ _ _ w0) in H1; [|apply Hc|done].
  destruct ok; [by apply mark_wwid_flock|]. specialize (Hclean w1 H1) as H2.
  destruct (negb e); [by apply mark_wwid_flock|].
  destruct (dm_addmap E OpCreate m params true _ _) as [[ok3 e3] w3] eqn:H3.
  apply (dm_addmap_flock _ _ _ _ _ _ _ _ _ w0) in H3; [|apply Hc|done].
  destruct ok3; apply mark_wwid_flock; [done|by apply Hclean].
Qed.

Lemma dm_addmap_reload_flock m params flush w0 w : unlocked P w0 w ->
  unlocked P w0 (snd (dm_addmap_reload E m params flush w)).
Proof using HP.
  intros H. unfold dm_addmap_reload.
  destruct (if force_readonly (wm w m) then _ else _) as [[ok e] w1] eqn:H1.
  assert (unlocked P w0 w1) as Hw1.
  { destruct (force_readonly (wm w m)); [by simplify_eq|eapply dm_addmap_flock; [done|by apply HP|done]]. }
  destruct (negb ok && negb e); [done|].
  destruct (if ok then _ else _) as [[ok2 e2] w2] eqn:H2.
  assert (unlocked P w0 w2) as Hw2.
  { destruct ok; [by simplify_eq|eapply dm_addmap_flock; [done|by apply HP|done]]. }
  destruct (if ok2 then _ else _) as [[ok3 e3] w3] eqn:H3.
  assert (unlocked P w0 w3) as Hw3.
  { destruct ok2; [eapply dm_task_flock; [done|by apply HP|done]|by simplify_eq]. }
  destruct ok3; [done|]. cbn [snd]. destruct (e_suspended E (trace w3)); [|by apply unlocked_emit; [apply HP|]].
  match goal with |- unlocked _ _ (snd ?t) => destruct t as [[ok4 e4] w4] eqn:H4 end. cbn [snd].
  eapply dm_task_flock; [exact H4|by apply HP|]. apply unlocked_emit; [by apply HP|done].
Qed.

Lemma max_sectors_flock m r w0 w : unlocked P w0 w -> unlocked P w0 (sysfs_set_max_sectors_kb E m r w).
Proof using HP. intros H. unfold sysfs_set_max_sectors_kb. no_flock_step; done. Qed.

Lemma stop_ghost_flock m w0 w : unlocked P w0 w -> unlocked P w0 (stop_ghost_delay m w).
Proof using HP. intros H. unfold stop_ghost_delay. no_flock_step; done. Qed.

Lemma reload_kernel_map_flock m params flush w0 w : unlocked P w0 w ->
  unlocked P w0 (snd (reload_kernel_map E m params flush w)).
Proof using HP. intros H. by apply dm_addmap_reload_flock, stop_ghost_flock, max_sectors_flock. Qed.

Lemma check_present_flock m w0 w : unlocked P w0 w -> unlocked P w0 (check_present E m w).
Proof using HP. intros H. unfold check_present, set_action. no_flock_step; done. Qed.

Lemma trigger_flock m b w0 w : unlocked P w0 w -> unlocked P w0 (trigger_paths_udev_change m b w).
Proof using HP. intros H. unfold trigger_paths_udev_change. no_flock_step; done. Qed.

Lemma reinstate_paths_flock m w0 w : unlocked P w0 w -> unlocked P w0 (reinstate_paths m w).
Proof using HP.
  intros H. eapply unlocked_trans; [exact H|]. split.
  - unfold reinstate_paths. apply adds_foldl; [|apply adds_refl]. intros w1 g.
    apply adds_foldl; [|apply adds_refl]. intros w2 p. repeat case_match; auto with adds.
    apply adds_emit; [by apply HP|apply adds_refl].
  - intros n. unfold reinstate_paths. generalize (slots (pg (wm w m))). intros gs. clear H. revert w.
    induction gs as [|g gs IH]; intros w; [done|]. cbn. rewrite IH. generalize (g_paths g).
    intros ps. clear. revert w. induction ps as [|p ps IH]; intros w; [done|]. cbn. rewrite IH.
    by repeat case_match.
Qed.

Lemma domap_done_flock m d w0 w : unlocked P w0 w -> unlocked P w0 (domap_done E m d w).
Proof using HP.
  intros H. unfold domap_done. apply unlocked_emit; [by apply HP|].
  set (w1 := if eqb _ ACT_CREATE then _ else _).
  assert (unlocked P w0 w1) as H1.
  { unfold w1. case_match; [case_match; [apply trigger_flock|]|]; no_flock_step; done. }
  clearbody w1. unfold set_action. no_flock_step; done.
Qed.
End Ordinary.

(** *** Locks and the creation of maps *)

Lemma split_left {A} (u rest h1 h2 : list A) e : u ++ rest = h1 ++ e :: h2 -> e ∉ u ->
  exists h1', rest = h1' ++ e :: h2.
Proof using Type.
  intros Heq He. apply app_eq_inv in Heq as [(k & -> & Hk)|(k & -> & Hk)]; [|by exists k].
  destruct k as [|x k]; cbn in Hk; simplify_eq; [by exists []|]. set_solver.
Qed.

Lemma split_right {A} (evs l h1 h2 : list A) e : evs ++ l = h1 ++ e :: h2 -> e ∉ l ->
  exists h2', h2 = h2' ++ l /\ evs = h1 ++ e :: h2'.
Proof using Type.
  intros Heq He. apply app_eq_inv in Heq as [(k & -> & Hk)|(k & -> & ->)].
  - destruct k as [|x k]; cbn in Hk; simplify_eq; [set_solver|]. by exists k.
  - set_solver.
Qed.

Lemma adds_event (P : event -> Prop) w w' h1 h2 e :
  adds P w w' -> trace w' = h1 ++ e :: h2 ++ trace w -> P e.
Proof using Type.
  intros (evs & HT & HF) Heq. rewrite HT in Heq.
  assert (evs = h1 ++ e :: h2) as ->.
  { apply (app_inv_tail (trace w)). by rewrite Heq, <-app_assoc. }
  apply Forall_app in HF as [_ HF]. by apply Forall_cons in HF as [? _].
Qed.

(** Between locking and unlocking all paths are locked. *)
Lemma locked_creation w w1 w4 w' (paths : list ptr) :
  adds (fun e => ~ is_create e) w w1 -> (forall p, p ∈ paths -> held E p (trace w1) = true) ->
  adds no_flock w1 w4 -> adds (fun e => ~ is_create e) w4 w' ->
  forall h1 h2 e, trace w' = h1 ++ e :: h2 ++ trace w -> is_create e ->
    forall p, p ∈ paths -> held E p (h2 ++ trace w) = true.
Proof using Type.
  intros (l & Tl & Fl) Hheld (evs & Te & Fe) (u & Tu & Fu) h1 h2 e Heq He p Hp.
  rewrite Tu, Te, Tl in Heq.
  assert (u ++ evs ++ l = h1 ++ e :: h2) as Hsplit.
  { apply (app_inv_tail (trace w)). by rewrite <-!app_assoc, Heq. }
  apply split_left in Hsplit as [h1' Hsplit]; [|rewrite Forall_forall in Fu; intros Hin; by apply (Fu e)].
  apply split_right in Hsplit as (h2' & -> & ->); [|rewrite Forall_forall in Fl; intros Hin; by apply (Fl e)].
  rewrite <-app_assoc, <-Tl. apply Forall_app in Fe as [_ Fe]. apply Forall_cons in Fe as [_ Fe].
  rewrite <-(Hheld p Hp). by apply held_app.
Qed.

Lemma quiet_action w w' : unlocked ordinary w w' -> (forall p, held E p (trace w) = false) ->
  (forall p, held E p (trace w') = false) /\
  forall h1 h2 e, trace w' = h1 ++ e :: h2 ++ trace w -> is_create e -> False.
Proof using Type.
  intros [HA _] H0. split.
  - intros p. rewrite (held_adds E p w); [done|]. eapply adds_weaken; [|exact HA]. by intros [].
  - intros h1 h2 e Heq He. pose proof (adds_event _ _ _ _ _ _ HA Heq) as Ho. destruct e; try done. by destruct op.
Qed.

Lemma create_action_locks m params (d : bool) w r w' : action (wm w m) = ACT_CREATE ->
  perform_action E m params d w = (r, w') ->
  (forall p, held E p (trace w) = false) ->
  (forall p, held E p (trace w') = false) /\ adds (fun _ => True) w w' /\
  forall h1 h2 e, trace w' = h1 ++ e :: h2 ++ trace w -> is_create e ->
    forall p, p ∈ all_paths (wm w m) -> held E p (h2 ++ trace w) = true.
Proof using Type.
  intros Ha Hp H0. unfold perform_action in Hp. rewrite Ha in Hp. unfold lock_multipath in Hp.
  pose proof (lock_paths_spec (all_paths (wm w m)) [] w) as Hl.
  destruct (lock_paths E (all_paths (wm w m)) [] w) as [[ok l] w1].
  destruct Hl as (A1 & M1 & new & -> & Hok & Hh). cbn [app] in *.
  destruct ok; cycle 1.
  - simplify_eq. destruct (unlock_paths_spec new w1) as (A2 & M2 & Hu). split_and!.
    + intros p. rewrite Hu, Hh, H0. cbn. apply andb_negb_r.
    + eapply adds_weaken; [|by eapply adds_trans; [exact A1|exact A2]]. done.
    + intros h1 h2 e Heq He. by apply (adds_event _ _ _ _ _ _ (adds_trans _ _ _ _ A1 A2) Heq) in He.
  - rewrite Hok in * by done.
    match goal with H : context [dm_addmap_create E m params ?w2] |- _ =>
      destruct (dm_addmap_create E m params w2) as [ok w4] eqn:Hc;
      assert (unlocked no_flock w1 w2) as H12 end.
    { match goal with |- unlocked _ _ (if ?b then _ else _) => destruct b end;
        [apply unlocked_upd_map; [done|]|]; (apply max_sectors_flock; [by intros []|apply unlocked_refl]). }
    apply (dm_addmap_create_flock no_flock) with (m := m) (params := params) in H12; [|by intros []|done].
    rewrite Hc in H12. cbn [snd] in H12, Hp. simplify_eq. destruct H12 as [A4 P4].
    assert (all_paths (wm w4 m) = all_paths (wm w m)) as Hpaths.
    { unfold all_paths. rewrite P4. unfold wm. by rewrite M1. }
    rewrite Hpaths. destruct (unlock_paths_spec (all_paths (wm w m)) w4) as (A5 & M5 & Hu). split_and!.
    + intros p. rewrite Hu, (held_adds E p w1), Hh, H0 by done. cbn. apply andb_negb_r.
    + eapply adds_trans; [eapply adds_weaken; [|exact A1]; done|].
      eapply adds_trans; [eapply adds_weaken; [|exact A4]; done|eapply adds_weaken; [|exact A5]; done].
    + eapply locked_creation; [exact A1| |exact A4|exact A5].
      intros p Hin. rewrite Hh, H0. by rewrite bool_decide_eq_true_2.
Qed.

Lemma other_action_unlocked m params d w r w' : action (wm w m) <> ACT_CREATE ->
  perform_action E m params d w = (r, w') -> unlocked ordinary w w'.
Proof using Type.
  intros Ha Hp. unfold perform_action in Hp.
  destruct (action (wm w m)); simplify_eq; try apply unlocked_refl.
  - destruct (reload_kernel_map E m params false w) as [ok w1] eqn:Hr; simplify_eq.
    change w' with (snd (ok, w')). rewrite <-Hr. apply reload_kernel_map_flock; [done|apply unlocked_refl].
  - apply reinstate_paths_flock; [done|]. apply unlocked_emit; [done|apply unlocked_refl].
  - unfold rename_kernel_map in Hp. simplify_eq. apply unlocked_emit; [done|apply unlocked_refl].
  - destruct (reload_kernel_map E m params true w) as [ok w1] eqn:Hr; simplify_eq.
    change w' with (snd (ok, w')). rewrite <-Hr. apply reload_kernel_map_flock; [done|apply unlocked_refl].
  - unfold rename_kernel_map in Hp. destruct (e_rename E (trace w)); simplify_eq.
    + destruct (reload_kernel_map E m params false _) as [ok w1] eqn:Hr in Hp; simplify_eq.
      change w' with (snd (ok, w')). rewrite <-Hr.
      apply reload_kernel_map_flock; [done|]. apply unlocked_emit; [done|apply unlocked_refl].
    + apply unlocked_emit; [done|apply unlocked_refl].
Qed.

Lemma perform_action_locks m params d w r w' : perform_action E m params d w = (r, w') ->
  (forall p, held E p (trace w) = false) ->
  (forall p, held E p (trace w') = false) /\ adds (fun _ => True) w w' /\
  forall h1 h2 e, trace w' = h1 ++ e :: h2 ++ trace w -> is_create e ->
    forall p, p ∈ all_paths (wm w m) -> held E p (h2 ++ trace w) = true.
Proof using Type.
  intros Hp H0. destruct (decide (action (wm w m) = ACT_CREATE)) as [Ha|Ha].
  - by eapply create_action_locks.
  - destruct (quiet_action w w') as [H1 H2]; [by eapply other_action_unlocked|done|].
    split_and!; [done| |intros h1 h2 e Heq He; by destruct (H2 h1 h2 e Heq He)].
    destruct (other_action_unlocked m params d w r w' Ha Hp) as [HA _]. by eapply adds_weaken.
Qed.

(** Steps that only do ordinary things before and after. *)
Lemma locking_frame w w1 w2 w' m :
  unlocked ordinary w w1 -> unlocked ordinary w2 w' -> 
  (exists evs, trace w2 = evs ++ trace w1) ->
  (forall h1 h2 e, trace w2 = h1 ++ e :: h2 ++ trace w1 -> is_create e ->
    forall p, p ∈ all_paths (wm w1 m) -> held E p (h2 ++ trace w1) = true) ->
  forall h1 h2 e, trace w' = h1 ++ e :: h2 ++ trace w -> is_create e ->
    forall p, p ∈ all_paths (wm w m) -> held E p (h2 ++ trace w) = true.
Proof using Type.
  intros [(a & Ta & Fa) Pa] [(b & Tb & Fb) _] (c & Tc) Hmid h1 h2 e Heq He p Hp.
  assert (forall x, ordinary x -> ~ is_create x) as Hord by (intros [] Hx Hx'; try done; by destruct op).
  rewrite Tb, Tc, Ta in Heq.
  assert (b ++ c ++ a = h1 ++ e :: h2) as Hsplit.
  { apply (app_inv_tail (trace w)). by rewrite <-!app_assoc, Heq. }
  apply split_left in Hsplit as [h1' Hsplit];
    [|rewrite Forall_forall in Fb; intros Hin; by apply (Hord e (Fb e Hin))].
  apply split_right in Hsplit as (h2' & -> & ->);
    [|rewrite Forall_forall in Fa; intros Hin; by apply (Hord e (Fa e Hin))].
  rewrite <-app_assoc, <-Ta. apply (Hmid h1' h2' e); [|done|].
  - by rewrite Tc, <-app_assoc.
  - unfold all_paths in *. by rewrite Pa.
Qed.
End Locks.


(** ** Lemmas: choosing the action *)

Lemma alias_match a b : (strlen a =? strlen b) && strneq (length b) a b = true <-> a = b.
Proof.
  unfold strlen, strneq. rewrite andb_true_iff, Z.eqb_eq, bool_decide_eq_true. split; [|by intros ->].
  intros [Hl Ht]. rewrite (firstn_all b) in Ht. rewrite <-Ht. rewrite firstn_all2; [done|lia].
Qed.

Lemma find_mp_by_alias_some mh v alias c : find_mp_by_alias mh v alias = Some c ->
  c ∈ v /\ m_alias (mh !!! c) = alias.
Proof.
  unfold find_mp_by_alias. case_match; [done|]. intros (l1 & l2 & -> & Hx & _)%find_some_spec.
  split; [set_solver|]. by apply alias_match in Hx.
Qed.

Lemma find_mp_by_alias_none mh v alias : alias <> [] -> find_mp_by_alias mh v alias = None ->
  forall c, c ∈ v -> m_alias (mh !!! c) <> alias.
Proof.
  unfold find_mp_by_alias. intros Hne. case_match eqn:He.
  { unfold strlen in He. apply Z.eqb_eq in He. by destruct alias. }
  rewrite find_none_spec, Forall_forall. intros H c Hc Heq. specialize (H c Hc). cbn in H.
  apply alias_match in Heq. congruence.
Qed.

(** The same WWID, as far as it is compared. *)
Definition same_wwid (a b : cstr) : Prop := strneq (Z.to_nat WWID_SIZE) a b = true.

Lemma find_mp_by_wwid_some mh v x c : find_mp_by_wwid mh v x = Some c -> c ∈ v /\ same_wwid (m_wwid (mh !!! c)) x.
Proof. intros (l1 & l2 & -> & Hx & _)%find_some_spec. split; [set_solver|done]. Qed.

Lemma find_mp_by_wwid_none mh v x : find_mp_by_wwid mh v x = None ->
  forall c, c ∈ v -> ~ same_wwid (m_wwid (mh !!! c)) x.
Proof.
  unfold find_mp_by_wwid. rewrite find_none_spec, Forall_forall. intros H c Hc. specialize (H c Hc).
  unfold same_wwid. cbn in H. congruence.
Qed.

(** *** Comparing groups *)

Lemma pathcmp_zero g cg : pathcmp g cg = 0 <-> forall p, p ∈ g_paths g -> p ∈ g_paths cg.
Proof.
  unfold pathcmp, count_if. induction (g_paths g) as [|p ps IH]; [cbn; set_solver|].
  rewrite filter_consb. pose proof (length_filter (fun p => existsb (Nat.eqb p) (g_paths cg)) ps) as Hl.
  destruct (existsb (Nat.eqb p) (g_paths cg)) eqn:He.
  - cbn [length]. rewrite !Nat2Z.inj_succ.
    replace (Z.succ (Z.of_nat (length ps)) - Z.succ (Z.of_nat (length (filter (fun p => existsb (Nat.eqb p) (g_paths cg)) ps))))
      with (Z.of_nat (length ps) - Z.of_nat (length (filter (fun p => existsb (Nat.eqb p) (g_paths cg)) ps))) by lia.
    rewrite IH. apply existsb_exists in He as (q & Hq & Heq%Nat.eqb_eq). subst q.
    apply list_elem_of_In in Hq. set_solver.
  - split; [cbn [length]; rewrite Nat2Z.inj_succ; lia|]. intros H. exfalso.
    assert (existsb (Nat.eqb p) (g_paths cg) = true); [|congruence].
    apply existsb_exists. exists p. split; [|by apply Nat.eqb_refl]. apply list_elem_of_In, H. by left.
Qed.

(** The group has a counterpart with the same identifier and all its paths. *)
Definition has_counterpart (cgs : list pathgroup) (g : pathgroup) : Prop :=
  exists cg, cg ∈ cgs /\ pg_id (compute_pgid g) = pg_id cg /\ forall p, p ∈ g_paths g -> p ∈ g_paths cg.

Lemma pgcmp_scan_spec g cgs r : 0 <= r ->
  0 <= pgcmp_scan g cgs r /\
  (pgcmp_scan g cgs r = 0 <->
   (r = 0 /\ cgs = []) \/ exists cg, cg ∈ cgs /\ pg_id g = pg_id cg /\ forall p, p ∈ g_paths g -> p ∈ g_paths cg).
Proof.
  revert r. induction cgs as [|cg cgs IH]; intros r Hr; cbn.
  { split; [done|]. set_solver. }
  destruct ((pg_id g =? pg_id cg) && (pathcmp g cg =? 0)) eqn:He.
  - split; [done|]. split; [|done]. intros _. right. exists cg.
    apply andb_true_iff in He as [H1%Z.eqb_eq H2%Z.eqb_eq]. pose proof (proj1 (pathcmp_zero g cg) H2) as H3.
    split_and!; [by left|done|done].
  - destruct (IH (r + 1)) as [H1 H2]; [lia|]. split; [done|]. rewrite H2. split.
    + intros [[? _]|(cg' & Hin & H)]; [lia|]. right. exists cg'. split; [by right|done].
    + intros [[_ ?]|(cg' & Hin & Hid & Hp)]; [done|]. right. exists cg'. split; [|done].
      apply elem_of_cons in Hin as [->|Hin]; [|done]. exfalso.
      pose proof (proj2 (pathcmp_zero g cg) Hp) as Hp0. rewrite Hid, Hp0, !Z.eqb_refl in He. done.
Qed.

Lemma pgcmp_loop_spec n : forall i m c w r w', pgcmp_loop n i m c w = (r, w') -> m <> c ->
  slots (pg (wm w c)) <> [] -> (i + n = length (slots (pg (wm w m))))%nat ->
  (r = 0 <-> forall j g, (i <= j)%nat -> slots (pg (wm w m)) !! j = Some g -> has_counterpart (slots (pg (wm w c))) g) /\
  trace w' = trace w /\ w_paths w' = w_paths w /\
  (exists gs, wm w' m = wm w m <| pg := gs |>) /\ forall k, k <> m -> wm w' k = wm w k.
Proof.
  induction n as [|n IH]; intros i m c w r w' Hl Hmc Hne Hlen; cbn [pgcmp_loop] in Hl.
  { simplify_eq. split_and!; try done; [|exists (pg (wm w' m)); by destruct (wm w' m)].
    split; [|done]. intros _ j g Hj Hg. apply lookup_lt_Some in Hg. lia. }
  set (f := fun mm : multipath => mm <| pg ::= option_map (alter compute_pgid i) |>) in *.
  set (w1 := upd_map m f w) in *.
  assert (slots (pg (wm w1 m)) = alter compute_pgid i (slots (pg (wm w m)))) as Hgs.
  { unfold w1. rewrite wm_upd_map_eq. unfold f. cbn. by destruct (pg (wm w m)). }
  assert (wm w1 c = wm w c) as Hc by (unfold w1; by rewrite wm_upd_map_ne).
  destruct (lookup_lt_is_Some_2 (slots (pg (wm w m))) i ltac:(lia)) as [g Hg].
  rewrite Hgs, list_lookup_alter_eq, Hg in Hl. cbn [fmap option_fmap option_map] in Hl. rewrite Hc in Hl.
  destruct (pgcmp_scan_spec (compute_pgid g) (slots (pg (wm w c))) 0) as [Hr0 Hscan]; [lia|].
  assert (pgcmp_scan (compute_pgid g) (slots (pg (wm w c))) 0 = 0 <-> has_counterpart (slots (pg (wm w c))) g) as Hmatch.
  { rewrite Hscan. unfold has_counterpart. naive_solver. }
  destruct (Z.eqb_spec (pgcmp_scan (compute_pgid g) (slots (pg (wm w c))) 0) 0) as [Hz|Hz].
  - destruct (IH (S i) m c w1 r w' Hl Hmc) as (H1 & H2 & H3 & (gs & H4) & H5);
      [by rewrite Hc|rewrite Hgs, length_alter; lia|]. split_and!; [|done|done| |].
    + rewrite H1, Hc, Hgs. split.
      * intros H j g' Hj Hg'. destruct (decide (j = i)) as [->|Hji].
        -- rewrite Hg in Hg'. simplify_eq. by apply Hmatch.
        -- apply (H j); [lia|]. by rewrite list_lookup_alter_ne.
      * intros H j g' Hj Hg'. rewrite list_lookup_alter_ne in Hg' by lia. apply (H j); [lia|done].
    + exists gs. rewrite H4. unfold w1. rewrite wm_upd_map_eq. done.
    + intros k Hk. rewrite H5 by done. unfold w1. by rewrite wm_upd_map_ne.
  - injection Hl as Hr1 Hw1. rewrite <-Hr1, <-Hw1. split_and!; [|done|done| |].
    + split; [done|]. intros H. exfalso. apply Hz, Hmatch, (H i g); done.
    + exists (pg (f (wm w m))). unfold w1. rewrite wm_upd_map_eq. done.
    + intros k Hk. unfold w1. by rewrite wm_upd_map_ne.
Qed.

Lemma set_action_action a m w : action (wm (set_action a m w) m) = a.
Proof. unfold set_action. by rewrite wm_upd_map_eq. Qed.

Lemma set_action_alias a m w : m_alias (wm (set_action a m w) m) = m_alias (wm w m).
Proof. unfold set_action. by rewrite wm_upd_map_eq. Qed.

Lemma select_reload_action_map E m c w :
  action (wm (select_reload_action E m c w) m) = ACT_RELOAD /\
  m_alias (wm (select_reload_action E m c w) m) = m_alias (wm w m).
Proof.
  unfold select_reload_action, set_action. case_match; rewrite ?wm_upd_map_eq; done.
Qed.

Lemma pgcmp_spec m c w r w' : pgcmp m c w = (r, w') -> m <> c ->
  length (slots (pg (wm w c))) = length (slots (pg (wm w m))) ->
  (r = 0 <-> forall g, g ∈ slots (pg (wm w m)) -> has_counterpart (slots (pg (wm w c))) g) /\
  trace w' = trace w /\ (exists gs, wm w' m = wm w m <| pg := gs |>) /\
  forall k, k <> m -> wm w' k = wm w k.
Proof.
  intros Hp Hmc Hlen. unfold pgcmp in Hp. destruct (decide (slots (pg (wm w c)) = [])) as [Hnil|Hne].
  - rewrite Hnil in Hlen. destruct (slots (pg (wm w m))) as [|g gs] eqn:Hgs; [|done]. cbn in Hp. simplify_eq.
    split_and!; [|done|exists (pg (wm w' m)); by destruct (wm w' m)|done]. set_solver.
  - destruct (pgcmp_loop_spec _ _ _ _ _ _ _ Hp Hmc Hne) as (H1 & H2 & H3 & H4 & H5); [done|].
    split_and!; [|done|done|done]. rewrite H1. split.
    + intros H g [j Hj]%list_elem_of_lookup. apply (H j); [lia|done].
    + intros H j g _ Hj. apply H. by eapply list_elem_of_lookup_2.
Qed.

(** What has to be the same in the existing map [c] for the map to be left alone. *)
Definition unchanged (E : env) (m c : ptr) (force : bool) (w : world) : Prop :=
  force = false /\ m_size (wm w c) = m_size (wm w m) /\ settings_differ E (wm w m) (wm w c) = false /\
  forall g, g ∈ slots (pg (wm w m)) -> has_counterpart (slots (pg (wm w c))) g.

Lemma settings_same_groups E mm cm : settings_differ E mm cm = false ->
  length (slots (pg cm)) = length (slots (pg mm)).
Proof. unfold settings_differ. intros [_ H]%orb_false_iff. apply negb_false_iff in H. by apply Nat.eqb_eq. Qed.

(** C32: the action chosen for a map is sound: a map is created only under a WWID
    no current map has, and under an alias no current map has unless the alias
    falls back to the WWID; a rename takes a free alias for an existing map;
    an existing map keeps its alias when the wanted one is taken; and the map
    is left alone, or only switched to another group, only if neither size nor
    settings changed and every group has a counterpart in the kernel's map. *)
Theorem select_action_sound E m curmp force w :
  m ∉ curmp -> m_alias (wm w m) <> [] ->
  let w' := select_action E m curmp force w in
  let same c := c ∈ curmp /\ same_wwid (m_wwid (wm w c)) (m_wwid (wm w m)) in
  let free a := forall c, c ∈ curmp -> m_alias (wm w c) <> a in
  match action (wm w' m) with
  | ACT_CREATE =>
      (forall c, c ∈ curmp -> ~ same_wwid (m_wwid (wm w c)) (m_wwid (wm w m))) /\
      (free (m_alias (wm w' m)) \/ m_alias (wm w' m) = m_wwid (wm w m))
  | ACT_RENAME | ACT_FORCERENAME =>
      free (m_alias (wm w' m)) /\ exists c, same c /\
        alias_old (wm w' m) = take (Z.to_nat (WWID_SIZE - 1)) (m_alias (wm w c))
  | ACT_IMPOSSIBLE => exists c, same c /\ m_alias (wm w' m) = m_alias (wm w c)
  | ACT_RELOAD | ACT_RESIZE => exists c, same c /\ m_alias (wm w' m) = m_alias (wm w c)
  | ACT_SWITCHPG => exists c, same c /\ m_alias (wm w' m) = m_alias (wm w c) /\ unchanged E m c force w
  | ACT_NOTHING => exists c, same c /\ m_alias (wm w' m) = m_alias (wm w c) /\ unchanged E m c force w /\
      nextpg (wm w c) = bestpg (wm w m)
  | _ => False
  end.
Proof.
  intros Hm Ha w' same free. subst w'. unfold select_action.
  destruct (find_mp_by_wwid (w_maps w) curmp (m_wwid (wm w m))) as [c|] eqn:Hc;
    destruct (find_mp_by_alias (w_maps w) curmp (m_alias (wm w m))) as [c'|] eqn:Hc'.
  - apply find_mp_by_wwid_some in Hc as [Hin Hw]. apply find_mp_by_alias_some in Hc' as [Hin' Ha'].
    assert (same c) as Hs by done. assert (m <> c) as Hmc by (intros ->; done).
    destruct (Nat.eqb_spec c c') as [<-|Hn]; cbn [negb]; cycle 1.
    { rewrite set_action_action, set_action_alias, wm_upd_map_eq. by exists c. }
    destruct force; [rewrite set_action_action, set_action_alias, wm_upd_map_eq; by exists c|].
    destruct (Z.eqb_spec (m_size (wm w c)) (m_size (wm w m))) as [Hsize|Hsize]; cbn [negb];
      [|rewrite set_action_action, set_action_alias, wm_upd_map_eq; by exists c].
    destruct (settings_differ E (wm w m) (wm w c)) eqn:Hset.
    { destruct (select_reload_action_map E m c w) as [-> ->]. by exists c. }
    destruct (pgcmp m c w) as [r w1] eqn:Hcmp.
    destruct (pgcmp_spec m c w r w1 Hcmp Hmc) as (Hr & Htr & (gs & Hw1) & Hother);
      [by eapply settings_same_groups|].
    assert (m_alias (wm w1 m) = m_alias (wm w c)) as Hal by (rewrite Hw1; done).
    destruct (Z.eqb_spec r 0) as [Hz|Hz]; cbn [negb]; cycle 1.
    { destruct (select_reload_action_map E m c w1) as [-> ->]. by exists c. }
    assert (unchanged E m c false w) as Hun.
    { split_and!; [done..|]. by apply Hr. }
    destruct (Z.eqb_spec (nextpg (wm w1 c)) (bestpg (wm w1 m))) as [Hn|Hn]; cbn [negb]; cycle 1.
    { rewrite set_action_action, set_action_alias. by exists c. }
    rewrite Hother, Hw1 in Hn by done. change (nextpg (wm w c) = bestpg (wm w m)) in Hn.
    match goal with |- context [bool_decide ?P] => destruct (bool_decide P) end;
      rewrite set_action_action, set_action_alias; by exists c.
  - apply find_mp_by_wwid_some in Hc as [Hin Hw]. pose proof (find_mp_by_alias_none _ _ _ Ha Hc') as Hfree.
    destruct force; rewrite ?wm_upd_map_eq; (split; [exact Hfree|by exists c]).
  - rewrite set_action_action, set_action_alias, wm_upd_map_eq.
    split; [by apply find_mp_by_wwid_none|by right].
  - rewrite set_action_action, set_action_alias.
    split; [by apply find_mp_by_wwid_none|left]. exact (find_mp_by_alias_none _ _ _ Ha Hc').
Qed.

(** ** Witnesses *)

(** Map 1 of [two_maps] before it is set up, with both paths. *)
Definition raw_map : world :=
  upd_map 1%nat (fun m => m <| m_paths := Some [0; 2]%nat |> <| m_size := 100 |>
    <| pgpolicyfn := Some fn_one_path_per_group |> <| features := Some (s "0") |>
    <| hwhandler := Some (s "0") |> <| selector := Some (s "service-time 0") |>) two_maps.


(** Map 1 of [two_maps], to be created, with path 2. *)
Definition new_map : world :=
  upd_map 1%nat (fun m => m <| action := ACT_CREATE |> <| m_wwid := s "w" |>
    <| pg := Some [alloc_pathgroup <| g_paths := [2%nat] |>] |>) two_maps.


Lemma select_action_sound_witness :
  action (wm (select_action calm 1%nat [0%nat] false new_map) 1%nat) = ACT_CREATE /\
  ~ same_wwid (m_wwid (wm new_map 0%nat)) (s "w").
Proof.
  pose proof (select_action_sound calm 1%nat [0%nat] false new_map ltac:(decide_closed) ltac:(done)) as H.
  assert (action (wm (select_action calm 1%nat [0%nat] false new_map) 1%nat) = ACT_CREATE) as Ha
    by (vm_compute; reflexivity).
  split; [exact Ha|]. cbv zeta in H. rewrite Ha in H. exact (proj1 H 0%nat ltac:(by left)).
Defined.
