(* ===== verification/Propsel.v ===== *)
(** * libmultipath/propsel.c: selecting the properties of maps and paths

    The layers of the configuration, from the most specific to the most generic:
    the multipath section of the map ([mpe]), the overrides, the matching entries
    of the hardware table ([hwe]) and the defaults.  What the functions ask of
    the system is a parameter.  The selectors together are [propsel_selectors],
    what [setup_map] of Configure takes from here. *)

From S2P Require Import Prelude CString Util Structs File Conf Blacklist Pgpolicies Options Dict Print Alias Prkey Uevent World Configure.

Definition TPGS_UNDEF : Z := -1.
Definition TPGS_NONE : Z := 0.
Definition TPGS_EXPLICIT : Z := 2.
Definition RETAIN_HWHANDLER_OFF : Z := YNU_NO.
Definition USER_FRIENDLY_NAMES_ON : Z := YNU_YES.
Definition DETECT_PRIO_ON : Z := YNU_YES.
Definition DETECT_CHECKER_ON : Z := YNU_YES.
Definition DEFAULT_HWHANDLER : cstr := s "0".
Definition DEFAULT_MAX_SECTORS_KB : Z := 0.
Definition DEFAULT_GHOST_DELAY : Z := NU_NO.
Definition DEFAULT_UNKNOWN_FIND_MULTIPATHS_TIMEOUT : Z := 1.
Definition IOTIMEOUT_SEC : Z := 60.
Definition DEF_TIMEOUT : Z := 30.
Definition PRIO_NAME_LEN : nat := 16.
Definition PRIO_ARGS_LEN : nat := 255.

Definition pgpolicies : list (option pgpolicyfn_t) :=
  [None; Some fn_one_path_per_group; Some fn_one_group; Some fn_group_by_serial; Some fn_group_by_prio;
   Some fn_group_by_node_name].

Definition VERSION_GE (v minv : Z * Z * Z) : bool :=
  let '(v0, v1, v2) := v in
  let '(m0, m1, m2) := minv in
  (m0 <? v0) || ((v0 =? m0) && (m1 <? v1)) || ((v0 =? m0) && (v1 =? m1) && (m2 <=? v2)).

(** ** The layers *)

(** A member that is set: a number that is not 0, a string that is not NULL. *)
Definition num_of (f : string) (b : block) : option Z := if num b f =? 0 then None else Some (num b f).
Definition str_of (f : string) (b : block) : option cstr := str b f.

Definition do_set {A} (var : block -> option A) (src : option block) : option A := src ≫= var.

Fixpoint do_set_from_vec {A} (var : block -> option A) (src : list block) : option A :=
  match src with
  | [] => None
  | p :: r => match var p with Some x => Some x | None => do_set_from_vec var r end
  end.

(** A missing vector is only logged. *)
Definition do_set_from_hwe {A} (var : block -> option A) (hwe : option (list block)) : option A :=
  hwe ≫= do_set_from_vec var.

(** The first layer that sets the property. *)
Fixpoint first_set {A} (l : list (option A)) : option A :=
  match l with
  | [] => None
  | Some x :: _ => Some x
  | None :: r => first_set r
  end.

(** ** Features that are options *)

Definition q_i_n_p : cstr := s "queue_if_no_path".
Definition r_a_h_h : cstr := s "retain_attached_hw_handler".

(** The features, [no_path_retry] and [retain_hwhandler] afterwards; [None] is
    the overflow in [remove_feature]. *)
Definition reconcile_features_with_options (feats : option cstr) (npr rh : Z) : option (option cstr * Z * Z) :=
  match feats with
  | None => Some (None, npr, rh)
  | Some fs =>
      '(feats, npr) ← (if has_strstr fs q_i_n_p then
                         let npr := if npr =? NO_PATH_RETRY_UNDEF then NO_PATH_RETRY_QUEUE else npr in
                         '(_, feats) ← remove_feature (Some fs) (Some q_i_n_p); Some (feats, npr)
                       else Some (Some fs, npr));
      if has_strstr (default [] feats) r_a_h_h then
        let rh := if rh =? RETAIN_HWHANDLER_UNDEF then RETAIN_HWHANDLER_ON else rh in
        '(_, feats) ← remove_feature feats (Some r_a_h_h); Some (feats, npr, rh)
      else Some (feats, npr, rh)
  end.

(** ** Reading sysfs *)

(** The length that was read and the value; [None] as content is an error. *)
Definition sysfs_attr_get_value (content : option cstr) (value_len : nat) : Z * cstr :=
  match content with
  | None => (-1, [])
  | Some c => if (value_len <=? length c)%nat then (0, take (value_len - 1) c)
              else let '(v, n) := strchop c in (Z.of_nat n, v)
  end.

Section Maps.
Variable conf : Conf.config.
Variable version : Z * Z * Z.                 (* conf->version: the dm-multipath target *)
Variable linux_version : Z.                   (* get_linux_version_code() *)
Variable h : pheap.
Variable tpgs : path -> Z.                    (* path_get_tpgs() *)
Variable dh_state : path -> option cstr.      (* the dh_state of the SCSI device, if it can be read *)
Variable prkeys_io : io.
Variable prkeys_text : cstr.
Variable mpe : option block.
Variable hwe : option (list block).

Definition mp_set_mpe {A} (var : block -> option A) : option A := do_set var mpe.
Definition mp_set_ovr {A} (var : block -> option A) : option A := do_set var (overrides conf).
Definition mp_set_hwe {A} (var : block -> option A) : option A := do_set_from_hwe var hwe.
Definition mp_set_conf {A} (var : block -> option A) : option A := do_set var (Some (opts conf)).

(** Most selectors visit all the layers, those of device properties not the
    multipath section. *)
Definition all_layers {A} (var : block -> option A) : option A :=
  first_set [mp_set_mpe var; mp_set_ovr var; mp_set_hwe var; mp_set_conf var].
Definition device_layers {A} (var : block -> option A) : option A :=
  first_set [mp_set_ovr var; mp_set_hwe var; mp_set_conf var].

(** ** Owner and mode *)

Definition do_attr_set (f : string) (shift : Z) (src : option block) : option Z :=
  b ← src; if Z.testbit (num b "attribute_flags") shift then Some (num b f) else None.

Definition set_attr (f : string) (shift : Z) (set : Z -> multipath -> multipath) (m : multipath) : multipath :=
  match first_set [do_attr_set f shift mpe; do_attr_set f shift (Some (opts conf))] with
  | Some v => set v (m <| m_attribute_flags := Z.lor (m_attribute_flags m) (Z.shiftl 1 shift) |>)
  | None => m <| m_attribute_flags := Z.land (m_attribute_flags m) (Z.lnot (Z.shiftl 1 shift)) |>
  end.

Definition select_mode : multipath -> multipath := set_attr "mode" ATTR_MODE (fun v m => m <| m_mode := v |>).
Definition select_uid : multipath -> multipath := set_attr "uid" ATTR_UID (fun v m => m <| m_uid := v |>).
Definition select_gid : multipath -> multipath := set_attr "gid" ATTR_GID (fun v m => m <| m_gid := v |>).

(** ** The selectors *)

Definition select_rr_weight (m : multipath) : multipath :=
  m <| rr_weight := default DEFAULT_RR_WEIGHT (all_layers (num_of "rr_weight")) |>.

Definition select_pgfailback (m : multipath) : multipath :=
  m <| pgfailback := default DEFAULT_FAILBACK (all_layers (num_of "pgfailback")) |>.

(** Reading beyond [pgpolicies] has no meaning, [None]. *)
Definition select_pgpolicy (m : multipath) : multipath :=
  let id := if 0 <? num (opts conf) "pgpolicy_flag" then num (opts conf) "pgpolicy_flag"
            else default DEFAULT_PGPOLICY (all_layers (num_of "pgpolicy")) in
  m <| pgpolicy := id |> <| pgpolicyfn := default None (pgpolicies !! Z.to_nat id) |>.

Definition select_selector (m : multipath) : multipath :=
  m <| selector := Some (default DEFAULT_SELECTOR (all_layers (str_of "selector"))) |>.

Definition select_alias_prefix (m : multipath) : multipath :=
  m <| alias_prefix := Some (default DEFAULT_ALIAS_PREFIX (device_layers (str_of "alias_prefix"))) |>.

Definition want_user_friendly_names : bool :=
  default DEFAULT_USER_FRIENDLY_NAMES (all_layers (num_of "user_friendly_names")) =? USER_FRIENDLY_NAMES_ON.

(** The map with its alias and the bindings file. *)
Definition select_alias (bindings_io : io) (bindings : cstr) (m : multipath) : multipath * cstr :=
  let set alias m := m <| m_alias := default (m_wwid m) alias |> in
  match mpe ≫= str_of "alias" with
  | Some alias => (set (Some alias) m, bindings)
  | None =>
      if negb want_user_friendly_names then (set None m, bindings)
      else
        let m := select_alias_prefix m in
        let prefix := default [] (alias_prefix m) in
        let ro := negb (num (opts conf) "bindings_read_only" =? 0) in
        let '(alias, bindings, m) :=
          if 0 <? strlen (alias_old m) then
            let '(a, b) := use_existing_alias bindings_io bindings (m_wwid m) (alias_old m) prefix ro in
            (a, b, m <| alias_old := [] |>)
          else (None, bindings, m) in
        match alias with
        | Some a => (set (Some a) m, bindings)
        | None =>
            let '(a, bindings) := get_user_friendly_alias bindings_io bindings (m_wwid m) prefix ro in
            (set a m, bindings)
        end
  end.

Definition selected_features : cstr := default DEFAULT_FEATURES (all_layers (str_of "features")).

Definition select_features (m : multipath) : option multipath :=
  '(feats, npr, rh) ← reconcile_features_with_options (Some selected_features) (no_path_retry m) (retain_hwhandler m);
  Some (m <| features := feats |> <| no_path_retry := npr |> <| retain_hwhandler := rh |>).

(** ** The hardware handler *)

Definition get_dh_state (p : path) (value_len : nat) : Z * cstr :=
  if udev p then sysfs_attr_get_value (dh_state p) value_len else (-1, []).

Definition alua_name : cstr := s "1 alua".

(** All paths may support TPGS, and one does. *)
Definition tpgs_supported (ps : list ptr) : bool :=
  forallb (fun p => negb (tpgs (h !!! p) =? TPGS_NONE)) ps &&
  existsb (fun p => negb (tpgs (h !!! p) =? TPGS_NONE) && negb (tpgs (h !!! p) =? TPGS_UNDEF)) ps.

(** The handler the kernel has attached; the buffer has 12 bytes, 2 of them
    used by the count. *)
Fixpoint retained (ps : list ptr) : option cstr :=
  match ps with
  | [] => None
  | p :: r =>
      let '(n, st) := get_dh_state (h !!! p) (12 - 2) in
      if (0 <? n) && negb (streq st (s "detached")) then Some (s "1 " ++ st) else retained r
  end.

Definition select_hwhandler (m : multipath) : multipath :=
  let all_tpgs := tpgs_supported (slots (m_paths m)) in
  let kept := if retain_hwhandler m =? RETAIN_HWHANDLER_OFF then None else retained (slots (m_paths m)) in
  let found := first_set [kept; mp_set_hwe (str_of "hwhandler"); mp_set_conf (str_of "hwhandler")] in
  let handler := default DEFAULT_HWHANDLER found in
  let is_default := bool_decide (found = None) in
  m <| hwhandler := Some (if all_tpgs && streq handler DEFAULT_HWHANDLER && is_default then alua_name
                          else if negb all_tpgs && streq handler alua_name then DEFAULT_HWHANDLER
                          else handler) |>.

(** ** The other properties *)

Definition select_no_path_retry (m : multipath) : multipath :=
  if disable_queueing m then m <| no_path_retry := NO_PATH_RETRY_FAIL |>
  else match all_layers (num_of "no_path_retry") with
       | Some v => m <| no_path_retry := v |>
       | None => m
       end.

Definition select_minio_rq (m : multipath) : multipath :=
  m <| minio := default DEFAULT_MINIO_RQ (all_layers (num_of "minio_rq")) |>.

Definition select_minio_bio (m : multipath) : multipath :=
  m <| minio := default DEFAULT_MINIO (all_layers (num_of "minio")) |>.

Definition select_minio (m : multipath) : multipath :=
  if VERSION_GE version (1, 1, 0) then select_minio_rq m else select_minio_bio m.

Definition select_fast_io_fail (m : multipath) : multipath :=
  m <| m_fast_io_fail := default DEFAULT_FAST_IO_FAIL (device_layers (num_of "fast_io_fail")) |>.

Definition select_dev_loss (m : multipath) : multipath :=
  m <| m_dev_loss := default DEV_LOSS_TMO_UNSET (device_layers (num_of "dev_loss")) |>.

Definition select_flush_on_last_del (m : multipath) : multipath :=
  m <| flush_on_last_del := default DEFAULT_FLUSH (all_layers (num_of "flush_on_last_del")) |>.

Definition prkey_source_of (v : Z) : prkey_sources :=
  if v =? Structs.PRKEY_SOURCE_NONE then PRKEY_SOURCE_NONE
  else if v =? Structs.PRKEY_SOURCE_FILE then PRKEY_SOURCE_FILE else PRKEY_SOURCE_CONF.

Definition prkey_number (v : prkey_sources) : Z :=
  match v with
  | PRKEY_SOURCE_NONE => Structs.PRKEY_SOURCE_NONE
  | PRKEY_SOURCE_CONF => Structs.PRKEY_SOURCE_CONF
  | PRKEY_SOURCE_FILE => Structs.PRKEY_SOURCE_FILE
  end.

Definition reservation_of (b : block) : reservation := {|
  prkey_source := prkey_source_of (num b "prkey_source");
  reservation_key := num b "reservation_key"; r_sa_flags := num b "sa_flags" |}.

(** [select_reservation_key] of Prkey on the members of the map. *)
Definition select_map_key (m : multipath) : option multipath :=
  r ← select_reservation_key prkeys_io prkeys_text (m_wwid m) (reservation_of <$> mpe) (reservation_of (opts conf));
  Some (m <| m_prkey_source := prkey_number (prkey_source r) |> <| m_reservation_key := reservation_key r |>
          <| m_sa_flags := r_sa_flags r |>).

Definition select_retain_hwhandler (m : multipath) : multipath :=
  m <| retain_hwhandler :=
    if negb (VERSION_GE version (1, 5, 0)) then RETAIN_HWHANDLER_OFF
    else if KERNEL_VERSION 4 3 0 <=? linux_version then RETAIN_HWHANDLER_ON
    else default DEFAULT_RETAIN_HWHANDLER (device_layers (num_of "retain_hwhandler")) |>.

Definition select_deferred_remove (m : multipath) : multipath :=
  if deferred_remove m =? DEFERRED_REMOVE_IN_PROGRESS then m
  else m <| deferred_remove := default DEFAULT_DEFERRED_REMOVE (all_layers (num_of "deferred_remove")) |>.

(** ** Marginal paths *)

Definition san_path_check_options_set (m : multipath) : bool :=
  (0 <? m_san_path_err_threshold m) || (0 <? m_san_path_err_forget_rate m) || (0 <? m_san_path_err_recovery_time m).

Definition use_delay_watch_checks : Z := default NU_UNDEF (all_layers (num_of "delay_watch_checks")).
Definition use_delay_wait_checks : Z := default NU_UNDEF (all_layers (num_of "delay_wait_checks")).

(** The product is computed unsigned and stored in an int. *)
Definition select_delay_checks (m : multipath) : multipath :=
  let watch_checks := use_delay_watch_checks in
  let wait_checks := use_delay_wait_checks in
  if (watch_checks <=? 0) && (wait_checks <=? 0) then m
  else if san_path_check_options_set m then m
  else
    let m := m <| m_san_path_err_threshold := 1 |> in
    let m := if 0 <? watch_checks then m <| m_san_path_err_forget_rate := watch_checks |> else m in
    if 0 <? wait_checks
    then m <| m_san_path_err_recovery_time := s32 (u32 (wait_checks * num (opts conf) "max_checkint")) |> else m.

Definition err_checks (f : string) (m : multipath) : Z :=
  if marginal_path_check_enabled m then NU_NO else default DEFAULT_ERR_CHECKS (all_layers (num_of f)).

Definition select_san_path_err_threshold (m : multipath) : multipath :=
  m <| m_san_path_err_threshold := err_checks "san_path_err_threshold" m |>.
Definition select_san_path_err_forget_rate (m : multipath) : multipath :=
  m <| m_san_path_err_forget_rate := err_checks "san_path_err_forget_rate" m |>.
Definition select_san_path_err_recovery_time (m : multipath) : multipath :=
  m <| m_san_path_err_recovery_time := err_checks "san_path_err_recovery_time" m |>.

Definition select_marginal_path_err_sample_time (m : multipath) : multipath :=
  let v := default DEFAULT_ERR_CHECKS (all_layers (num_of "marginal_path_err_sample_time")) in
  m <| marginal_path_err_sample_time := if (0 <? v) && (v <? 2 * IOTIMEOUT_SEC) then 2 * IOTIMEOUT_SEC else v |>.

Definition select_marginal_path_err_rate_threshold (m : multipath) : multipath :=
  m <| marginal_path_err_rate_threshold :=
    default DEFAULT_ERR_CHECKS (all_layers (num_of "marginal_path_err_rate_threshold")) |>.
Definition select_marginal_path_err_recheck_gap_time (m : multipath) : multipath :=
  m <| marginal_path_err_recheck_gap_time :=
    default DEFAULT_ERR_CHECKS (all_layers (num_of "marginal_path_err_recheck_gap_time")) |>.
Definition select_marginal_path_double_failed_time (m : multipath) : multipath :=
  m <| marginal_path_double_failed_time :=
    default DEFAULT_ERR_CHECKS (all_layers (num_of "marginal_path_double_failed_time")) |>.

Definition select_skip_kpartx (m : multipath) : multipath :=
  m <| skip_kpartx := default DEFAULT_SKIP_KPARTX (all_layers (num_of "skip_kpartx")) |>.
Definition select_max_sectors_kb (m : multipath) : multipath :=
  m <| max_sectors_kb := default DEFAULT_MAX_SECTORS_KB (all_layers (num_of "max_sectors_kb")) |>.
Definition select_ghost_delay (m : multipath) : multipath :=
  m <| ghost_delay := default DEFAULT_GHOST_DELAY (all_layers (num_of "ghost_delay")) |>.
Definition select_all_tg_pt (m : multipath) : multipath :=
  m <| m_all_tg_pt := default DEFAULT_ALL_TG_PT (device_layers (num_of "all_tg_pt")) |>.

(** ** The selectors of [setup_map], in its order *)

Definition select_rest (m : multipath) : multipath :=
  let m := select_gid (select_uid (select_mode (select_minio (select_rr_weight m)))) in
  let m := select_dev_loss (select_fast_io_fail m) in
  let m := select_deferred_remove (default m (select_map_key m)) in
  let m := select_marginal_path_err_rate_threshold (select_marginal_path_err_sample_time m) in
  let m := select_marginal_path_double_failed_time (select_marginal_path_err_recheck_gap_time m) in
  let m := select_san_path_err_forget_rate (select_san_path_err_threshold m) in
  let m := select_delay_checks (select_san_path_err_recovery_time m) in
  select_flush_on_last_del (select_ghost_delay (select_max_sectors_kb (select_skip_kpartx m))).

Definition propsel_selectors : selectors := {|
  sel_failback_policy := fun m => select_pgpolicy (select_pgfailback m);
  sel_selector := select_selector;
  sel_retry_hwhandler := fun m => select_retain_hwhandler (select_no_path_retry m);
  sel_features := fun m => default m (select_features m);
  sel_hwhandler := select_hwhandler;
  sel_rest := select_rest |}.

End Maps.

(** ** Properties of paths *)

Section Paths.
Variable conf : Conf.config.
Variable hwe : option (list block).

Definition pp_set_ovr {A} (var : block -> option A) : option A := do_set var (overrides conf).
Definition pp_set_hwe {A} (var : block -> option A) : option A := do_set_from_hwe var hwe.
Definition pp_set_conf {A} (var : block -> option A) : option A := do_set var (Some (opts conf)).

Definition select_detect_prio : Z :=
  default DEFAULT_DETECT_PRIO
    (first_set [pp_set_ovr (num_of "detect_prio"); pp_set_hwe (num_of "detect_prio"); pp_set_conf (num_of "detect_prio")]).

Definition select_detect_checker : Z :=
  default DEFAULT_DETECT_CHECKER
    (first_set [pp_set_ovr (num_of "detect_checker"); pp_set_hwe (num_of "detect_checker");
                pp_set_conf (num_of "detect_checker")]).

(** Negating the least int overflows; it stays as it is. *)
Definition select_find_multipaths_timeout : Z :=
  let v := default DEFAULT_FIND_MULTIPATHS_TIMEOUT (pp_set_conf (num_of "find_multipaths_timeout")) in
  if v <? 0 then (if bool_decide (hwe = None) then DEFAULT_UNKNOWN_FIND_MULTIPATHS_TIMEOUT else s32 (- v)) else v.

Definition VPD_VP_ARRAY_SIZE : Z := 2.

Definition select_vpd_vendor_id : Z :=
  let v := default 0 (pp_set_hwe (num_of "vpd_vendor_id")) in
  if (v <? 0) || (VPD_VP_ARRAY_SIZE <=? v) then 0 else v.

(** Each source is asked for a callout before the udev attribute. *)
Definition select_getuid (p : path) : path :=
  let uid v p := p <| uid_attribute := Some v |> in
  let callout v p := p <| getuid := Some v |> in
  let p := p <| uid_attribute := get_uid_attribute_by_attrs (uid_attrs conf) (dev p) |> in
  match uid_attribute p with
  | Some _ => p
  | None =>
      let found := first_set
        [callout <$> pp_set_ovr (str_of "getuid"); uid <$> pp_set_ovr (str_of "uid_attribute");
         callout <$> pp_set_hwe (str_of "getuid"); uid <$> pp_set_hwe (str_of "uid_attribute");
         callout <$> pp_set_conf (str_of "getuid"); uid <$> pp_set_conf (str_of "uid_attribute")] in
      default (uid DEFAULT_UID_ATTRIBUTE) found p
  end.

(** ** Checkers and prioritizers *)

Variable tpgs : path -> Z.                               (* path_get_tpgs() *)
Variable vpd_c9 : path -> option cstr.                   (* get_vpd_sgio(): what it read *)
Variable sysfs_timeout : path -> option Z.               (* sysfs_get_timeout() *)
Variable nvme_ana : path -> Z.                           (* nvme_id_ctrl_ana() *)
Variable access_state : path -> Z.                       (* sysfs_get_asymmetric_access_state() *)
Variable loadable : cstr -> bool.                        (* can the prioritizer be loaded *)

Definition RDAC : cstr := s "rdac".
Definition TUR : cstr := s "tur".
Definition PRIO_ALUA : cstr := s "alua".
Definition PRIO_SYSFS : cstr := s "sysfs".
Definition PRIO_ANA : cstr := s "ana".

Definition check_rdac (p : path) : bool :=
  if negb (bus p =? SYSFS_BUS_SCSI) then false
  else if match pp_set_hwe (str_of "checker_name") with Some n => negb (streq n RDAC) | None => false end then false
  else match vpd_c9 p with
       | Some ((_ :: _) as buff) => streq (take 4 (drop 4 buff)) (s "vac1")
       | _ => false
       end.

(** The name that is looked up and the timeout. *)
Definition select_checker (detect : Z) (p : path) : cstr * Z :=
  let detected :=
    if detect =? DETECT_CHECKER_ON then
      (if check_rdac p then Some RDAC
       else if negb (tpgs p =? TPGS_NONE) && negb (tpgs p =? TPGS_UNDEF) then Some TUR else None)
    else None in
  let ckr_name := default DEFAULT_CHECKER
    (first_set [detected; pp_set_ovr (str_of "checker_name"); pp_set_hwe (str_of "checker_name");
                pp_set_conf (str_of "checker_name")]) in
  let timeout := num (opts conf) "checker_timeout" in
  (ckr_name,
   if negb (timeout =? 0) then u32 timeout
   else match sysfs_timeout p with Some t => if 0 <? t then t else DEF_TIMEOUT | None => DEF_TIMEOUT end).

(** A prioritizer: [None] is a NULL [getprio].  [args] keeps what it was when
    none are given. *)
Record prio := { p_name : cstr; p_args : cstr; p_getprio : option cstr }.

Definition prio_get (dst : prio) (name args : option cstr) : prio :=
  match name with
  | Some ((_ :: _) as n) =>
      if loadable n
      then {| p_name := take (PRIO_NAME_LEN - 1) n;
              p_args := match args with Some a => take (PRIO_ARGS_LEN - 1) a | None => p_args dst end;
              p_getprio := Some n |}
      else {| p_name := p_name dst; p_args := p_args dst; p_getprio := None |}
  | _ => {| p_name := p_name dst; p_args := p_args dst; p_getprio := None |}
  end.

Definition prio_is_selected (pr : prio) : bool := bool_decide (is_Some (p_getprio pr)).

Definition detect_prio (p : path) (pr : prio) : prio :=
  let get n := prio_get pr (Some n) (Some DEFAULT_PRIO_ARGS) in
  if bus p =? SYSFS_BUS_NVME then (if nvme_ana p =? 0 then pr else get PRIO_ANA)
  else if bus p =? SYSFS_BUS_SCSI then
    let t := tpgs p in
    if t =? TPGS_NONE then pr
    else if ((t =? TPGS_EXPLICIT) || negb (check_rdac p)) && (0 <=? access_state p) then get PRIO_SYSFS
    else get PRIO_ALUA
  else pr.

Definition set_prio (src : option block) (pr : prio) : option prio :=
  b ← src; n ← str b "prio_name"; Some (prio_get pr (Some n) (str b "prio_args")).

(** The name and the arguments may come from different entries. *)
Definition set_prio_from_vec (src : list block) (pr : prio) : option prio :=
  n ← do_set_from_vec (str_of "prio_name") src;
  Some (prio_get pr (Some n) (do_set_from_vec (str_of "prio_args") src)).

Definition select_prio (detect : Z) (p : path) (pr : prio) : prio :=
  let detected := if detect =? DETECT_PRIO_ON then detect_prio p pr else pr in
  let pr :=
    if (detect =? DETECT_PRIO_ON) && prio_is_selected detected then detected
    else
      default (prio_get detected (Some DEFAULT_PRIO) (Some DEFAULT_PRIO_ARGS))
        (first_set [set_prio (find_mpe (default [] (mptable conf)) (wwid p)) detected;
                    set_prio (overrides conf) detected;
                    set_prio_from_vec (default [] hwe) detected;
                    set_prio (Some (opts conf)) detected]) in
  if strneq PRIO_NAME_LEN (p_name pr) PRIO_ALUA && (tpgs p =? TPGS_NONE)
  then prio_get pr (Some DEFAULT_PRIO) (Some DEFAULT_PRIO_ARGS) else pr.

End Paths.

(** ** One layer in the place of all

    The members that are not simply taken from the first layer that sets them. *)

Definition attr_members : list (string * Z) := [("mode"%string, ATTR_MODE); ("uid"%string, ATTR_UID); ("gid"%string, ATTR_GID)].
Definition prkey_members : list string := ["prkey_source"; "reservation_key"; "sa_flags"]%string.

Definition special_member (f : string) : bool :=
  existsb (fun a => (fst a =? f)%string) attr_members || existsb (String.eqb f) prkey_members ||
  (f =? "attribute_flags")%string.

(** The members a section of the configuration can have. *)
Definition members_of (nums strs : list string) (b : block) : Prop :=
  (forall f, f ∉ nums -> num b f = 0) /\ (forall f, f ∉ strs -> str b f = None).

Section Flat.
Variable conf : Conf.config.
Variable mpe : option block.
Variable hwe : option (list block).

Definition flat_num (f : string) : Z :=
  if (f =? "attribute_flags")%string
  then Z.lor (default 0 (flip num f <$> mpe)) (num (opts conf) f)
  else match List.find (fun a => (fst a =? f)%string) attr_members with
  | Some (_, shift) => default 0 (first_set [do_attr_set f shift mpe; do_attr_set f shift (Some (opts conf))])
  | None =>
      if existsb (String.eqb f) prkey_members
      then num (if bool_decide (mpe ≫= num_of "prkey_source" = None) then opts conf else default zero_block mpe) f
      else default 0 (all_layers conf mpe hwe (num_of f))
  end.

(** The defaults with all that the layers above them set. *)
Definition flatten : Conf.config :=
  conf <| opts := {| num := flat_num; str := fun f => all_layers conf mpe hwe (str_of f) |} |> <| overrides := None |>.

Record layered : Prop := {
  layer_mpe : forall b, mpe = Some b -> members_of mpentry_nums mpentry_strs b;
  layer_ovr : forall b, overrides conf = Some b -> members_of hwentry_nums hwentry_strs b /\ str b "hwhandler" = None;
  layer_hwe : Forall (members_of hwentry_nums hwentry_strs) (default [] hwe)
}.

Hypothesis HL : layered.

Lemma all_layers_flat {A} (var : block -> option A) :
  all_layers flatten None (Some []) var = var (opts flatten).
Proof using Type. unfold all_layers. cbn. by destruct (var _). Qed.

Lemma device_layers_flat {A} (var : block -> option A) :
  device_layers flatten (Some []) var = var (opts flatten).
Proof using Type. unfold device_layers. cbn. by destruct (var _). Qed.

Lemma first_set_cons {A} (x : option A) l : first_set (x :: l) = match x with Some y => Some y | None => first_set l end.
Proof using Type. done. Qed.

Lemma num_of_nonzero f b v : num_of f b = Some v -> v <> 0.
Proof using Type. unfold num_of. destruct (Z.eqb_spec (num b f) 0); naive_solver. Qed.

Lemma do_set_from_vec_in {A} (var : block -> option A) l v : do_set_from_vec var l = Some v ->
  exists b, b ∈ l /\ var b = Some v.
Proof using Type.
  induction l as [|b l IH]; cbn; [done|]. destruct (var b) eqn:E.
  - intros [= ->]. exists b. split; [apply list_elem_of_here|done].
  - intros (x & Hx & Hv)%IH. exists x. split; [by apply list_elem_of_further|done].
Qed.

(** A value of the layers is the value of one of them. *)
Lemma all_layers_in {A} (var : block -> option A) v : all_layers conf mpe hwe var = Some v ->
  exists b, var b = Some v /\ (mpe = Some b \/ overrides conf = Some b \/ b ∈ default [] hwe \/ b = opts conf).
Proof using Type.
  unfold all_layers, mp_set_mpe, mp_set_ovr, mp_set_hwe, mp_set_conf, do_set, do_set_from_hwe.
  rewrite !first_set_cons. cbn [first_set].
  destruct (mpe ≫= var) eqn:E1; [intros [= ->]; apply bind_Some in E1 as (b & ? & ?); by exists b; auto|].
  destruct (overrides conf ≫= var) eqn:E2; [intros [= ->]; apply bind_Some in E2 as (b & ? & ?); by exists b; auto|].
  destruct (hwe ≫= do_set_from_vec var) eqn:E3.
  { intros [= ->]. apply bind_Some in E3 as (l & -> & (b & ? & ?)%do_set_from_vec_in). exists b; auto. }
  destruct (Some (opts conf) ≫= var) eqn:E4; [|done]. intros [= ->]. cbn in E4. exists (opts conf); auto.
Qed.

Lemma flat_num_layers f : special_member f = false ->
  all_layers flatten None (Some []) (num_of f) = all_layers conf mpe hwe (num_of f).
Proof using Type.
  intros Hf. rewrite all_layers_flat. unfold num_of at 1.
  change (num (opts flatten) f) with (flat_num f). unfold flat_num.
  unfold special_member in Hf. apply orb_false_iff in Hf as [[H1 H2]%orb_false_iff H3]. rewrite H3, H2.
  destruct (List.find _ attr_members) as [a|] eqn:Hfind.
  { apply find_some in Hfind as [Hin Ha]. rewrite (proj2 (existsb_exists _ _)) in H1; [done|by eauto]. }
  destruct (all_layers conf mpe hwe (num_of f)) as [v|] eqn:E; [|done]. cbn [default from_option id].
  apply all_layers_in in E as (b & Hv%num_of_nonzero & _). by rewrite (proj2 (Z.eqb_neq v 0)).
Qed.

Lemma flat_str_layers f : all_layers flatten None (Some []) (str_of f) = all_layers conf mpe hwe (str_of f).
Proof using Type. by rewrite all_layers_flat. Qed.

(** Properties the multipath section does not have. *)
Lemma device_layers_all {A} (var : block -> option A) : (forall b, mpe = Some b -> var b = None) ->
  device_layers conf hwe var = all_layers conf mpe hwe var.
Proof using Type.
  intros H. unfold all_layers. rewrite first_set_cons. unfold mp_set_mpe, do_set.
  destruct mpe as [b|]; cbn; [by rewrite (H b)|done].
Qed.

Lemma no_mpe_num f b : f ∉ mpentry_nums -> mpe = Some b -> num_of f b = None.
Proof using HL. intros Hf Hb. unfold num_of. by rewrite (proj1 (layer_mpe HL b Hb) f Hf). Qed.

Lemma no_mpe_str f b : f ∉ mpentry_strs -> mpe = Some b -> str_of f b = None.
Proof using HL. intros Hf Hb. apply (proj2 (layer_mpe HL b Hb) f Hf). Qed.

Lemma device_num_flat f : special_member f = false -> f ∉ mpentry_nums ->
  device_layers flatten (Some []) (num_of f) = device_layers conf hwe (num_of f).
Proof using HL.
  intros Hs Hf. rewrite device_layers_flat, <-all_layers_flat, flat_num_layers by done.
  symmetry. apply device_layers_all. intros b. by apply no_mpe_num.
Qed.

Lemma device_str_flat f : f ∉ mpentry_strs ->
  device_layers flatten (Some []) (str_of f) = device_layers conf hwe (str_of f).
Proof using HL.
  intros Hf. rewrite device_layers_flat. symmetry. apply device_layers_all. intros b. by apply no_mpe_str.
Qed.

(** A member only struct config has. *)
Lemma own_member f : special_member f = false -> f ∉ mpentry_nums -> f ∉ hwentry_nums ->
  num (opts flatten) f = num (opts conf) f.
Proof using HL.
  intros Hs Hm Hh. change (num (opts flatten) f) with (flat_num f). unfold flat_num.
  unfold special_member in Hs. apply orb_false_iff in Hs as [[H1 H2]%orb_false_iff H3]. rewrite H3, H2.
  destruct (List.find _ attr_members) as [a|] eqn:Hfind.
  { apply find_some in Hfind as [Hin Ha]. rewrite (proj2 (existsb_exists _ _)) in H1; [done|by exists a]. }
  destruct (all_layers conf mpe hwe (num_of f)) as [v|] eqn:E.
  - apply all_layers_in in E as (b & Hv & Hb). pose proof (num_of_nonzero _ _ _ Hv) as Hne.
    destruct Hb as [Hb|[Hb|[Hb|Hb]]].
    + by rewrite (no_mpe_num f b Hm Hb) in Hv.
    + unfold num_of in Hv. by rewrite (proj1 (proj1 (layer_ovr HL b Hb)) f Hh) in Hv.
    + pose proof (layer_hwe HL) as Hall. rewrite Forall_forall in Hall. unfold num_of in Hv.
      by rewrite (proj1 (Hall b Hb) f Hh) in Hv.
    + subst b. unfold num_of in Hv. cbn. destruct (_ =? 0); naive_solver.
  - cbn [default from_option]. unfold all_layers in E. rewrite !first_set_cons in E. repeat (case_match; [done|]).
    unfold mp_set_conf, do_set, num_of in *. cbn in *. destruct (Z.eqb_spec (num (opts conf) f) 0); congruence.
Qed.

Lemma hwhandler_flat :
  first_set [mp_set_hwe (Some []) (str_of "hwhandler"); mp_set_conf flatten (str_of "hwhandler")] =
  first_set [mp_set_hwe hwe (str_of "hwhandler"); mp_set_conf conf (str_of "hwhandler")].
Proof using HL.
  change (mp_set_hwe (Some []) (str_of "hwhandler")) with (@None cstr).
  change (mp_set_conf flatten (str_of "hwhandler")) with (all_layers conf mpe hwe (str_of "hwhandler")).
  transitivity (device_layers conf hwe (str_of "hwhandler")).
  - rewrite device_layers_all; [|intros b Hb; apply (no_mpe_str "hwhandler" b); [decide_closed|done]].
    cbn [first_set]. by destruct (all_layers _ _ _ _).
  - unfold device_layers. rewrite (first_set_cons (mp_set_ovr _ _)). unfold mp_set_ovr, do_set.
    destruct (overrides conf) as [b|] eqn:E; [|done]. cbn [mbind option_bind]. unfold str_of at 1.
    by rewrite (proj2 (layer_ovr HL b E)).
Qed.

Lemma attr_flat f shift set m : (f, shift) ∈ attr_members ->
  set_attr flatten None f shift set m = set_attr conf mpe f shift set m.
Proof using Type.
  intros Hin. unfold set_attr. f_equal.
  assert (first_set [do_attr_set f shift None; do_attr_set f shift (Some (opts flatten))] =
          first_set [do_attr_set f shift mpe; do_attr_set f shift (Some (opts conf))]) as ->; [|done].
  unfold do_attr_set at 1 2. cbn [mbind option_bind first_set].
  change (num (opts flatten) "attribute_flags") with
    (Z.lor (default 0 (flip num "attribute_flags"%string <$> mpe)) (num (opts conf) "attribute_flags")).
  assert (num (opts flatten) f = default 0 (first_set [do_attr_set f shift mpe; do_attr_set f shift (Some (opts conf))])) as ->.
  { change (num (opts flatten) f) with (flat_num f). unfold flat_num.
    apply list_elem_of_In in Hin. destruct Hin as [[= <- <-]|[[= <- <-]|[[= <- <-]|[]]]]; done. }
  rewrite Z.lor_spec. unfold do_attr_set. destruct mpe as [b|]; cbn; rewrite ?Z.testbit_0_l, ?orb_false_l;
    repeat (destruct (Z.testbit _ shift); cbn); done.
Qed.

Lemma prkey_none b : prkey_source (reservation_of b) = PRKEY_SOURCE_NONE <-> num_of "prkey_source" b = None.
Proof using Type.
  cbn. unfold prkey_source_of, num_of, Structs.PRKEY_SOURCE_NONE. repeat case_match; naive_solver.
Qed.

Lemma prkey_flat : prkey_set None (reservation_of (opts flatten)) =
  prkey_set (reservation_of <$> mpe) (reservation_of (opts conf)).
Proof using Type.
  assert (reservation_of (opts flatten) =
    reservation_of (if bool_decide (mpe ≫= num_of "prkey_source" = None) then opts conf else default zero_block mpe)) as ->
    by done.
  destruct mpe as [b|]; cbn [mbind option_bind default from_option id fmap option_fmap option_map]; [|done].
  unfold prkey_set. pose proof (prkey_none b) as Hb. case_bool_decide as H.
  - by rewrite (decide_True _ _ (proj2 Hb H)).
  - assert (prkey_source (reservation_of b) <> PRKEY_SOURCE_NONE) as Hn by tauto. by rewrite !(decide_False _ _ Hn).
Qed.

(** ** The effective settings

    Whatever the layers are, the map gets the settings it would get if all of
    them were in the defaults section. *)

Variable version : Z * Z * Z.
Variable linux_version : Z.
Variable h : pheap.
Variable tpgs : path -> Z.
Variable dh_state : path -> option cstr.
Variable prkeys_io : io.
Variable prkeys_text : cstr.

Abbreviation layered_selectors := (propsel_selectors conf version linux_version h tpgs dh_state prkeys_io prkeys_text mpe hwe).
Abbreviation flat_selectors :=
  (propsel_selectors flatten version linux_version h tpgs dh_state prkeys_io prkeys_text None (Some [])).

Lemma key_flat m : select_map_key flatten prkeys_io prkeys_text None m = select_map_key conf prkeys_io prkeys_text mpe m.
Proof using Type. unfold select_map_key, select_reservation_key. cbn [fmap option_fmap option_map]. by rewrite prkey_flat. Qed.

Lemma hwhandler_select_flat m :
  select_hwhandler flatten h tpgs dh_state (Some []) m = select_hwhandler conf h tpgs dh_state hwe m.
Proof using HL.
  unfold select_hwhandler.
  assert (forall k, first_set [k; mp_set_hwe (Some []) (str_of "hwhandler"); mp_set_conf flatten (str_of "hwhandler")] =
    first_set [k; mp_set_hwe hwe (str_of "hwhandler"); mp_set_conf conf (str_of "hwhandler")]) as Hk
    by (intros [k|]; [done|exact hwhandler_flat]).
  by rewrite !Hk.
Qed.

Lemma pgpolicy_flat m : select_pgpolicy flatten None (Some []) m = select_pgpolicy conf mpe hwe m.
Proof using HL.
  unfold select_pgpolicy. rewrite flat_num_layers, own_member by (done || decide_closed). done.
Qed.

Lemma delay_flat m : select_delay_checks flatten None (Some []) m = select_delay_checks conf mpe hwe m.
Proof using HL.
  unfold select_delay_checks, use_delay_watch_checks, use_delay_wait_checks.
  rewrite !flat_num_layers, own_member by (done || decide_closed). done.
Qed.

Lemma rest_flat m : sel_rest flat_selectors m = sel_rest layered_selectors m.
Proof using HL.
  cbn [sel_rest propsel_selectors]. unfold select_rest. cbv zeta. unfold select_gid, select_uid, select_mode.
  rewrite !attr_flat by (cbn; set_solver). rewrite delay_flat, key_flat.
  unfold select_flush_on_last_del, select_ghost_delay, select_max_sectors_kb, select_skip_kpartx,
    select_san_path_err_recovery_time, select_san_path_err_forget_rate, select_san_path_err_threshold, err_checks,
    select_marginal_path_double_failed_time, select_marginal_path_err_recheck_gap_time,
    select_marginal_path_err_rate_threshold, select_marginal_path_err_sample_time, select_deferred_remove,
    select_dev_loss, select_fast_io_fail, select_minio, select_minio_rq, select_minio_bio, select_rr_weight.
  rewrite !flat_num_layers, !device_num_flat by (done || decide_closed). done.
Qed.

(** C6: The layers of the configuration have one precedence for all properties.
    Whatever the multipath section, the overrides, the matching hardware
    entries and the defaults contain, the properties [setup_map] selects for a
    map, whether it gets a user friendly name and with what prefix are those
    selected from a configuration that has only a defaults section: one in
    which every member has the value of the first of the layers that sets it
    (owner, group, mode and the reservation key with the flags that tell whether
    they are set). *)
Theorem layers_flatten m :
  select_properties layered_selectors m = select_properties flat_selectors m /\
  want_user_friendly_names conf mpe hwe = want_user_friendly_names flatten None (Some []) /\
  alias_prefix (select_alias_prefix conf hwe m) = alias_prefix (select_alias_prefix flatten (Some []) m).
Proof using HL.
  split_and!.
  - unfold select_properties.
    assert (forall m, sel_failback_policy flat_selectors m = sel_failback_policy layered_selectors m) as Ha.
    { intros m'. cbn [sel_failback_policy propsel_selectors]. unfold select_pgfailback. by rewrite pgpolicy_flat, flat_num_layers. }
    assert (forall m, sel_selector flat_selectors m = sel_selector layered_selectors m) as Hb.
    { intros m'. cbn [sel_selector propsel_selectors]. unfold select_selector. by rewrite flat_str_layers. }
    assert (forall m, sel_retry_hwhandler flat_selectors m = sel_retry_hwhandler layered_selectors m) as Hc.
    { intros m'. cbn [sel_retry_hwhandler propsel_selectors]. unfold select_no_path_retry, select_retain_hwhandler.
      by rewrite flat_num_layers, device_num_flat by (done || decide_closed). }
    assert (forall m, sel_features flat_selectors m = sel_features layered_selectors m) as Hd.
    { intros m'. cbn [sel_features propsel_selectors]. unfold select_features, selected_features. by rewrite flat_str_layers. }
    assert (forall m, sel_hwhandler flat_selectors m = sel_hwhandler layered_selectors m) as He
      by (intros m'; apply hwhandler_select_flat).
    unfold reselect. cbv zeta. by rewrite rest_flat, !He, !Hd, !Hc, !Hb, !Ha.
  - unfold want_user_friendly_names. by rewrite flat_num_layers.
  - unfold select_alias_prefix. by rewrite device_str_flat by decide_closed.
Qed.

End Flat.

(** ** The selected map is complete *)

(** Removing features stays within the buffers. *)
Definition features_safe (fs : cstr) : Prop :=
  forall npr rh, reconcile_features_with_options (Some fs) npr rh <> None.

(** Every property of the map has a value with a meaning. *)
Record settings_complete (m : multipath) : Prop := {
  sc_policy : exists fn, pgpolicies !! Z.to_nat (pgpolicy m) = Some (Some fn) /\ pgpolicyfn m = Some fn;
  sc_strings : is_Some (selector m) /\ is_Some (features m) /\ is_Some (hwhandler m);
  sc_failback : pgfailback m <> FAILBACK_UNDEF;
  sc_rr_weight : rr_weight m = RR_WEIGHT_NONE \/ rr_weight m = RR_WEIGHT_PRIO;
  sc_minio : minio m <> 0;
  sc_retain : retain_hwhandler m = YNU_NO \/ retain_hwhandler m = YNU_YES;
  sc_deferred : YNU_NO <= deferred_remove m <= DEFERRED_REMOVE_IN_PROGRESS;
  sc_flags : flush_on_last_del m <> 0 /\ skip_kpartx m <> 0 /\ ghost_delay m <> 0;
  sc_tmo : MP_FAST_IO_FAIL_ZERO <= m_fast_io_fail m /\ m_fast_io_fail m <> MP_FAST_IO_FAIL_UNSET;
  sc_sample_time : marginal_path_err_sample_time m = NU_NO \/ 2 * IOTIMEOUT_SEC <= marginal_path_err_sample_time m;
  sc_mode : Z.testbit (m_attribute_flags m) ATTR_MODE = true -> 0 <= m_mode m <= 511
}.

Lemma remove_feature_some fs o r x : remove_feature (Some fs) o = Some (r, x) -> is_Some x.
Proof. unfold remove_feature. repeat case_match; intros; simplify_eq; eauto. Qed.

Lemma reconcile_some fs npr rh x npr' rh' : reconcile_features_with_options (Some fs) npr rh = Some (x, npr', rh') ->
  is_Some x /\ (npr <> NO_PATH_RETRY_UNDEF -> npr' = npr) /\ (rh <> RETAIN_HWHANDLER_UNDEF -> rh' = rh).
Proof.
  unfold reconcile_features_with_options. destruct (has_strstr fs q_i_n_p).
  - destruct (remove_feature (Some fs) _) as [[r1 f1]|] eqn:E1; [|done]. cbn [mbind option_bind].
    destruct (remove_feature_some _ _ _ _ E1) as [g1 ->].
    destruct (has_strstr (default [] (Some g1)) r_a_h_h).
    + destruct (remove_feature (Some g1) _) as [[r2 f2]|] eqn:E2; [|done]. intros [= <- <- <-].
      split; [by eapply remove_feature_some|]. split; intros H; by rewrite (proj2 (Z.eqb_neq _ _) H).
    + intros [= <- <- <-]. split; [done|]. split; [intros H; by rewrite (proj2 (Z.eqb_neq _ _) H)|done].
  - cbn [mbind option_bind]. destruct (has_strstr (default [] (Some fs)) r_a_h_h).
    + destruct (remove_feature (Some fs) _) as [[r2 f2]|] eqn:E2; [|done]. intros [= <- <- <-].
      split; [by eapply remove_feature_some|]. split; [done|]. intros H. by rewrite (proj2 (Z.eqb_neq _ _) H).
    + intros [= <- <- <-]. done.
Qed.

Section Complete.
Variable conf : Conf.config.
Variable mpe : option block.
Variable hwe : option (list block).
Hypothesis Hopts : typed_block (opts conf).
Hypothesis Hovr : typed_block (default zero_block (overrides conf)).
Hypothesis Hhwe : Forall typed_block (default [] hwe).
Hypothesis Hmpe : typed_block (default zero_block mpe).

Lemma layers_bounds f v : all_layers conf mpe hwe (num_of f) = Some v -> in_bounds f v /\ v <> 0.
Proof using Type*.
  intros (b & Hv & Hb)%all_layers_in. split; [|by eapply num_of_nonzero].
  unfold num_of in Hv. destruct (_ =? 0); [done|]. injection Hv as <-.
  destruct Hb as [Hb|[Hb|[Hb|Hb]]].
  - rewrite Hb in Hmpe. apply Hmpe.
  - rewrite Hb in Hovr. apply Hovr.
  - rewrite Forall_forall in Hhwe. by apply Hhwe.
  - subst b. apply Hopts.
Qed.

Lemma layers_default f d : in_bounds f d -> d <> 0 ->
  in_bounds f (default d (all_layers conf mpe hwe (num_of f))) /\ default d (all_layers conf mpe hwe (num_of f)) <> 0.
Proof using Type*.
  intros Hd Hne. destruct (all_layers _ _ _ _) as [v|] eqn:E; cbn [default from_option id]; [by apply layers_bounds|done].
Qed.

Lemma device_default f d : in_bounds f d -> d <> 0 ->
  in_bounds f (default d (device_layers conf hwe (num_of f))) /\ default d (device_layers conf hwe (num_of f)) <> 0.
Proof using Hopts Hovr Hhwe.
  intros Hd Hne. replace (device_layers conf hwe (num_of f)) with (all_layers conf None hwe (num_of f)) by done.
  destruct (all_layers _ _ _ _) as [v|] eqn:E; cbn [default from_option id]; [|done].
  apply all_layers_in in E as (b & Hv & Hb). split; [|by eapply num_of_nonzero].
  unfold num_of in Hv. destruct (_ =? 0); [done|]. injection Hv as <-.
  destruct Hb as [Hb|[Hb|[Hb|Hb]]]; [done|rewrite Hb in Hovr; apply Hovr| |subst b; apply Hopts].
  rewrite Forall_forall in Hhwe. by apply Hhwe.
Qed.

(** *** Conditional updates as updates *)

Lemma attr_shape f shift (put : Z -> multipath -> multipath) (get : multipath -> Z) m :
  (forall m, put (get m) m = m) -> (forall m fl, get (m <| m_attribute_flags := fl |>) = get m) -> 0 <= shift ->
  exists fl v, set_attr conf mpe f shift put m = put v (m <| m_attribute_flags := fl |>) /\
    (forall k, 0 <= k -> k <> shift -> Z.testbit fl k = Z.testbit (m_attribute_flags m) k) /\
    (Z.testbit fl shift = true -> exists b, v = num b f /\ (mpe = Some b \/ b = opts conf)).
Proof using Type.
  clear Hopts Hovr Hhwe Hmpe. intros Hput Hget Hs. unfold set_attr. destruct (first_set _) as [v|] eqn:E.
  - eexists _, v. split; [done|]. split.
    + intros k Hk Hne.
      rewrite Z.lor_spec, Z.shiftl_1_l, Z.pow2_bits_false by lia. apply orb_false_r.
    + intros _. unfold do_attr_set in E. cbn in E. destruct mpe as [b|]; cbn in E.
      * destruct (Z.testbit (num b _) shift); [injection E as <-; by eauto|].
        destruct (Z.testbit (num (opts conf) _) shift); [injection E as <-; by eauto|done].
      * destruct (Z.testbit (num (opts conf) _) shift); [injection E as <-; by eauto|done].
  - set (fl := Z.land _ _). exists fl, (get m). split; [by rewrite <-(Hget m fl), Hput|]. unfold fl. split.
    + intros k Hk Hne. rewrite Z.land_spec, Z.lnot_spec, Z.shiftl_1_l, Z.pow2_bits_false by lia. apply andb_true_r.
    + rewrite Z.land_spec, Z.lnot_spec, Z.shiftl_1_l, Z.pow2_bits_true by lia. by rewrite andb_false_r.
Qed.

Lemma deferred_shape m : exists d, select_deferred_remove conf mpe hwe m = m <| deferred_remove := d |> /\
  YNU_NO <= d <= DEFERRED_REMOVE_IN_PROGRESS.
Proof using Type*.
  unfold select_deferred_remove. destruct (Z.eqb_spec (deferred_remove m) DEFERRED_REMOVE_IN_PROGRESS) as [H|H].
  - exists (deferred_remove m). split; [by destruct m|]. rewrite H. by const_range.
  - eexists. split; [done|].
    destruct (layers_default "deferred_remove" DEFAULT_DEFERRED_REMOVE ltac:(const_range) ltac:(done)) as [Hb Hne].
    revert Hb Hne. generalize (default DEFAULT_DEFERRED_REMOVE (all_layers conf mpe hwe (num_of "deferred_remove"))).
    intros v Hb Hne. change (0 <= v <= 2) in Hb. change (1 <= v <= 3). lia.
Qed.

Lemma delay_shape m : exists a b c, select_delay_checks conf mpe hwe m =
  m <| m_san_path_err_threshold := a |> <| m_san_path_err_forget_rate := b |> <| m_san_path_err_recovery_time := c |>.
Proof using Type.
  assert (m = m <| m_san_path_err_threshold := m_san_path_err_threshold m |>
                <| m_san_path_err_forget_rate := m_san_path_err_forget_rate m |>
                <| m_san_path_err_recovery_time := m_san_path_err_recovery_time m |>) as Hm by (by destruct m).
  unfold select_delay_checks. cbv zeta. destruct (_ && _); [by eauto|]. destruct (san_path_check_options_set m); [by eauto|].
  repeat case_match.
  - by eexists _, _, _.
  - eexists 1, (m_san_path_err_forget_rate m), _. by destruct m.
  - by exists 1, (use_delay_watch_checks conf mpe hwe), (m_san_path_err_recovery_time m); destruct m.
  - by exists 1, (m_san_path_err_forget_rate m), (m_san_path_err_recovery_time m); destruct m.
Qed.

Lemma key_shape o text m : exists a b c, default m (select_map_key conf o text mpe m) =
  m <| m_prkey_source := a |> <| m_reservation_key := b |> <| m_sa_flags := c |>.
Proof using Type.
  unfold select_map_key. destruct (select_reservation_key _ _ _ _ _) as [r|]; cbn.
  - by eexists _, _, _.
  - exists (m_prkey_source m), (m_reservation_key m), (m_sa_flags m). by destruct m.
Qed.

End Complete.

(** The last group of selectors, as one update. *)
Lemma rest_fields conf mpe hwe version o text m :
  typed_block (opts conf) -> typed_block (default zero_block (overrides conf)) -> Forall typed_block (default [] hwe) ->
  typed_block (default zero_block mpe) ->
  let m' := select_rest conf version o text mpe hwe m in
  let layers f d := default d (all_layers conf mpe hwe (num_of f)) in
  (pgpolicy m', pgpolicyfn m', selector m', features m', hwhandler m', pgfailback m', retain_hwhandler m',
   no_path_retry m', m_paths m', pg m') =
  (pgpolicy m, pgpolicyfn m, selector m, features m, hwhandler m, pgfailback m, retain_hwhandler m,
   no_path_retry m, m_paths m, pg m) /\
  rr_weight m' = layers "rr_weight"%string DEFAULT_RR_WEIGHT /\
  minio m' = (if VERSION_GE version (1, 1, 0) then layers "minio_rq"%string DEFAULT_MINIO_RQ
              else layers "minio"%string DEFAULT_MINIO) /\
  YNU_NO <= deferred_remove m' <= DEFERRED_REMOVE_IN_PROGRESS /\
  flush_on_last_del m' = layers "flush_on_last_del"%string DEFAULT_FLUSH /\
  skip_kpartx m' = layers "skip_kpartx"%string DEFAULT_SKIP_KPARTX /\
  ghost_delay m' = layers "ghost_delay"%string DEFAULT_GHOST_DELAY /\
  m_fast_io_fail m' = default DEFAULT_FAST_IO_FAIL (device_layers conf hwe (num_of "fast_io_fail")) /\
  (let v := layers "marginal_path_err_sample_time"%string DEFAULT_ERR_CHECKS in
   marginal_path_err_sample_time m' = if (0 <? v) && (v <? 2 * IOTIMEOUT_SEC) then 2 * IOTIMEOUT_SEC else v) /\
  (Z.testbit (m_attribute_flags m') ATTR_MODE = true -> 0 <= m_mode m' <= 511).
Proof.
  intros Hopts Hovr Hhwe Hmpe. unfold select_rest, select_mode, select_uid, select_gid. cbv zeta.
  set (m0 := select_minio _ _ _ _ (select_rr_weight _ _ _ _)).
  destruct (attr_shape conf mpe "mode" ATTR_MODE (fun v m => m <| m_mode := v |>) m_mode m0) as (f1 & v1 & -> & _ & H1);
    [by intros []|done|done|].
  match goal with |- context [set_attr conf mpe "uid" ATTR_UID ?put ?x] =>
    destruct (attr_shape conf mpe "uid" ATTR_UID put m_uid x) as (f2 & v2 & -> & H2 & _); [by intros []|done|done|] end.
  match goal with |- context [set_attr conf mpe "gid" ATTR_GID ?put ?x] =>
    destruct (attr_shape conf mpe "gid" ATTR_GID put m_gid x) as (f3 & v3 & -> & H3 & _); [by intros []|done|done|] end.
  match goal with |- context [default ?x (select_map_key conf o text mpe ?x)] =>
    destruct (key_shape conf mpe o text x) as (k1 & k2 & k3 & ->) end.
  match goal with |- context [select_deferred_remove conf mpe hwe ?x] =>
    destruct (deferred_shape conf mpe hwe Hopts Hovr Hhwe Hmpe x) as (d & -> & Hd) end.
  match goal with |- context [select_delay_checks conf mpe hwe ?x] =>
    destruct (delay_shape conf mpe hwe x) as (d1 & d2 & d3 & ->) end.
  unfold m0, select_minio. split; [destruct (VERSION_GE _ _); reflexivity|].
  split; [destruct (VERSION_GE _ _); reflexivity|]. split; [destruct (VERSION_GE _ _); reflexivity|].
  split; [exact Hd|]. do 5 (split; [reflexivity|]). intros Hbit.
  assert (Z.testbit f3 ATTR_MODE = Z.testbit f1 ATTR_MODE) as Heq by (rewrite H3, H2 by done; reflexivity).
  change (Z.testbit f3 ATTR_MODE = true) in Hbit. rewrite Heq in Hbit.
  destruct (H1 Hbit) as (b & -> & Hb). change (0 <= num b "mode"%string <= 511).
  destruct Hb as [Hb| ->]; [rewrite Hb in Hmpe; apply (Hmpe "mode"%string)|apply (Hopts "mode"%string)].
Qed.

Lemma pgpolicies_lookup id : 1 <= id <= 5 -> exists fn, pgpolicies !! Z.to_nat id = Some (Some fn).
Proof.
  intros H. assert (id = 1 \/ id = 2 \/ id = 3 \/ id = 4 \/ id = 5) as Hc by lia. destruct Hc as [->|[->|[->|[->| ->]]]]; cbn; eauto.
Qed.

Lemma reselect_some (get : multipath -> option cstr) set sel m x : get (sel (set None m)) = Some x ->
  reselect get set sel m = sel (set None m).
Proof. intros H. unfold reselect. by rewrite H. Qed.

Lemma npr_shape conf mpe hwe m : exists v, select_no_path_retry conf mpe hwe m = m <| no_path_retry := v |> /\
  (disable_queueing m = true -> v = NO_PATH_RETRY_FAIL).
Proof.
  unfold select_no_path_retry. destruct (disable_queueing m); [by eexists|].
  destruct (all_layers _ _ _ _) as [v|]; [by exists v|]. exists (no_path_retry m). by destruct m.
Qed.

Lemma features_shape conf mpe hwe m x npr rh :
  reconcile_features_with_options (Some (selected_features conf mpe hwe)) (no_path_retry m) (retain_hwhandler m) =
    Some (x, npr, rh) ->
  select_features conf mpe hwe m = Some (m <| features := x |> <| no_path_retry := npr |> <| retain_hwhandler := rh |>).
Proof. intros H. unfold select_features. by rewrite H. Qed.

Lemma reselect_selector conf mpe hwe m : exists y,
  reselect selector (fun x m => m <| selector := x |>) (select_selector conf mpe hwe) m = m <| selector := Some y |>.
Proof. by eexists. Qed.

Lemma reselect_features conf mpe hwe m : features_safe (selected_features conf mpe hwe) -> exists y npr rh,
  reselect features (fun x m => m <| features := x |>) (fun m => default m (select_features conf mpe hwe m)) m =
    m <| features := Some y |> <| no_path_retry := npr |> <| retain_hwhandler := rh |> /\
  (no_path_retry m <> NO_PATH_RETRY_UNDEF -> npr = no_path_retry m) /\
  (retain_hwhandler m <> RETAIN_HWHANDLER_UNDEF -> rh = retain_hwhandler m).
Proof.
  intros Hsafe. destruct (reconcile_features_with_options (Some (selected_features conf mpe hwe)) (no_path_retry m) (retain_hwhandler m))
    as [[[x npr] rh]|] eqn:E; [|by destruct (Hsafe _ _ E)].
  destruct (reconcile_some _ _ _ _ _ _ E) as ([y ->] & Hnpr & Hrh).
  exists y, npr, rh. split; [|done]. unfold reselect. cbv beta.
  match goal with |- context [select_features conf mpe hwe ?x] => rewrite (features_shape conf mpe hwe x _ _ _ E) end.
  reflexivity.
Qed.

Lemma reselect_hwhandler conf h tpgs dh_state hwe m : exists y,
  reselect hwhandler (fun x m => m <| hwhandler := x |>) (select_hwhandler conf h tpgs dh_state hwe) m =
    m <| hwhandler := Some y |>.
Proof. by eexists. Qed.

(** What goes into the last group of selectors. *)
Lemma before_rest conf version linux_version h tpgs dh_state o text mpe hwe m :
  features_safe (selected_features conf mpe hwe) ->
  let S := propsel_selectors conf version linux_version h tpgs dh_state o text mpe hwe in
  let rh0 := retain_hwhandler (select_retain_hwhandler conf version linux_version hwe m) in
  exists sel ft hw npr rh, select_properties S m = select_rest conf version o text mpe hwe
    (select_pgpolicy conf mpe hwe (select_pgfailback conf mpe hwe m)
       <| selector := Some sel |> <| features := Some ft |> <| hwhandler := Some hw |>
       <| no_path_retry := npr |> <| retain_hwhandler := rh |>) /\
    (rh0 <> RETAIN_HWHANDLER_UNDEF -> rh = rh0) /\
    (disable_queueing m = true -> npr = NO_PATH_RETRY_FAIL).
Proof.
  intros Hsafe. cbv zeta. unfold select_properties.
  cbn [propsel_selectors sel_failback_policy sel_selector sel_retry_hwhandler sel_features sel_hwhandler sel_rest].
  set (m1 := select_pgpolicy conf mpe hwe (select_pgfailback conf mpe hwe m)).
  assert (disable_queueing m1 = disable_queueing m) as Hd by done. clearbody m1.
  destruct (reselect_selector conf mpe hwe m1) as (sel & ->).
  destruct (npr_shape conf mpe hwe (m1 <| selector := Some sel |>)) as (v & -> & Hv).
  match goal with |- context [select_retain_hwhandler _ _ _ _ ?x] => set (m3 := x) end.
  destruct (reselect_features conf mpe hwe (select_retain_hwhandler conf version linux_version hwe m3) Hsafe)
    as (ft & npr & rh & -> & Hnpr & Hrh).
  match goal with |- context [reselect hwhandler _ (select_hwhandler conf h tpgs dh_state hwe) ?x] =>
    destruct (reselect_hwhandler conf h tpgs dh_state hwe x) as (hw & ->) end.
  exists sel, ft, hw, npr, rh. split; [by destruct m1|]. split; [exact Hrh|].
  intros Hm. assert (v = NO_PATH_RETRY_FAIL) as Ev by (apply Hv; by rewrite <-Hm, <-Hd).
  change (v <> NO_PATH_RETRY_UNDEF -> npr = v) in Hnpr. rewrite Ev in Hnpr. by apply Hnpr.
Qed.

(** The policy and the retention as they are decided. *)
Lemma policy_decided conf mpe hwe m :
  typed_block (opts conf) -> typed_block (default zero_block (overrides conf)) -> Forall typed_block (default [] hwe) ->
  typed_block (default zero_block mpe) -> 0 <= num (opts conf) "pgpolicy_flag" <= 5 ->
  exists fn, pgpolicies !! Z.to_nat (pgpolicy (select_pgpolicy conf mpe hwe m)) = Some (Some fn) /\
    pgpolicyfn (select_pgpolicy conf mpe hwe m) = Some fn.
Proof.
  intros Hopts Hovr Hhwe Hmpe Hflag. unfold select_pgpolicy. cbv zeta.
  set (id := if 0 <? _ then num (opts conf) "pgpolicy_flag" else _).
  assert (1 <= id <= 5) as Hid.
  { unfold id. destruct (Z.ltb_spec 0 (num (opts conf) "pgpolicy_flag")); [lia|].
    destruct (layers_default conf mpe hwe Hopts Hovr Hhwe Hmpe "pgpolicy" DEFAULT_PGPOLICY ltac:(const_range) ltac:(done))
      as [Hb Hne]. revert Hb Hne. generalize (default DEFAULT_PGPOLICY (all_layers conf mpe hwe (num_of "pgpolicy"))).
    intros v Hb Hne. change (0 <= v <= 5) in Hb. lia. }
  destruct (pgpolicies_lookup id Hid) as [fn Hfn]. exists fn. split; [exact Hfn|].
  change (default None (pgpolicies !! Z.to_nat id) = Some fn). by rewrite Hfn.
Qed.

Lemma retain_decided conf version linux_version hwe m :
  typed_block (opts conf) -> typed_block (default zero_block (overrides conf)) -> Forall typed_block (default [] hwe) ->
  let rh := retain_hwhandler (select_retain_hwhandler conf version linux_version hwe m) in
  rh = YNU_NO \/ rh = YNU_YES.
Proof.
  intros Hopts Hovr Hhwe.
  destruct (device_default conf hwe Hopts Hovr Hhwe "retain_hwhandler" DEFAULT_RETAIN_HWHANDLER ltac:(const_range) ltac:(done))
    as [Hb Hne].
  change (let rh := if negb (VERSION_GE version (1, 5, 0)) then RETAIN_HWHANDLER_OFF
      else if KERNEL_VERSION 4 3 0 <=? linux_version then RETAIN_HWHANDLER_ON
      else default DEFAULT_RETAIN_HWHANDLER (device_layers conf hwe (num_of "retain_hwhandler")) in
    rh = YNU_NO \/ rh = YNU_YES).
  revert Hb Hne. generalize (default DEFAULT_RETAIN_HWHANDLER (device_layers conf hwe (num_of "retain_hwhandler"))).
  intros v Hb Hne. change (0 <= v <= 2) in Hb. change YNU_NO with 1. change YNU_YES with 2. cbv zeta.
  destruct (negb _); [by left|]. destruct (_ <=? _); [by right|]. lia.
Qed.

(** C17: The selectors leave no property of a map undecided.  From layers whose
    options have values of their types (which [config_file_typed] gives) and a
    grouping policy from the command line that exists, and if removing the
    deprecated features stays within its buffer, they end with a map that has a
    path selector, features and a hardware handler, a grouping policy inside the
    table of policies with its function, failback, path weights, I/O counts,
    handler retention, deferred removal and the other switches decided, and a
    sampling time of marginal paths that is off or at least two minutes.  The
    paths and groups of the map stay, and a map whose queueing was disabled
    fails without paths whatever the configuration says. *)
Theorem settings_selected conf version linux_version h tpgs dh_state o text mpe hwe m :
  typed_block (opts conf) -> typed_block (default zero_block (overrides conf)) -> Forall typed_block (default [] hwe) ->
  typed_block (default zero_block mpe) -> 0 <= num (opts conf) "pgpolicy_flag" <= 5 ->
  features_safe (selected_features conf mpe hwe) ->
  let m' := select_properties (propsel_selectors conf version linux_version h tpgs dh_state o text mpe hwe) m in
  settings_complete m' /\ m_paths m' = m_paths m /\ pg m' = pg m /\
  (disable_queueing m = true -> no_path_retry m' = NO_PATH_RETRY_FAIL).
Proof.
  intros Hopts Hovr Hhwe Hmpe Hflag Hsafe. cbv zeta.
  destruct (before_rest conf version linux_version h tpgs dh_state o text mpe hwe m Hsafe)
    as (sel & ft & hw & npr & rh & -> & Hrh & Hnpr).
  match goal with |- context [select_rest conf version o text mpe hwe ?x] => set (m5 := x) end.
  pose proof (rest_fields conf mpe hwe version o text m5 Hopts Hovr Hhwe Hmpe) as HR. cbv zeta in HR.
  set (m' := select_rest _ _ _ _ _ _ m5) in *. clearbody m'.
  destruct HR as (Hsame & Hrr & Hminio & Hdef & Hflush & Hskip & Hghost & Hfio & Hst & Hmode).
  injection Hsame as H1 H2 H3 H4 H5 H6 H7 H8 H9 H10.
  pose proof (layers_default conf mpe hwe Hopts Hovr Hhwe Hmpe) as HD.
  split_and!; [split|by rewrite H9|by rewrite H10|by rewrite H8].
  - rewrite H1, H2. by apply (policy_decided conf mpe hwe (select_pgfailback conf mpe hwe m)).
  - rewrite H3, H4, H5. split_and!; eexists; reflexivity.
  - rewrite H6. apply (HD "pgfailback"%string DEFAULT_FAILBACK ltac:(const_range) ltac:(done)).
  - rewrite Hrr. destruct (HD "rr_weight"%string DEFAULT_RR_WEIGHT ltac:(const_range) ltac:(done)) as [Hb Hne].
    revert Hb Hne. generalize (default DEFAULT_RR_WEIGHT (all_layers conf mpe hwe (num_of "rr_weight"))).
    intros v Hb Hne. change (0 <= v <= 2) in Hb. change RR_WEIGHT_NONE with 1. change RR_WEIGHT_PRIO with 2. lia.
  - rewrite Hminio. destruct (VERSION_GE _ _); [apply (HD "minio_rq"%string)|apply (HD "minio"%string)]; (const_range || done).
  - rewrite H7. change (retain_hwhandler m5) with rh.
    destruct (retain_decided conf version linux_version hwe m Hopts Hovr Hhwe) as [H|H]; rewrite H in Hrh;
      rewrite Hrh by done; auto.
  - exact Hdef.
  - rewrite Hflush, Hskip, Hghost.
    split_and!; [apply (HD "flush_on_last_del"%string)|apply (HD "skip_kpartx"%string)|apply (HD "ghost_delay"%string)];
      (const_range || done).
  - rewrite Hfio. destruct (device_default conf hwe Hopts Hovr Hhwe "fast_io_fail" DEFAULT_FAST_IO_FAIL
      ltac:(const_range) ltac:(done)) as [Hb Hne]. split; [apply Hb|apply Hne].
  - rewrite Hst. destruct (HD "marginal_path_err_sample_time"%string DEFAULT_ERR_CHECKS ltac:(const_range) ltac:(done)) as [Hb Hne].
    revert Hb Hne. generalize (default DEFAULT_ERR_CHECKS (all_layers conf mpe hwe (num_of "marginal_path_err_sample_time"))).
    intros v Hb Hne. change (-1 <= v <= INT_MAX) in Hb. change NU_NO with (-1). change IOTIMEOUT_SEC with 60.
    destruct (Z.ltb_spec 0 v), (Z.ltb_spec v (2 * 60)); cbn [andb]; lia.
  - exact Hmode.
Qed.

Lemma set_attr_paths conf mpe f shift put m : (forall v m, m_paths (put v m) = m_paths m) ->
  m_paths (set_attr conf mpe f shift put m) = m_paths m.
Proof. intros Hput. unfold set_attr. by destruct (first_set _); rewrite ?Hput. Qed.

Lemma deferred_paths conf mpe hwe m : m_paths (select_deferred_remove conf mpe hwe m) = m_paths m.
Proof. unfold select_deferred_remove. by case_match. Qed.

(** The selectors are selectors as [setup_map] expects them. *)
Lemma propsel_keeps_paths conf version linux_version h tpgs dh_state o text mpe hwe :
  keeps_paths (propsel_selectors conf version linux_version h tpgs dh_state o text mpe hwe).
Proof.
  intros m. split_and!; try reflexivity.
  - cbn [propsel_selectors sel_retry_hwhandler]. by destruct (npr_shape conf mpe hwe m) as (v & -> & _).
  - cbn [propsel_selectors sel_features]. unfold select_features.
    by destruct (reconcile_features_with_options _ _ _) as [[[x npr] rh]|].
  - cbn [propsel_selectors sel_rest]. unfold select_rest. cbv zeta.
    match goal with |- context [select_delay_checks conf mpe hwe ?x] =>
      destruct (delay_shape conf mpe hwe x) as (d1 & d2 & d3 & ->) end.
    match goal with |- context [select_deferred_remove conf mpe hwe ?x] =>
      transitivity (m_paths (select_deferred_remove conf mpe hwe x)); [reflexivity|rewrite deferred_paths] end.
    match goal with |- context [default ?x (select_map_key conf o text mpe ?x)] =>
      destruct (key_shape conf mpe o text x) as (k1 & k2 & k3 & ->) end.
    change (m_paths (select_gid conf mpe (select_uid conf mpe (select_mode conf mpe (select_minio conf version mpe hwe
      (select_rr_weight conf mpe hwe m))))) = m_paths m).
    unfold select_gid, select_uid, select_mode. rewrite !set_attr_paths by done. unfold select_minio. by case_match.
Qed.

(** ** Samples *)

(** A device entry, overrides and a multipath section on the defaults. *)
Definition layers_conf : Conf.config := zero_config
  <| opts := set_num "pgpolicy" 2 (set_num "mode" 432 (set_num "attribute_flags" 4 (set_num "no_path_retry" 5 zero_block))) |>
  <| overrides := Some (set_num "no_path_retry" 12 (set_num "dev_loss" 60 zero_block)) |>.
Definition layers_hwe : option (list block) := Some
  [set_num "no_path_retry" 3 (set_num "pgpolicy" 4 zero_block);
   set_num "pgpolicy" 5 (set_string "features" (Some (s "2 pg_init_retries 50")) zero_block)].
Definition layers_mpe : option block := Some (set_num "uid" 7 (set_num "attribute_flags" 1 zero_block)).

Lemma members_zero nums strs : members_of nums strs zero_block.
Proof. done. Qed.

Lemma members_set_num nums strs f v b : f ∈ nums -> members_of nums strs b -> members_of nums strs (set_num f v b).
Proof. intros Hf [H1 H2]. split; [|exact H2]. intros g Hg. rewrite num_set_ne; [by apply H1|]. by intros ->. Qed.

Lemma members_set_string nums strs f v b : f ∈ strs -> members_of nums strs b -> members_of nums strs (set_string f v b).
Proof. intros Hf [H1 H2]. split; [exact H1|]. intros g Hg. rewrite str_set_ne; [by apply H2|]. by intros ->. Qed.

(** Closed blocks. *)
Ltac closed_members := repeat ((apply members_set_num; [decide_closed|]) || (apply members_set_string; [decide_closed|]));
  apply members_zero.
Ltac closed_typed := repeat (apply typed_set_string || (apply typed_set_num; [|const_range])); apply typed_zero_block.

Lemma layers_flatten_witness :
  let m := alloc_multipath <| deferred_remove := DEFERRED_REMOVE_IN_PROGRESS |> in
  let flat := flatten layers_conf layers_mpe layers_hwe in
  select_properties (propsel_selectors layers_conf (1, 13, 0) 0 ∅ (fun _ => TPGS_NONE) (fun _ => None) io_good [] layers_mpe layers_hwe) m =
  select_properties (propsel_selectors flat (1, 13, 0) 0 ∅ (fun _ => TPGS_NONE) (fun _ => None) io_good [] None (Some [])) m /\
  want_user_friendly_names layers_conf layers_mpe layers_hwe = want_user_friendly_names flat None (Some []) /\
  alias_prefix (select_alias_prefix layers_conf layers_hwe m) = alias_prefix (select_alias_prefix flat (Some []) m).
Proof.
  apply layers_flatten. split.
  - intros b [= <-]. closed_members.
  - intros b [= <-]. split; [closed_members|reflexivity].
  - apply Forall_cons_2; [closed_members|]. apply Forall_cons_2; [closed_members|]. apply Forall_nil_2.
Defined.

Lemma settings_selected_witness :
  let m := alloc_multipath <| disable_queueing := true |> in
  let m' := select_properties (propsel_selectors layers_conf (1, 13, 0) (KERNEL_VERSION 5 4 0) ∅ (fun _ => TPGS_NONE)
              (fun _ => None) io_good [] layers_mpe layers_hwe) m in
  settings_complete m' /\ m_paths m' = m_paths m /\ pg m' = pg m /\
  (disable_queueing m = true -> no_path_retry m' = NO_PATH_RETRY_FAIL).
Proof.
  apply settings_selected.
  - unfold layers_conf. closed_typed.
  - unfold layers_conf. closed_typed.
  - apply Forall_cons_2; [closed_typed|]. apply Forall_cons_2; [closed_typed|]. apply Forall_nil_2.
  - closed_typed.
  - by vm_compute.
  - intros npr rh. vm_compute. discriminate.
Defined.

(** The selected values of the sample: the overrides win over the device, the
    first device entry over the second. *)
Example layers_values :
  let m := select_properties (propsel_selectors layers_conf (1, 13, 0) (KERNEL_VERSION 5 4 0) ∅ (fun _ => TPGS_NONE)
             (fun _ => None) io_good [] layers_mpe layers_hwe) alloc_multipath in
  (no_path_retry m, pgpolicy m, features m, m_dev_loss m, m_uid m, m_mode m, m_attribute_flags m) =
  (12, 4, Some (s "2 pg_init_retries 50"), 60, 7, 432, 5).
Proof. by vm_compute. Qed.

(** Two blanks after the count: the feature is removed with a negative length. *)
Example features_overflow : ~ features_safe (s "2  queue_if_no_path pg_init_retries").
Proof. intros H. exact (H 0 0 eq_refl). Qed.

(** Marginal path checking does not keep the deprecated delay checks from
    turning on the other check. *)
Example both_checks :
  let conf := zero_config <| opts := set_num "max_checkint" 20 (set_num "delay_watch_checks" 3 (set_num "delay_wait_checks" 4
    (set_num "marginal_path_double_failed_time" 60 (set_num "marginal_path_err_sample_time" 120
    (set_num "marginal_path_err_rate_threshold" 10 (set_num "marginal_path_err_recheck_gap_time" 120 zero_block)))))) |> in
  let m := select_rest conf (1, 13, 0) io_good [] None (Some []) alloc_multipath in
  marginal_path_check_enabled m = true /\ san_path_check_enabled m = true.
Proof. by vm_compute. Qed.
