(* ===== verification/Config.v ===== *)
(** * libmultipath/config.c: the tables of the configuration

    Looking up and merging hardware and multipath entries, storing the built-in
    table, and [factorize_hwtable], which merges duplicates.  Memory is assumed
    to last. *)

From S2P Require Import Prelude CString Util Structs File Parser Conf Blacklist Pgpolicies Options Dict Propsel.

(** ** Looking up entries *)

Definition str_differs (a b : option cstr) : bool := negb (opt_streq a b).

Definition hwe_strmatch (hwe1 hwe2 : block) : Z :=
  if str_differs (str hwe1 "vendor") (str hwe2 "vendor") then 1
  else if str_differs (str hwe1 "product") (str hwe2 "product") then 1
  else if str_differs (str hwe1 "revision") (str hwe2 "revision") then 1
  else 0.

Definition find_hwe_strmatch (hwtable : list block) (hwe : block) : option block :=
  List.find (fun tmp => hwe_strmatch tmp hwe =? 0) hwtable.

Section Match.
Variable regcomp : cstr -> option (cstr -> bool).

(** A member as a pattern: [None] does not compile; without a pattern, or
    without a value, everything matches. *)
Definition pattern (p value : option cstr) : option bool :=
  match p with
  | None => Some true
  | Some p => re ← regcomp p; Some match value with None => true | Some v => re v end
  end.

Definition hwe_regmatch (hwe1 : block) (vendor product revision : option cstr) : Z :=
  match pattern (str hwe1 "vendor") vendor with
  | None => 1
  | Some v =>
      match pattern (str hwe1 "product") product with
      | None => 1
      | Some p =>
          match pattern (str hwe1 "revision") revision with
          | None => 1
          | Some r => if negb (bool_decide (vendor = None /\ product = None /\ revision = None)) && v && p && r then 0 else 1
          end
      end
  end.

(** Searched backwards. *)
Definition find_hwe (hwtable : list block) (vendor product revision : option cstr) : list block :=
  filter (fun tmp => hwe_regmatch tmp vendor product revision = 0) (reverse hwtable).

End Match.

(** ** Merging entries *)

(** An empty string counts as a failure. *)
Definition set_param_str (v : option cstr) : option cstr := match v with Some [] => None | _ => v end.

(** The return code and the destination, as far as it was merged. *)
Definition merge_str (f : string) (dst src : block) : Z * block :=
  match str dst f, str src f with
  | None, Some v => match set_param_str (Some v) with
                    | None => (1, dst)
                    | x => (0, set_string f x dst)
                    end
  | _, _ => (0, dst)
  end.

Fixpoint merge_strs (fs : list string) (dst src : block) : Z * block :=
  match fs with
  | [] => (0, dst)
  | f :: r => let '(rc, dst) := merge_str f dst src in if rc =? 0 then merge_strs r dst src else (rc, dst)
  end.

Definition merge_num (f : string) (dst src : block) : block :=
  if (num dst f =? 0) && negb (num src f =? 0) then set_num f (num src f) dst else dst.

Definition merge_nums (fs : list string) (dst src : block) : block := foldl (fun dst f => merge_num f dst src) dst fs.

Definition merge_hwe_strs : list string :=
  ["vendor"; "product"; "revision"; "getuid"; "uid_attribute"; "features"; "hwhandler"; "selector"; "checker_name";
   "prio_name"; "prio_args"; "alias_prefix"; "bl_product"]%string.
Definition merge_hwe_nums : list string :=
  ["pgpolicy"; "pgfailback"; "rr_weight"; "no_path_retry"; "minio"; "minio_rq"; "flush_on_last_del"; "fast_io_fail";
   "dev_loss"; "user_friendly_names"; "retain_hwhandler"; "detect_prio"; "detect_checker"; "deferred_remove";
   "delay_watch_checks"; "delay_wait_checks"; "skip_kpartx"; "max_sectors_kb"; "ghost_delay"; "all_tg_pt";
   "vpd_vendor_id"; "san_path_err_threshold"; "san_path_err_forget_rate"; "san_path_err_recovery_time";
   "marginal_path_err_sample_time"; "marginal_path_err_rate_threshold"; "marginal_path_err_recheck_gap_time";
   "marginal_path_double_failed_time"]%string.

(** [None] is the overflow of [remove_feature]. *)
Definition merge_hwe (dst src : block) : option (Z * block) :=
  let '(rc, dst) := merge_strs merge_hwe_strs dst src in
  if negb (rc =? 0) then Some (1, dst)
  else
    let dst := merge_nums merge_hwe_nums dst src in
    '(fs, npr, rh) ← reconcile_features_with_options (str dst "features") (num dst "no_path_retry") (num dst "retain_hwhandler");
    Some (0, set_num "retain_hwhandler" rh (set_num "no_path_retry" npr (set_string "features" fs dst))).

Definition merge_mpe_strs : list string :=
  ["alias"; "uid_attribute"; "getuid"; "selector"; "features"; "prio_name"; "prio_args"]%string.
Definition merge_mpe_nums : list string :=
  ["pgpolicy"; "pgfailback"; "rr_weight"; "no_path_retry"; "minio"; "minio_rq"; "flush_on_last_del"; "attribute_flags";
   "user_friendly_names"; "deferred_remove"; "delay_watch_checks"; "delay_wait_checks"; "san_path_err_threshold";
   "san_path_err_forget_rate"; "san_path_err_recovery_time"; "marginal_path_err_sample_time";
   "marginal_path_err_rate_threshold"; "marginal_path_err_recheck_gap_time"; "marginal_path_double_failed_time";
   "skip_kpartx"; "max_sectors_kb"; "ghost_delay"; "uid"; "gid"; "mode"]%string.

Definition merge_mpe (dst src : block) : Z * block :=
  let '(rc, dst) := merge_strs merge_mpe_strs dst src in
  if negb (rc =? 0) then (1, dst)
  else
    let dst :=
      if (num dst "prkey_source" =? Structs.PRKEY_SOURCE_NONE) && negb (num src "prkey_source" =? Structs.PRKEY_SOURCE_NONE)
      then set_num "reservation_key" (num src "reservation_key") (set_num "sa_flags" (num src "sa_flags")
             (set_num "prkey_source" (num src "prkey_source") dst))
      else dst in
    (0, merge_nums merge_mpe_nums dst src).

(** The first later section for the WWID gets what [mp1] sets; [None] is
    comparing a missing WWID, [Some None] that there is no such section. *)
Fixpoint merge_into (mp1 : block) (rest : list block) : option (option (list block)) :=
  match rest with
  | [] => Some None
  | mp2 :: r =>
      match str mp1 "wwid", str mp2 "wwid" with
      | Some w1, Some w2 => if streq w1 w2 then Some (Some (snd (merge_mpe mp2 mp1) :: r))
                            else r' ← merge_into mp1 r; Some (option_map (cons mp2) r')
      | _, _ => None
      end
  end.

Fixpoint merge_mptable (fuel : nat) (mptable : list block) : option (list block) :=
  match fuel, mptable with
  | S f, mp1 :: rest =>
      merged ← merge_into mp1 rest;
      match merged with
      | Some rest => merge_mptable f rest
      | None => r ← merge_mptable f rest; Some (mp1 :: r)
      end
  | _, _ => Some mptable
  end.

(** ** The built-in table *)

(** A string that must be there if the entry has it. *)
Fixpoint copy_strs (fs : list string) (hwe dhwe : block) : option block :=
  match fs with
  | [] => Some hwe
  | f :: r => match str dhwe f with
              | None => copy_strs r hwe dhwe
              | Some v => x ← set_param_str (Some v); copy_strs r (set_string f (Some x) hwe) dhwe
              end
  end.

Definition store_hwe_strs : list string :=
  ["revision"; "uid_attribute"; "getuid"; "features"; "hwhandler"; "selector"; "checker_name"; "prio_name"; "prio_args";
   "alias_prefix"]%string.
Definition store_hwe_nums : list string :=
  ["pgpolicy"; "pgfailback"; "rr_weight"; "no_path_retry"; "minio"; "minio_rq"; "flush_on_last_del"; "fast_io_fail";
   "dev_loss"; "user_friendly_names"; "retain_hwhandler"; "detect_prio"; "detect_checker"; "ghost_delay";
   "vpd_vendor_id"]%string.

Definition copy_nums (fs : list string) (hwe dhwe : block) : block := foldl (fun b f => set_num f (num dhwe f) b) hwe fs.

Definition store_hwe (hwtable : list block) (dhwe : block) : Z * list block :=
  if bool_decide (is_Some (find_hwe_strmatch hwtable dhwe)) then (0, hwtable)
  else
    match (vendor ← str dhwe "vendor"; vendor ← set_param_str (Some vendor);
           product ← str dhwe "product"; product ← set_param_str (Some product);
           hwe ← copy_strs store_hwe_strs (set_string "product" (Some product) (set_string "vendor" (Some vendor) zero_block)) dhwe;
           copy_strs ["bl_product"%string] (copy_nums store_hwe_nums hwe dhwe) dhwe) with
    | Some hwe => (0, hwtable ++ [hwe])
    | None => (1, hwtable)
    end.

(** The table ends with an entry without a vendor. *)
Fixpoint setup_default_hwtable (hw default_hw : list block) : Z * list block :=
  match default_hw with
  | [] => (0, hw)
  | hwe :: rest =>
      match str hwe "vendor" with
      | None => (0, hw)
      | Some _ => let '(r, hw) := store_hwe hw hwe in
                  let '(r', hw) := setup_default_hwtable hw rest in (r + r', hw)
      end
  end.

(** ** Merging duplicates *)

(** The index, from [j] on, of an entry with the texts of [hwe1]. *)
Fixpoint find_dup (hwe1 : block) (hw : list block) (j : nat) : option nat :=
  match hw with
  | [] => None
  | hwe2 :: r => if hwe_strmatch hwe2 hwe1 =? 0 then Some j else find_dup hwe1 r (S j)
  end.

Definition invalid_hwe (hwe : block) : bool :=
  bool_decide (str hwe "vendor" = None) || bool_decide (str hwe "product" = None).

(** How the loop ends: [None] when the fuel is out, [Some None] when removing a
    feature overflows; otherwise the table and [n]. *)
Fixpoint factorize_loop (fuel : nat) (hw : list block) (n i : nat) : option (option (list block * nat)) :=
  match fuel with
  | O => None
  | S f =>
      match hw !! i with
      | None => Some (Some (hw, n))
      | Some hwe1 =>
          if (n <=? i)%nat && invalid_hwe hwe1 then factorize_loop f (delete i hw) n i
          else
            let j := if (i + 1 <? n)%nat then n else (i + 1)%nat in
            match find_dup hwe1 (drop j hw) j with
            | None => factorize_loop f hw n (S i)
            | Some j =>
                match merge_hwe (hw !!! j) hwe1 with
                | None => Some None
                | Some (_, hwe2) =>
                    factorize_loop f (delete i (<[j := hwe2]> hw)) (if (i <? n)%nat then n - 1 else n)%nat 0
                end
            end
      end
  end.

Definition factorize_hwtable (hw : list block) (n : nat) : option (option (list block * nat)) :=
  factorize_loop (S (length hw) * S (length hw) + 1) hw n 0.

(** ** What merging two entries gives *)

Definition orelse {A} (x y : option A) : option A := match x with Some _ => x | None => y end.

(** Nothing keeps [merge_hwe] from merging everything: no empty strings, and no
    features that are options. *)
Definition plain_hwe (b : block) : Prop :=
  Forall (fun f => str b f <> Some []) merge_hwe_strs /\
  match str b "features" with Some fs => has_strstr fs q_i_n_p = false /\ has_strstr fs r_a_h_h = false | None => True end.

Lemma merge_strs_spec fs dst src : Forall (fun f => str src f <> Some []) fs ->
  exists b, merge_strs fs dst src = (0, b) /\ num b = num dst /\
    (forall g, g ∈ fs -> str b g = orelse (str dst g) (str src g)) /\ (forall g, g ∉ fs -> str b g = str dst g).
Proof.
  revert dst. induction fs as [|f fs IH]; intros dst Hs.
  - exists dst. split_and!; [done|done|by intros g ?%elem_of_nil|done].
  - apply Forall_cons in Hs as [Hf Hs]. cbn [merge_strs].
    assert (exists dst1, merge_str f dst src = (0, dst1) /\ num dst1 = num dst /\ str dst1 f = orelse (str dst f) (str src f) /\
      forall g, g <> f -> str dst1 g = str dst g) as (dst1 & -> & Hn & Hf1 & Hg1).
    { unfold merge_str. destruct (str dst f) eqn:E; [by exists dst|].
      destruct (str src f) as [[|c v]|] eqn:Es; [done| |by exists dst]. eexists. split; [done|]. split; [done|].
      split; [by rewrite str_set_eq|]. intros g Hg. by rewrite str_set_ne. }
    destruct (IH dst1 Hs) as (b & Hb & Hbn & Hbi & Hbo). exists b. rewrite Z.eqb_refl. split; [done|].
    split; [by rewrite Hbn|]. split.
    + intros g Hg. destruct (decide (g ∈ fs)) as [Hin|Hnin].
      * rewrite Hbi by done. destruct (decide (g = f)) as [->|Hne]; [|by rewrite Hg1].
        rewrite Hf1. by destruct (str dst f), (str src f).
      * apply elem_of_cons in Hg as [->|Hg]; [by rewrite Hbo|done].
    + intros g [Hne Hnin]%not_elem_of_cons. by rewrite Hbo, Hg1.
Qed.

Lemma merge_nums_spec fs dst src : str (merge_nums fs dst src) = str dst /\
  forall g, num (merge_nums fs dst src) g = if bool_decide (g ∈ fs) && (num dst g =? 0) then num src g else num dst g.
Proof.
  revert dst. induction fs as [|f fs IH]; intros dst; [done|]. unfold merge_nums. cbn [foldl].
  destruct (IH (merge_num f dst src)) as [Hs Hn]. unfold merge_nums in Hs, Hn. split.
  - rewrite Hs. unfold merge_num. by case_match.
  - intros g. rewrite Hn. assert (num (merge_num f dst src) g =
      if bool_decide (g = f) && (num dst g =? 0) then num src g else num dst g) as ->.
    { unfold merge_num. case_bool_decide as Hgf.
      - subst g. destruct (Z.eqb_spec (num dst f) 0) as [H0|H0]; cbn [andb].
        + destruct (Z.eqb_spec (num src f) 0) as [H1|H1]; cbn [negb andb]; [by rewrite H0, H1|by rewrite num_set_eq].
        + done.
      - cbn [andb]. case_match; [|done]. by rewrite num_set_ne. }
    rewrite (bool_decide_ext (g ∈ f :: fs) (g = f \/ g ∈ fs)) by apply elem_of_cons. rewrite bool_decide_or.
    destruct (bool_decide (g = f)), (bool_decide (g ∈ fs)), (num dst g =? 0) eqn:E; cbn [andb orb]; rewrite ?E; try done.
    by destruct (num src g =? 0).
Qed.

Lemma reconcile_plain fs npr rh :
  match fs with Some x => has_strstr x q_i_n_p = false /\ has_strstr x r_a_h_h = false | None => True end ->
  reconcile_features_with_options fs npr rh = Some (fs, npr, rh).
Proof.
  destruct fs as [x|]; [|done]. intros [H1 H2]. unfold reconcile_features_with_options. rewrite H1.
  cbn [mbind option_bind default from_option id]. by rewrite H2.
Qed.

Lemma merge_hwe_plain dst src : plain_hwe dst -> plain_hwe src ->
  exists b, merge_hwe dst src = Some (0, b) /\ plain_hwe b /\
    (forall f, f ∈ merge_hwe_strs -> str b f = orelse (str dst f) (str src f)) /\
    (forall f, f ∈ merge_hwe_nums -> num_of f b = orelse (num_of f dst) (num_of f src)).
Proof.
  intros [Hd1 Hd2] [Hs1 Hs2]. unfold merge_hwe.
  destruct (merge_strs_spec merge_hwe_strs dst src Hs1) as (b1 & -> & Hn & Hin & _). cbn [Z.eqb negb].
  destruct (merge_nums_spec merge_hwe_nums b1 src) as [Hs Hnum]. set (b2 := merge_nums _ b1 src) in *.
  assert (str b2 "features" = orelse (str dst "features") (str src "features")) as Hfeat
    by (rewrite Hs; apply Hin; decide_closed).
  assert (match str b2 "features" with Some x => has_strstr x q_i_n_p = false /\ has_strstr x r_a_h_h = false | None => True end)
    as Hplain.
  { rewrite Hfeat. destruct (str dst "features"); [done|exact Hs2]. }
  rewrite (reconcile_plain _ _ _ Hplain). cbn [mbind option_bind]. eexists. split; [done|].
  set (b := set_num _ _ _).
  assert (forall f, str b f = str b2 f) as Hbs.
  { intros f. unfold b. rewrite !str_set_num. destruct (decide ("features"%string = f)) as [<-|Hne]; [by rewrite str_set_eq|by rewrite str_set_ne]. }
  assert (forall f, num b f = num b2 f) as Hbn.
  { intros f. unfold b.
    destruct (decide ("retain_hwhandler"%string = f)) as [<-|H1]; [by rewrite num_set_eq|rewrite num_set_ne by done].
    destruct (decide ("no_path_retry"%string = f)) as [<-|H2]; [by rewrite num_set_eq|by rewrite num_set_ne]. }
  assert (forall f, f ∈ merge_hwe_strs -> str b f = orelse (str dst f) (str src f)) as Hstr.
  { intros f Hf. rewrite Hbs, Hs. by apply Hin. }
  split; [split|split; [exact Hstr|]].
  - apply Forall_forall. intros f Hf. rewrite Forall_forall in Hd1, Hs1. rewrite (Hstr f Hf).
    destruct (str dst f) eqn:E; cbn [orelse]; [rewrite <-E; by apply Hd1|by apply Hs1].
  - by rewrite Hbs.
  - intros f Hf. unfold num_of. rewrite Hbn, Hnum, Hn, bool_decide_true by done. cbn [andb].
    destruct (Z.eqb_spec (num dst f) 0) as [E|E]; [done|]. by rewrite (proj2 (Z.eqb_neq _ _) E).
Qed.

(** ** Factorizing: the steps of the loop *)

(** Sections with the same texts are for the same devices. *)
Definition device_texts (h : block) : option cstr * option cstr * option cstr :=
  (str h "vendor", str h "product", str h "revision").

Lemma str_differs_false a b : str_differs a b = false <-> a = b.
Proof. unfold str_differs. rewrite negb_false_iff. apply opt_streq_eq. Qed.

Lemma hwe_strmatch_same h1 h2 : hwe_strmatch h1 h2 = 0 <-> device_texts h1 = device_texts h2.
Proof.
  unfold hwe_strmatch, device_texts.
  destruct (str_differs (str h1 "vendor") (str h2 "vendor")) eqn:E1.
  { split; [done|]. intros [= H _ _]. apply (proj2 (str_differs_false _ _)) in H. congruence. }
  destruct (str_differs (str h1 "product") (str h2 "product")) eqn:E2.
  { split; [done|]. intros [= _ H _]. apply (proj2 (str_differs_false _ _)) in H. congruence. }
  destruct (str_differs (str h1 "revision") (str h2 "revision")) eqn:E3.
  { split; [done|]. intros [= _ _ H]. apply (proj2 (str_differs_false _ _)) in H. congruence. }
  apply str_differs_false in E1 as ->, E2 as ->, E3 as ->. done.
Qed.

(** The tables the loop goes through. *)
Inductive fstep : list block * nat -> list block * nat -> Prop :=
  | fs_drop l1 a l2 n : (n <= length l1)%nat -> invalid_hwe a = true -> fstep (l1 ++ a :: l2, n) (l1 ++ l2, n)
  | fs_merge l1 a l2 b l3 rc b' n :
      device_texts b = device_texts a -> (n <= length l1 + 1 + length l2)%nat ->
      (forall k c, l2 !! k = Some c -> (n <= length l1 + 1 + k)%nat -> device_texts c <> device_texts a) ->
      (length l1 < n)%nat \/ invalid_hwe a = false -> merge_hwe b a = Some (rc, b') ->
      fstep (l1 ++ a :: l2 ++ b :: l3, n) (l1 ++ l2 ++ b' :: l3, if (length l1 <? n)%nat then n - 1 else n)%nat.

(** What the loop has seen to be in order. *)
Definition in_order (hw : list block) (n i : nat) : Prop :=
  forall a, hw !! i = Some a -> ((n <= i)%nat -> invalid_hwe a = false) /\
    forall j b, hw !! j = Some b -> (i < j)%nat -> (n <= j)%nat -> device_texts b <> device_texts a.

Lemma find_dup_spec a l j : match find_dup a l j with
  | Some k => exists l1 b l2, l = l1 ++ b :: l2 /\ k = (j + length l1)%nat /\ device_texts b = device_texts a /\
      Forall (fun c => device_texts c <> device_texts a) l1
  | None => Forall (fun b => device_texts b <> device_texts a) l
  end.
Proof.
  revert j. induction l as [|b l IH]; intros j; cbn [find_dup]; [by constructor|].
  destruct (Z.eqb_spec (hwe_strmatch b a) 0) as [E|E].
  - exists [], b, l. split; [done|]. split; [cbn; lia|]. split; [by apply hwe_strmatch_same|done].
  - specialize (IH (S j)). destruct (find_dup a l (S j)) as [k|].
    + destruct IH as (l1 & x & l2 & -> & -> & H & Hl1). exists (b :: l1), x, l2. split; [done|]. split; [cbn; lia|].
      split; [done|]. constructor; [|done]. intros Hb. apply E. by apply hwe_strmatch_same.
    + constructor; [|done]. intros H. apply E. by apply hwe_strmatch_same.
Qed.

Lemma lookup_middle {A} (l1 : list A) x l2 : (l1 ++ x :: l2) !! length l1 = Some x.
Proof. by rewrite lookup_app_r, Nat.sub_diag by lia. Qed.

Lemma insert_middle {A} (l1 : list A) x y l2 : <[length l1 := y]> (l1 ++ x :: l2) = l1 ++ y :: l2.
Proof. by rewrite insert_app_r_alt, Nat.sub_diag by lia. Qed.

(** The pieces of the table around the two sections. *)
Lemma dup_pieces (hw : list block) i a l1 b l2 j : hw !! i = Some a -> (i < j)%nat -> drop j hw = l1 ++ b :: l2 ->
  exists m1 m2, hw = m1 ++ a :: m2 ++ b :: l2 /\ length m1 = i /\ (length m1 + 1 + length m2)%nat = (j + length l1)%nat /\
    hw !! (j + length l1)%nat = Some b /\
    (forall b', delete i (<[(j + length l1)%nat := b']> hw) = m1 ++ m2 ++ b' :: l2) /\
    forall k c, m2 !! k = Some c -> (j <= i + 1 + k)%nat -> c ∈ l1.
Proof.
  intros Hi Hij Hd. apply list_elem_of_split_length in Hi as (m1 & r & -> & ->).
  set (k := (j - length m1 - 1)%nat).
  assert (drop k r = l1 ++ b :: l2) as Hr.
  { rewrite <-Hd. rewrite (drop_app_ge m1) by lia. replace (j - length m1)%nat with (S k) by (unfold k; lia). done. }
  exists m1, (take k r ++ l1).
  assert (r = (take k r ++ l1) ++ b :: l2) as Hsplit by (rewrite <-app_assoc, <-Hr; by rewrite take_drop).
  assert (length (take k r ++ l1) = (k + length l1)%nat) as Hlen.
  { rewrite length_app, length_take. assert (length (drop k r) <> 0%nat) as Hne by (rewrite Hr, length_app; cbn; lia).
    rewrite length_drop in Hne. lia. }
  set (T := take k r ++ l1) in *. rewrite Hsplit. replace (j + length l1)%nat with (length (m1 ++ a :: T)) by (rewrite length_app; cbn; lia).
  assert (m1 ++ a :: T ++ b :: l2 = (m1 ++ a :: T) ++ b :: l2) as Hassoc by by rewrite <-app_assoc.
  split; [done|]. split; [done|]. split; [rewrite length_app; cbn; lia|]. rewrite Hassoc.
  split; [apply lookup_middle|]. split.
  - intros b'. rewrite insert_middle, <-app_assoc. cbn [app]. apply delete_middle.
  - intros k' c Hc Hk. assert (length (take k r) = k) as Htk.
    { unfold T in Hlen. rewrite length_app in Hlen. lia. }
    unfold T in Hc. rewrite lookup_app_r in Hc by (rewrite Htk; unfold k; lia). by eapply list_elem_of_lookup_2.
Qed.

Lemma in_order_delete l1 a l2 n k : (k < length l1)%nat -> in_order (l1 ++ a :: l2) n k -> in_order (l1 ++ l2) n k.
Proof.
  intros Hk H x Hx. rewrite lookup_app_l in Hx by done. destruct (H x) as [H1 H2]; [by rewrite lookup_app_l|].
  split; [done|]. intros j b Hj Hkj Hnj. destruct (decide (j < length l1)%nat).
  - apply (H2 j); [|done|done]. by rewrite lookup_app_l in Hj |- * by done.
  - apply (H2 (S j)); [|lia|lia]. rewrite lookup_app_r in Hj |- * by lia.
    by replace (S j - length l1)%nat with (S (j - length l1)) by lia.
Qed.

Lemma factorize_loop_spec fuel hw n i : (i <= length hw)%nat ->
  (length hw * S (length hw) + (length hw - i) + 1 <= fuel)%nat -> (n <= length hw)%nat ->
  (forall k, (k < i)%nat -> in_order hw n k) ->
  match factorize_loop fuel hw n i with
  | None => False
  | Some None => exists hw' n' a b, rtc fstep (hw, n) (hw', n') /\ a ∈ hw' /\ b ∈ hw' /\ merge_hwe b a = None
  | Some (Some (hw', n')) => rtc fstep (hw, n) (hw', n') /\ (n' <= length hw')%nat /\ forall k, (k < length hw')%nat -> in_order hw' n' k
  end.
Proof.
  revert hw n i. induction fuel as [|fuel IH]; intros hw n i Hi Hfuel Hn Hord; [lia|]. cbn [factorize_loop].
  destruct (hw !! i) as [a|] eqn:Ha; [|apply lookup_ge_None in Ha; by replace (length hw) with i by lia; split_and!; [constructor|lia|]].
  destruct ((n <=? i)%nat && invalid_hwe a) eqn:Hinv.
  - apply andb_true_iff in Hinv as [Hni%Nat.leb_le Hinv].
    apply list_elem_of_split_length in Ha as (l1 & l2 & -> & ->). rewrite delete_middle. rewrite length_app in *. cbn [length] in *.
    pose proof (fs_drop l1 a l2 n Hni Hinv) as Hstep.
    specialize (IH (l1 ++ l2) n (length l1)). rewrite length_app in IH.
    ospecialize (IH _ _ _ _); [lia|nia|lia|intros k Hk; by eapply in_order_delete, Hord|].
    destruct (factorize_loop fuel (l1 ++ l2) n (length l1)) as [[[hw' n']|]|]; [|destruct IH as (hw1 & n1 & x & y & H1 & H2); exists hw1, n1, x, y; split; [by eapply rtc_l|done]|done].
    destruct IH as (H1 & H2). split; [by eapply rtc_l|done].
  - set (j := if (i + 1 <? n)%nat then n else (i + 1)%nat).
    assert (i < j /\ n <= j)%nat as [Hij Hnj] by (unfold j; destruct (Nat.ltb_spec (i + 1) n); lia).
    apply andb_false_iff in Hinv. pose proof (find_dup_spec a (drop j hw) j) as Hdup.
    destruct (find_dup a (drop j hw) j) as [k|].
    + destruct Hdup as (m1 & b & l3 & Hdrop & -> & Htexts & Hfirst). rewrite Forall_forall in Hfirst.
      destruct (dup_pieces hw i a m1 b l3 j Ha Hij Hdrop) as (l1 & l2 & -> & <- & Hlen & Hb & Hmerged & Hl2).
      assert (forall k c, l2 !! k = Some c -> (n <= length l1 + 1 + k)%nat -> device_texts c <> device_texts a) as Hskip.
      { intros k c Hc Hk. apply Hfirst, (Hl2 k); [done|]. unfold j. destruct (Nat.ltb_spec (length l1 + 1) n); lia. }
      rewrite (list_lookup_total_correct _ _ _ Hb).
      destruct (merge_hwe b a) as [[rc b']|] eqn:Hm.
      * rewrite Hmerged. assert (length l1 < n \/ invalid_hwe a = false)%nat as Hv.
        { destruct Hinv as [H%Nat.leb_gt|H]; auto. }
        pose proof (fs_merge l1 a l2 b l3 rc b' n Htexts ltac:(lia) Hskip Hv Hm) as Hstep.
        specialize (IH (l1 ++ l2 ++ b' :: l3) (if (length l1 <? n)%nat then n - 1 else n)%nat 0%nat).
        repeat rewrite ?length_app in *; cbn [length] in *; repeat rewrite ?length_app in *; cbn [length] in *.
        ospecialize (IH _ _ _ _); [lia|nia|destruct (Nat.ltb_spec (length l1) n); lia|lia|].
        destruct (factorize_loop _ _ _ _) as [[[hw' n']|]|];
          [|destruct IH as (hw1 & n1 & x & y & H1 & H2); exists hw1, n1, x, y; split; [by eapply rtc_l|done]|done].
        destruct IH as (H1 & H2). split; [by eapply rtc_l|done].
      * eexists _, _, a, b. split; [apply rtc_refl|]. split; [set_solver|]. split; [set_solver|done].
    + apply IH; [apply lookup_lt_Some in Ha; lia|apply lookup_lt_Some in Ha; lia|lia|]. intros k Hk.
      destruct (decide (k = i)) as [->|Hne]; [|apply Hord; lia]. intros x Hx. assert (x = a) as -> by congruence. split.
      * intros Hle. destruct Hinv as [H%Nat.leb_gt|H]; [lia|done].
      * intros j' b Hb Hlt Hnj'. rewrite Forall_forall in Hdup. apply Hdup.
        apply (list_elem_of_lookup_2 _ (j' - j)). rewrite lookup_drop. replace (j + (j' - j))%nat with j'; [done|].
        unfold j in *. destruct (Nat.ltb_spec (i + 1) n); lia.
Qed.

(** ** What the steps keep *)

(** The table without the incomplete sections the loop is to drop. *)
Definition complete (hw : list block) : list block := filter (fun h => invalid_hwe h = false) hw.
Definition kept (n : nat) (hw : list block) : list block := take n hw ++ complete (drop n hw).

Lemma merge_str_same f g dst src : str dst g = str src g -> str (snd (merge_str f dst src)) g = str dst g.
Proof.
  intros Hg. unfold merge_str. destruct (str dst f) eqn:Ed; [done|]. destruct (str src f) as [[|c v]|] eqn:Es; [done| |done].
  cbn [snd set_param_str]. destruct (decide (f = g)) as [->|Hne]; [congruence|by rewrite str_set_ne].
Qed.

Lemma merge_strs_same fs g dst src : str dst g = str src g -> str (snd (merge_strs fs dst src)) g = str dst g.
Proof.
  revert dst. induction fs as [|f fs IH]; intros dst Hg; [done|]. cbn [merge_strs].
  pose proof (merge_str_same f g dst src Hg) as H1. destruct (merge_str f dst src) as [rc dst1]. cbn [snd] in H1.
  destruct (rc =? 0); [|done]. rewrite IH by congruence. done.
Qed.

Lemma merge_hwe_texts dst src rc b : device_texts dst = device_texts src -> merge_hwe dst src = Some (rc, b) ->
  device_texts b = device_texts dst.
Proof.
  intros [= Hv Hp Hr] Hm. unfold merge_hwe in Hm.
  pose proof (merge_strs_same merge_hwe_strs "vendor" dst src Hv) as H1.
  pose proof (merge_strs_same merge_hwe_strs "product" dst src Hp) as H2.
  pose proof (merge_strs_same merge_hwe_strs "revision" dst src Hr) as H3.
  destruct (merge_strs merge_hwe_strs dst src) as [rc1 b1]. cbn [snd] in *.
  unfold device_texts. destruct (negb (rc1 =? 0)); [injection Hm as _ <-; by rewrite H1, H2, H3|].
  destruct (merge_nums_spec merge_hwe_nums b1 src) as [Hs _]. set (b2 := merge_nums _ b1 src) in *. clearbody b2.
  destruct (reconcile_features_with_options _ _ _) as [[[fs npr] rh]|]; [|done]. injection Hm as _ <-.
  rewrite !str_set_num, !str_set_ne, Hs by done. by rewrite H1, H2, H3.
Qed.

Lemma invalid_texts a b : device_texts a = device_texts b -> invalid_hwe a = invalid_hwe b.
Proof. intros [= Hv Hp _]. unfold invalid_hwe. by rewrite Hv, Hp. Qed.

(** No two sections of the first part have the same texts. *)
Definition first_part_ok (n : nat) (hw : list block) : Prop :=
  Forall (fun h => invalid_hwe h = false) (take n hw) /\ NoDup (device_texts <$> take n hw).

(** A step drops nothing that is kept, or merges two kept sections with no
    section of the same texts in between. *)
Lemma fstep_kept hw n hw' n' : fstep (hw, n) (hw', n') -> first_part_ok n hw ->
  first_part_ok n' hw' /\
  (kept n' hw' = kept n hw \/
   exists l1 a l2 b l3 rc b', kept n hw = l1 ++ a :: l2 ++ b :: l3 /\ kept n' hw' = l1 ++ l2 ++ b' :: l3 /\
     device_texts b = device_texts a /\ Forall (fun c => device_texts c <> device_texts a) l2 /\ merge_hwe b a = Some (rc, b')).
Proof.
  intros H [Hvalid Hdist]. inversion H as [l1 a l2 m Hn Hinv|l1 a l2 b l3 rc b' m Htexts Hn Hskip Hv Hm]; subst; clear H.
  - unfold first_part_ok. rewrite (take_app_le l1) in * by done. split; [done|left].
    unfold kept, complete. rewrite !take_app_le, !drop_app_le by done.
    rewrite !filter_app, (filter_cons_False _ a) by congruence. done.
  - assert (invalid_hwe a = false) as Ha.
    { destruct Hv as [Hlt|Hv]; [|done]. rewrite Forall_forall in Hvalid. apply Hvalid.
      apply (list_elem_of_lookup_2 _ (length l1)). by rewrite lookup_take_lt, lookup_middle. }
    assert (invalid_hwe b = false) as Hb by (by rewrite (invalid_texts _ _ Htexts)).
    assert (invalid_hwe b' = false) as Hb' by (by rewrite (invalid_texts _ _ (merge_hwe_texts _ _ _ _ Htexts Hm))).
    destruct (Nat.ltb_spec (length l1) n) as [Hlt|Hge].
    + assert (exists k, n = (length l1 + S k)%nat) as [k ->] by (exists (n - length l1 - 1)%nat; lia).
      assert (k <= length l2)%nat as Hk by lia.
      replace (length l1 + S k - 1)%nat with (length l1 + k)%nat by lia. unfold first_part_ok.
      rewrite take_app_add in *. cbn [take] in *. rewrite (take_app_le l2) in * by done.
      rewrite fmap_app, fmap_cons in *. apply NoDup_app in Hdist as (N1 & N2 & [N3 N4]%NoDup_cons).
      split; [split; [rewrite Forall_app, Forall_cons in *; tauto|]|right].
      { apply NoDup_app. split_and!; [done| |done]. intros x Hx Hx'. apply (N2 x Hx), elem_of_cons. by right. }
      unfold kept, complete. rewrite !take_app_add, !drop_app_add. cbn [take drop].
      rewrite !take_app_le, !drop_app_le, !filter_app, !(filter_cons_True _ _) by done.
      exists l1, a, (take k l2 ++ complete (drop k l2)), b, (complete l3), rc, b'. unfold complete.
      split; [by rewrite <-!app_assoc|]. split; [by rewrite <-!app_assoc|]. split; [done|]. split; [|done].
      apply Forall_app. split; apply Forall_forall; intros c Hc.
      * intros Heq. apply N3. rewrite <-Heq. by apply list_elem_of_fmap_2.
      * apply list_elem_of_filter in Hc as [_ [q Hq]%list_elem_of_lookup]. rewrite lookup_drop in Hq.
        apply (Hskip (k + q)%nat); [done|lia].
    + rewrite (take_app_le l1) in Hvalid, Hdist by done. split; [by unfold first_part_ok; rewrite take_app_le|right].
      unfold kept, complete. rewrite !(take_app_le l1), !(drop_app_le l1) by done.
      rewrite !filter_app, !(filter_cons_True _ _), !filter_app, !(filter_cons_True _ _) by done.
      exists (take n l1 ++ complete (drop n l1)), a, (complete l2), b, (complete l3), rc, b'. unfold complete.
      split; [by rewrite <-!app_assoc|]. split; [by rewrite <-!app_assoc|]. split; [done|]. split; [|done].
      apply Forall_forall. intros c [_ [q Hq]%list_elem_of_lookup]%list_elem_of_filter. apply (Hskip q); [done|lia].
Qed.

(** ** The settings of a device *)

Section Settings.
Context {A : Type}.
Variable P : block -> Prop.
Context `{forall h, Decision (P h)}.
Variable var : block -> option A.
Hypothesis P_texts : forall a b, device_texts a = device_texts b -> P a -> P b.

(** The last section for the device that sets the option decides. *)
Definition setting (hw : list block) : option A := do_set_from_vec var (filter P (reverse hw)).

(** Between two sections of the same texts, the first of which sets the option,
    no other section for the device sets it. *)
Definition no_crossing (hw : list block) : Prop := forall a c b, [a; c; b] `sublist_of` hw ->
  device_texts a = device_texts b -> device_texts c <> device_texts a -> P a -> P c -> var a <> None -> var c = None.

Lemma do_set_from_vec_app l r : do_set_from_vec var (l ++ r) = orelse (do_set_from_vec var l) (do_set_from_vec var r).
Proof using Type. induction l as [|b l IH]; cbn; [done|]. by destruct (var b). Qed.

Lemma setting_app l r : setting (l ++ r) = orelse (setting r) (setting l).
Proof using Type. unfold setting. by rewrite reverse_app, filter_app, do_set_from_vec_app. Qed.

Lemma setting_cons b l : setting (b :: l) = orelse (setting l) (if decide (P b) then var b else None).
Proof using Type.
  change (b :: l) with ([b] ++ l). rewrite setting_app. f_equal. unfold setting. cbn.
  destruct (decide (P b)) as [HP|HP]; cbn; [by destruct (var b)|done].
Qed.

Lemma setting_none l : (forall c, c ∈ l -> P c -> var c = None) -> setting l = None.
Proof using Type.
  induction l as [|c l IH]; intros Hl; [done|]. rewrite setting_cons, IH by (intros; apply Hl; [by right|done]). cbn [orelse].
  destruct (decide (P c)); [|done]. apply Hl; [by left|done].
Qed.

Lemma sublist_3 (l1 l2 l3 : list block) a c b : c ∈ l2 -> [a; c; b] `sublist_of` l1 ++ a :: l2 ++ b :: l3.
Proof using Type.
  intros Hc. apply sublist_inserts_l, sublist_skip. change ([c; b]) with ([c] ++ [b]).
  apply sublist_app; [by apply singleton_sublist_l|apply sublist_skip, sublist_nil_l].
Qed.

Lemma merge_setting l1 a l2 b l3 b' : device_texts b = device_texts a -> device_texts b' = device_texts b ->
  Forall (fun c => device_texts c <> device_texts a) l2 ->
  var b' = orelse (var b) (var a) -> no_crossing (l1 ++ a :: l2 ++ b :: l3) ->
  setting (l1 ++ l2 ++ b' :: l3) = setting (l1 ++ a :: l2 ++ b :: l3).
Proof using P_texts.
  intros Hba Hb' Hl2 Hvar HNC. rewrite !setting_app, !setting_cons, !setting_app, !setting_cons.
  destruct (setting l3); [done|]. cbn [orelse].
  destruct (decide (P b)) as [Hb|Hb].
  - rewrite decide_True by (by apply (P_texts b)). rewrite Hvar. destruct (var b); [done|]. cbn [orelse].
    rewrite (decide_True (P := P a)) by (by apply (P_texts b)).
    destruct (var a) as [x|] eqn:Ea; [|by cbn [orelse]; destruct (setting l2)]. cbn [orelse].
    rewrite (setting_none l2); [done|]. intros c Hc HPc. rewrite Forall_forall in Hl2.
    apply (HNC a c b); [by apply sublist_3|done|by apply Hl2|by apply (P_texts b)|done|congruence].
  - rewrite decide_False by (intros HP; by apply Hb, (P_texts b')).
    rewrite (decide_False (P := P a)) by (intros HP; by apply Hb, (P_texts a)). cbn [orelse]. by destruct (setting l2).
Qed.

Lemma merge_crossing l1 a l2 b l3 b' : device_texts b = device_texts a -> device_texts b' = device_texts b ->
  var b' = orelse (var b) (var a) ->
  no_crossing (l1 ++ a :: l2 ++ b :: l3) -> no_crossing (l1 ++ l2 ++ b' :: l3).
Proof using P_texts.
  intros Hba Hb' Hvar HNC x y z Hsub Hxz Hyx HPx HPy Hx.
  assert (l1 ++ l2 `sublist_of` l1 ++ a :: l2) as H12 by (apply sublist_app; [done|by apply sublist_cons]).
  assert (forall k1 k3, k1 `sublist_of` l1 ++ l2 -> k3 `sublist_of` l3 -> k1 ++ b :: k3 `sublist_of` l1 ++ a :: l2 ++ b :: l3) as HB.
  { intros k1 k3 H1 H3. change (l1 ++ a :: l2 ++ b :: l3) with (l1 ++ (a :: l2) ++ b :: l3). rewrite app_assoc.
    apply sublist_app; [by etrans|by apply sublist_skip]. }
  rewrite app_assoc in Hsub. apply sublist_app_r in Hsub as (k1 & k2 & Hk & Hk1 & Hk2).
  apply sublist_cons_r in Hk2 as [Hk2|(k3 & -> & Hk3)].
  { apply (HNC x y z); try done. rewrite Hk. change (l1 ++ a :: l2 ++ b :: l3) with (l1 ++ (a :: l2) ++ b :: l3).
    rewrite app_assoc. apply sublist_app; [by etrans|by apply sublist_cons]. }
  destruct k1 as [|x1 [|y1 [|z1 k1]]]; cbn [app] in Hk.
  - injection Hk as -> <-. destruct (var b) as [v|] eqn:Eb.
    + apply (HNC b y z); [by apply (HB [])|congruence|congruence|by apply (P_texts b')|done|congruence].
    + rewrite Hvar in Hx. cbn [orelse] in Hx.
      apply (HNC a y z); [|congruence|congruence|by apply (P_texts b'); [congruence|]|done|done].
      apply sublist_inserts_l, sublist_skip. transitivity l3; [done|]. apply sublist_inserts_l. by apply sublist_cons.
  - injection Hk as -> -> <-. assert (var b = None) as Eb by (apply (HNC x1 b z); [by apply (HB [x1] [z])|done|congruence|done|by apply (P_texts b')|done]).
    rewrite Hvar, Eb. cbn [orelse]. destruct (var a) as [v|] eqn:Ea; [exfalso|done].
    apply singleton_sublist_l, elem_of_app in Hk1 as [Hin|Hin].
    + assert (var a = None); [|congruence].
      apply (HNC x1 a z); [|done|congruence|done|by apply (P_texts b'); [congruence|]|done].
      change ([x1; a; z]) with ([x1] ++ [a; z]). apply sublist_app; [by apply singleton_sublist_l|].
      apply sublist_skip. transitivity l3; [done|]. apply sublist_inserts_l. by apply sublist_cons.
    + apply Hx. apply (HNC a x1 b); [by apply sublist_3|done|congruence|by apply (P_texts b'); [congruence|]|done|congruence].
  - injection Hk as -> -> -> <-. apply (HNC x1 y1 b); [by apply (HB [x1; y1] [])|congruence|done|done|done|done].
  - injection Hk as _ _ _ Hk. by destruct k1.
Qed.
End Settings.

Lemma fstep_plain hw n hw' n' : fstep (hw, n) (hw', n') -> Forall plain_hwe hw -> Forall plain_hwe hw'.
Proof.
  intros H Hp. inversion H as [l1 a l2 m Hn Hinv|l1 a l2 b l3 rc b' m Htexts Hn Hskip Hv Hm]; subst; clear H.
  - rewrite Forall_app, Forall_cons in Hp. rewrite Forall_app. tauto.
  - rewrite Forall_app, Forall_cons, Forall_app, Forall_cons in Hp. destruct Hp as (H1 & Ha & H2 & Hb & H3).
    destruct (merge_hwe_plain b a Hb Ha) as (b1 & Hm1 & Hb1 & _). assert (b1 = b') as -> by congruence.
    rewrite Forall_app, Forall_app, Forall_cons. tauto.
Qed.

(** An option that [merge_hwe] takes from the source when the destination does
    not have it. *)
Definition merged {A} (var : block -> option A) : Prop := forall dst src rc b, plain_hwe dst -> plain_hwe src ->
  merge_hwe dst src = Some (rc, b) -> var b = orelse (var dst) (var src).

Lemma merged_num f : f ∈ merge_hwe_nums -> merged (num_of f).
Proof.
  intros Hf dst src rc b Hd Hs Hm. destruct (merge_hwe_plain dst src Hd Hs) as (b1 & Hm1 & _ & _ & Hn).
  assert (b1 = b) as -> by congruence. by apply Hn.
Qed.

Lemma merged_str f : f ∈ merge_hwe_strs -> merged (str_of f).
Proof.
  intros Hf dst src rc b Hd Hs Hm. destruct (merge_hwe_plain dst src Hd Hs) as (b1 & Hm1 & _ & Hn & _).
  assert (b1 = b) as -> by congruence. by apply Hn.
Qed.

Lemma kept_plain n hw : Forall plain_hwe hw -> Forall plain_hwe (kept n hw).
Proof.
  intros H. unfold kept, complete. apply Forall_app. split; [by apply Forall_take|].
  apply Forall_forall. intros x [_ Hx]%list_elem_of_filter. eapply (proj1 (Forall_forall _ _) (Forall_drop _ _ _ H)). exact Hx.
Qed.

Lemma fstep_setting {A} (P : block -> Prop) `{forall h, Decision (P h)} (var : block -> option A) hw n hw' n' :
  (forall a b, device_texts a = device_texts b -> P a -> P b) -> merged var ->
  fstep (hw, n) (hw', n') -> Forall plain_hwe hw -> first_part_ok n hw -> no_crossing P var (kept n hw) ->
  no_crossing P var (kept n' hw') /\ setting P var (kept n' hw') = setting P var (kept n hw).
Proof.
  intros HP Hvar Hstep Hplain Hok HNC. apply (kept_plain n) in Hplain.
  destruct (fstep_kept _ _ _ _ Hstep Hok) as [_ [->|(l1 & a & l2 & b & l3 & rc & b' & Hk & Hk' & Hba & Hl2 & Hm)]]; [done|].
  rewrite Hk in *. rewrite Hk'. rewrite !Forall_app, !Forall_cons, !Forall_app, !Forall_cons in Hplain.
  assert (var b' = orelse (var b) (var a)) as Hb by (apply (Hvar b a rc); tauto).
  pose proof (merge_hwe_texts _ _ _ _ Hba Hm) as Htexts. split.
  - by apply (merge_crossing P var HP l1 a l2 b l3 b').
  - by apply (merge_setting P var HP l1 a l2 b l3 b').
Qed.

Lemma fsteps_keep hw n hw' n' : rtc fstep (hw, n) (hw', n') -> Forall plain_hwe hw -> first_part_ok n hw ->
  Forall plain_hwe hw' /\ first_part_ok n' hw'.
Proof.
  intros Hs. remember (hw, n) as s0. remember (hw', n') as s1. revert hw n Heqs0.
  induction Hs as [s|s [hw1 n1] s' Hstep Hs IH]; intros hw n ->; [by simplify_eq|].
  intros Hp Hok. apply (IH Heqs1 hw1 n1 eq_refl); [by eapply fstep_plain|by apply (fstep_kept hw n)].
Qed.

Lemma fsteps_setting {A} (P : block -> Prop) `{forall h, Decision (P h)} (var : block -> option A) hw n hw' n' :
  (forall a b, device_texts a = device_texts b -> P a -> P b) -> merged var ->
  rtc fstep (hw, n) (hw', n') -> Forall plain_hwe hw -> first_part_ok n hw -> no_crossing P var (kept n hw) ->
  setting P var (kept n' hw') = setting P var (kept n hw).
Proof.
  intros HP Hvar Hs. remember (hw, n) as s0. remember (hw', n') as s1. revert hw n Heqs0.
  induction Hs as [s|s [hw1 n1] s' Hstep Hs IH]; intros hw n ->; [by simplify_eq|].
  intros Hp Hok HNC. destruct (fstep_setting P var hw n hw1 n1 HP Hvar Hstep Hp Hok HNC) as [HNC1 <-].
  apply (IH Heqs1 hw1 n1 eq_refl); [by eapply fstep_plain|by apply (fstep_kept hw n)|done].
Qed.

Section Factorize.
Variable regcomp : cstr -> option (cstr -> bool).

Lemma regmatch_texts v p r a b : device_texts a = device_texts b ->
  hwe_regmatch regcomp a v p r = 0 -> hwe_regmatch regcomp b v p r = 0.
Proof. intros [= Hv Hp Hr]. unfold hwe_regmatch. by rewrite Hv, Hp, Hr. Qed.

Lemma ordered_table hw n : (n <= length hw)%nat -> first_part_ok n hw -> (forall i, (i < length hw)%nat -> in_order hw n i) ->
  Forall (fun h => invalid_hwe h = false) hw /\ NoDup (device_texts <$> hw) /\ kept n hw = hw.
Proof.
  intros Hn [Hv Hd] Hord.
  assert (Forall (fun h => invalid_hwe h = false) (drop n hw)) as Hrest.
  { apply Forall_lookup. intros i a Ha. rewrite lookup_drop in Ha.
    apply (Hord (n + i)%nat (lookup_lt_Some _ _ _ Ha) a Ha). lia. }
  split; [rewrite <-(take_drop n hw); by apply Forall_app|]. split.
  - apply NoDup_alt. intros i j t Hi Hj. rewrite list_lookup_fmap in Hi, Hj.
    destruct (hw !! i) as [a|] eqn:Ea; [|done]. destruct (hw !! j) as [b|] eqn:Eb; [|done].
    apply (inj Some) in Hi, Hj.
    assert (forall i j a b, hw !! i = Some a -> hw !! j = Some b -> (i < j)%nat -> device_texts b <> device_texts a) as Hne.
    { clear -Hord Hd. intros i j a b Ha Hb Hij Heq. destruct (decide (n <= j)%nat) as [Hnj|Hnj].
      - by apply (Hord i (lookup_lt_Some _ _ _ Ha) a Ha) with (j := j) (b := b).
      - rewrite NoDup_alt in Hd. assert (i = j) as ->; [|lia]. apply (Hd i j (device_texts a)).
        + by rewrite list_lookup_fmap, lookup_take_lt, Ha by lia.
        + rewrite list_lookup_fmap, lookup_take_lt, Hb by lia. cbn. by rewrite Heq. }
    destruct (lt_eq_lt_dec i j) as [[Hlt|?]|Hlt]; [|done|].
    + destruct (Hne i j a b Ea Eb Hlt). congruence.
    + destruct (Hne j i b a Eb Ea Hlt). congruence.
  - unfold kept, complete. clear -Hrest. rewrite <-(take_drop n hw) at 3. f_equal.
    induction Hrest as [|h l Hh _ IH]; [done|]. rewrite filter_cons_True by done. by rewrite IH.
Qed.


End Factorize.

(** A section of the built-in table and three of a file, one of them not
    complete. *)
Definition device_section (v p : string) (nums : list (string * Z)) (strs : list (string * string)) : block :=
  foldr (fun x b => set_num (fst x) (snd x) b)
    (foldr (fun x b => set_string (fst x) (Some (s (snd x))) b) zero_block ([("vendor", v); ("product", p)]%string ++ strs)) nums.

Definition table_sample : list block :=
  [device_section "HP" "MSA" [("minio", 100); ("pgpolicy", 2)]%string [("prio_name", "alua")]%string;
   device_section "IBM" "2145" [("minio", 7)]%string [];
   set_string "vendor" (Some (s "EMC")) zero_block;
   device_section "HP" "MSA" [("pgpolicy", 1)]%string [("features", "0")]%string].

(** Regular expressions without special characters. *)
Definition literal_regcomp (p : cstr) : option (cstr -> bool) := Some (fun v => has_strstr v p).

Definition crossing_check (P : block -> bool) (hw : list block) : bool :=
  forallb (fun a => forallb (fun c => negb (P a && P c && bool_decide (device_texts c <> device_texts a))) hw) hw.

Lemma no_crossing_check {A} (P : block -> Prop) `{forall h, Decision (P h)} (var : block -> option A) hw :
  crossing_check (fun h => bool_decide (P h)) hw = true -> no_crossing P var hw.
Proof.
  intros Hc a c b Hs _ Hne Ha HPc _. exfalso.
  assert (forall x, x ∈ [a; c; b] -> x ∈ hw) as Hin by (intros x Hx; by eapply elem_of_submseteq, sublist_submseteq).
  unfold crossing_check in Hc. rewrite forallb_forall in Hc.
  specialize (Hc a ltac:(apply list_elem_of_In, Hin; set_solver)). rewrite forallb_forall in Hc.
  specialize (Hc c ltac:(apply list_elem_of_In, Hin; set_solver)).
  by rewrite !bool_decide_true in Hc by done.
Qed.

Definition plain_hwe_check (b : block) : bool :=
  bool_decide (Forall (fun f => str b f <> Some []) merge_hwe_strs) &&
  match str b "features" with Some fs => negb (has_strstr fs q_i_n_p) && negb (has_strstr fs r_a_h_h) | None => true end.

Lemma plain_hwe_checked l : forallb plain_hwe_check l = true -> Forall plain_hwe l.
Proof.
  rewrite forallb_forall, Forall_forall. intros H b Hb%list_elem_of_In. specialize (H b Hb).
  apply andb_true_iff in H as [H1%bool_decide_eq_true H2]. split; [done|]. destruct (str b "features"); [|done].
  by apply andb_true_iff in H2 as [H2%negb_true_iff H3%negb_true_iff].
Qed.

Lemma table_sample_ok : Forall plain_hwe table_sample /\ first_part_ok 1 table_sample.
Proof. split; [by apply plain_hwe_checked|]. split; [by repeat constructor|decide_closed]. Qed.


(** With a section in between, an attribute of an earlier duplicate wins over a
    later section, where the manual gives later sections precedence. *)
Example earlier_wins :
  let hw := [device_section "HP" "MSA" [("minio", 100)]%string []; device_section "HP" "MSA2" [("minio", 7)]%string [];
             device_section "HP" "MSA" [("pgpolicy", 1)]%string []] in
  let look hw := do_set_from_vec (num_of "minio") (find_hwe literal_regcomp hw (Some (s "HP")) (Some (s "MSA2040")) None) in
  match factorize_hwtable hw 0 with
  | Some (Some (hw', _)) => (look hw, look hw') = (Some 7, Some 100)
  | _ => False
  end.
Proof. vm_compute. reflexivity. Qed.

(** An empty string makes the merging stop: what follows it in the duplicate is
    lost. *)
Example empty_string_loses :
  let hw := [device_section "HP" "MSA" [("minio", 100)]%string [("hwhandler", EmptyString)]%string;
             device_section "HP" "MSA" [("pgpolicy", 1)]%string []] in
  match factorize_hwtable hw 0 with
  | Some (Some ([h], 0%nat)) => (num h "minio", num h "pgpolicy") = (0, 1)
  | _ => False
  end.
Proof. vm_compute. reflexivity. Qed.
