(* ===== verification/Load.v ===== *)
(** * libmultipath/config.c: loading the configuration

    [load_config] with the files it reads, and what can be said of its result.
    Memory is assumed to last. *)

From S2P Require Import Prelude CString Util Structs File Parser Conf Blacklist Pgpolicies Options Dict Propsel Config.

(** ** Defaults *)

Definition DEFAULT_VERBOSITY : Z := 2.
Definition DEFAULT_CHECKINT : Z := 5.
Definition DEFAULT_RETRIGGER_DELAY : Z := 10.
Definition DEFAULT_RETRIGGER_TRIES : Z := 3.
Definition DEFAULT_UEV_WAIT_TIMEOUT : Z := 30.
Definition DEFAULT_FIND_MULTIPATHS : Z := FIND_MULTIPATHS_STRICT.
Definition DEFAULT_BINDINGS_FILE : cstr := s "/etc/multipath/bindings".
Definition DEFAULT_WWIDS_FILE : cstr := s "/etc/multipath/wwids".
Definition DEFAULT_PRKEYS_FILE : cstr := s "/etc/multipath/prkeys".
Definition DEFAULT_CONFIG_DIR : cstr := s "/etc/multipath/conf.d".

(** The value of [WATCHDOG_USEC]. *)
Definition set_max_checkint_from_watchdog (watchdog : option cstr) (conf : config) : config :=
  match watchdog ≫= strtoul10 with
  | None => conf
  | Some (usec, _) =>
      let checkint := usec / 1000000 in
      if (checkint <? 1) || (UINT_MAX <? checkint) then conf
      else
        let m := num (opts conf) "max_checkint" in
        let conf := if (m =? 0) || (checkint <? m) then conf <| opts ::= set_num "max_checkint" checkint |> else conf in
        conf <| opts ::= set_num "use_watchdog" 1 |>
  end.

(** The polling intervals that were not configured. *)
Definition fill_checkint (checkint max_checkint : Z) : Z * Z :=
  if max_checkint =? 0 then
    let c := if checkint =? CHECKINT_UNDEF then DEFAULT_CHECKINT else checkint in
    (c, if c <? UINT_MAX / 4 then c * 4 else UINT_MAX)
  else if checkint =? CHECKINT_UNDEF then (if 4 <=? max_checkint then max_checkint / 4 else 1, max_checkint)
  else if max_checkint <? checkint then (max_checkint, max_checkint)
  else (checkint, max_checkint).

Definition fill_intervals (conf : config) : config :=
  let '(c, m) := fill_checkint (num (opts conf) "checkint") (num (opts conf) "max_checkint") in
  conf <| opts := set_num "max_checkint" m (set_num "checkint" c (opts conf)) |>.

(** Missing lists become empty. *)
Definition alloc_lists (conf : config) : config :=
  conf <| blist_devnode ::= alloc_table |> <| blist_wwid ::= alloc_table |> <| blist_device ::= alloc_table |>
       <| blist_property ::= alloc_table |> <| blist_protocol ::= alloc_table |>
       <| elist_devnode ::= alloc_table |> <| elist_wwid ::= alloc_table |> <| elist_device ::= alloc_table |>
       <| elist_property ::= alloc_table |> <| elist_protocol ::= alloc_table |>.

(** The lists of protocols are not merged. *)
Definition merge_lists (conf : config) : config :=
  conf <| blist_devnode ::= option_map merge_blacklist |> <| blist_property ::= option_map merge_blacklist |>
       <| blist_wwid ::= option_map merge_blacklist |> <| blist_device ::= option_map merge_blacklist_device |>
       <| elist_devnode ::= option_map merge_blacklist |> <| elist_property ::= option_map merge_blacklist |>
       <| elist_wwid ::= option_map merge_blacklist |> <| elist_device ::= option_map merge_blacklist_device |>.

(** The end of a name after its last dot, with the dot. *)
Definition has_conf_suffix (name : cstr) : bool :=
  match strrchr 46 name with Some i => streq (drop i name) (s ".conf") | None => false end.

Section Load.
Variable regcomp : cstr -> option (cstr -> bool).
Variable nr_open : option cstr.                       (* the text of /proc/sys/fs/nr_open *)
Variable getpwnam : cstr -> option (Z * Z).           (* uid and gid *)
Variable default_hw : list block.                     (* the table of hwtable.c *)
Variable multipathdir : cstr.                         (* DEFAULT_MULTIPATHDIR of the build *)
Variable watchdog : option cstr.                      (* the environment variable WATCHDOG_USEC *)
Variable config_dir_files : cstr -> list (cstr * option cstr). (* scandir(): names and texts, sorted *)

Definition keywords : list (keyword config data) := init_keywords regcomp nr_open getpwnam.

Definition default_opts : block :=
  let b := set_num "verbosity" DEFAULT_VERBOSITY zero_block in
  let b := set_num "max_fds" (default 0 (snd (get_sys_max_fds nr_open))) b in
  let b := set_string "bindings_file" (Some DEFAULT_BINDINGS_FILE) b in
  let b := set_string "wwids_file" (Some DEFAULT_WWIDS_FILE) b in
  let b := set_string "prkeys_file" (Some DEFAULT_PRKEYS_FILE) b in
  let b := set_string "multipath_dir" (Some multipathdir) b in
  let b := set_num "checkint" CHECKINT_UNDEF b in
  let b := set_num "find_multipaths" DEFAULT_FIND_MULTIPATHS b in
  let b := set_num "uxsock_timeout" DEFAULT_REPLY_TIMEOUT b in
  let b := set_num "retrigger_tries" DEFAULT_RETRIGGER_TRIES b in
  let b := set_num "retrigger_delay" DEFAULT_RETRIGGER_DELAY b in
  let b := set_num "uev_wait_timeout" DEFAULT_UEV_WAIT_TIMEOUT b in
  let b := set_num "ghost_delay" DEFAULT_GHOST_DELAY b in
  set_num "all_tg_pt" DEFAULT_ALL_TG_PT b.

(** [None]: removing a feature overflows (or the fuel is out, which
    [factorize_ends] excludes). *)
Definition merge_new (conf : config) (old_hwtable_size : nat) : option config :=
  res ← factorize_hwtable (default [] (hwtable conf)) old_hwtable_size;
  '(hw, _) ← res; Some (conf <| hwtable := Some hw |>).

Fixpoint process_config_files (conf : config) (files : list (cstr * option cstr)) : option config :=
  match files with
  | [] => Some conf
  | (name, text) :: files =>
      if negb (has_conf_suffix name) then process_config_files conf files
      else
        let old_hwtable_size := length (default [] (hwtable conf)) in
        '(_, conf) ← process_file keywords conf text;
        conf ← merge_new conf old_hwtable_size;
        process_config_files conf files
  end.

(** A relative directory is refused with a message. *)
Definition process_config_dir (conf : config) (dir : cstr) : option config :=
  match dir with
  | 47 :: _ => process_config_files conf (config_dir_files dir)
  | _ => Some conf
  end.

Definition set_default_str (f : string) (v : cstr) (conf : config) : config :=
  match str (opts conf) f with None => conf <| opts ::= set_string f (Some v) |> | Some _ => conf end.

(** What is done when the files have been read: [None] is comparing a missing
    WWID, [Some None] a NULL configuration. *)
Definition finish_config (conf : config) : option (option config) :=
  let conf := alloc_lists (fill_intervals (set_max_checkint_from_watchdog watchdog conf)) in
  let '(r, conf) := setup_default_blist regcomp conf in
  if negb (r =? 0) then Some None
  else
    mp ← merge_mptable (length (default [] (mptable conf))) (default [] (mptable conf));
    let conf := set_default_str "bindings_file" DEFAULT_BINDINGS_FILE (merge_lists (conf <| mptable := Some mp |>)) in
    Some (if forallb (fun f => bool_decide (is_Some (str (opts conf) f))) ["multipath_dir"; "wwids_file"; "prkeys_file"]%string
          then Some conf else None).

(** The main file: [Some None] when it cannot be read. *)
Definition load_main (conf : config) (file : option cstr) : option (option config) :=
  match file with
  | None => Some (Some conf)
  | Some text =>
      let builtin_hwtable_size := length (default [] (hwtable conf)) in
      '(r, conf) ← process_file keywords conf (Some text);
      if negb (r =? 0) then Some None else conf ← merge_new conf builtin_hwtable_size; Some (Some conf)
  end.

(** [None]: an operation without a meaning happens on the way.  [file] is
    [None] when it is not there. *)
Definition load_config (file : option cstr) : option (option config) :=
  let '(r, hw) := setup_default_hwtable [] default_hw in
  if negb (r =? 0) then Some None
  else
    loaded ← load_main (zero_config <| opts := default_opts |> <| hwtable := Some hw |>) file;
    match loaded with
    | None => Some None
    | Some conf =>
        let conf := conf <| opts ::= set_num "processed_main_config" 1 |> in
        let conf := set_default_str "config_dir" DEFAULT_CONFIG_DIR conf in
        conf ← match str (opts conf) "config_dir" with
               | Some ((_ :: _) as dir) => process_config_dir conf dir
               | _ => Some conf
               end;
        finish_config conf
    end.

End Load.

(** ** Merging keeps the types *)

Lemma merge_strs_num fs dst src : num (snd (merge_strs fs dst src)) = num dst.
Proof.
  revert dst. induction fs as [|f fs IH]; intros dst; [done|]. cbn [merge_strs].
  assert (num (snd (merge_str f dst src)) = num dst) as H.
  { unfold merge_str. destruct (str dst f); [done|]. by destruct (str src f) as [[|]|]. }
  destruct (merge_str f dst src) as [rc b]. cbn [snd] in H. destruct (rc =? 0); [by rewrite IH|done].
Qed.

Lemma merge_strs_typed fs dst src : typed_block dst -> typed_block (snd (merge_strs fs dst src)).
Proof. intros Hd f. rewrite merge_strs_num. apply Hd. Qed.

Lemma merge_nums_typed fs dst src : typed_block dst -> typed_block src -> typed_block (merge_nums fs dst src).
Proof.
  intros Hd Hs f. destruct (merge_nums_spec fs dst src) as [_ Hn]. rewrite Hn.
  destruct (_ && _); [apply Hs|apply Hd].
Qed.

Lemma reconcile_range fs npr rh fs' npr' rh' : reconcile_features_with_options fs npr rh = Some (fs', npr', rh') ->
  npr' ∈ [npr; NO_PATH_RETRY_QUEUE] /\ rh' ∈ [rh; RETAIN_HWHANDLER_ON].
Proof.
  unfold reconcile_features_with_options. destruct fs as [x|]; [|intros [= <- <- <-]; set_solver].
  intros H. destruct (has_strstr x q_i_n_p).
  - destruct (remove_feature (Some x) (Some q_i_n_p)) as [[r1 f1]|]; [|done]. cbn [mbind option_bind] in H.
    destruct (has_strstr _ r_a_h_h); [destruct (remove_feature f1 (Some r_a_h_h)) as [[r2 f2]|]; [|done]; cbn [mbind option_bind] in H|];
      injection H as <- <- <-; repeat case_match; set_solver.
  - cbn [mbind option_bind] in H.
    destruct (has_strstr _ r_a_h_h); [destruct (remove_feature _ (Some r_a_h_h)) as [[r2 f2]|]; [|done]; cbn [mbind option_bind] in H|];
      injection H as <- <- <-; repeat case_match; set_solver.
Qed.

Lemma merge_hwe_typed dst src rc b : typed_block dst -> typed_block src -> merge_hwe dst src = Some (rc, b) -> typed_block b.
Proof.
  intros Hd Hs. unfold merge_hwe. pose proof (merge_strs_typed merge_hwe_strs dst src Hd) as H1.
  destruct (merge_strs merge_hwe_strs dst src) as [rc1 b1]. cbn [snd] in H1.
  destruct (negb (rc1 =? 0)); [by intros [= _ <-]|].
  pose proof (merge_nums_typed merge_hwe_nums b1 src H1 Hs) as H2. set (b2 := merge_nums _ b1 src) in *. clearbody b2.
  destruct (reconcile_features_with_options _ _ _) as [[[fs npr] rh]|] eqn:E; [|done]. intros [= _ <-].
  apply reconcile_range in E as [Hn Hr]. apply typed_set_num; [apply typed_set_num; [by apply typed_set_string|]|].
  - apply elem_of_cons in Hn as [->|Hn%list_elem_of_singleton]; [apply H2|rewrite Hn; const_range].
  - apply elem_of_cons in Hr as [->|Hr%list_elem_of_singleton]; [apply H2|rewrite Hr; const_range].
Qed.

Lemma merge_mpe_typed dst src : typed_block dst -> typed_block src -> typed_block (snd (merge_mpe dst src)).
Proof.
  intros Hd Hs. unfold merge_mpe. pose proof (merge_strs_typed merge_mpe_strs dst src Hd) as H1.
  destruct (merge_strs merge_mpe_strs dst src) as [rc1 b1]. cbn [snd] in H1.
  destruct (negb (rc1 =? 0)); [done|]. cbn [snd]. apply merge_nums_typed; [|done].
  destruct (_ && _); [|done]. repeat apply typed_set_num; auto.
Qed.

(** ** Factorizing ends *)

(** [merge_hwe] fails on sections of the kind the table had, or the sections of
    the result are of that kind. *)
Lemma factorize_loop_keeps (P : block -> Prop) fuel hw n i :
  (forall dst src rc b, P dst -> P src -> merge_hwe dst src = Some (rc, b) -> P b) -> Forall P hw ->
  (i <= length hw)%nat -> (length hw * S (length hw) + (length hw - i) + 1 <= fuel)%nat ->
  match factorize_loop fuel hw n i with
  | None => False
  | Some None => exists a b, P a /\ P b /\ merge_hwe b a = None
  | Some (Some (hw', _)) => Forall P hw'
  end.
Proof.
  intros HP. revert hw n i. induction fuel as [|fuel IH]; intros hw n i Hhw Hi Hf; [lia|]. cbn [factorize_loop].
  destruct (hw !! i) as [a|] eqn:Ha; [|done]. pose proof (lookup_lt_Some _ _ _ Ha) as Hlt.
  assert (length (delete i hw) = length hw - 1)%nat as Hdel by (apply length_delete; by exists a).
  destruct (_ && _); [apply IH; [by apply Forall_delete|lia|nia]|].
  set (j := if (i + 1 <? n)%nat then n else (i + 1)%nat). pose proof (find_dup_spec a (drop j hw) j) as Hdup.
  destruct (find_dup a (drop j hw) j) as [k|]; [|apply IH; [done|lia|lia]].
  destruct Hdup as (l1 & b & l3 & Hdrop & -> & _).
  assert (hw !! (j + length l1)%nat = Some b) as Hb by by rewrite <-lookup_drop, Hdrop, lookup_middle.
  rewrite (list_lookup_total_correct _ _ _ Hb). rewrite Forall_lookup in Hhw.
  destruct (merge_hwe b a) as [[rc b']|] eqn:Hm; [|exists a, b; eauto].
  assert (length (delete i (<[(j + length l1)%nat := b']> hw)) = length hw - 1)%nat as Hlen.
  { rewrite length_delete, length_insert; [done|]. apply lookup_lt_is_Some. by rewrite length_insert. }
  apply IH; [|lia|nia]. apply Forall_delete, Forall_insert; [by apply Forall_lookup|]. eapply (HP b a); eauto.
Qed.

Lemma factorize_keeps (P : block -> Prop) hw n :
  (forall dst src rc b, P dst -> P src -> merge_hwe dst src = Some (rc, b) -> P b) -> Forall P hw ->
  match factorize_hwtable hw n with
  | None => False
  | Some None => exists a b, P a /\ P b /\ merge_hwe b a = None
  | Some (Some (hw', _)) => Forall P hw'
  end.
Proof. intros HP Hhw. apply factorize_loop_keeps; [done|done|lia|lia]. Qed.

(** ** The multipath sections *)

Lemma merge_into_spec mp1 rest r : merge_into mp1 rest = Some r ->
  match r with
  | None => Forall (fun mp => is_Some (str mp "wwid") /\ str mp "wwid" <> str mp1 "wwid") rest
  | Some rest' => is_Some (str mp1 "wwid") /\ exists l1 mp l2, rest = l1 ++ mp :: l2 /\
      rest' = l1 ++ snd (merge_mpe mp mp1) :: l2 /\ str mp "wwid" = str mp1 "wwid"
  end.
Proof.
  revert r. induction rest as [|mp2 rest IH]; intros r; cbn [merge_into]; [by intros [= <-]|].
  destruct (str mp1 "wwid") as [w1|] eqn:E1; [|done]. destruct (str mp2 "wwid") as [w2|] eqn:E2; [|done].
  destruct (streq w1 w2) eqn:Ew.
  - apply streq_eq in Ew as <-. intros [= <-]. split; [done|]. by exists [], mp2, rest.
  - destruct (merge_into mp1 rest) as [r'|] eqn:E; [|done]. cbn [mbind option_bind]. intros [= <-].
    specialize (IH r' eq_refl). destruct r' as [rest'|]; cbn [option_map].
    + destruct IH as (_ & l1 & mp & l2 & -> & -> & H). split; [done|]. by exists (mp2 :: l1), mp, l2.
    + constructor; [|done]. rewrite E2. split; [done|]. intros [= ->]. by rewrite (proj2 (streq_eq w1 w1)) in Ew.
Qed.

Lemma merge_strs_other fs g dst src : g ∉ fs -> str (snd (merge_strs fs dst src)) g = str dst g.
Proof.
  revert dst. induction fs as [|f fs IH]; intros dst Hg; [done|]. apply not_elem_of_cons in Hg as [Hne Hg]. cbn [merge_strs].
  assert (str (snd (merge_str f dst src)) g = str dst g) as H.
  { unfold merge_str. destruct (str dst f); [done|]. destruct (str src f) as [[|]|]; [done| |done]. cbn [snd set_param_str]. by rewrite str_set_ne. }
  destruct (merge_str f dst src) as [rc b]. cbn [snd] in H. destruct (rc =? 0); [by rewrite IH|done].
Qed.

Lemma merge_mpe_wwid dst src : str (snd (merge_mpe dst src)) "wwid" = str dst "wwid".
Proof.
  unfold merge_mpe. assert (str (snd (merge_strs merge_mpe_strs dst src)) "wwid" = str dst "wwid") as H1.
  { apply merge_strs_other. decide_closed. }
  destruct (merge_strs merge_mpe_strs dst src) as [rc1 b1]. cbn [snd] in H1.
  destruct (negb (rc1 =? 0)); [done|]. cbn [snd].
  rewrite (proj1 (merge_nums_spec merge_mpe_nums _ src)). by destruct (_ && _).
Qed.

Abbreviation wwids_of := (fmap (fun mp => str mp "wwid")).

Lemma merge_mptable_spec fuel l : (length l <= fuel)%nat -> Forall typed_block l ->
  match merge_mptable fuel l with
  | None => exists mp, mp ∈ l /\ str mp "wwid" = None
  | Some r => NoDup (wwids_of r) /\ Forall typed_block r /\ forall w, w ∈ wwids_of r <-> w ∈ wwids_of l
  end.
Proof.
  revert l. induction fuel as [|fuel IH]; intros [|mp1 rest] Hlen Ht; try (cbn in Hlen; lia); try (by repeat constructor).
  cbn [merge_mptable]. apply Forall_cons in Ht as [Ht1 Ht]. cbn in Hlen.
  destruct (merge_into mp1 rest) as [m|] eqn:E; cbn [mbind option_bind].
  - pose proof (merge_into_spec mp1 rest m E) as Hm. destruct m as [rest'|].
    + destruct Hm as (_ & l1 & mp & l2 & -> & -> & Hw). apply Forall_app in Ht as [H1 [Hmp H2]%Forall_cons].
      set (mp' := snd (merge_mpe mp mp1)). assert (Forall typed_block (l1 ++ mp' :: l2)) as Ht'.
      { apply Forall_app. split; [done|]. constructor; [by apply merge_mpe_typed|done]. }
      assert (str mp' "wwid" = str mp "wwid") as Hw' by apply merge_mpe_wwid.
      specialize (IH (l1 ++ mp' :: l2) ltac:(rewrite length_app in *; cbn in *; lia) Ht').
      destruct (merge_mptable fuel (l1 ++ mp' :: l2)) as [r|].
      * destruct IH as (I1 & I2 & I3). split; [done|]. split; [done|]. intros w. rewrite I3.
        rewrite fmap_cons, !fmap_app, !fmap_cons, Hw', <-Hw. set_solver.
      * destruct IH as (x & Hx & Hn). apply elem_of_app in Hx as [Hx|[->|Hx]%elem_of_cons].
        -- exists x. split; [set_solver|done].
        -- exists mp. split; [set_solver|congruence].
        -- exists x. split; [set_solver|done].
    + specialize (IH rest ltac:(lia) Ht). destruct (merge_mptable fuel rest) as [r|]; cbn [mbind option_bind].
      * destruct IH as (I1 & I2 & I3). rewrite !fmap_cons. split; [|split; [by constructor|intros w; rewrite !elem_of_cons, I3; done]].
        constructor; [|done]. rewrite I3. intros (x & Hx & Hin)%list_elem_of_fmap.
        rewrite Forall_forall in Hm. by destruct (Hm x Hin) as [_ Hne].
      * destruct IH as (x & Hx & Hn). exists x. split; [by right|done].
  - clear IH. induction rest as [|mp2 rest IHr]; [done|]. cbn [merge_into] in E.
    destruct (str mp1 "wwid") as [w1|] eqn:E1; [|exists mp1; split; [by left|done]].
    destruct (str mp2 "wwid") as [w2|] eqn:E2; [|exists mp2; split; [set_solver|done]].
    destruct (streq w1 w2); [done|]. destruct (merge_into mp1 rest) as [m|] eqn:Em; [done|].
    apply Forall_cons in Ht as [_ Ht]. cbn in Hlen. destruct IHr as (x & Hx & Hn); [lia|done|done|].
    exists x. split; [set_solver|done].
Qed.

(** ** The lists of the blacklist *)

Lemma merge_blacklist_compiled l : Forall compiled_ble (default [] l) -> Forall compiled_ble (default [] (option_map merge_blacklist l)).
Proof.
  destruct l as [l|]; [|done]. cbn. rewrite !Forall_forall. intros H x Hx. apply H. by apply elem_merge_loop in Hx.
Qed.

Lemma alloc_lists_typed conf : typed_config conf -> typed_config (alloc_lists conf).
Proof. intros [H1 H2 H3 H4 H5]. split; try done. rewrite !Forall_cons in *. cbn. tauto. Qed.

Lemma merge_lists_typed conf : typed_config conf -> typed_config (merge_lists conf).
Proof.
  intros [H1 H2 H3 H4 H5]. split; try done. rewrite !Forall_cons in *. cbn.
  repeat split; try done; try apply merge_blacklist_compiled; tauto.
Qed.

(** The parts that are not blacklists. *)
Definition same_tables (c c' : config) : Prop := opts c' = opts c /\ mptable c' = mptable c /\ hwtable c' = hwtable c.

Definition text_lists (c : config) : list (option (list blentry)) :=
  [blist_devnode c; blist_wwid c; blist_property c; blist_protocol c;
   elist_devnode c; elist_wwid c; elist_property c; elist_protocol c].
Definition lists_there (c : config) : Prop := Forall is_Some (text_lists c).

Lemma setup_default_blist_typed regcomp conf r conf' :
  typed_config conf -> lists_there conf ->
  setup_default_blist regcomp conf = (r, conf') -> typed_config conf' /\ same_tables conf conf' /\ lists_there conf'.
Proof.
  intros Hc Hthere. unfold lists_there, text_lists in Hthere. rewrite !Forall_cons in Hthere.
  destruct Hthere as ([l1 E1] & Y1 & Y2 & Y3 & Y4 & Y5 & [l2 E2] & Y6 & _). unfold setup_default_blist. pose proof (typed_blists _ Hc) as Hb.
  rewrite !Forall_cons in Hb. destruct Hb as (B1 & B2 & B3 & B4 & X1 & X2 & X3 & X4 & _). rewrite E1, E2 in *.
  destruct (store_ble regcomp (Some l1) _ _) as [r1 m1] eqn:S1. apply store_ble_compiled in S1 as (k1 & -> & K1); [|done].
  destruct Hc as [H1 H2 H3 H4 _].
  destruct (r1 =? 1).
  { intros [= _ <-]. split; [|split; [done|]].
    - split; try done. cbn. rewrite E2. by repeat constructor.
    - unfold lists_there, text_lists. cbn. rewrite E2. by repeat constructor. }
  change (elist_property (conf <| blist_devnode := Some k1 |>)) with (elist_property conf). rewrite E2.
  destruct (store_ble regcomp (Some l2) _ _) as [r2 m2] eqn:S2.
  apply store_ble_compiled in S2 as (k2 & -> & K2); [|done].
  destruct (r2 =? 1); [|destruct (default_devices _ _ _) as [r3 m3]]; intros [= _ <-];
    (split; [split; try done; cbn|split; [done|unfold lists_there, text_lists; cbn]]); by repeat constructor.
Qed.

(** ** The result of loading *)

Section Loaded.
Variable regcomp : cstr -> option (cstr -> bool).
Variable nr_open : option cstr.
Variable getpwnam : cstr -> option (Z * Z).
Variable default_hw : list block.
Variable multipathdir : cstr.
Variable watchdog : option cstr.
Variable config_dir_files : cstr -> list (cstr * option cstr).
Hypothesis default_typed : Forall typed_block default_hw.

(** The operations without a meaning that loading can come to. *)
Definition undefined_merge (conf : config) : Prop :=
  (exists a b, typed_block a /\ typed_block b /\ merge_hwe b a = None) \/
  (exists mp, mp ∈ default [] (mptable conf) /\ str mp "wwid" = None).

Lemma copy_strs_typed fs b d b' : typed_block b -> copy_strs fs b d = Some b' -> typed_block b'.
Proof.
  revert b. induction fs as [|f fs IH]; intros b Hb; cbn [copy_strs]; [by intros [= <-]|].
  destruct (str d f) as [v|]; [|by apply IH]. destruct (set_param_str (Some v)) as [x|]; [|done].
  cbn [mbind option_bind]. apply IH. by apply typed_set_string.
Qed.

Lemma copy_nums_typed fs b d : typed_block b -> typed_block d -> typed_block (copy_nums fs b d).
Proof. revert b. induction fs as [|f fs IH]; intros b Hb Hd; [done|]. apply IH; [|done]. apply typed_set_num; auto. Qed.

Lemma store_hwe_typed hw d r hw' : Forall typed_block hw -> typed_block d -> store_hwe hw d = (r, hw') -> Forall typed_block hw'.
Proof.
  intros Hh Hd. unfold store_hwe. case_bool_decide; [by intros [= _ <-]|].
  destruct (str d "vendor") as [v|]; [|by intros [= _ <-]]. cbn [mbind option_bind].
  destruct (set_param_str (Some v)) as [v1|]; [|by intros [= _ <-]]. cbn [mbind option_bind].
  destruct (str d "product") as [p|]; [|by intros [= _ <-]]. cbn [mbind option_bind].
  destruct (set_param_str (Some p)) as [p1|]; [|by intros [= _ <-]]. cbn [mbind option_bind].
  set (b0 := set_string "product" _ _). assert (typed_block b0) as H0 by (by repeat apply typed_set_string; apply typed_zero_block).
  clearbody b0. destruct (copy_strs store_hwe_strs b0 d) as [b1|] eqn:E1; [|by intros [= _ <-]]. cbn [mbind option_bind].
  destruct (copy_strs _ (copy_nums store_hwe_nums b1 d) d) as [b2|] eqn:E2; [|by intros [= _ <-]].
  intros [= _ <-]. apply Forall_app. split; [done|]. constructor; [|done].
  eapply copy_strs_typed; [|exact E2]. apply copy_nums_typed; [|done]. by eapply copy_strs_typed.
Qed.

Lemma setup_default_hwtable_typed hw ds r hw' : Forall typed_block hw -> Forall typed_block ds ->
  setup_default_hwtable hw ds = (r, hw') -> Forall typed_block hw'.
Proof.
  revert hw r. induction ds as [|d ds IH]; intros hw r Hh Hds; cbn [setup_default_hwtable]; [by intros [= _ <-]|].
  apply Forall_cons in Hds as [Hd Hds]. destruct (str d "vendor"); [|by intros [= _ <-]].
  destruct (store_hwe hw d) as [r1 hw1] eqn:E1. destruct (setup_default_hwtable hw1 ds) as [r2 hw2] eqn:E2.
  intros [= _ <-]. eapply IH; [|exact Hds|exact E2]. exact (store_hwe_typed _ _ _ _ Hh Hd E1).
Qed.

Lemma max_fds_typed : in_bounds "max_fds" (default 0 (snd (get_sys_max_fds nr_open))).
Proof using Type.
  set (v := default 0 _). enough (is_int v) by done. unfold v, get_sys_max_fds. destruct nr_open as [t|]; [|done].
  destruct (scan_int t) as [[w r]|] eqn:E; [|done]. cbn [snd default]. by eapply scan_int_range.
Qed.

Lemma default_opts_typed : typed_block (default_opts nr_open multipathdir).
Proof using Type.
  pose proof max_fds_typed as Hm. unfold default_opts. set (v := default 0 _) in *. clearbody v. cbv zeta.
  repeat lazymatch goal with
  | |- typed_block (set_string _ _ _) => apply typed_set_string
  | |- typed_block (set_num "max_fds" _ _) => apply typed_set_num; [|exact Hm]
  | |- typed_block (set_num _ _ _) => apply typed_set_num; [|const_range]
  end.
  apply typed_zero_block.
Qed.

(** What is known while the files are read. *)
Definition loading (conf : config) : Prop := typed_config conf /\ is_Some (hwtable conf).

Lemma merge_new_typed conf n : typed_config conf ->
  match merge_new conf n with Some conf' => loading conf' | None => undefined_merge conf end.
Proof.
  intros Hc. unfold merge_new.
  pose proof (factorize_keeps typed_block (default [] (hwtable conf)) n merge_hwe_typed (typed_hwtable _ Hc)) as H.
  destruct (factorize_hwtable _ n) as [[[hw n']|]|]; cbn [mbind option_bind]; [|left; done|done].
  destruct Hc. by split.
Qed.

Lemma process_config_files_typed files conf : loading conf ->
  match process_config_files regcomp nr_open getpwnam conf files with
  | Some conf' => loading conf'
  | None => exists conf', typed_config conf' /\ undefined_merge conf'
  end.
Proof.
  revert conf. induction files as [|[name text] files IH]; intros conf Hc; cbn [process_config_files]; [done|].
  destruct (negb (has_conf_suffix name)); [by apply IH|].
  destruct (process_file_returns (keywords regcomp nr_open getpwnam) conf text) as (r & conf1 & H1). rewrite H1.
  cbn [mbind option_bind]. assert (typed_config conf1) as Hc1.
  { exact (process_file_keeps _ _ _ _ _ _ (keywords_typed regcomp nr_open getpwnam) (proj1 Hc) H1). }
  pose proof (merge_new_typed conf1 (length (default [] (hwtable conf))) Hc1) as Hm.
  destruct (merge_new conf1 _) as [conf2|]; cbn [mbind option_bind]; [by apply IH|eauto].
Qed.

Lemma process_config_dir_cases conf dir :
  process_config_dir regcomp nr_open getpwnam config_dir_files conf dir = Some conf \/
  process_config_dir regcomp nr_open getpwnam config_dir_files conf dir =
    process_config_files regcomp nr_open getpwnam conf (config_dir_files dir).
Proof using Type. unfold process_config_dir. repeat case_match; subst; auto. Qed.

Lemma load_main_typed conf file : loading conf ->
  match load_main regcomp nr_open getpwnam conf file with
  | Some (Some conf') => loading conf'
  | Some None => True
  | None => exists conf', typed_config conf' /\ undefined_merge conf'
  end.
Proof.
  intros Hc. unfold load_main. destruct file as [text|]; [|done].
  destruct (process_file_returns (keywords regcomp nr_open getpwnam) conf (Some text)) as (r & conf1 & H1). rewrite H1.
  cbn [mbind option_bind]. destruct (negb (r =? 0)); [done|]. assert (typed_config conf1) as Hc1.
  { exact (process_file_keeps _ _ _ _ _ _ (keywords_typed regcomp nr_open getpwnam) (proj1 Hc) H1). }
  pose proof (merge_new_typed conf1 (length (default [] (hwtable conf))) Hc1) as Hm.
  destruct (merge_new conf1 _) as [conf2|]; cbn [mbind option_bind]; [done|eauto].
Qed.

(** *** The intervals *)

Lemma fill_checkint_range c m : 0 <= c <= UINT_MAX -> 0 <= m <= UINT_MAX ->
  let '(c', m') := fill_checkint c m in 0 <= c' <= m' /\ m' <= UINT_MAX /\ c' <> CHECKINT_UNDEF.
Proof.
  change CHECKINT_UNDEF with UINT_MAX. unfold fill_checkint. intros Hc Hm. change CHECKINT_UNDEF with UINT_MAX.
  assert (UINT_MAX / 4 = 1073741823) as HQ by done. assert (DEFAULT_CHECKINT = 5) as HD by done. rewrite HQ, HD.
  assert (UINT_MAX = 4294967295) as HU by done. rewrite HU in *. clear HU HD HQ.
  destruct (Z.eqb_spec m 0).
  - destruct (Z.eqb_spec c 4294967295); [destruct (Z.ltb_spec 5 1073741823); lia|].
    destruct (Z.ltb_spec c 1073741823); lia.
  - destruct (Z.eqb_spec c 4294967295); [|destruct (Z.ltb_spec m c); lia].
    destruct (Z.leb_spec 4 m); [|lia]. pose proof (Z.div_mod m 4). pose proof (Z.mod_pos_bound m 4). lia.
Qed.

Lemma watchdog_typed conf : typed_config conf -> typed_config (set_max_checkint_from_watchdog watchdog conf).
Proof.
  intros Hc. unfold set_max_checkint_from_watchdog. destruct (watchdog ≫= strtoul10) as [[usec r]|]; [|done].
  destruct (Z.ltb_spec (usec / 1000000) 1); [done|]. destruct (Z.ltb_spec UINT_MAX (usec / 1000000)); [done|]. cbn [orb].
  apply opts_num_typed; [|const_range]. destruct (_ || _); [|done]. apply opts_num_typed; [done|].
  change (0 <= usec / 1000000 <= UINT_MAX). lia.
Qed.

Definition intervals_ok (conf : config) : Prop :=
  0 <= num (opts conf) "checkint" <= num (opts conf) "max_checkint" /\ num (opts conf) "checkint" <> CHECKINT_UNDEF.

Lemma fill_intervals_typed conf : typed_config conf -> typed_config (fill_intervals conf) /\ intervals_ok (fill_intervals conf).
Proof.
  intros Hc. unfold fill_intervals.
  pose proof (fill_checkint_range _ _ (typed_opts _ Hc "checkint"%string) (typed_opts _ Hc "max_checkint"%string)) as H.
  destruct (fill_checkint _ _) as [c m]. destruct H as (H1 & H2 & H3). split.
  - destruct Hc. split; try done. apply typed_set_num; [apply typed_set_num; [done|]|];
      [change (0 <= c <= UINT_MAX)|change (0 <= m <= UINT_MAX)]; lia.
  - unfold intervals_ok. change (opts (conf <| opts := ?b |>)) with b.
    rewrite (num_set_ne "max_checkint" "checkint") by done. by rewrite !num_set_eq.
Qed.

Lemma set_default_str_typed f v conf : typed_config conf ->
  typed_config (set_default_str f v conf) /\ (intervals_ok conf -> intervals_ok (set_default_str f v conf)) /\
  is_Some (str (opts (set_default_str f v conf)) f).
Proof.
  intros Hc. unfold set_default_str. destruct (str (opts conf) f) eqn:E; [by rewrite E|].
  split; [destruct Hc; by split|]. split; [done|].
  change (opts (conf <| opts ::= ?g |>)) with (g (opts conf)). by rewrite str_set_eq.
Qed.

(** A list for everything, and one section for every WWID. *)
Definition complete_config (conf : config) : Prop :=
  is_Some (hwtable conf) /\ lists_there conf /\
  (exists mps, mptable conf = Some mps /\ NoDup (wwids_of mps)) /\
  Forall (fun f => is_Some (str (opts conf) f)) ["bindings_file"; "multipath_dir"; "wwids_file"; "prkeys_file"]%string.

Lemma alloc_lists_there conf : lists_there (alloc_lists conf).
Proof using Type. unfold lists_there, text_lists. cbn. repeat constructor; by eexists. Qed.

Lemma merge_lists_there conf : lists_there conf -> lists_there (merge_lists conf).
Proof using Type.
  unfold lists_there, text_lists. rewrite !Forall_cons. cbn. rewrite !fmap_is_Some. clear. tauto.
Qed.

Lemma merged_lists c mps : typed_config c -> Forall typed_block mps -> lists_there c ->
  exists c', merge_lists (c <| mptable := Some mps |>) = c' /\ typed_config c' /\ lists_there c' /\
    opts c' = opts c /\ mptable c' = Some mps /\ hwtable c' = hwtable c.
Proof using Type.
  intros Hc Hm Ht. eexists. split; [done|]. split; [apply merge_lists_typed; destruct Hc; by split|].
  split; [by apply merge_lists_there|done].
Qed.

Lemma set_default_str_rest f v conf : mptable (set_default_str f v conf) = mptable conf /\
  hwtable (set_default_str f v conf) = hwtable conf /\ text_lists (set_default_str f v conf) = text_lists conf.
Proof using Type. unfold set_default_str. by case_match. Qed.

Lemma default_set c f v : typed_config c -> intervals_ok c ->
  exists c', set_default_str f v c = c' /\ typed_config c' /\ intervals_ok c' /\ is_Some (str (opts c') f) /\
    mptable c' = mptable c /\ hwtable c' = hwtable c /\ text_lists c' = text_lists c.
Proof using Type.
  intros Hc Hi. eexists. split; [done|]. destruct (set_default_str_typed f v c Hc) as (H1 & H2 & H3).
  split; [done|]. split; [by apply H2|]. split; [done|]. apply set_default_str_rest.
Qed.

Lemma before_merging conf : typed_config conf -> is_Some (hwtable conf) ->
  exists c, fill_intervals (set_max_checkint_from_watchdog watchdog conf) = c /\
    typed_config c /\ intervals_ok c /\ is_Some (hwtable c).
Proof using Type.
  intros Hc%watchdog_typed Hw. eexists. split; [done|]. apply fill_intervals_typed in Hc as [H1 H2].
  split; [done|]. split; [done|]. unfold fill_intervals. case_match. change (is_Some (hwtable (set_max_checkint_from_watchdog watchdog conf))).
  unfold set_max_checkint_from_watchdog. by repeat case_match.
Qed.

Lemma finish_config_result conf : typed_config conf -> is_Some (hwtable conf) ->
  match finish_config regcomp watchdog conf with
  | Some (Some conf') => typed_config conf' /\ intervals_ok conf' /\ complete_config conf'
  | Some None => True
  | None => exists conf', typed_config conf' /\ undefined_merge conf'
  end.
Proof using Type.
  intros Hc Hw. unfold finish_config. destruct (before_merging conf Hc Hw) as (c1 & -> & Hc1 & Hi1 & Hw1). clear Hc Hw conf.
  destruct (setup_default_blist regcomp (alloc_lists c1)) as [r c2] eqn:E2.
  destruct (setup_default_blist_typed _ _ _ _ (alloc_lists_typed _ Hc1) (alloc_lists_there c1) E2) as (Hc2 & (Ho & _ & Hh) & Ht2).
  destruct (negb (r =? 0)); [done|].
  pose proof (merge_mptable_spec _ (default [] (mptable c2)) (le_n _) (typed_mptable _ Hc2)) as Hmp.
  destruct (merge_mptable _ (default [] (mptable c2))) as [mps|]; cbn [mbind option_bind]; [|exists c2; split; [done|by right]].
  destruct Hmp as (Hd & Hmt & _).
  destruct (merged_lists c2 mps Hc2 Hmt Ht2) as (c3 & -> & Hc3 & Ht3 & Eo & Em & Eh).
  assert (opts c3 = opts c1) as Eo1 by (rewrite Eo, Ho; done). assert (is_Some (hwtable c3)) as Hw3 by (rewrite Eh, Hh; exact Hw1).
  assert (intervals_ok c3) as Hi3 by (unfold intervals_ok; rewrite Eo1; exact Hi1). clear Ho Hh Eo Eh E2 Hc2 Ht2 Eo1 Hi1.
  destruct (default_set c3 "bindings_file" DEFAULT_BINDINGS_FILE Hc3 Hi3) as (c4 & -> & Hc4 & Hi4 & Hs4 & Sm & Sh & Sl).
  destruct (forallb _ _) eqn:Hs; [|done]. split; [exact Hc4|]. split; [exact Hi4|].
  unfold complete_config, lists_there. rewrite Sm, Sh, Sl. split; [exact Hw3|]. split; [exact Ht3|].
  split; [by exists mps|]. constructor; [exact Hs4|]. apply Forall_forall. intros f Hf. rewrite forallb_forall in Hs.
  apply list_elem_of_In in Hf. apply Hs in Hf. by apply bool_decide_eq_true in Hf.
Qed.

Lemma load_config_result file :
  match load_config regcomp nr_open getpwnam default_hw multipathdir watchdog config_dir_files file with
  | Some (Some conf) => typed_config conf /\ intervals_ok conf /\ complete_config conf
  | Some None => True
  | None => exists conf, typed_config conf /\ undefined_merge conf
  end.
Proof.
  unfold load_config. destruct (setup_default_hwtable [] default_hw) as [r hw] eqn:E. destruct (negb (r =? 0)); [done|].
  pose proof (setup_default_hwtable_typed [] default_hw r hw ltac:(by constructor) default_typed E) as Hhw.
  set (c0 := zero_config <| opts := _ |> <| hwtable := Some hw |>). assert (loading c0) as H0.
  { split; [|by eexists]. destruct typed_zero_config. split; try done. apply default_opts_typed. }
  clearbody c0. pose proof (load_main_typed c0 file H0) as H1.
  destruct (load_main _ _ _ c0 file) as [[c1|]|]; cbn [mbind option_bind]; [|done|done]. destruct H1 as [H1 W1].
  set (c2 := set_default_str _ _ _). assert (loading c2) as H2.
  { split; [apply set_default_str_typed, opts_num_typed; [done|const_range]|]. unfold c2, set_default_str. by case_match. }
  clearbody c2. assert (forall dir, match process_config_dir regcomp nr_open getpwnam config_dir_files c2 dir with
    | Some c3 => loading c3 | None => exists conf, typed_config conf /\ undefined_merge conf end) as Hdir.
  { intros dir. destruct (process_config_dir_cases c2 dir) as [->| ->]; [done|by apply process_config_files_typed]. }
  set (dirs := match str (opts c2) "config_dir" with Some ((_ :: _) as dir) => _ | _ => _ end).
  assert (match dirs with Some c3 => loading c3 | None => exists conf, typed_config conf /\ undefined_merge conf end) as H3.
  { unfold dirs. destruct (str (opts c2) "config_dir") as [[|z dir]|]; [done|apply Hdir|done]. }
  clearbody dirs. destruct dirs as [c3|]; cbn [mbind option_bind]; [|done]. destruct H3 as [H3 W3].
  by apply finish_config_result.
Qed.

End Loaded.

(** Two files and the watchdog: the polling interval is cut to the time of the
    watchdog, and the two sections for a WWID become one. *)
Definition sample_lines (l : list string) : cstr := l ≫= (fun x => s x ++ [10]).
Definition sample_main : cstr := sample_lines
  ["multipaths {"; "multipath {"; "wwid 1"; "}"; "multipath {"; "wwid 1"; "alias a"; "}"; "}"]%string.
Definition sample_dir : list (cstr * option cstr) :=
  [(s "a.conf", Some (sample_lines ["defaults {"; "polling_interval 60"; "}"]%string)); (s "b.txt", None)].
Definition sample_hw : list block := [device_section "HP" "MSA" [("pgpolicy", 4)]%string []].
Definition sample_load : option (option config) :=
  load_config literal_regcomp None (fun _ => None) sample_hw (s "/lib") (Some (s "30000000")) (fun _ => sample_dir) (Some sample_main).

Example sample_values : match sample_load with
  | Some (Some conf) =>
      (num (opts conf) "checkint", num (opts conf) "max_checkint",
       (fun mp => (str mp "wwid", str mp "alias")) <$> default [] (mptable conf),
       (fun hwe => num hwe "pgpolicy") <$> default [] (hwtable conf)) =
      (30, 30, [(Some (s "1"), Some (s "a"))], [4])
  | _ => False
  end.
Proof. vm_compute. reflexivity. Qed.

Example sample_loads : match sample_load with
  | Some (Some conf) => typed_config conf /\ intervals_ok conf /\ complete_config conf
  | Some None => True
  | None => exists conf, typed_config conf /\ undefined_merge conf
  end.
Proof.
  apply load_config_result. constructor; [|done]. apply typed_set_num; [|const_range].
  repeat apply typed_set_string. apply typed_zero_block.
Qed.

(** ** Merging the lists decides nothing differently *)

Section Verdict.
Variable regcomp : cstr -> option (cstr -> bool).

Definition devices_compiled (conf : config) : Prop :=
  Forall compiled_bled (default [] (blist_device conf)) /\ Forall compiled_bled (default [] (elist_device conf)).

Lemma merged_text l x : Forall compiled_ble (default [] l) ->
  match_reglist regcomp (default [] (option_map merge_blacklist l)) x = match_reglist regcomp (default [] l) x.
Proof. destruct l as [l|]; [|done]. cbn. apply match_merge_blacklist. Qed.

Lemma merged_device l v p : Forall compiled_bled (default [] l) ->
  match_reglist_device regcomp (default [] (option_map merge_blacklist_device l)) v p = match_reglist_device regcomp (default [] l) v p.
Proof. destruct l as [l|]; [|done]. cbn. apply match_merge_blacklist_device. Qed.

Lemma merged_listed bl el x : Forall compiled_ble (default [] bl) -> Forall compiled_ble (default [] el) ->
  listed regcomp (option_map merge_blacklist bl) (option_map merge_blacklist el) x <-> listed regcomp bl el x.
Proof. intros H1 H2. unfold listed. by rewrite !merged_text. Qed.

Lemma merged_property conf l uid :
  Forall compiled_ble (default [] (blist_property conf)) -> Forall compiled_ble (default [] (elist_property conf)) ->
  listed_property regcomp (merge_lists conf) l uid <-> listed_property regcomp conf l uid.
Proof.
  intros H1 H2. assert (forall x, on_no_list regcomp (merge_lists conf) x <-> on_no_list regcomp conf x) as Hno.
  { intros x. unfold on_no_list. change (elist_property (merge_lists conf)) with (option_map merge_blacklist (elist_property conf)).
    change (blist_property (merge_lists conf)) with (option_map merge_blacklist (blist_property conf)). by rewrite !merged_text. }
  assert (forall x, listed regcomp (blist_property (merge_lists conf)) (elist_property (merge_lists conf)) x <->
    listed regcomp (blist_property conf) (elist_property conf) x) as Hl by (intros x; by apply merged_listed).
  unfold listed_property. repeat setoid_rewrite Hl. by repeat setoid_rewrite (Forall_iff _ _ _ Hno).
Qed.


End Verdict.

(** A blacklist with a duplicate and an exception. *)
Definition verdict_sample : config :=
  let ble x := {| ble_str := s x; ble_regex := s x; ble_invert := false; ble_origin := ORIGIN_CONFIG |} in
  zero_config <| blist_wwid := Some [ble "36"; ble "35"; ble "36"] |> <| elist_wwid := Some [ble "369"] |>.

