(* ===== verification/Hwtable.v ===== *)
(** * libmultipath/hwtable.c: the built-in table of devices

    The entries of [default_hw], in the order of the source, and what
    [setup_default_hwtable] makes of them.  The attributes are kept under the
    names of the members of [struct hwentry]. *)

From S2P Require Import Prelude CString Util Structs File Parser Conf Blacklist Pgpolicies Options Dict Propsel Config Load.

Open Scope string_scope.

Definition DIRECTIO : cstr := s "directio".
Definition HP_SW : cstr := s "hp_sw".
Definition EMC_CLARIION : cstr := s "emc_clariion".
Definition NONE : cstr := s "none".
Definition PRIO_EMC : cstr := s "emc".
Definition PRIO_HDS : cstr := s "hds".
Definition PRIO_HP_SW : cstr := s "hp_sw".
Definition PRIO_ONTAP : cstr := s "ontap".
Definition PRIO_RDAC : cstr := s "rdac".
Definition DEFAULT_NVME_UID_ATTRIBUTE : cstr := s "ID_WWN".
Definition VPD_VP_HP3PAR : Z := 1.
Definition USER_FRIENDLY_NAMES_OFF : Z := YNU_NO.

(** An initializer: the members that it does not name are NULL or 0. *)
Definition hwentry (strs : list (string * cstr)) (nums : list (string * Z)) : block :=
  foldr (fun x b => set_num (fst x) (snd x) b) (foldr (fun x b => set_string (fst x) (Some (snd x)) b) zero_block strs) nums.

(** ** The entries *)

Definition hw_generic : list block :=
  [hwentry [("vendor", s "NVME"); ("product", s ".*"); ("uid_attribute", DEFAULT_NVME_UID_ATTRIBUTE);
      ("checker_name", NONE)]
      [("retain_hwhandler", RETAIN_HWHANDLER_OFF)]].

Definition hw_apple : list block :=
  [hwentry [("vendor", s "APPLE"); ("product", s "Xserve RAID")] [("pgpolicy", MULTIBUS)]].

Definition hw_hpe_1 : list block :=
  [hwentry [("vendor", s "3PARdata"); ("product", s "VV"); ("hwhandler", s "1 alua"); ("prio_name", PRIO_ALUA)]
      [("pgpolicy", GROUP_BY_PRIO); ("pgfailback", - FAILBACK_IMMEDIATE); ("no_path_retry", 18);
      ("fast_io_fail", 10); ("dev_loss", MAX_DEV_LOSS_TMO); ("vpd_vendor_id", VPD_VP_HP3PAR)];
   hwentry [("vendor", s "DEC"); ("product", s "HSG80"); ("hwhandler", s "1 hp_sw"); ("checker_name", HP_SW);
      ("prio_name", PRIO_HP_SW)]
      [("no_path_retry", NO_PATH_RETRY_QUEUE); ("pgpolicy", GROUP_BY_PRIO)];
   hwentry [("vendor", s "HP"); ("product", s "A6189A")] [("pgpolicy", MULTIBUS); ("no_path_retry", 12)];
   hwentry [("vendor", s "(COMPAQ|HP)"); ("product", s "(MSA|HSV)1[01]0"); ("hwhandler", s "1 hp_sw");
      ("checker_name", HP_SW); ("prio_name", PRIO_HP_SW)]
      [("pgpolicy", GROUP_BY_PRIO); ("no_path_retry", 12)];
   hwentry [("vendor", s "(COMPAQ|HP)"); ("product", s "MSA VOLUME"); ("prio_name", PRIO_ALUA)]
      [("pgpolicy", GROUP_BY_PRIO); ("pgfailback", - FAILBACK_IMMEDIATE); ("no_path_retry", 12)];
   hwentry [("vendor", s "(COMPAQ|HP)"); ("product", s "(HSV1[01]1|HSV2[01]0|HSV3[046]0|HSV4[05]0)");
      ("prio_name", PRIO_ALUA)]
      [("pgpolicy", GROUP_BY_PRIO); ("pgfailback", - FAILBACK_IMMEDIATE); ("no_path_retry", 12)];
   hwentry [("vendor", s "HP"); ("product", s "(MSA2[02]12fc|MSA2012i)")]
      [("pgpolicy", MULTIBUS); ("no_path_retry", 18)];
   hwentry [("vendor", s "HP"); ("product", s "(MSA2012sa|MSA23(12|24)(fc|i|sa)|MSA2000s VOLUME)");
      ("prio_name", PRIO_ALUA)]
      [("pgpolicy", GROUP_BY_PRIO); ("pgfailback", - FAILBACK_IMMEDIATE); ("no_path_retry", 18)];
   hwentry [("vendor", s "HP"); ("product", s "MSA [12]0[456]0 SA[NS]"); ("prio_name", PRIO_ALUA)]
      [("pgpolicy", GROUP_BY_PRIO); ("pgfailback", - FAILBACK_IMMEDIATE); ("no_path_retry", 18)];
   hwentry [("vendor", s "HP"); ("product", s "HSVX700"); ("hwhandler", s "1 alua"); ("prio_name", PRIO_ALUA)]
      [("pgpolicy", GROUP_BY_PRIO); ("pgfailback", - FAILBACK_IMMEDIATE); ("no_path_retry", 12)];
   hwentry [("vendor", s "HP"); ("product", s "LOGICAL VOLUME")] [("pgpolicy", MULTIBUS); ("no_path_retry", 12)];
   hwentry [("vendor", s "HP"); ("product", s "(P2000 G3 FC|P2000G3 FC/iSCSI|P2000 G3 SAS|P2000 G3 iSCSI)");
      ("prio_name", PRIO_ALUA)]
      [("pgpolicy", GROUP_BY_PRIO); ("pgfailback", - FAILBACK_IMMEDIATE); ("no_path_retry", 18)];
   hwentry [("vendor", s "LEFTHAND"); ("product", s "(P4000|iSCSIDisk|FCDISK)"); ("prio_name", PRIO_ALUA)]
      [("pgpolicy", GROUP_BY_PRIO); ("pgfailback", - FAILBACK_IMMEDIATE); ("no_path_retry", 18)];
   hwentry [("vendor", s "Nimble"); ("product", s "Server"); ("hwhandler", s "1 alua"); ("prio_name", PRIO_ALUA)]
      [("pgpolicy", GROUP_BY_PRIO); ("pgfailback", - FAILBACK_IMMEDIATE); ("no_path_retry", NO_PATH_RETRY_QUEUE)];
   hwentry [("vendor", s "SGI"); ("product", s "TP9100")] [("pgpolicy", MULTIBUS)]].

Definition hw_hpe_2 : list block :=
  [hwentry [("vendor", s "SGI"); ("product", s "TP9[3457]00"); ("bl_product", s "Universal Xport");
      ("checker_name", RDAC); ("features", s "2 pg_init_retries 50"); ("hwhandler", s "1 rdac");
      ("prio_name", PRIO_RDAC)]
      [("pgpolicy", GROUP_BY_PRIO); ("pgfailback", - FAILBACK_IMMEDIATE); ("no_path_retry", 30)];
   hwentry [("vendor", s "SGI"); ("product", s "IS"); ("bl_product", s "Universal Xport"); ("checker_name", RDAC);
      ("features", s "2 pg_init_retries 50"); ("hwhandler", s "1 rdac"); ("prio_name", PRIO_RDAC)]
      [("pgpolicy", GROUP_BY_PRIO); ("pgfailback", - FAILBACK_IMMEDIATE); ("no_path_retry", 30)];
   hwentry [("vendor", s "SGI"); ("product", s "^DD[46]A-"); ("prio_name", PRIO_ALUA)]
      [("pgpolicy", GROUP_BY_PRIO); ("pgfailback", - FAILBACK_IMMEDIATE); ("no_path_retry", 30)]].

Definition hw_ddn : list block :=
  [hwentry [("vendor", s "DDN"); ("product", s "SAN DataDirector")] [("pgpolicy", MULTIBUS)];
   hwentry [("vendor", s "DDN"); ("product", s "^EF3010")] [("pgpolicy", MULTIBUS); ("no_path_retry", 30)];
   hwentry [("vendor", s "DDN"); ("product", s "^(EF3015|S2A|SFA)"); ("prio_name", PRIO_ALUA)]
      [("pgpolicy", GROUP_BY_PRIO); ("pgfailback", - FAILBACK_IMMEDIATE); ("no_path_retry", 30)];
   hwentry [("vendor", s "NEXENTA"); ("product", s "COMSTAR")] [("pgpolicy", GROUP_BY_SERIAL); ("no_path_retry", 30)];
   hwentry [("vendor", s "TEGILE"); ("product", s "(ZEBI-(FC|ISCSI)|INTELLIFLASH)"); ("hwhandler", s "1 alua");
      ("prio_name", PRIO_ALUA)]
      [("pgpolicy", GROUP_BY_PRIO); ("pgfailback", - FAILBACK_IMMEDIATE); ("no_path_retry", 10)]].

Definition hw_dell_emc : list block :=
  [hwentry [("vendor", s "EMC"); ("product", s "SYMMETRIX")] [("pgpolicy", MULTIBUS); ("no_path_retry", 6)];
   hwentry [("vendor", s "^DGC"); ("product", s "^(RAID|DISK|VRAID)"); ("bl_product", s "LUNZ");
      ("hwhandler", s "1 emc"); ("checker_name", EMC_CLARIION); ("prio_name", PRIO_EMC)]
      [("pgpolicy", GROUP_BY_PRIO); ("pgfailback", - FAILBACK_IMMEDIATE); ("no_path_retry", 300 / DEFAULT_CHECKINT)];
   hwentry [("vendor", s "EMC"); ("product", s "Invista"); ("bl_product", s "LUNZ")]
      [("pgpolicy", MULTIBUS); ("no_path_retry", 5)];
   hwentry [("vendor", s "XtremIO"); ("product", s "XtremApp")] [("pgpolicy", MULTIBUS)];
   hwentry [("vendor", s "COMPELNT"); ("product", s "Compellent Vol")]
      [("pgpolicy", MULTIBUS); ("no_path_retry", NO_PATH_RETRY_QUEUE)];
   hwentry [("vendor", s "DELL"); ("product", s "^MD3"); ("bl_product", s "Universal Xport"); ("checker_name", RDAC);
      ("features", s "2 pg_init_retries 50"); ("hwhandler", s "1 rdac"); ("prio_name", PRIO_RDAC)]
      [("pgpolicy", GROUP_BY_PRIO); ("pgfailback", - FAILBACK_IMMEDIATE); ("no_path_retry", 30)];
   hwentry [("vendor", s "NVME"); ("product", s "^EMC PowerMax_")] [("pgpolicy", MULTIBUS)]].

Definition hw_fujitsu : list block :=
  [hwentry [("vendor", s "FSC"); ("product", s "CentricStor")] [("pgpolicy", GROUP_BY_SERIAL)];
   hwentry [("vendor", s "FUJITSU"); ("product", s "ETERNUS_DX(H|L|M|400|8000)"); ("prio_name", PRIO_ALUA)]
      [("pgpolicy", GROUP_BY_PRIO); ("pgfailback", - FAILBACK_IMMEDIATE); ("no_path_retry", 10)];
   hwentry [("vendor", s "(EUROLOGC|EuroLogc)"); ("product", s "FC2502")] [("pgpolicy", MULTIBUS)];
   hwentry [("vendor", s "FUJITSU"); ("product", s "E[234]000"); ("prio_name", PRIO_ALUA)]
      [("pgpolicy", GROUP_BY_PRIO); ("pgfailback", - FAILBACK_IMMEDIATE); ("no_path_retry", 10)];
   hwentry [("vendor", s "FUJITSU"); ("product", s "E[68]000")] [("pgpolicy", MULTIBUS); ("no_path_retry", 10)];
   hwentry [("vendor", s "FUJITSU"); ("product", s "ETERNUS_AHB"); ("bl_product", s "Universal Xport");
      ("checker_name", RDAC); ("features", s "2 pg_init_retries 50"); ("hwhandler", s "1 rdac");
      ("prio_name", PRIO_RDAC)]
      [("pgpolicy", GROUP_BY_PRIO); ("pgfailback", - FAILBACK_IMMEDIATE); ("no_path_retry", 30)]].

Definition hw_hitachi : list block :=
  [hwentry [("vendor", s "(HITACHI|HP)"); ("product", s "^OPEN-")] [("pgpolicy", MULTIBUS)];
   hwentry [("vendor", s "HITACHI"); ("product", s "^DF"); ("prio_name", PRIO_HDS)]
      [("no_path_retry", NO_PATH_RETRY_QUEUE); ("pgpolicy", GROUP_BY_PRIO); ("pgfailback", - FAILBACK_IMMEDIATE)];
   hwentry [("vendor", s "HITACHI"); ("product", s "^DF600F")] [("pgpolicy", MULTIBUS)]].

Definition hw_ibm_1 : list block :=
  [hwentry [("vendor", s "IBM"); ("product", s "ProFibre 4000R")] [("pgpolicy", MULTIBUS)];
   hwentry [("vendor", s "IBM"); ("product", s "^1722-600"); ("bl_product", s "Universal Xport");
      ("checker_name", RDAC); ("features", s "2 pg_init_retries 50"); ("hwhandler", s "1 rdac");
      ("prio_name", PRIO_RDAC)]
      [("pgpolicy", GROUP_BY_PRIO); ("pgfailback", - FAILBACK_IMMEDIATE); ("no_path_retry", 30)];
   hwentry [("vendor", s "IBM"); ("product", s "^1724"); ("bl_product", s "Universal Xport"); ("checker_name", RDAC);
      ("features", s "2 pg_init_retries 50"); ("hwhandler", s "1 rdac"); ("prio_name", PRIO_RDAC)]
      [("pgpolicy", GROUP_BY_PRIO); ("pgfailback", - FAILBACK_IMMEDIATE); ("no_path_retry", 30)];
   hwentry [("vendor", s "IBM"); ("product", s "^1726"); ("bl_product", s "Universal Xport"); ("checker_name", RDAC);
      ("features", s "2 pg_init_retries 50"); ("hwhandler", s "1 rdac"); ("prio_name", PRIO_RDAC)]
      [("pgpolicy", GROUP_BY_PRIO); ("pgfailback", - FAILBACK_IMMEDIATE); ("no_path_retry", 30)];
   hwentry [("vendor", s "IBM"); ("product", s "^1742"); ("bl_product", s "Universal Xport"); ("checker_name", RDAC);
      ("features", s "2 pg_init_retries 50"); ("hwhandler", s "1 rdac"); ("prio_name", PRIO_RDAC)]
      [("pgpolicy", GROUP_BY_PRIO); ("pgfailback", - FAILBACK_IMMEDIATE); ("no_path_retry", 30)];
   hwentry [("vendor", s "IBM"); ("product", s "^1746"); ("bl_product", s "Universal Xport"); ("checker_name", RDAC);
      ("features", s "2 pg_init_retries 50"); ("hwhandler", s "1 rdac"); ("prio_name", PRIO_RDAC)]
      [("pgpolicy", GROUP_BY_PRIO); ("pgfailback", - FAILBACK_IMMEDIATE); ("no_path_retry", 30)];
   hwentry [("vendor", s "IBM"); ("product", s "^1813"); ("bl_product", s "Universal Xport"); ("checker_name", RDAC);
      ("features", s "2 pg_init_retries 50"); ("hwhandler", s "1 rdac"); ("prio_name", PRIO_RDAC)]
      [("pgpolicy", GROUP_BY_PRIO); ("pgfailback", - FAILBACK_IMMEDIATE); ("no_path_retry", 30)];
   hwentry [("vendor", s "IBM"); ("product", s "^1814"); ("bl_product", s "Universal Xport"); ("checker_name", RDAC);
      ("features", s "2 pg_init_retries 50"); ("hwhandler", s "1 rdac"); ("prio_name", PRIO_RDAC)]
      [("pgpolicy", GROUP_BY_PRIO); ("pgfailback", - FAILBACK_IMMEDIATE); ("no_path_retry", 30)];
   hwentry [("vendor", s "IBM"); ("product", s "^1815"); ("bl_product", s "Universal Xport"); ("checker_name", RDAC);
      ("features", s "2 pg_init_retries 50"); ("hwhandler", s "1 rdac"); ("prio_name", PRIO_RDAC)]
      [("pgpolicy", GROUP_BY_PRIO); ("pgfailback", - FAILBACK_IMMEDIATE); ("no_path_retry", 30)];
   hwentry [("vendor", s "IBM"); ("product", s "^1818"); ("bl_product", s "Universal Xport"); ("checker_name", RDAC);
      ("features", s "2 pg_init_retries 50"); ("hwhandler", s "1 rdac"); ("prio_name", PRIO_RDAC)]
      [("pgpolicy", GROUP_BY_PRIO); ("pgfailback", - FAILBACK_IMMEDIATE); ("no_path_retry", 30)];
   hwentry [("vendor", s "IBM"); ("product", s "^3526"); ("bl_product", s "Universal Xport"); ("checker_name", RDAC);
      ("features", s "2 pg_init_retries 50"); ("hwhandler", s "1 rdac"); ("prio_name", PRIO_RDAC)]
      [("pgpolicy", GROUP_BY_PRIO); ("pgfailback", - FAILBACK_IMMEDIATE); ("no_path_retry", 30)]].

Definition hw_ibm_2 : list block :=
  [hwentry [("vendor", s "IBM"); ("product", s "^(3542|3552)"); ("bl_product", s "Universal Xport");
      ("checker_name", RDAC); ("features", s "2 pg_init_retries 50"); ("hwhandler", s "1 rdac");
      ("prio_name", PRIO_RDAC)]
      [("pgpolicy", GROUP_BY_PRIO); ("pgfailback", - FAILBACK_IMMEDIATE); ("no_path_retry", 30)];
   hwentry [("vendor", s "IBM"); ("product", s "^2105")]
      [("no_path_retry", NO_PATH_RETRY_QUEUE); ("pgpolicy", MULTIBUS)];
   hwentry [("vendor", s "IBM"); ("product", s "^1750500"); ("prio_name", PRIO_ALUA)]
      [("no_path_retry", NO_PATH_RETRY_QUEUE); ("pgpolicy", GROUP_BY_PRIO); ("pgfailback", - FAILBACK_IMMEDIATE)];
   hwentry [("vendor", s "IBM"); ("product", s "^2107900")]
      [("no_path_retry", NO_PATH_RETRY_QUEUE); ("pgpolicy", MULTIBUS)];
   hwentry [("vendor", s "IBM"); ("product", s "^2145"); ("prio_name", PRIO_ALUA)]
      [("no_path_retry", NO_PATH_RETRY_QUEUE); ("pgpolicy", GROUP_BY_PRIO); ("pgfailback", - FAILBACK_IMMEDIATE)];
   hwentry [("vendor", s "IBM"); ("product", s "S/390 DASD ECKD"); ("bl_product", s "S/390");
      ("uid_attribute", s "ID_UID"); ("checker_name", DIRECTIO)]
      [("no_path_retry", NO_PATH_RETRY_QUEUE); ("pgpolicy", MULTIBUS)];
   hwentry [("vendor", s "IBM"); ("product", s "S/390 DASD FBA"); ("bl_product", s "S/390");
      ("uid_attribute", s "ID_UID"); ("checker_name", DIRECTIO)]
      [("no_path_retry", NO_PATH_RETRY_QUEUE); ("pgpolicy", MULTIBUS)];
   hwentry [("vendor", s "IBM"); ("product", s "^IPR"); ("hwhandler", s "1 alua"); ("prio_name", PRIO_ALUA)]
      [("no_path_retry", NO_PATH_RETRY_QUEUE); ("pgpolicy", GROUP_BY_PRIO); ("pgfailback", - FAILBACK_IMMEDIATE)];
   hwentry [("vendor", s "IBM"); ("product", s "1820N00"); ("prio_name", PRIO_ALUA)]
      [("pgpolicy", GROUP_BY_PRIO); ("pgfailback", - FAILBACK_IMMEDIATE); ("no_path_retry", NO_PATH_RETRY_QUEUE)];
   hwentry [("vendor", s "(XIV|IBM)"); ("product", s "(NEXTRA|2810XIV)")]
      [("no_path_retry", NO_PATH_RETRY_QUEUE); ("pgpolicy", MULTIBUS)];
   hwentry [("vendor", s "(TMS|IBM)"); ("product", s "(RamSan|FlashSystem)")] [("pgpolicy", MULTIBUS)];
   hwentry [("vendor", s "IBM"); ("product", s "^(DCS9900|2851)"); ("prio_name", PRIO_ALUA)]
      [("pgpolicy", GROUP_BY_PRIO); ("pgfailback", - FAILBACK_IMMEDIATE); ("no_path_retry", 30)];
   hwentry [("vendor", s "AIX"); ("product", s "VDASD")]
      [("pgpolicy", MULTIBUS); ("no_path_retry", 300 / DEFAULT_CHECKINT)];
   hwentry [("vendor", s "IBM"); ("product", s "3303[ ]+NVDISK")] [("no_path_retry", 300 / DEFAULT_CHECKINT)];
   hwentry [("vendor", s "AIX"); ("product", s "NVDISK"); ("hwhandler", s "1 alua"); ("prio_name", PRIO_ALUA)]
      [("pgpolicy", GROUP_BY_PRIO); ("pgfailback", - FAILBACK_IMMEDIATE); ("no_path_retry", 300 / DEFAULT_CHECKINT)]].

Definition hw_lenovo : list block :=
  [hwentry [("vendor", s "LENOVO"); ("product", s "DE_Series"); ("bl_product", s "Universal Xport");
      ("checker_name", RDAC); ("features", s "2 pg_init_retries 50"); ("hwhandler", s "1 rdac");
      ("prio_name", PRIO_RDAC)]
      [("pgpolicy", GROUP_BY_PRIO); ("pgfailback", - FAILBACK_IMMEDIATE); ("no_path_retry", 30)]].

Definition hw_netapp : list block :=
  [hwentry [("vendor", s "NETAPP"); ("product", s "LUN"); ("features", s "2 pg_init_retries 50");
      ("prio_name", PRIO_ONTAP)]
      [("no_path_retry", NO_PATH_RETRY_QUEUE); ("pgpolicy", GROUP_BY_PRIO); ("pgfailback", - FAILBACK_IMMEDIATE);
      ("flush_on_last_del", FLUSH_ENABLED); ("dev_loss", MAX_DEV_LOSS_TMO);
      ("user_friendly_names", USER_FRIENDLY_NAMES_OFF)];
   hwentry [("vendor", s "(NETAPP|LSI|ENGENIO)"); ("product", s "INF-01-00"); ("bl_product", s "Universal Xport");
      ("checker_name", RDAC); ("features", s "2 pg_init_retries 50"); ("hwhandler", s "1 rdac");
      ("prio_name", PRIO_RDAC)]
      [("pgpolicy", GROUP_BY_PRIO); ("pgfailback", - FAILBACK_IMMEDIATE); ("no_path_retry", 30)];
   hwentry [("vendor", s "SolidFir"); ("product", s "SSD SAN")] [("pgpolicy", MULTIBUS); ("no_path_retry", 24)];
   hwentry [("vendor", s "NVME"); ("product", s "^NetApp ONTAP Controller")]
      [("pgpolicy", MULTIBUS); ("no_path_retry", NO_PATH_RETRY_QUEUE)]].

Definition hw_nec : list block :=
  [hwentry [("vendor", s "NEC"); ("product", s "DISK ARRAY"); ("hwhandler", s "1 alua"); ("prio_name", PRIO_ALUA)]
      [("pgpolicy", GROUP_BY_PRIO); ("pgfailback", - FAILBACK_IMMEDIATE)]].

Definition hw_oracle : list block :=
  [hwentry [("vendor", s "^Pillar"); ("product", s "^Axiom"); ("prio_name", PRIO_ALUA)]
      [("pgpolicy", GROUP_BY_PRIO); ("pgfailback", - FAILBACK_IMMEDIATE)];
   hwentry [("vendor", s "^Oracle"); ("product", s "^Oracle FS"); ("prio_name", PRIO_ALUA)]
      [("pgpolicy", GROUP_BY_PRIO); ("pgfailback", - FAILBACK_IMMEDIATE)];
   hwentry [("vendor", s "STK"); ("product", s "BladeCtlr"); ("bl_product", s "Universal Xport");
      ("checker_name", RDAC); ("features", s "2 pg_init_retries 50"); ("hwhandler", s "1 rdac");
      ("prio_name", PRIO_RDAC)]
      [("pgpolicy", GROUP_BY_PRIO); ("pgfailback", - FAILBACK_IMMEDIATE); ("no_path_retry", 30)];
   hwentry [("vendor", s "STK"); ("product", s "OPENstorage"); ("bl_product", s "Universal Xport");
      ("checker_name", RDAC); ("features", s "2 pg_init_retries 50"); ("hwhandler", s "1 rdac");
      ("prio_name", PRIO_RDAC)]
      [("pgpolicy", GROUP_BY_PRIO); ("pgfailback", - FAILBACK_IMMEDIATE); ("no_path_retry", 30)];
   hwentry [("vendor", s "STK"); ("product", s "FLEXLINE 380"); ("bl_product", s "Universal Xport");
      ("checker_name", RDAC); ("features", s "2 pg_init_retries 50"); ("hwhandler", s "1 rdac");
      ("prio_name", PRIO_RDAC)]
      [("pgpolicy", GROUP_BY_PRIO); ("pgfailback", - FAILBACK_IMMEDIATE); ("no_path_retry", 30)];
   hwentry [("vendor", s "SUN"); ("product", s "StorEdge 3")] [("pgpolicy", MULTIBUS)];
   hwentry [("vendor", s "SUN"); ("product", s "STK6580_6780"); ("bl_product", s "Universal Xport");
      ("checker_name", RDAC); ("features", s "2 pg_init_retries 50"); ("hwhandler", s "1 rdac");
      ("prio_name", PRIO_RDAC)]
      [("pgpolicy", GROUP_BY_PRIO); ("pgfailback", - FAILBACK_IMMEDIATE); ("no_path_retry", 30)];
   hwentry [("vendor", s "SUN"); ("product", s "CSM[12]00_R"); ("bl_product", s "Universal Xport");
      ("checker_name", RDAC); ("features", s "2 pg_init_retries 50"); ("hwhandler", s "1 rdac");
      ("prio_name", PRIO_RDAC)]
      [("pgpolicy", GROUP_BY_PRIO); ("pgfailback", - FAILBACK_IMMEDIATE); ("no_path_retry", 30)];
   hwentry [("vendor", s "SUN"); ("product", s "LCSM100_[IEFS]"); ("bl_product", s "Universal Xport");
      ("checker_name", RDAC); ("features", s "2 pg_init_retries 50"); ("hwhandler", s "1 rdac");
      ("prio_name", PRIO_RDAC)]
      [("pgpolicy", GROUP_BY_PRIO); ("pgfailback", - FAILBACK_IMMEDIATE); ("no_path_retry", 30)];
   hwentry [("vendor", s "SUN"); ("product", s "SUN_6180"); ("bl_product", s "Universal Xport");
      ("checker_name", RDAC); ("features", s "2 pg_init_retries 50"); ("hwhandler", s "1 rdac");
      ("prio_name", PRIO_RDAC)]
      [("pgpolicy", GROUP_BY_PRIO); ("pgfailback", - FAILBACK_IMMEDIATE); ("no_path_retry", 30)];
   hwentry [("vendor", s "SUN"); ("product", s "ArrayStorage"); ("bl_product", s "Universal Xport");
      ("checker_name", RDAC); ("features", s "2 pg_init_retries 50"); ("hwhandler", s "1 rdac");
      ("prio_name", PRIO_RDAC)]
      [("pgpolicy", GROUP_BY_PRIO); ("pgfailback", - FAILBACK_IMMEDIATE); ("no_path_retry", 30)];
   hwentry [("vendor", s "SUN"); ("product", s "(Sun Storage|ZFS Storage|COMSTAR)"); ("prio_name", PRIO_ALUA)]
      [("pgpolicy", GROUP_BY_PRIO); ("pgfailback", - FAILBACK_IMMEDIATE); ("no_path_retry", 30)]].

Definition hw_pivot3 : list block :=
  [hwentry [("vendor", s "PIVOT3"); ("product", s "RAIGE VOLUME")]
      [("no_path_retry", NO_PATH_RETRY_QUEUE); ("pgpolicy", MULTIBUS)];
   hwentry [("vendor", s "(NexGen|Pivot3)"); ("product", s "(TierStore|vSTAC)"); ("prio_name", PRIO_ALUA)]
      [("pgpolicy", GROUP_BY_PRIO); ("pgfailback", - FAILBACK_IMMEDIATE); ("no_path_retry", NO_PATH_RETRY_QUEUE)]].

Definition hw_intel : list block :=
  [hwentry [("vendor", s "(Intel|INTEL)"); ("product", s "Multi-Flex"); ("bl_product", s "VTrak V-LUN");
      ("hwhandler", s "1 alua"); ("prio_name", PRIO_ALUA)]
      [("pgpolicy", GROUP_BY_PRIO); ("pgfailback", - FAILBACK_IMMEDIATE); ("no_path_retry", NO_PATH_RETRY_QUEUE)]].

Definition hw_lio : list block :=
  [hwentry [("vendor", s "(LIO-ORG|SUSE)"); ("product", s "RBD"); ("hwhandler", s "1 alua"); ("prio_name", PRIO_ALUA)]
      [("pgpolicy", GROUP_BY_PRIO); ("pgfailback", - FAILBACK_IMMEDIATE); ("no_path_retry", 12)]].

Definition hw_datacore : list block :=
  [hwentry [("vendor", s "DataCore"); ("product", s "SANmelody"); ("prio_name", PRIO_ALUA)]
      [("pgpolicy", GROUP_BY_PRIO); ("pgfailback", - FAILBACK_IMMEDIATE); ("no_path_retry", NO_PATH_RETRY_QUEUE)];
   hwentry [("vendor", s "DataCore"); ("product", s "Virtual Disk"); ("prio_name", PRIO_ALUA)]
      [("pgpolicy", GROUP_BY_PRIO); ("pgfailback", - FAILBACK_IMMEDIATE); ("no_path_retry", NO_PATH_RETRY_QUEUE)]].

Definition hw_pure : list block :=
  [hwentry [("vendor", s "PURE"); ("product", s "FlashArray"); ("hwhandler", s "1 alua"); ("prio_name", PRIO_ALUA)]
      [("pgpolicy", GROUP_BY_PRIO); ("pgfailback", - FAILBACK_IMMEDIATE); ("fast_io_fail", 10);
      ("max_sectors_kb", 4096)]].

Definition hw_huawei : list block :=
  [hwentry [("vendor", s "HUAWEI"); ("product", s "XSG1"); ("prio_name", PRIO_ALUA)] [("pgpolicy", GROUP_BY_PRIO)]].

Definition hw_kove : list block :=
  [hwentry [("vendor", s "KOVE"); ("product", s "XPD")] [("pgpolicy", MULTIBUS)]].

Definition hw_infinidat : list block :=
  [hwentry [("vendor", s "NFINIDAT"); ("product", s "InfiniBox"); ("prio_name", PRIO_ALUA);
      ("selector", s "round-robin 0")]
      [("pgpolicy", GROUP_BY_PRIO); ("pgfailback", 30); ("rr_weight", RR_WEIGHT_PRIO);
      ("no_path_retry", NO_PATH_RETRY_FAIL); ("minio", 1); ("minio_rq", 1); ("flush_on_last_del", FLUSH_ENABLED);
      ("fast_io_fail", 15); ("dev_loss", 15)]].

Definition hw_kaminario : list block :=
  [hwentry [("vendor", s "KMNRIO"); ("product", s "K2")] [("pgpolicy", MULTIBUS)]].

Definition hw_nexsan : list block :=
  [hwentry [("vendor", s "NEXSAN"); ("product", s "NXS-B0"); ("prio_name", PRIO_ALUA)]
      [("pgpolicy", GROUP_BY_PRIO); ("pgfailback", - FAILBACK_IMMEDIATE); ("no_path_retry", 15)];
   hwentry [("vendor", s "NEXSAN"); ("product", s "SATAB"); ("prio_name", PRIO_ALUA)]
      [("pgpolicy", GROUP_BY_PRIO); ("pgfailback", - FAILBACK_IMMEDIATE); ("no_path_retry", 15)];
   hwentry [("vendor", s "Nexsan"); ("product", s "(NestOS|NST5000)"); ("hwhandler", s "1 alua");
      ("prio_name", PRIO_ALUA)]
      [("pgpolicy", GROUP_BY_PRIO); ("pgfailback", - FAILBACK_IMMEDIATE); ("no_path_retry", 30)]].

Definition hw_violin : list block :=
  [hwentry [("vendor", s "VIOLIN"); ("product", s "SAN ARRAY$")]
      [("pgpolicy", GROUP_BY_SERIAL); ("no_path_retry", 30)];
   hwentry [("vendor", s "VIOLIN"); ("product", s "SAN ARRAY ALUA"); ("hwhandler", s "1 alua");
      ("prio_name", PRIO_ALUA)]
      [("pgpolicy", GROUP_BY_PRIO); ("pgfailback", - FAILBACK_IMMEDIATE); ("no_path_retry", 30)];
   hwentry [("vendor", s "VIOLIN"); ("product", s "CONCERTO ARRAY")] [("pgpolicy", MULTIBUS); ("no_path_retry", 30)];
   hwentry [("vendor", s "(XIOTECH|XIOtech)"); ("product", s "ISE")] [("pgpolicy", MULTIBUS); ("no_path_retry", 12)];
   hwentry [("vendor", s "(XIOTECH|XIOtech)"); ("product", s "IGLU DISK")]
      [("pgpolicy", MULTIBUS); ("no_path_retry", 30)];
   hwentry [("vendor", s "(XIOTECH|XIOtech)"); ("product", s "Magnitude")]
      [("pgpolicy", MULTIBUS); ("no_path_retry", 30)]].

Definition hw_promise : list block :=
  [hwentry [("vendor", s "Promise"); ("product", s "VTrak"); ("bl_product", s "VTrak V-LUN");
      ("hwhandler", s "1 alua"); ("prio_name", PRIO_ALUA)]
      [("pgpolicy", GROUP_BY_PRIO); ("pgfailback", - FAILBACK_IMMEDIATE); ("no_path_retry", 30)];
   hwentry [("vendor", s "Promise"); ("product", s "Vess"); ("bl_product", s "Vess V-LUN");
      ("hwhandler", s "1 alua"); ("prio_name", PRIO_ALUA)]
      [("pgpolicy", GROUP_BY_PRIO); ("pgfailback", - FAILBACK_IMMEDIATE); ("no_path_retry", 30)]].

Definition hw_infortrend : list block :=
  [hwentry [("vendor", s "^IFT"); ("product", s ".*"); ("prio_name", PRIO_ALUA)]
      [("pgpolicy", GROUP_BY_PRIO); ("pgfailback", - FAILBACK_IMMEDIATE); ("no_path_retry", 30)]].

Definition hw_seagate : list block :=
  [hwentry [("vendor", s "DotHill"); ("product", s "SANnet")] [("pgpolicy", MULTIBUS); ("no_path_retry", 30)];
   hwentry [("vendor", s "DotHill"); ("product", s "R/Evo"); ("prio_name", PRIO_ALUA)]
      [("pgpolicy", GROUP_BY_PRIO); ("pgfailback", - FAILBACK_IMMEDIATE); ("no_path_retry", 30)];
   hwentry [("vendor", s "DotHill"); ("product", s "^DH"); ("prio_name", PRIO_ALUA)]
      [("pgpolicy", GROUP_BY_PRIO); ("pgfailback", - FAILBACK_IMMEDIATE); ("no_path_retry", 30)]].

Definition hw_accelstor : list block :=
  [hwentry [("vendor", s "AStor"); ("product", s "NeoSapphire")] [("pgpolicy", MULTIBUS); ("no_path_retry", 30)]].

Definition hw_inspur : list block :=
  [hwentry [("vendor", s "INSPUR"); ("product", s "MCS"); ("prio_name", PRIO_ALUA)]
      [("pgpolicy", GROUP_BY_PRIO); ("pgfailback", - FAILBACK_IMMEDIATE)]].

Definition hw_macrosan : list block :=
  [hwentry [("vendor", s "MacroSAN"); ("product", s "LU"); ("prio_name", PRIO_ALUA)]
      [("pgpolicy", GROUP_BY_PRIO); ("pgfailback", - FAILBACK_IMMEDIATE); ("no_path_retry", 30)]].

Definition hw_end : list block :=
  [hwentry [] []].

Definition default_hw : list block :=
  (hw_generic ++ hw_apple ++ hw_hpe_1 ++ hw_hpe_2 ++ hw_ddn ++ hw_dell_emc ++ hw_fujitsu ++ hw_hitachi ++
   hw_ibm_1 ++ hw_ibm_2 ++ hw_lenovo ++ hw_netapp ++ hw_nec ++ hw_oracle ++ hw_pivot3 ++ hw_intel ++ hw_lio ++
   hw_datacore ++ hw_pure ++ hw_huawei ++ hw_kove ++ hw_infinidat ++ hw_kaminario ++ hw_nexsan ++ hw_violin ++
   hw_promise ++ hw_infortrend ++ hw_seagate ++ hw_accelstor ++ hw_inspur ++ hw_macrosan ++ hw_end)%list.

Close Scope string_scope.

(** ** The table that is made of them *)

(** The members that may be given, and that their values are in bounds. *)
Definition nums_ok (nums : list (string * Z)) : bool :=
  forallb (fun x => (fst (num_bounds (fst x)) <=? snd x) && (snd x <=? snd (num_bounds (fst x)))) nums.

Lemma hwentry_typed strs nums : nums_ok nums = true -> typed_block (hwentry strs nums).
Proof.
  intros Hn. unfold hwentry. assert (typed_block (foldr (fun x b => set_string (fst x) (Some (snd x)) b) zero_block strs)) as Hs.
  { induction strs as [|x strs IH]; [apply typed_zero_block|]. by apply typed_set_string. }
  set (b := foldr _ _ strs) in *. clearbody b. induction nums as [|x nums IH]; [done|].
  cbn [nums_ok forallb] in Hn. apply andb_true_iff in Hn as [[H1%Z.leb_le H2%Z.leb_le]%andb_true_iff Hn].
  apply typed_set_num; [by apply IH|done].
Qed.

Lemma default_hw_typed : Forall typed_block default_hw.
Proof. repeat (apply Forall_cons; split; [apply hwentry_typed; vm_compute; reflexivity|]). apply Forall_nil. done. Qed.

(** The built-in table is usable as it stands: [setup_default_hwtable]
    stores every entry of [default_hw] (none of the 114 is dropped for having
    the texts of an earlier one, and none fails for an empty string), and the
    table has what merging the sections of a file relies on: each entry is
    complete, no two have the same vendor, product and revision, every value is
    in the bounds of its type, and no [features] holds an option that would have
    to be removed. *)
Theorem builtin_table_sound : exists hw, setup_default_hwtable [] default_hw = (0, hw) /\
  length hw = 114%nat /\ Forall typed_block hw /\ Forall plain_hwe hw /\ first_part_ok (length hw) hw.
Proof.
  destruct (setup_default_hwtable [] default_hw) as [r hw] eqn:E. exists hw.
  pose proof (setup_default_hwtable_typed [] default_hw r hw ltac:(by constructor) default_hw_typed E) as Ht.
  assert ((let (r, hw) := setup_default_hwtable [] default_hw in
    (r =? 0) && (length hw =? 114)%nat && forallb plain_hwe_check hw && forallb (fun h => negb (invalid_hwe h)) hw &&
    bool_decide (NoDup (device_texts <$> hw))) = true) as H by (vm_compute; reflexivity).
  rewrite E in H. repeat (apply andb_true_iff in H as [H ?]).
  apply Z.eqb_eq in H as ->. split; [done|]. split; [by apply Nat.eqb_eq|]. split; [done|].
  split; [by apply plain_hwe_checked|]. unfold first_part_ok. rewrite take_ge by done. split; [|by apply bool_decide_eq_true in H0].
  apply Forall_forall. intros h Hh%list_elem_of_In. rewrite forallb_forall in *. by apply negb_true_iff; auto.
Qed.

