(* ===== verification/Coalesce.v ===== *)
(** * Building maps from discovered paths

    [coalesce_paths] of libmultipath/configure.c with what it calls:
    [should_multipath] of wwids.c and [add_map_with_path] of structs_vec.c. *)

From S2P Require Import Prelude CString Util Structs Pgpolicies Dmparser World StructsVec Configure.

Inductive force_reload_types := FORCE_RELOAD_NONE | FORCE_RELOAD_YES | FORCE_RELOAD_WEAK.
Inductive mpath_cmds := CMD_NONE | CMD_CREATE | CMD_DRY_RUN.
Inductive cp_result := CP_OK | CP_FAIL | CP_RETRY.

#[export] Instance force_reload_dec : EqDecision force_reload_types.
Proof. solve_decision. Defined.
#[export] Instance mpath_cmds_dec : EqDecision mpath_cmds.
Proof. solve_decision. Defined.
#[export] Instance domap_result_dec : EqDecision domap_result.
Proof. solve_decision. Defined.

Section Coalesce.
Variable E : env.

(** ** New maps *)

Definition same_wwids (n : Z) (a b : cstr) : bool := strneq (Z.to_nat n) a b.

(** Should the path become part of a map? *)
Definition should_multipath (p : ptr) (w : world) : bool * world :=
  let fm := c_find_multipaths (e_conf E) in
  if (fm =? FIND_MULTIPATHS_OFF) || (fm =? FIND_MULTIPATHS_GREEDY) then (true, w)
  else
    let id := wwid (wp w p) in
    let in_file w := (e_in_wwids_file E (trace w), emit (ReadWwidsFile id) w) in
    if fm =? FIND_MULTIPATHS_STRICT then in_file w
    else
      let '(present, w) :=
        match find_mp_by_wwid (w_maps w) (mpvec w) id with
        | None => (false, w)
        | Some m => (match e_uuid E (trace w) with
                     | Some uuid => same_wwids WWID_SIZE uuid id
                     | None => false
                     end, emit (DmInfo (m_alias (wm w m))) w)
        end in
      if present then (true, w)
      else if existsb (fun q => negb (q =? p)%nat && same_wwids WWID_SIZE id (wwid (wp w q))) (pathvec w)
      then (true, w)
      else in_file w.

(** A new map object. *)
Definition new_multipath (mm : multipath) (w : world) : ptr * world :=
  (next_ptr w, w <| w_maps ::= <[next_ptr w := mm]> |> <| next_ptr ::= S |>).

(** The alias of the first map of the same WWID. *)
Definition find_existing_alias (w : world) (id : cstr) : option cstr :=
  m ← List.find (fun m => same_wwids (WWID_SIZE - 1) (m_wwid (wm w m)) id) (mpvec w);
  Some (take (Z.to_nat (WWID_SIZE - 1)) (m_alias (wm w m))).

Definition add_map_with_path (p : ptr) (add_vec : bool) (w : world) : option ptr * world :=
  let pp := wp w p in
  if strlen (wwid pp) =? 0 then (None, w)
  else
    let mm := alloc_multipath <| m_hwe := hwe pp |> <| m_wwid := wwid pp |>
                <| alias_old := default [] (find_existing_alias w (wwid pp)) |> in
    let '(m, w) := new_multipath mm w in
    let fail w := (None, remove_map m true w) in
    match e_select_alias E mm with
    | None => fail w
    | Some alias =>
        let w := upd_map m (fun mm => mm <| m_alias := alias |> <| m_size := size pp |>) w in
        let '(failure, w) := adopt_paths E m w in
        if failure || negb (bool_decide (p ∈ pathvec w)) then fail w
        else (Some m, if add_vec then w <| mpvec ::= (fun l => l ++ [m]) |> else w)
    end.

(** ** Coalescing *)

(** The later paths of the WWID: the first size known is the size of the map,
    and paths of another size are discarded. *)
Definition check_size (m : ptr) (id : cstr) (seen : bitfield) (i : nat) (w : world) : bitfield * world :=
  match pathvec w !! i with
  | None => (seen, w)
  | Some q =>
      let qq := wp w q in
      if negb (streq id (wwid qq)) then (seen, w)
      else
        let w := upd_map m (fun mm => if (m_size mm =? 0) && negb (size qq =? 0)
                                      then mm <| m_size := size qq |> else mm) w in
        let sz := m_size (wm w m) in
        if negb (sz =? 0) && negb (size qq =? 0) && negb (size qq =? sz)
        then (set_bit_in_bitfield (Z.of_nat i) seen, set_action ACT_REJECT m w)
        else (seen, w)
  end.

Definition check_sizes (m : ptr) (id : cstr) (k : nat) (seen : bitfield) (w : world) : bitfield * world :=
  foldl (fun '(seen, w) i => check_size m id seen i w) (seen, w)
    (seq (S k) (length (pathvec w) - S k)).

(** What became of a path, or of the map made for it. *)
Inductive coalesced := SKIPPED | KEPT (m : ptr) | ABORTED (r : cp_result).

(** Without a running daemon I/O is not to be queued. *)
Definition stop_queueing (m : ptr) (w : world) : world :=
  let fails := e_queue_fails E (trace w) in
  let w := dm_queue_if_no_path m false w in
  if fails then w
  else upd_map m (fun mm => mm <| features := without_feature (s "queue_if_no_path") (features mm) |>) w.

(** Pushing the new map [m] of path [p] to the kernel. *)
Definition push_map (m : ptr) (force_reload : force_reload_types) (cmd : mpath_cmds) (params : cstr)
    (w : world) : coalesced * world :=
  let is_daemon := eqb cmd CMD_NONE in
  let w := if eqb cmd CMD_DRY_RUN then set_action ACT_DRY_RUN m w else w in
  let w := if eqb (action (wm w m)) ACT_UNDEF
           then select_action E m (mpvec w) (eqb force_reload FORCE_RELOAD_YES) w else w in
  let '(r, w) := domap E m params is_daemon w in
  match r with
  | DOMAP_DRY => (SKIPPED, w)
  | DOMAP_FAIL => (SKIPPED, remove_map m false w)
  | DOMAP_RETRY => if is_daemon then (SKIPPED, remove_map m false w) else (ABORTED CP_RETRY, w)
  | _ =>
      let w := if eqb r DOMAP_EXIST && eqb (action (wm w m)) ACT_NOTHING && eqb force_reload FORCE_RELOAD_WEAK
               then emit (TriggerMapChange (find_mp_by_wwid (w_maps w) (mpvec w) (m_wwid (wm w m)))) w
               else w in
      let w := if is_daemon then w
               else let keep := e_keep_queueing E (trace w) in
                    let w := emit CheckDaemon w in
                    if keep then w else stop_queueing m w in
      (KEPT m, w)
  end.

(** One path of the path vector. *)
Definition coalesce_path (k : nat) (refwwid : option cstr) (force_reload : force_reload_types)
    (cmd : mpath_cmds) (seen : bitfield) (w : world) : coalesced * bitfield * world :=
  match pathvec w !! k with
  | None => (SKIPPED, seen, w)
  | Some p =>
      let pp := wp w p in
      let drop w := (SKIPPED, seen, orphan_path p w) in
      if strlen (wwid pp) =? 0 then drop w
      else if e_filtered E pp then drop w
      else if bool_decide (is_Some (mpp pp)) || is_bit_set_in_bitfield (Z.of_nat k) seen then (SKIPPED, seen, w)
      else if eqb (state pp) PATH_REMOVED then drop w
      else if match refwwid with
              | Some r => negb (same_wwids (WWID_SIZE - 1) (wwid pp) r)
              | None => false
              end then (SKIPPED, seen, w)
      else
        let '(wanted, w) := match refwwid with
                            | Some _ => (true, w)
                            | None => should_multipath p w
                            end in
        if negb wanted then drop w
        else
          match add_map_with_path p false w with
          | (None, w) => drop w
          | (Some m, w) =>
              match m_paths (wm w m) with
              | None => (SKIPPED, seen, remove_map m false w)
              | Some _ =>
                  let '(seen, w) := check_sizes m (wwid (wp w p)) k seen w in
                  let w := snd (verify_paths E m w) in
                  match setup_map E m w with
                  | (None, w) => (SKIPPED, seen, remove_map m false w)
                  | (Some params, w) =>
                      let '(c, w) := push_map m force_reload cmd params w in (c, seen, w)
                  end
              end
          end
  end.

(** The paths from index [k] on; [newmp] collects the maps.  The path vector
    never grows here, so that indices up to its first length are enough. *)
Fixpoint coalesce_loop (ks : list nat) (newmp : option (list ptr)) (refwwid : option cstr)
    (force_reload : force_reload_types) (cmd : mpath_cmds) (seen : bitfield) (w : world)
  : cp_result * option (list ptr) * world :=
  match ks with
  | [] => (CP_OK, newmp, w)
  | k :: ks =>
      let '(c, seen, w) := coalesce_path k refwwid force_reload cmd seen w in
      match c, newmp with
      | ABORTED r, _ => (r, newmp, w)
      | KEPT m, Some ms =>
          if eqb (action (wm w m)) ACT_REJECT
          then coalesce_loop ks newmp refwwid force_reload cmd seen (remove_map m false w)
          else coalesce_loop ks (Some (ms ++ [m])) refwwid force_reload cmd seen w
      | _, _ => coalesce_loop ks newmp refwwid force_reload cmd seen w
      end
  end.

(** Maps with only dead paths are flushed. *)
Fixpoint flush_dead (ms kept : list ptr) (w : world) : list ptr * world :=
  match ms with
  | [] => (kept, w)
  | m :: r =>
      if deadmap w m then
        let alias := take (Z.to_nat (WWID_SIZE - 1)) (m_alias (wm w m)) in
        flush_dead r kept (emit (DmFlush alias false) (remove_map m false w))
      else flush_dead r (kept ++ [m]) w
  end.

Definition coalesce_paths (newmp : option (list ptr)) (refwwid : option cstr)
    (force_reload : force_reload_types) (cmd : mpath_cmds) (w : world)
  : cp_result * option (list ptr) * world :=
  let refwwid := match refwwid with Some [] => None | r => r end in
  let w := if eqb force_reload FORCE_RELOAD_NONE then w
           else foldl (fun w p => upd_path p (fun pp => pp <| mpp := None |>) w) w (pathvec w) in
  if (length (pathvec w) =? 0)%nat then (CP_OK, newmp, w)
  else
    match alloc_bitfield (Z.of_nat (length (pathvec w))) with
    | None => (CP_FAIL, newmp, w)
    | Some seen =>
        let '(r, newmp, w) := coalesce_loop (seq 0 (length (pathvec w))) newmp refwwid force_reload cmd seen w in
        match r, newmp with
        | CP_OK, Some ms => let '(ms, w) := flush_dead ms [] w in (CP_OK, Some ms, w)
        | _, _ => (r, newmp, w)
        end
    end.
End Coalesce.
