(* ===== verification/Checker.v ===== *)
(** * multipathd/main.c and io_err_stat.c: the path checker of the daemon

    [check_path] with everything it decides: when a path is due, how its new
    state is told to the kernel, the damping of flapping paths, the check
    interval, recovery mode and failback.  Reloading a map and adding a path
    from scratch ([reload_and_sync_map], [ev_add_path]) are arguments; the
    theorems hold whatever they do. *)

From S2P Require Import Prelude CString Util Structs Pgpolicies Dmparser World StructsVec Configure.


Definition FLAKY_PATHFAIL_THRESHOLD : Z := 2.
Definition PATH_IO_ERR_IN_CHECKING : Z := -1.
Definition PATH_IO_ERR_WAITING_TO_CHECK : Z := -2.

(** ** Daemon states *)

Inductive daemon_status :=
  | DAEMON_INIT | DAEMON_START | DAEMON_CONFIGURE | DAEMON_IDLE | DAEMON_RUNNING | DAEMON_SHUTDOWN.

#[export] Instance daemon_status_dec : EqDecision daemon_status.
Proof. solve_decision. Defined.

Definition post_config_state (st running : daemon_status) : daemon_status :=
  if negb (eqb st running) && negb (eqb running DAEMON_SHUTDOWN) then st else running.

(** Does [do_sd_notify] tell systemd about the change? *)
Definition sd_notifies (old new : daemon_status) : bool :=
  let quiet st := eqb st DAEMON_IDLE || eqb st DAEMON_RUNNING in
  negb (quiet new && quiet old).

Definition EINVAL : Z := 22.

(** [set_config_state]: the return code and the state.  While it waits on the
    condition variable other threads may change the state: [wait_rc] and
    [after_wait] are what the wait returns and the state it leaves. *)
Definition set_config_state (wait_rc : Z) (after_wait st running : daemon_status)
  : Z * daemon_status :=
  if eqb running st then (0, running)
  else
    let '(rc, running) :=
      if eqb running DAEMON_SHUTDOWN then (EINVAL, running)
      else if negb (eqb running DAEMON_IDLE) then (wait_rc, after_wait)
      else (0, running) in
    if (rc =? 0) && negb (eqb running DAEMON_SHUTDOWN) then (rc, st) else (rc, running).

Section Checker.
Variable E : env.
Variable reload_and_sync_map : ptr -> bool -> world -> world.
Variable ev_add_path : ptr -> world -> world.

Definition conf : config := e_conf E.

(** ** Failing and reinstating *)

Definition fail_path (p : ptr) (del_active : bool) (w : world) : world :=
  match mpp (wp w p) with
  | None => w
  | Some m =>
      let w := emit (DmFailPath (m_alias (wm w m)) (dev_t (wp w p))) w in
      if del_active then update_queue_mode_del_path E m w else w
  end.

Definition reinstate_path (p : ptr) (w : world) : world :=
  match mpp (wp w p) with
  | None => w
  | Some m =>
      let failed := e_reinstate_fails E (trace w) in
      let w := emit (DmReinstatePath (m_alias (wm w m)) (dev_t (wp w p))) w in
      if failed then w else update_queue_mode_add_path m w
  end.

(** The group index comes from the table of the same map ([disassemble_map]), so
    that the group exists. *)
Definition enable_group (p m : ptr) (w : world) : world :=
  if bool_decide (pg (wm w m) = None) || (pgindex (wp w p) =? 0) then w
  else
    match slots (pg (wm w m)) !! Z.to_nat (pgindex (wp w p) - 1) with
    | Some g => if eqb (status g) PGSTATE_DISABLED
                then emit (DmEnableGroup (m_alias (wm w m)) (pgindex (wp w p))) w else w
    | None => w
    end.

(** ** Failback *)

Definition refresh_prios (ps : list ptr) (w : world) : world :=
  foldl (fun w p => snd (run_pathinfo E p DI_PRIO w)) w ps.

Definition need_switch_pathgroup (m : ptr) (refresh : bool) (w : world) : bool * world :=
  let w := if refresh then refresh_prios (all_paths (wm w m)) w else w in
  if bool_decide (pg (wm w m) = None) || (length (slots (m_paths (wm w m))) =? 0)%nat then (false, w)
  else
    let '(best_nr, mm) := select_path_group (w_paths w) (wm w m) in
    let w := upd_map m (fun _ => mm) w in
    if pgfailback mm =? - FAILBACK_MANUAL then (false, w)
    else (negb (best_nr =? nextpg mm), upd_map m (fun mm => mm <| bestpg := best_nr |>) w).

Definition switch_pathgroup (m : ptr) (w : world) : world :=
  let w := upd_map m (fun mm => mm <| stat_switchgroup ::= (fun n => u32 (n + 1)) |>) w in
  emit (DmSwitchGroup (m_alias (wm w m)) (bestpg (wm w m))) w.

Definition followover_should_failback (p m : ptr) (w : world) : bool :=
  let mm := wm w m in
  if negb (pgfailback mm =? - FAILBACK_FOLLOWOVER) || bool_decide (pg mm = None) ||
     (pgindex (wp w p) =? 0) || negb (pgindex (wp w p) =? bestpg mm) then false
  else
    match slots (pg mm) !! Z.to_nat (pgindex (wp w p) - 1) with
    | Some g => forallb (fun q => (q =? p)%nat || eqb (chkrstate (wp w q)) PATH_DOWN ||
                                  eqb (chkrstate (wp w q)) PATH_SHAKY) (g_paths g)
    | None => false
    end.

Definition failback_tick_map (w : world) (m : ptr) : world :=
  let mm := wm w m in
  if (0 <? pgfailback mm) && (0 <? failback_tick mm) then
    let w := upd_map m (fun mm => mm <| failback_tick ::= Z.pred |>) w in
    if failback_tick (wm w m) =? 0 then
      let '(need, w) := need_switch_pathgroup m true w in
      if need then switch_pathgroup m w else w
    else w
  else w.

Definition defered_failback_tick (w : world) : world := foldl failback_tick_map w (mpvec w).

Definition retry_tick_map (w : world) (m : ptr) : world :=
  if 0 <? retry_tick (wm w m) then
    let w := upd_map m (fun mm => mm <| stat_total_queueing_time ::= (fun n => u32 (n + 1)) |>
                                     <| retry_tick ::= Z.pred |>) w in
    if retry_tick (wm w m) =? 0 then
      dm_queue_if_no_path m false
        (upd_map m (fun mm => mm <| stat_map_failures ::= (fun n => u32 (n + 1)) |>) w)
    else w
  else w.

Definition retry_count_tick (w : world) : world := foldl retry_tick_map w (mpvec w).

Definition update_prio (p : ptr) (refresh_all : bool) (w : world) : bool * world :=
  if refresh_all then
    match mpp (wp w p) with
    | None => (false, w)
    | Some m =>
        foldl (fun '(changed, w) q =>
                 let old := priority (wp w q) in
                 let w := snd (run_pathinfo E q DI_PRIO w) in
                 (changed || negb (priority (wp w q) =? old), w))
          (false, w) (all_paths (wm w m))
    end
  else
    let old := priority (wp w p) in
    let w := if eqb (state (wp w p)) PATH_DOWN then w else snd (run_pathinfo E p DI_PRIO w) in
    (negb (priority (wp w p) =? old), w).

(** ** Damping of flapping paths *)

(** [check_path_reinstate_state] on the path, the limits of its map, the number
    of active paths and the time: is the path to be skipped? *)
Definition reinstate_state (mm : multipath) (active now : Z) (pp : path) : bool * path :=
  let reinstate pp := pp <| path_failures := 0 |> <| disable_reinstate := false |>
                         <| san_path_err_forget_rate := 0 |> in
  if negb ((0 <? m_san_path_err_threshold mm) && (0 <? m_san_path_err_forget_rate mm) &&
           (0 <? m_san_path_err_recovery_time mm)) then (false, pp)
  else if disable_reinstate pp then
    if active =? 0 then (false, reinstate pp)
    else
      let pp := if negb (eqb (state pp) PATH_UP) && negb (eqb (state pp) PATH_GHOST) &&
                   negb (eqb (state pp) PATH_DELAYED)
                then pp <| san_path_err_forget_rate := m_san_path_err_forget_rate mm |>
                        <| dis_reinstate_time := now |>
                else pp in
      if m_san_path_err_recovery_time mm <? now - dis_reinstate_time pp then (false, reinstate pp)
      else (true, pp)
  else if (eqb (state pp) PATH_UP || eqb (state pp) PATH_GHOST) && (0 <? path_failures pp) then
    (false,
     if 0 <? san_path_err_forget_rate pp then pp <| san_path_err_forget_rate ::= Z.pred |>
     else pp <| path_failures ::= Z.pred |>
             <| san_path_err_forget_rate := m_san_path_err_forget_rate mm |>)
  else if negb (eqb (state pp) PATH_DOWN) && negb (eqb (state pp) PATH_SHAKY) &&
          negb (eqb (state pp) PATH_TIMEOUT) then (false, pp)
  else
    let pp := if path_failures pp =? 0
              then pp <| san_path_err_forget_rate := m_san_path_err_forget_rate mm |> else pp in
    let pp := pp <| path_failures ::= (fun n => u32 (n + 1)) |> in
    if m_san_path_err_threshold mm <? path_failures pp
    then (true, pp <| dis_reinstate_time := now |> <| disable_reinstate := true |>)
    else (false, pp).

Definition check_path_reinstate_state (p m : ptr) (w : world) : bool * world :=
  let '(skip, pp) := reinstate_state (wm w m) (active_paths w m) (e_time E (trace w)) (wp w p) in
  (skip, upd_path p (fun _ => pp) w).

Definition need_io_err_check (p m : ptr) (w : world) : bool * world :=
  let recover w := (false, upd_path p (fun pp => pp <| io_err_pathfail_cnt := 0 |>
                                                   <| io_err_disable_reinstate := false |>) w) in
  if negb (e_io_err_thread E) then (false, w)
  else if active_paths w m <=? 0 then recover w
  else if negb (io_err_pathfail_cnt (wp w p) =? PATH_IO_ERR_WAITING_TO_CHECK) then (true, w)
  else if marginal_path_err_recheck_gap_time (wm w m) <?
          e_time E (trace w) - io_err_dis_reinstate_time (wp w p) then
    let fails := e_enqueue_fails E (trace w) in
    let w := emit (StartIoErrCheck p) w in
    if fails then recover w
    else (true, upd_path p (fun pp => pp <| io_err_pathfail_cnt := PATH_IO_ERR_IN_CHECKING |>) w)
  else (true, w).

Definition should_skip_path (p m : ptr) (w : world) : bool * world :=
  if marginal_path_check_enabled (wm w m) then
    if io_err_disable_reinstate (wp w p) then need_io_err_check p m w else (false, w)
  else if san_path_check_enabled (wm w m) then check_path_reinstate_state p m w
  else (false, w).

(** [io_err_stat_handle_pathfail], called when the kernel reports a failure. *)
Definition io_err_stat_handle_pathfail (p : ptr) (w : world) : world :=
  let pp := wp w p in
  if negb (e_io_err_thread E) || io_err_disable_reinstate pp || (io_err_pathfail_cnt pp <? 0) then w
  else
    match mpp pp with
    | None => w
    | Some m =>
        if negb (marginal_path_check_enabled (wm w m)) then w
        else
          let now := e_time E (trace w) in
          if io_err_pathfail_cnt pp =? 0 then
            upd_path p (fun pp => pp <| io_err_pathfail_cnt := 1 |>
                                     <| io_err_pathfail_starttime := now |>) w
          else
            let w := if marginal_path_double_failed_time (wm w m) <?
                        now - io_err_pathfail_starttime pp
                     then upd_path p (fun pp => pp <| io_err_pathfail_cnt := 0 |>
                                                   <| io_err_pathfail_starttime := now |>) w
                     else w in
            let w := upd_path p (fun pp => pp <| io_err_pathfail_cnt ::= Z.succ |>) w in
            if FLAKY_PATHFAIL_THRESHOLD <=? io_err_pathfail_cnt (wp w p) then
              let w := upd_path p (fun pp => pp <| io_err_disable_reinstate := true |>
                         <| io_err_pathfail_cnt := PATH_IO_ERR_WAITING_TO_CHECK |>
                         <| io_err_dis_reinstate_time := 0 |>) w in
              let oldstate := state (wp w p) in
              if eqb oldstate PATH_DOWN then w
              else
                let w := upd_map m (fun mm => mm <| stat_path_failures ::= (fun n => u32 (n + 1)) |>) w in
                let w := upd_path p (fun pp => pp <| state := PATH_DOWN |> <| dmstate := PSTATE_FAILED |>) w in
                let w := if is_active oldstate then update_queue_mode_del_path E m w else w in
                upd_path p (fun pp => if c_checkint conf <? tick pp
                                      then pp <| tick := c_checkint conf |> else pp) w
            else w
    end.

(** ** Checking a path *)

(** [path_offline], then the checker when the path is not offline; a removed
    path counts as down. *)
Definition probe_path (p : ptr) (w : world) : path_check_state * world :=
  let st := e_path_offline E (trace w) in
  let w := emit (Probe p) w in
  let '(st, w) := if eqb st PATH_UP then get_state E p true w else (st, w) in
  (if eqb st PATH_REMOVED then PATH_DOWN else st, w).

(** A path without a map that works again is added to one. *)
Definition check_orphan (p : ptr) (newstate : path_check_state) (w : world) : Z * world :=
  let pp := wp w p in
  if (strlen (wwid pp) =? 0) && (eqb (initialized pp) INIT_FAILED || eqb (initialized pp) INIT_NEW) &&
     is_active newstate
  then
    let '(ret, w) := run_pathinfo E p (Z.lor DI_ALL DI_BLACKLIST) w in
    if eqb (initialized (wp w p)) INIT_OK
    then (0, upd_path p (fun pp => pp <| tick := 1 |>) (ev_add_path p w))
    else (if eqb ret PATHINFO_SKIPPED then -1 else 0,
          upd_path p (fun pp => pp <| checkint := c_max_checkint conf |>) w)
  else (0, w).

(** The marginal and damping checks of a good path: is it delayed, and did its
    marginal flag change? *)
Definition check_marginal (p m : ptr) (newstate : path_check_state) (w : world)
  : bool * bool * world :=
  if is_active newstate &&
     (san_path_check_enabled (wm w m) || marginal_path_check_enabled (wm w m))
  then
    let was_marginal := marginal (wp w p) in
    let '(skip, w) := should_skip_path p m w in
    if skip then
      if negb (c_marginal_pathgroups conf) then
        let w := if marginal_path_check_enabled (wm w m)
                 then upd_path p (fun pp => pp <| tick := 1 |>) w else w in
        (true, false, upd_path p (fun pp => pp <| state := PATH_DELAYED |>) w)
      else if negb was_marginal then
        (false, true, upd_path p (fun pp => pp <| marginal := true |>) w)
      else (false, false, w)
    else if c_marginal_pathgroups conf && was_marginal then
      (false, true, upd_path p (fun pp => pp <| marginal := false |>) w)
    else (false, false, w)
  else (false, false, w).

(** Doubling the check interval up to the maximum. *)
Definition next_checkint (c : Z) : Z :=
  if c =? c_max_checkint conf then c
  else if c <? Z.quot (c_max_checkint conf) 2 then u32 (2 * c) else c_max_checkint conf.

Record verdict := { v_done : bool; v_new_path_up : bool; v_chkr_new_path_up : bool }.

(** What a new checker state does to the path and the kernel; [v_done] is the
    early return of a path that went down. *)
Definition apply_state (p m : ptr) (oldchkrstate newstate : path_check_state) (w : world)
  : verdict * world :=
  let disable_reinstate := eqb newstate PATH_GHOST && (active_paths w m =? 0) &&
                           e_tpgs_implicit E (wp w p) in
  let w := upd_path p (fun pp => pp <| chkrstate := newstate |>) w in
  let oldstate := state (wp w p) in
  if negb (eqb newstate oldstate) then
    let w := upd_path p (fun pp => pp <| state := newstate |> <| checkint := c_checkint conf |>) w in
    if negb (is_active newstate) then
      let w := fail_path p (is_active oldstate) w in
      ({| v_done := true; v_new_path_up := false; v_chkr_new_path_up := false |},
       upd_map m (fun mm => mm <| failback_tick := 0 |>
                              <| stat_path_failures ::= (fun n => u32 (n + 1)) |>) w)
    else
      let w := if prflag (wm w m) then emit (PrHandler p) w else w in
      let w := if disable_reinstate then w else reinstate_path p w in
      let w := if eqb newstate PATH_UP then enable_group p m w else w in
      ({| v_done := false; v_new_path_up := true;
          v_chkr_new_path_up := negb (is_active oldchkrstate) |}, w)
  else
    let w :=
      if is_active newstate then
        if (eqb (dmstate (wp w p)) PSTATE_FAILED || eqb (dmstate (wp w p)) PSTATE_UNDEF) &&
           negb disable_reinstate
        then reinstate_path p w
        else upd_path p (fun pp => let c := next_checkint (checkint pp) in
                                   pp <| checkint := c |> <| tick := c |>) w
      else if eqb (dmstate (wp w p)) PSTATE_ACTIVE || eqb (dmstate (wp w p)) PSTATE_UNDEF
      then fail_path p false w else w in
    ({| v_done := false; v_new_path_up := false; v_chkr_new_path_up := false |},
     upd_path p (fun pp => pp <| state := newstate |>) w).

(** Priorities, reloads and failback at the end of a check. *)
Definition finish_check (p m : ptr) (marginal_changed : bool) (v : verdict) (w : world) : world :=
  if marginal_changed then reload_and_sync_map m true w
  else
    let '(changed, w) := update_prio p (v_new_path_up v) w in
    if changed && bool_decide (pgpolicyfn (wm w m) = Some fn_group_by_prio) &&
       (pgfailback (wm w m) =? - FAILBACK_IMMEDIATE)
    then reload_and_sync_map m (negb (v_new_path_up v)) w
    else
      let '(need, w) := need_switch_pathgroup m false w in
      if negb need then w
      else if (0 <? pgfailback (wm w m)) && (v_new_path_up v || (failback_tick (wm w m) <=? 0)) then
        upd_map m (fun mm => mm <| failback_tick := s32 (pgfailback mm + 1) |>) w
      else if (pgfailback (wm w m) =? - FAILBACK_IMMEDIATE) ||
              (v_chkr_new_path_up v && followover_should_failback p m w)
      then switch_pathgroup m w else w.

(** A path that belongs to a map, with the state the checker found. *)
Definition check_mapped (p : ptr) (oldchkrstate newstate : path_check_state) (m0 : ptr) (w : world)
  : Z * world :=
  if eqb newstate PATH_PENDING then (0, upd_path p (fun pp => pp <| tick := 1 |>) w)
  else
    let '(ret, w) := update_multipath_strings E m0 w in
    if eqb ret DMP_NOT_FOUND then (0, w)
    else
      let w := if eqb ret DMP_OK then w else upd_path p (fun pp => pp <| dmstate := PSTATE_UNDEF |>) w in
      match mpp (wp w p) with
      | None => (0, w)
      | Some m =>
          let w := set_no_path_retry E true m w in
          let '(delayed, marginal_changed, w) := check_marginal p m newstate w in
          if delayed then (1, w)
          else
            let '(v, w) := apply_state p m oldchkrstate newstate w in
            if v_done v then (1, w)
            else if negb (wait_for_udev (wm w m) =? 0) then (1, w)
            else (1, finish_check p m marginal_changed v w)
      end.

(** Is the path to be looked at, after [ticks] more seconds? *)
Definition tick_path (ticks : Z) (pp : path) : path :=
  if tick pp =? 0 then pp
  else pp <| tick := tick pp - (if ticks <? tick pp then ticks else tick pp) |>.

(** 1 when the path was checked, -1 when it is blacklisted, else 0. *)
Definition check_path (p : ptr) (ticks : Z) (w : world) : Z * world :=
  let oldchkrstate := chkrstate (wp w p) in
  let init := initialized (wp w p) in
  let mapped := bool_decide (is_Some (mpp (wp w p))) in
  if ((eqb init INIT_OK || eqb init INIT_REQUESTED_UDEV) && negb mapped) || eqb init INIT_REMOVED
  then (0, w)
  else
    let w := upd_path p (tick_path ticks) w in
    if negb (tick (wp w p) =? 0) then (0, w)
    else
      let w := upd_path p (fun pp => if checkint pp =? CHECKINT_UNDEF
                                     then pp <| checkint := c_checkint conf |> else pp) w in
      if negb mapped && eqb init INIT_MISSING_UDEV then
        if retriggers (wp w p) <? c_retrigger_tries conf then
          (0, emit (TriggerChange p)
                (upd_path p (fun pp => pp <| initialized := INIT_REQUESTED_UDEV |>
                                          <| retriggers ::= Z.succ |>) w))
        else (0, upd_path p (fun pp => pp <| initialized := INIT_FAILED |>) w)
      else
        let w := upd_path p (fun pp => pp <| tick := c_checkint conf |>) w in
        let '(newstate, w) := probe_path p w in
        if eqb newstate PATH_WILD || eqb newstate PATH_UNCHECKED then
          (1, snd (run_pathinfo E p 0 w))
        else if negb (is_active newstate) && eqb (state (wp w p)) PATH_DELAYED then
          (1, upd_path p (fun pp => pp <| state := newstate |>) w)
        else
          match mpp (wp w p) with
          | None => check_orphan p newstate w
          | Some m => check_mapped p oldchkrstate newstate m w
          end.

(** One pass of [checkerloop] over the path vector: blacklisted paths are
    dropped and freed. [None] is the end of [fuel]. *)
Fixpoint check_all (fuel : nat) (i : nat) (ticks num : Z) (w : world) : option (Z * world) :=
  match fuel with
  | O => None
  | S f =>
      match pathvec w !! i with
      | None => Some (num, w)
      | Some p =>
          let '(rc, w) := check_path p ticks w in
          if rc <? 0 then check_all f i ticks num (free_path p (w <| pathvec ::= delete i |>))
          else check_all f (S i) ticks (num + rc) w
      end
  end.
End Checker.

(** ** What the kernel is told *)

(** The kernel's view of a path after a history of commands, starting from
    [start]: the last command for it wins. *)
Fixpoint kernel_view (alias dev_t : cstr) (start : pathstates) (h : history) : pathstates :=
  match h with
  | [] => start
  | DmFailPath a d :: r =>
      if bool_decide (a = alias) && bool_decide (d = dev_t) then PSTATE_FAILED
      else kernel_view alias dev_t start r
  | DmReinstatePath a d :: r =>
      if bool_decide (a = alias) && bool_decide (d = dev_t) then PSTATE_ACTIVE
      else kernel_view alias dev_t start r
  | _ :: r => kernel_view alias dev_t start r
  end.

Lemma kernel_view_fail a d k r : kernel_view a d k (DmFailPath a d :: r) = PSTATE_FAILED.
Proof. cbn. by rewrite !bool_decide_eq_true_2. Qed.

Lemma kernel_view_reinstate a d k r : kernel_view a d k (DmReinstatePath a d :: r) = PSTATE_ACTIVE.
Proof. cbn. by rewrite !bool_decide_eq_true_2. Qed.

Definition path_command (e : event) : bool :=
  match e with DmFailPath _ _ | DmReinstatePath _ _ => true | _ => false end.

Lemma kernel_view_app a d k h1 h2 :
  kernel_view a d k (h1 ++ h2) = kernel_view a d (kernel_view a d k h2) h1.
Proof. induction h1 as [|[] h1 IH]; cbn; try done; by case_match. Qed.

Lemma kernel_view_filter a d k h : kernel_view a d k (filter path_command h) = kernel_view a d k h.
Proof.
  induction h as [|e h IH]; [done|]. rewrite filter_consb.
  destruct e; cbn; rewrite ?IH; done.
Qed.

(** [extends w w' evs]: [w'] has the paths of [w] and told the outside [evs]. *)
Definition extends (w w' : world) (evs : history) : Prop :=
  trace w' = evs ++ trace w /\ w_paths w' = w_paths w /\
  forall m, m_alias (wm w' m) = m_alias (wm w m) /\ pg (wm w' m) = pg (wm w m).

Lemma extends_refl w : extends w w [].
Proof. done. Qed.

Lemma extends_trans w1 w2 w3 e1 e2 : extends w1 w2 e1 -> extends w2 w3 e2 -> extends w1 w3 (e2 ++ e1).
Proof.
  intros (T1 & P1 & M1) (T2 & P2 & M2). split_and!; [by rewrite T2, T1, app_assoc|congruence|].
  intros m. destruct (M1 m), (M2 m). split; congruence.
Qed.

Lemma extends_emit e w : extends w (emit e w) [e].
Proof. done. Qed.

Lemma extends_upd_map m f w :
  (forall mm, m_alias (f mm) = m_alias mm /\ pg (f mm) = pg mm) -> extends w (upd_map m f w) [].
Proof.
  intros H. split_and!; [done..|]. intros n. rewrite wm_upd_map. by case_decide; subst.
Qed.

(** Telling the outside these path commands, among other things. *)
Definition tells (cmds : history) (w w' : world) : Prop :=
  exists evs, extends w w' evs /\ filter path_command evs = cmds.

Abbreviation quiet := (tells []).

Lemma tells_trans c1 c2 w1 w2 w3 : tells c1 w1 w2 -> tells c2 w2 w3 -> tells (c2 ++ c1) w1 w3.
Proof.
  intros (e1 & H1 & <-) (e2 & H2 & <-). exists (e2 ++ e1). split; [by eapply extends_trans|].
  by rewrite filter_app.
Qed.

Lemma quiet_refl w : quiet w w.
Proof. exists []. split; [apply extends_refl|done]. Qed.

Lemma quiet_trans w1 w2 w3 : quiet w1 w2 -> quiet w2 w3 -> quiet w1 w3.
Proof. apply tells_trans. Qed.

Lemma tells_then_quiet c w1 w2 w3 : tells c w1 w2 -> quiet w2 w3 -> tells c w1 w3.
Proof. apply (tells_trans c []). Qed.

Lemma tells_emit e w : path_command e = true -> tells [e] w (emit e w).
Proof. intros H. exists [e]. split; [apply extends_emit|]. cbn. by rewrite H. Qed.

Lemma quiet_emit e w : path_command e = false -> quiet w (emit e w).
Proof. intros H. exists [e]. split; [apply extends_emit|]. cbn. by rewrite H. Qed.

Lemma quiet_upd_map m f w :
  (forall mm, m_alias (f mm) = m_alias mm /\ pg (f mm) = pg mm) -> quiet w (upd_map m f w).
Proof. intros H. exists []. split; [by apply extends_upd_map|done]. Qed.

Create HintDb quiet.
#[export] Hint Resolve quiet_refl : quiet.
#[export] Hint Extern 1 (quiet _ (emit _ _)) => (eapply quiet_trans; [|by apply quiet_emit]) : quiet.
#[export] Hint Extern 1 (quiet _ (upd_map _ _ _)) => (eapply quiet_trans; [|by apply quiet_upd_map]) : quiet.
#[export] Hint Extern 1 (quiet _ (dm_queue_if_no_path _ _ _)) => (eapply quiet_trans; [|by apply quiet_emit]) : quiet.

Lemma leave_recovery_quiet m w : quiet w (leave_recovery_mode m w).
Proof. unfold leave_recovery_mode. split_ifs; eauto with quiet. Qed.

Lemma enter_recovery_quiet E m w : quiet w (enter_recovery_mode E m w).
Proof. unfold enter_recovery_mode. split_ifs; eauto with quiet. Qed.

#[export] Hint Extern 1 (quiet _ (leave_recovery_mode _ _)) =>
  (eapply quiet_trans; [|by apply leave_recovery_quiet]) : quiet.
#[export] Hint Extern 1 (quiet _ (enter_recovery_mode _ _ _)) =>
  (eapply quiet_trans; [|by apply enter_recovery_quiet]) : quiet.

Lemma queue_del_quiet E m w : quiet w (update_queue_mode_del_path E m w).
Proof. unfold update_queue_mode_del_path. split_ifs; eauto with quiet. Qed.

Lemma queue_add_quiet m w : quiet w (update_queue_mode_add_path m w).
Proof. unfold update_queue_mode_add_path. split_ifs; eauto with quiet. Qed.

Lemma enable_group_quiet p m w : quiet w (enable_group p m w).
Proof. unfold enable_group. repeat case_match; eauto with quiet. Qed.

Lemma fail_path_tells E p m b w : mpp (wp w p) = Some m ->
  tells [DmFailPath (m_alias (wm w m)) (dev_t (wp w p))] w (fail_path E p b w).
Proof.
  intros H. unfold fail_path. rewrite H. destruct b.
  - eapply tells_then_quiet; [by apply tells_emit|apply queue_del_quiet].
  - by apply tells_emit.
Qed.

Lemma reinstate_path_tells E p m w : mpp (wp w p) = Some m ->
  tells [DmReinstatePath (m_alias (wm w m)) (dev_t (wp w p))] w (reinstate_path E p w).
Proof.
  intros H. unfold reinstate_path. rewrite H. case_match.
  - by apply tells_emit.
  - eapply tells_then_quiet; [by apply tells_emit|apply queue_add_quiet].
Qed.

(** Is the path a stand-by path that must not be reinstated? *)
Definition standby (E : env) (p m : ptr) (newstate : path_check_state) (w : world) : bool :=
  eqb newstate PATH_GHOST && (active_paths w m =? 0) && e_tpgs_implicit E (wp w p).

(** The command a checker result calls for. *)
Definition command_for (alias d : cstr) (newstate oldstate : path_check_state) (dm : pathstates)
    (standby : bool) : history :=
  let known st := eqb newstate oldstate && eqb dm st in
  if is_active newstate
  then if standby || known PSTATE_ACTIVE then [] else [DmReinstatePath alias d]
  else if known PSTATE_FAILED then [] else [DmFailPath alias d].

Lemma standby_active E p m newstate w : standby E p m newstate w = true -> is_active newstate = true.
Proof. unfold standby. by destruct newstate. Qed.

(** The command brings the kernel in line with the checker. *)
Lemma command_for_agrees a d new old dm sb : (sb = true -> is_active new = true) ->
  kernel_view a d dm (command_for a d new old dm sb) =
    if sb then dm else if is_active new then PSTATE_ACTIVE else PSTATE_FAILED.
Proof.
  intros H. unfold command_for.
  destruct (is_active new), sb, dm, (eqb new old); eqb_eval;
    rewrite ?kernel_view_fail, ?kernel_view_reinstate; try done; by specialize (H eq_refl).
Qed.

Lemma command_for_short a d new old dm sb : (length (command_for a d new old dm sb) <= 1)%nat.
Proof. unfold command_for. repeat case_match; cbn; lia. Qed.

Lemma tells_wp c w w' p : tells c w w' -> wp w' p = wp w p.
Proof. intros (evs & (_ & HP & _) & _). unfold wp. by rewrite HP. Qed.

Lemma wp_fail_path E p b w q : wp (fail_path E p b w) q = wp w q.
Proof.
  destruct (mpp (wp w p)) as [m|] eqn:H; [by eapply tells_wp, fail_path_tells|].
  unfold fail_path. by rewrite H.
Qed.

Lemma wp_reinstate_path E p w q : wp (reinstate_path E p w) q = wp w q.
Proof.
  destruct (mpp (wp w p)) as [m|] eqn:H; [by eapply tells_wp, reinstate_path_tells|].
  unfold reinstate_path. by rewrite H.
Qed.

Lemma wp_enable_group p m w q : wp (enable_group p m w) q = wp w q.
Proof. eapply tells_wp, enable_group_quiet. Qed.

#[export] Hint Rewrite wp_fail_path wp_reinstate_path wp_enable_group : world.

(** As [tells], but the store of paths may have changed. *)
Definition reports (cmds : history) (w w' : world) : Prop :=
  exists evs, trace w' = evs ++ trace w /\ filter path_command evs = cmds.

Lemma reports_trans c1 c2 w1 w2 w3 : reports c1 w1 w2 -> reports c2 w2 w3 -> reports (c2 ++ c1) w1 w3.
Proof.
  intros (e1 & T1 & <-) (e2 & T2 & <-). exists (e2 ++ e1).
  by rewrite filter_app, T2, T1, app_assoc.
Qed.

Lemma tells_reports c w w' : tells c w w' -> reports c w w'.
Proof. intros (evs & (HT & _) & HF). by exists evs. Qed.

Lemma reports_refl w : reports [] w w.
Proof. by exists []. Qed.

Lemma reports_upd_path c p f w w' : reports c w w' -> reports c w (upd_path p f w').
Proof. intros (evs & HT & HF). by exists evs. Qed.

Lemma reports_upd_map c p f w w' : reports c w w' -> reports c w (upd_map p f w').
Proof. intros (evs & HT & HF). by exists evs. Qed.

Lemma reports_then_quiet c w1 w2 w3 : reports c w1 w2 -> quiet w2 w3 -> reports c w1 w3.
Proof. intros H1 H2%tells_reports. by eapply (reports_trans c []). Qed.

Lemma reports_then_tells c w1 w2 w3 : reports [] w1 w2 -> tells c w2 w3 -> reports c w1 w3.
Proof. intros H1 H2%tells_reports. rewrite <-(app_nil_r c). by eapply reports_trans. Qed.

Lemma reports_fail E p m b a d w w' :
  mpp (wp w' p) = Some m -> m_alias (wm w' m) = a -> dev_t (wp w' p) = d ->
  reports [] w w' -> reports [DmFailPath a d] w (fail_path E p b w').
Proof. intros H <- <- Hr. eapply reports_then_tells; [done|]. by apply fail_path_tells. Qed.

Lemma reports_reinstate E p m a d w w' :
  mpp (wp w' p) = Some m -> m_alias (wm w' m) = a -> dev_t (wp w' p) = d ->
  reports [] w w' -> reports [DmReinstatePath a d] w (reinstate_path E p w').
Proof. intros H <- <- Hr. eapply reports_then_tells; [done|]. by apply reinstate_path_tells. Qed.

Lemma reports_enable_group c p m w w' : reports c w w' -> reports c w (enable_group p m w').
Proof. intros H. eapply reports_then_quiet; [done|apply enable_group_quiet]. Qed.

Create HintDb reports.
#[export] Hint Resolve reports_refl reports_upd_path reports_upd_map reports_enable_group : reports.

Lemma reports_pr_handler c p w w' : reports c w w' -> reports c w (emit (PrHandler p) w').
Proof. intros H. eapply reports_then_quiet; [done|]. by apply quiet_emit. Qed.

#[export] Hint Resolve reports_pr_handler : reports.

(** Discharges "the command was told" for a path with a known map. *)
Ltac told Hm :=
  repeat first [ apply reports_upd_path | apply reports_upd_map | apply reports_enable_group
               | eapply reports_reinstate; [rewrite ?wp_emit, ?wp_upd_path_eq; exact Hm|reflexivity
                                           |rewrite ?wp_emit, ?wp_upd_path_eq; reflexivity|]
               | eapply reports_fail; [rewrite ?wp_emit, ?wp_upd_path_eq; exact Hm|reflexivity
                                      |rewrite ?wp_emit, ?wp_upd_path_eq; reflexivity|]
               | apply reports_pr_handler | apply reports_refl ].

(** The state fields after [apply_state], and what it told the kernel. *)
Lemma apply_state_command E p m oldc new w v w' :
  mpp (wp w p) = Some m -> apply_state E p m oldc new w = (v, w') ->
  reports (command_for (m_alias (wm w m)) (dev_t (wp w p)) new (state (wp w p)) (dmstate (wp w p))
             (standby E p m new w)) w w' /\
  state (wp w' p) = new /\ chkrstate (wp w' p) = new /\
  v_done v = negb (is_active new) && negb (eqb new (state (wp w p))) /\
  (v_done v = true -> failback_tick (wm w' m) = 0 /\ checkint (wp w' p) = c_checkint (e_conf E)).
Proof.
  intros Hm. unfold apply_state, command_for. fold (standby E p m new w).
  set (sb := standby E p m new w). clearbody sb. autorewrite with world.
  change (state (wp w p <| chkrstate := new |>)) with (state (wp w p)).
  change (dmstate (wp w p <| chkrstate := new |>)) with (dmstate (wp w p)).
  destruct (eqb new (state (wp w p))) eqn:He, (is_active new) eqn:Ha; cbn [negb andb orb];
    intros [= <- <-]; split_and!;
    rewrite ?wp_upd_path_eq, ?wp_upd_map, ?wp_fail_path, ?wp_upd_path_eq, ?wm_upd_map_eq; try done.
  all: destruct sb, (dmstate (wp w p)); eqb_eval; try (destruct (eqb new PATH_UP)); try (destruct (prflag _));
    rewrite ?wp_enable_group, ?wp_reinstate_path, ?wp_fail_path, ?wp_emit, ?wp_upd_path_eq;
    try (by told Hm); try done.
Qed.


(** ** The check interval *)

Section Interval.
Context (E : env).
Context (Hmin : 0 < c_checkint (e_conf E)) (Hmax : c_checkint (e_conf E) <= c_max_checkint (e_conf E))
  (Hbig : c_max_checkint (e_conf E) < INT_MAX).

Lemma next_checkint_range c : 0 < c <= c_max_checkint (e_conf E) ->
  c <= next_checkint E c <= c_max_checkint (e_conf E) /\
  Z.min (2 * c) (c_max_checkint (e_conf E)) <= next_checkint E c /\
  (next_checkint E c = c <-> c = c_max_checkint (e_conf E)).
Proof using Hmax Hmin Hbig.
  unfold next_checkint, conf. intros H. unfold INT_MAX in *.
  rewrite Z.quot_div_nonneg by lia. pose proof (Z.div_mod (c_max_checkint (e_conf E)) 2).
  pose proof (Z.mod_pos_bound (c_max_checkint (e_conf E)) 2).
  destruct (Z.eqb_spec c (c_max_checkint (e_conf E))), (Z.ltb_spec c (c_max_checkint (e_conf E) / 2));
    rewrite ?u32_id by lia; lia.
Qed.

Lemma next_checkint_iter n : forall c, 0 < c <= c_max_checkint (e_conf E) ->
  c <= Nat.iter n (next_checkint E) c <= c_max_checkint (e_conf E) /\
  Z.min (c * 2 ^ Z.of_nat n) (c_max_checkint (e_conf E)) <= Nat.iter n (next_checkint E) c.
Proof using Hmax Hmin Hbig.
  induction n as [|n IH]; intros c H; [cbn; lia|].
  destruct (IH c H) as [IH1 IH2]. rewrite Nat.iter_succ.
  destruct (next_checkint_range (Nat.iter n (next_checkint E) c)) as (H1 & H2 & _); [lia|].
  rewrite Nat2Z.inj_succ, Z.pow_succ_r by lia.
  replace (c * (2 * 2 ^ Z.of_nat n)) with (2 * (c * 2 ^ Z.of_nat n)) by ring. lia.
Qed.
End Interval.

(** a path that stays good is checked at growing intervals: from the shortest
    interval, [n] successful checks give an interval between the shortest and
    the longest one, it never shrinks, and it has reached the longest one as
    soon as doubling [n] times would. *)
Theorem checkint_backoff E n :
  0 < c_checkint (e_conf E) -> c_checkint (e_conf E) <= c_max_checkint (e_conf E) ->
  c_max_checkint (e_conf E) < INT_MAX ->
  let c k := Nat.iter k (next_checkint E) (c_checkint (e_conf E)) in
  c_checkint (e_conf E) <= c n <= c (S n) /\ c (S n) <= c_max_checkint (e_conf E) /\
  (c_max_checkint (e_conf E) <= c_checkint (e_conf E) * 2 ^ Z.of_nat n ->
   c n = c_max_checkint (e_conf E)).
Proof.
  intros H0 H1 H2 c. subst c. cbv beta.
  destruct (next_checkint_iter E H0 H1 H2 n (c_checkint (e_conf E))) as [A B]; [lia|].
  destruct (next_checkint_range E H0 H1 H2 (Nat.iter n (next_checkint E) (c_checkint (e_conf E))))
    as (C & _ & _); [lia|].
  rewrite Nat.iter_succ. lia.
Qed.

(** ** Damping *)

(** Did the path come back from a failure? *)
Definition recovering (pp : path) : bool :=
  eqb (state pp) PATH_DOWN || eqb (state pp) PATH_SHAKY || eqb (state pp) PATH_TIMEOUT.

Definition working (pp : path) : bool :=
  eqb (state pp) PATH_UP || eqb (state pp) PATH_GHOST || eqb (state pp) PATH_DELAYED.

(** A path is kept from being reinstated in two cases only: it is disabled,
    the map has other active paths, and it was not good for longer than the
    recovery time; or it comes back from one failure too many.  The flag
    records the decision, a path released from being disabled starts without
    failures, and a path that is not disabled never has more failures than the
    threshold. *)
Theorem reinstate_damping mm active now pp skip pp' :
  san_path_check_enabled mm = true -> reinstate_state mm active now pp = (skip, pp') ->
  m_san_path_err_threshold mm <= INT_MAX -> 0 <= path_failures pp ->
  (disable_reinstate pp = false -> path_failures pp <= m_san_path_err_threshold mm) ->
  let held := active <> 0 /\
    (working pp = false \/ now - dis_reinstate_time pp <= m_san_path_err_recovery_time mm) in
  let flaps := recovering pp = true /\ m_san_path_err_threshold mm < path_failures pp + 1 in
  (skip = true <-> (disable_reinstate pp = true /\ held) \/ (disable_reinstate pp = false /\ flaps)) /\
  disable_reinstate pp' = skip /\
  (disable_reinstate pp = false -> skip = true -> dis_reinstate_time pp' = now) /\
  (disable_reinstate pp = true -> skip = false -> path_failures pp' = 0) /\
  (skip = false -> 0 <= path_failures pp' <= m_san_path_err_threshold mm) /\
  state pp' = state pp /\ mpp pp' = mpp pp.
Proof.
  unfold san_path_check_enabled, reinstate_state, working, recovering. intros Hen. rewrite Hen. cbn [negb].
  apply andb_true_iff in Hen as [[H1 H2]%andb_true_iff H3]. apply Z.ltb_lt in H1, H2, H3.
  unfold INT_MAX. intros Hr Ht H0 Hle.
  destruct (disable_reinstate pp) eqn:Hdis; [clear Hle|specialize (Hle eq_refl)];
    destruct (state pp) eqn:Hst; eqb_eval;
    repeat match type of Hr with context [if ?b then _ else _] => destruct b eqn:? end;
    injection Hr as <- <-; bools; cbn in *; rewrite ?u32_id in * by lia.
  all: split_and!; first [done|congruence|lia|intuition (lia || congruence)].
Qed.

(** ** Recovery mode *)

Definition tick_one (mm : multipath) : multipath :=
  if 0 <? retry_tick mm then
    let mm := mm <| stat_total_queueing_time ::= (fun n => u32 (n + 1)) |> <| retry_tick ::= Z.pred |> in
    if retry_tick mm =? 0 then mm <| stat_map_failures ::= (fun n => u32 (n + 1)) |> else mm
  else mm.

(** What the tick of a map tells the kernel. *)
Definition off_command (w : world) (m : ptr) : history :=
  if retry_tick (wm w m) =? 1 then [DmQueueIfNoPath (m_alias (wm w m)) false] else [].

Lemma reverse_off_command w m : reverse (off_command w m) = off_command w m.
Proof. unfold off_command. by case_match. Qed.

Lemma retry_tick_map_spec w m :
  (forall n, wm (retry_tick_map w m) n = if decide (m = n) then tick_one (wm w m) else wm w n) /\
  w_paths (retry_tick_map w m) = w_paths w /\ mpvec (retry_tick_map w m) = mpvec w /\
  trace (retry_tick_map w m) =
    off_command w m ++ trace w.
Proof.
  unfold retry_tick_map, tick_one, off_command. destruct (Z.ltb_spec 0 (retry_tick (wm w m))).
  - rewrite wm_upd_map_eq.
    change (retry_tick (wm w m <| stat_total_queueing_time ::= _ |> <| retry_tick ::= Z.pred |>))
      with (Z.pred (retry_tick (wm w m))).
    destruct (Z.eqb_spec (Z.pred (retry_tick (wm w m))) 0), (Z.eqb_spec (retry_tick (wm w m)) 1); try lia.
    + split_and!; [|done..|].
      * intros q. unfold dm_queue_if_no_path. rewrite wm_emit, !wm_upd_map. by repeat case_decide.
      * unfold dm_queue_if_no_path. rewrite trace_emit, !wm_upd_map_eq. done.
    + split_and!; [|done..]. intros q. by rewrite wm_upd_map.
  - destruct (Z.eqb_spec (retry_tick (wm w m)) 1); [lia|]. split_and!; try done.
    intros q. by case_decide; subst.
Qed.

Lemma retry_ticks_spec ms : forall w, NoDup ms ->
  let w' := foldl retry_tick_map w ms in
  (forall n, wm w' n = if decide (n ∈ ms) then tick_one (wm w n) else wm w n) /\
  mpvec w' = mpvec w /\
  trace w' = reverse (ms ≫= off_command w) ++ trace w.
Proof.
  induction ms as [|m ms IH]; intros w Hnd.
  { split_and!; [|done..]. intros q. by rewrite decide_False by apply not_elem_of_nil. }
  apply NoDup_cons in Hnd as [Hm Hnd]. cbn [foldl].
  destruct (retry_tick_map_spec w m) as (A & _ & B & C).
  destruct (IH (retry_tick_map w m) Hnd) as (A' & B' & C'). split_and!.
  - intros q. rewrite A'. repeat case_decide; rewrite A; repeat case_decide; set_solver.
  - congruence.
  - rewrite C', C, bind_cons.
    rewrite reverse_app, reverse_off_command, <-app_assoc. f_equal. f_equal.
    apply Forall_bind_ext, Forall_forall. intros q Hq. unfold off_command. rewrite A.
    rewrite decide_False by congruence. done.
Qed.

(** How often was the kernel told to stop queueing for this map? *)
Definition is_off (alias : cstr) (e : event) : bool :=
  match e with DmQueueIfNoPath a false => bool_decide (a = alias) | _ => false end.
Definition offs (alias : cstr) (h : history) : Z := count_if (is_off alias) h.

Lemma offs_app a h1 h2 : offs a (h1 ++ h2) = offs a h1 + offs a h2.
Proof. unfold offs, count_if. rewrite filter_app, length_app. lia. Qed.

Lemma offs_reverse a h : offs a (reverse h) = offs a h.
Proof. unfold offs, count_if. by rewrite (reverse_Permutation h). Qed.

Lemma tick_one_alias mm : m_alias (tick_one mm) = m_alias mm.
Proof. unfold tick_one. by repeat case_match. Qed.

Lemma offs_off_commands w m ms : NoDup ms ->
  (forall q, q ∈ ms -> m_alias (wm w q) = m_alias (wm w m) -> q = m) ->
  offs (m_alias (wm w m)) (ms ≫= off_command w) =
    if bool_decide (m ∈ ms) && (retry_tick (wm w m) =? 1) then 1 else 0.
Proof.
  induction ms as [|q ms IH]; intros Hnd Hu; [by rewrite bool_decide_eq_false_2 by apply not_elem_of_nil|].
  apply NoDup_cons in Hnd as [Hq Hnd].
  rewrite bind_cons, offs_app, IH by (done || set_solver). clear IH.
  assert (offs (m_alias (wm w m)) (off_command w q) =
    if bool_decide (q = m) && (retry_tick (wm w m) =? 1) then 1 else 0) as ->.
  { unfold off_command. case_bool_decide as Hqm; [subst q|].
    - case_match; [|done]. unfold offs, count_if. rewrite filter_consb. cbn.
      by rewrite bool_decide_eq_true_2.
    - case_match; [|done]. unfold offs, count_if. rewrite filter_consb. cbn.
      rewrite bool_decide_eq_false_2; [done|]. intros Heq. apply Hqm, Hu; [left|done]. }
  repeat case_bool_decide; subst; cbn [andb]; try (case_match; lia); set_solver.
Qed.

Lemma tick_one_fields mm : m_alias (tick_one mm) = m_alias mm /\ no_path_retry (tick_one mm) = no_path_retry mm /\
  in_recovery (tick_one mm) = in_recovery mm /\ retry_tick (tick_one mm) = Z.min (retry_tick mm) (Z.max 0 (Z.pred (retry_tick mm))).
Proof.
  unfold tick_one. destruct (Z.ltb_spec 0 (retry_tick mm)); [case_match|];
    (split_and!; try reflexivity; cbn; lia).
Qed.

Lemma u32_add_u32 a b : u32 (u32 a + b) = u32 (a + b).
Proof. unfold u32. apply Zplus_mod_idemp_l. Qed.

Lemma tick_one_failures mm : u32 (stat_map_failures (tick_one mm)) =
  u32 (stat_map_failures mm + (if retry_tick mm =? 1 then 1 else 0)).
Proof.
  unfold tick_one. destruct (Z.ltb_spec 0 (retry_tick mm)); cbn.
  - destruct (Z.eqb_spec (Z.pred (retry_tick mm)) 0), (Z.eqb_spec (retry_tick mm) 1); try lia; cbn.
    + apply u32_id, u32_range.
    + f_equal. lia.
  - destruct (Z.eqb_spec (retry_tick mm) 1); [lia|]. f_equal. lia.
Qed.

(** The state of a map in recovery mode after [n] ticks. *)
Lemma retry_countdown w m T n : NoDup (mpvec w) -> m ∈ mpvec w ->
  (forall q, q ∈ mpvec w -> m_alias (wm w q) = m_alias (wm w m) -> q = m) ->
  0 < T -> retry_tick (wm w m) = T ->
  let w' := Nat.iter n retry_count_tick w in
  mpvec w' = mpvec w /\ (forall q, m_alias (wm w' q) = m_alias (wm w q)) /\
  retry_tick (wm w' m) = Z.max 0 (T - Z.of_nat n) /\
  u32 (stat_map_failures (wm w' m)) = u32 (stat_map_failures (wm w m) + (if T <=? Z.of_nat n then 1 else 0)) /\
  offs (m_alias (wm w m)) (trace w') =
    offs (m_alias (wm w m)) (trace w) + (if T <=? Z.of_nat n then 1 else 0).
Proof.
  intros Hnd Hm Hu HT Ht. induction n as [|n IH].
  { rewrite (proj2 (Z.leb_gt T (Z.of_nat 0))), !Z.add_0_r by lia. cbn. split_and!; (done || lia). }
  destruct IH as (B & A & R & F & O). rewrite Nat.iter_succ.
  set (w1 := Nat.iter n retry_count_tick w) in *.
  destruct (retry_ticks_spec (mpvec w1) w1) as (A1 & B1 & C1); [by rewrite B|].
  fold (retry_count_tick w1) in A1, B1, C1.
  assert ((retry_tick (wm w1 m) =? 1) = (Z.of_nat n =? T - 1)) as H1 by (rewrite R; blia).
  split_and!.
  - congruence.
  - intros q. rewrite A1. case_decide; rewrite ?tick_one_alias; apply A.
  - rewrite A1, decide_True by (by rewrite B). unfold tick_one.
    destruct (Z.ltb_spec 0 (retry_tick (wm w1 m))); repeat case_match; cbn; lia.
  - rewrite A1, decide_True, tick_one_failures, H1 by (by rewrite B).
    rewrite <-u32_add_u32, F, u32_add_u32. f_equal.
    destruct (Z.eqb_spec (Z.of_nat n) (T - 1)), (Z.leb_spec T (Z.of_nat n)), (Z.leb_spec T (Z.of_nat (S n))); lia.
  - rewrite C1, offs_app, offs_reverse, O, <-(A m), offs_off_commands, H1, bool_decide_eq_true_2.
    + cbn [andb].
      destruct (Z.eqb_spec (Z.of_nat n) (T - 1)), (Z.leb_spec T (Z.of_nat n)), (Z.leb_spec T (Z.of_nat (S n))); lia.
    + by rewrite B.
    + by rewrite B.
    + intros q Hq. rewrite !A. apply Hu. by rewrite <-B.
Qed.

(** C37: a map that loses its last path keeps queueing for [no_path_retry] check
    intervals and one more second, no more and no less: entering recovery mode
    starts the countdown, and after [n] ticks of the daemon the kernel was told
    once to stop queueing if the time is over, and not at all before. *)
Theorem recovery_times_out E w m n : NoDup (mpvec w) -> m ∈ mpvec w ->
  (forall q, q ∈ mpvec w -> m_alias (wm w q) = m_alias (wm w m) -> q = m) ->
  in_recovery (wm w m) = false -> 0 < no_path_retry (wm w m) -> 0 < c_checkint (e_conf E) ->
  no_path_retry (wm w m) * c_checkint (e_conf E) + 1 <= INT_MAX ->
  let T := no_path_retry (wm w m) * c_checkint (e_conf E) + 1 in
  let w' := Nat.iter n retry_count_tick (enter_recovery_mode E m w) in
  retry_tick (wm w' m) = Z.max 0 (T - Z.of_nat n) /\
  offs (m_alias (wm w m)) (trace w') =
    offs (m_alias (wm w m)) (trace w) + (if T <=? Z.of_nat n then 1 else 0) /\
  u32 (stat_map_failures (wm w' m)) =
    u32 (stat_map_failures (wm w m) + (if T <=? Z.of_nat n then 1 else 0)).
Proof.
  intros Hnd Hm Hu Hr Hp Hc Hmax T. unfold enter_recovery_mode. rewrite Hr. cbn [orb].
  rewrite (proj2 (Z.leb_gt (no_path_retry (wm w m)) 0)) by lia.
  match goal with |- context [upd_map m ?f w] => set (w0 := upd_map m f w) end.
  assert (retry_tick (wm w0 m) = T) as HT.
  { unfold w0. rewrite wm_upd_map_eq. cbn. apply s32_id. unfold is_int, INT_MIN. lia. }
  assert (forall q, m_alias (wm w0 q) = m_alias (wm w q)) as Ha.
  { intros q. unfold w0. rewrite wm_upd_map. by case_decide; subst. }
  destruct (retry_countdown w0 m T n) as (_ & _ & R & F & O); try done.
  { intros q. rewrite !Ha. apply Hu. }
  { lia. }
  rewrite Ha in O. split_and!; [exact R|exact O|]. rewrite F.
  unfold w0. by rewrite wm_upd_map_eq.
Qed.

(** *** Queueing as a state machine *)

(** Does the kernel queue for the map?  The last command wins. *)
Fixpoint kernel_queues (alias : cstr) (start : bool) (h : history) : bool :=
  match h with
  | [] => start
  | DmQueueIfNoPath a on :: r => if bool_decide (a = alias) then on else kernel_queues alias start r
  | _ :: r => kernel_queues alias start r
  end.

Definition queue_command (alias : cstr) (e : event) : bool :=
  match e with DmQueueIfNoPath a _ => bool_decide (a = alias) | _ => false end.

Lemma kernel_queues_app a b h1 h2 :
  kernel_queues a b (h1 ++ h2) = kernel_queues a (kernel_queues a b h2) h1.
Proof. induction h1 as [|[] h1 IH]; cbn; try done; by case_match. Qed.

Lemma kernel_queues_none a b h : filter (queue_command a) h = [] -> kernel_queues a b h = b.
Proof.
  induction h as [|e h IH]; [done|]. rewrite filter_consb.
  destruct e; cbn; try done. by case_bool_decide.
Qed.

Lemma kernel_queues_cons a b on r : kernel_queues a b (DmQueueIfNoPath a on :: r) = on.
Proof. cbn. by rewrite bool_decide_eq_true_2. Qed.

(** What the daemon does to the queueing of the map [m], one call at a time; in
    between, paths change, other maps are handled and other things are told. *)
Inductive queue_step (E : env) (m : ptr) (w : world) : world -> Prop :=
  | step_del_path : queue_step E m w (update_queue_mode_del_path E m w)
  | step_add_path : queue_step E m w (update_queue_mode_add_path m w)
  | step_set b : queue_step E m w (set_no_path_retry E b m w)
  | step_tick : queue_step E m w (retry_tick_map w m)
  | step_other w' evs : trace w' = evs ++ trace w -> filter (queue_command (m_alias (wm w m))) evs = [] ->
      m_alias (wm w' m) = m_alias (wm w m) -> no_path_retry (wm w' m) = no_path_retry (wm w m) ->
      in_recovery (wm w' m) = in_recovery (wm w m) -> retry_tick (wm w' m) = retry_tick (wm w m) ->
      queue_step E m w w'.

(** The kernel queues unless the time of recovery mode is over. *)
Definition queueing_agrees (start : bool) (m : ptr) (w : world) : Prop :=
  0 <= retry_tick (wm w m) /\ (0 < retry_tick (wm w m) -> in_recovery (wm w m) = true) /\
  kernel_queues (m_alias (wm w m)) start (trace w) =
    negb (in_recovery (wm w m)) || (0 <? retry_tick (wm w m)).

Section Queueing.
Context (E : env) (m : ptr) (start : bool).
Context (Hc : 0 < c_checkint (e_conf E)).

(** The settings of the map. *)
Definition retries (w : world) : Prop :=
  0 < no_path_retry (wm w m) /\ no_path_retry (wm w m) * c_checkint (e_conf E) < INT_MAX.

Lemma enter_recovery_agrees w : retries w -> queueing_agrees start m w ->
  queueing_agrees start m (enter_recovery_mode E m w) /\ retries (enter_recovery_mode E m w).
Proof using Hc.
  intros Hret Hag. destruct (Hret) as (Hp & Hmax), (Hag) as (R0 & R1 & K). unfold enter_recovery_mode.
  rewrite (proj2 (Z.leb_gt (no_path_retry (wm w m)) 0)), orb_false_r by lia.
  destruct (in_recovery (wm w m)) eqn:Hr; [done|].
  unfold queueing_agrees, retries. rewrite wm_upd_map_eq. cbn [trace upd_map].
  assert (0 < s32 (no_path_retry (wm w m) * c_checkint (e_conf E) + 1)) as HT.
  { rewrite s32_id; unfold is_int, INT_MIN, INT_MAX in *; lia. }
  cbn. split; [|done]. split_and!; [lia|done|].
  by rewrite (proj2 (Z.ltb_lt 0 _) HT), K.
Qed.

Lemma leave_recovery_agrees w : retries w -> queueing_agrees start m w ->
  queueing_agrees start m (leave_recovery_mode m w) /\ retries (leave_recovery_mode m w).
Proof using Hc.
  intros (Hp & Hmax) (R0 & R1 & K). unfold leave_recovery_mode.
  rewrite wm_upd_map_eq. cbn [no_path_retry].
  change (no_path_retry (wm w m <| in_recovery := false |> <| retry_tick := 0 |>)) with (no_path_retry (wm w m)).
  rewrite (proj2 (Z.ltb_lt 0 _) Hp), orb_true_r, andb_true_r.
  unfold queueing_agrees, retries, dm_queue_if_no_path.
  destruct (in_recovery (wm w m)) eqn:Hr.
  - rewrite wm_emit, trace_emit, wm_upd_map_eq. cbn -[kernel_queues].
    split; [|done]. split_and!; [lia|lia|]. apply kernel_queues_cons.
  - rewrite wm_upd_map_eq, trace_upd_map. cbn. split; [|done]. split_and!; [lia|lia|]. by rewrite K.
Qed.

Lemma emit_on_agrees w : retries w -> queueing_agrees start m w -> in_recovery (wm w m) = false ->
  queueing_agrees start m (dm_queue_if_no_path m true w).
Proof using Type.
  intros Hret (R0 & R1 & K) Hr. unfold dm_queue_if_no_path, queueing_agrees.
  rewrite wm_emit, trace_emit, kernel_queues_cons, Hr. split_and!; try done. by rewrite Hr in R1.
Qed.

Lemma set_no_path_retry_agrees b w : retries w -> queueing_agrees start m w ->
  queueing_agrees start m (set_no_path_retry E b m w) /\ retries (set_no_path_retry E b m w).
Proof using Hc.
  intros Hret Hag. pose proof (proj1 Hret) as Hp. unfold set_no_path_retry.
  unfold NO_PATH_RETRY_UNDEF, NO_PATH_RETRY_FAIL, NO_PATH_RETRY_QUEUE.
  rewrite !(proj2 (Z.eqb_neq (no_path_retry (wm w m)) _)) by lia.
  case_match; [|by apply enter_recovery_agrees].
  apply leave_recovery_agrees; case_match; try done.
  bools. by apply emit_on_agrees.
Qed.

Lemma retry_tick_agrees w : retries w -> queueing_agrees start m w ->
  queueing_agrees start m (retry_tick_map w m) /\ retries (retry_tick_map w m).
Proof using Type.
  intros [Hp Hmax] (R0 & R1 & K). destruct (retry_tick_map_spec w m) as (A & _ & _ & C).
  destruct (tick_one_fields (wm w m)) as (F1 & F2 & F3 & F4).
  unfold queueing_agrees, retries. rewrite A, decide_True, C, F1, F2, F3, F4, kernel_queues_app, K by done.
  split; [|done]. split_and!; [lia|intros; apply R1; lia|]. unfold off_command.
  destruct (Z.eqb_spec (retry_tick (wm w m)) 1) as [H1|H1].
  - rewrite kernel_queues_cons, H1, R1 by lia. done.
  - cbn [kernel_queues]. f_equal. blia.
Qed.

Lemma queue_step_agrees w w' : retries w -> queueing_agrees start m w -> queue_step E m w w' ->
  queueing_agrees start m w' /\ retries w'.
Proof using Hc.
  intros Hret Hag [| |b| |w'' evs HT HF Ha Hp Hr Ht].
  - unfold update_queue_mode_del_path. case_match; [|done].
    destruct (enter_recovery_agrees w Hret Hag) as [Hag' Hret']. case_match; [done|].
    unfold queueing_agrees, retries in *. by rewrite wm_upd_map_eq.
  - unfold update_queue_mode_add_path. case_match; [|done]. by apply leave_recovery_agrees.
  - by apply set_no_path_retry_agrees.
  - by apply retry_tick_agrees.
  - unfold queueing_agrees, retries in *.
    rewrite Ha, Hp, Hr, Ht, HT, kernel_queues_app, kernel_queues_none by done. done.
Qed.
End Queueing.


(** ** The states of the daemon *)

(** What the state may become: other threads may run while [set_config_state]
    waits. *)
Inductive daemon_reaches (st : daemon_status) : daemon_status -> Prop :=
  | reach_here : daemon_reaches st st
  | reach_post new st1 : daemon_reaches st st1 -> daemon_reaches st (post_config_state new st1)
  | reach_set rc new st1 st2 : daemon_reaches st st1 -> daemon_reaches st1 st2 ->
      daemon_reaches st (snd (set_config_state rc st2 new st1)).

Lemma set_config_state_shutdown rc mid new :
  snd (set_config_state rc mid new DAEMON_SHUTDOWN) = DAEMON_SHUTDOWN.
Proof. by destruct new. Qed.

(** Shutdown is final, whatever states are posted or set; a successful
    [set_config_state] leaves the state that was asked for unless the daemon
    was shut down meanwhile, and during shutdown it fails with EINVAL unless
    shutdown itself is asked for. *)
Theorem shutdown_is_final st : daemon_reaches DAEMON_SHUTDOWN st ->
  st = DAEMON_SHUTDOWN /\
  forall rc mid new, mid <> DAEMON_SHUTDOWN ->
    (fst (set_config_state rc mid new st) = if eqb new DAEMON_SHUTDOWN then 0 else EINVAL) /\
    (forall old, old <> DAEMON_SHUTDOWN -> fst (set_config_state rc mid new old) = 0 ->
       snd (set_config_state rc mid new old) = new).
Proof.
  intros H. assert (st = DAEMON_SHUTDOWN) as ->.
  { remember DAEMON_SHUTDOWN as s0 eqn:Hs. induction H as [s1|s1 new st1 _ IH|s1 rc new st1 st2 _ IH _ _]; subst; [done| |].
    - rewrite IH by done. by destruct new.
    - rewrite IH by done. apply set_config_state_shutdown. }
  split; [done|]. intros rc mid new Hmid. split; [by destruct new|].
  intros old Hold. unfold set_config_state.
  destruct new, old, mid; try done; eqb_eval; destruct (Z.eqb_spec rc 0); cbn; try done; intros; lia.
Qed.

(** ** Witnesses *)

(** Path 0 of map 0 is down. *)
Definition one_down : world :=
  upd_map 0%nat (fun m => m <| m_alias := s "a" |> <| no_path_retry := 3 |>)
    (upd_path 0%nat (fun p => p <| state := PATH_DOWN |> <| dmstate := PSTATE_FAILED |>) two_maps).


Lemma checkint_backoff_witness :
  next_checkint calm 5 = 10 /\ Nat.iter 2 (next_checkint calm) 5 = 20.
Proof.
  split; [reflexivity|].
  apply (checkint_backoff calm 2); vm_compute; congruence.
Defined.

Definition damped_map : multipath :=
  alloc_multipath <| m_san_path_err_threshold := 2 |> <| m_san_path_err_forget_rate := 1 |>
    <| m_san_path_err_recovery_time := 100 |>.
Definition flapping : path := alloc_path <| state := PATH_DOWN |> <| path_failures := 2 |>.

Lemma reinstate_damping_witness :
  let r := reinstate_state damped_map 1 7 flapping in
  fst r = true /\ disable_reinstate (snd r) = true /\ dis_reinstate_time (snd r) = 7.
Proof.
  intros r. destruct (reinstate_damping damped_map 1 7 flapping (fst r) (snd r) eq_refl (surjective_pairing _))
    as (Hiff & Hflag & Htime & _); try (vm_compute; congruence).
  assert (fst r = true) as Hr by (apply Hiff; right; vm_compute; repeat split).
  split_and!; [exact Hr|by rewrite Hflag|by apply Htime].
Defined.

Lemma recovery_times_out_witness :
  offs (s "a") (trace (Nat.iter 15 retry_count_tick (enter_recovery_mode calm 0%nat one_down))) = 0 /\
  offs (s "a") (trace (Nat.iter 16 retry_count_tick (enter_recovery_mode calm 0%nat one_down))) = 1.
Proof.
  split; [destruct (recovery_times_out calm one_down 0%nat 15) as (_ & H & _)
         |destruct (recovery_times_out calm one_down 0%nat 16) as (_ & H & _)];
    try exact H; try (vm_compute; congruence); try decide_closed.
  all: intros q; rewrite list_elem_of_In; cbn; intros [<-|[<-|[]]]; vm_compute; congruence.
Defined.


Lemma shutdown_is_final_witness :
  post_config_state DAEMON_IDLE DAEMON_SHUTDOWN = DAEMON_SHUTDOWN.
Proof.
  apply (shutdown_is_final (post_config_state DAEMON_IDLE DAEMON_SHUTDOWN)).
  apply reach_post, reach_here.
Defined.
