(* ===== verification/Daemon.v ===== *)
(** * multipathd/main.c: the event handlers of the daemon

    What the daemon does when udev reports a path or a map, the timers of the
    checker loop that may reload or remove maps, and the two functions the path
    checker was parameterised with.  [sysname] is the name udev has for the
    device of a uevent. *)

From S2P Require Import Prelude CString Util Uevent Structs Pgpolicies Dmparser World StructsVec.
From S2P Require Import Configure Coalesce Checker.

Definition FILE_NAME_SIZE : nat := 256.

Section Daemon.
Variable E : env.
Variable sysname : uevent -> option cstr.

(** ** Waiting for events of a map *)

Definition wait_for_events (m : ptr) (w : world) : bool * world :=
  let fails := e_wait_fails E (trace w) in
  let w := emit (WaitForEvents m) w in
  (fails, if c_poll_dmevents (e_conf E) then w else upd_map m (fun mm => mm <| waiter := negb fails |>) w).

(** The handlers run in other threads than the waiter. *)
Definition stop_waiter_thread (m : ptr) (w : world) : world :=
  if waiter (wm w m) then emit (StopWaiter m) (upd_map m (fun mm => mm <| waiter := false |>) w) else w.

Definition remove_map_and_stop_waiter (m : ptr) (w : world) : world :=
  remove_map m true (if c_poll_dmevents (e_conf E) then w else stop_waiter_thread m w).

(** ** Reading a map back from the kernel *)

Definition dm_cancel_deferred_remove (m : ptr) (w : world) : world :=
  if e_deferred E (trace w)
  then emit (DmCancelDeferredRemove (m_alias (wm w m)))
         (upd_map m (fun mm => if deferred_remove mm =? DEFERRED_REMOVE_IN_PROGRESS
                               then mm <| deferred_remove := YNU_YES |> else mm) w)
  else w.

(** Did it fail? Then the map is gone. *)
Definition setup_multipath (reset : bool) (m : ptr) (w : world) : bool * world :=
  let info := e_dm_info E (trace w) in
  let w := upd_map m (fun mm => mm <| dmi := info |>) (emit (DmInfo (m_alias (wm w m))) w) in
  let fail w := (true, remove_map_and_stop_waiter m w) in
  match info with
  | None => fail w
  | Some _ =>
      let '(r, w) := update_multipath_strings E m w in
      if negb (eqb r DMP_OK) then fail w
      else if negb reset then (false, w)
      else
        let w := set_no_path_retry E true m w in
        (false, if (length (slots (m_paths (wm w m))) =? 0)%nat then w else dm_cancel_deferred_remove m w)
  end.

(** A path the kernel has failed is marked down, and checked soon. *)
Definition mark_as_failed (m : ptr) (w : world) (p : ptr) : world :=
  let pp := wp w p in
  if negb (eqb (dmstate pp) PSTATE_FAILED) || eqb (state pp) PATH_DOWN then w
  else
    let w := upd_map m (fun mm => mm <| stat_path_failures ::= (fun n => u32 (n + 1)) |>) w in
    let w := upd_path p (fun pp => pp <| state := PATH_DOWN |>) w in
    let w := if eqb (state pp) PATH_UP || eqb (state pp) PATH_GHOST
             then update_queue_mode_del_path E m w else w in
    upd_path p (fun pp => if c_checkint (e_conf E) <? tick pp
                          then pp <| tick := c_checkint (e_conf E) |> else pp) w.

(** 2: not found, 1: removed. *)
Definition update_multipath (mapname : cstr) (reset : bool) (w : world) : Z * world :=
  match find_mp_by_alias (w_maps w) (mpvec w) mapname with
  | None => (2, w)
  | Some m =>
      let '(failed, w) := setup_multipath reset m w in
      if failed then (1, w) else (0, foldl (mark_as_failed m) w (all_paths (wm w m)))
  end.

(** ** Reloading a map *)

(** Up to [retries] more attempts after a failure; the result is the table load
    result with the retries left, or no retries when a step before it failed. *)
Fixpoint update_map_loop (retries : nat) (m : ptr) (w : world) : Z * world :=
  let '(failure, w) := adopt_paths E m w in
  if failure then (-1, w)
  else
    let w := set_action ACT_RELOAD m (snd (verify_paths E m w)) in
    match setup_map E m w with
    | (None, w) => (-1, w)
    | (Some params, w) =>
        let '(r, w) := domap E m params true w in
        if eqb r DOMAP_FAIL then
          match retries with
          | O => (-1, w)
          | S n => update_map_loop n m (emit Sleep w)
          end
        else (Z.of_nat retries, w)
    end.

(** Was the map removed? *)
Definition update_map (m : ptr) (new_map : bool) (w : world) : bool * world :=
  let '(retries, w) := update_map_loop 3 m w in
  let '(failed, w) :=
    if new_map then (if retries <? 0 then (true, w) else wait_for_events m w) else (false, w) in
  if failed then (true, remove_map m true w)
  else
    let '(gone, w) := setup_multipath true m w in
    if gone then (true, w) else (false, sync_map_state m w).

Definition add_map_without_path (alias : cstr) (w : world) : option ptr * world :=
  let '(m, w) := new_multipath (alloc_multipath <| m_alias := alias |>) w in
  let fail w := (None, remove_map m true w) in
  let info := e_dm_info E (trace w) in
  let w := upd_map m (fun mm => mm <| dmi := info |>) (emit (DmInfo alias) w) in
  match info with
  | None => fail w
  | Some _ =>
      let uuid := e_uuid E (trace w) in
      let w := upd_map m (fun mm => mm <| m_wwid := take (Z.to_nat (WWID_SIZE - 1)) (default [] uuid) |>)
                 (emit (DmInfo alias) w) in
      let '(r, w) := update_multipath_table E m 0 w in
      if negb (eqb r DMP_OK) then fail w
      else
        let '(r, w) := update_multipath_status E m w in
        if negb (eqb r DMP_OK) then fail w
        else
          let '(gone, w) := update_map m true (w <| mpvec ::= (fun l => l ++ [m]) |>) in
          (if gone then None else Some m, w)
  end.

(** ** Flushing *)

(** The maps of the old list that are not among the new ones are flushed, or
    kept when the kernel does not let them go. *)
Fixpoint coalesce_maps (fuel : nat) (i : nat) (nmpv : list ptr) (w : world) : option (list ptr * world) :=
  match fuel with
  | O => None
  | S f =>
      match mpvec w !! i with
      | None => Some (nmpv, w)
      | Some m =>
          match find_mp_by_wwid (w_maps w) nmpv (m_wwid (wm w m)) with
          | None =>
              let r := e_flush E (trace w) in
              let w := emit (DmFlush (m_alias (wm w m)) false) w in
              if r =? 0 then coalesce_maps f (S i) nmpv w
              else
                let '(gone, w) := setup_multipath true m w in
                if gone then coalesce_maps f i nmpv w
                else coalesce_maps f i (nmpv ++ [m]) (w <| mpvec ::= delete i |>)
          | Some _ =>
              coalesce_maps f (S i) nmpv
                (if c_reassign_maps (e_conf E) then emit (DmReassign (m_alias (wm w m))) w else w)
          end
      end
  end.

(** 0 when the map is gone. *)
Definition flush_map (m : ptr) (nopaths : bool) (w : world) : Z * world :=
  let r := e_flush E (trace w) in
  let w := emit (DmFlush (m_alias (wm w m)) nopaths) w in
  if negb (r =? 0)
  then (r, if r =? 1 then w
           else upd_map m (fun mm => mm <| deferred_remove := DEFERRED_REMOVE_IN_PROGRESS |>) w)
  else (0, remove_map_and_stop_waiter m (orphan_paths m w)).

(** ** Maps appear and disappear *)

Definition need_to_delay_reconfig (w : world) : bool :=
  existsb (fun m => negb (wait_for_udev (wm w m) =? 0)) (mpvec w).

Definition ev_add_map (alias : cstr) (w : world) : Z * world :=
  let is_mpath := e_is_mpath E (trace w) in
  let w := emit (DmIsMpath alias) w in
  if negb (is_mpath =? 1) then (0, w)
  else
    match find_mp_by_alias (w_maps w) (mpvec w) alias with
    | Some m =>
        let '(gone, w) := if 1 <? wait_for_udev (wm w m) then update_map m false w else (false, w) in
        if gone then (1, w)
        else
          let waited := negb (wait_for_udev (wm w m) =? 0) in
          let w := upd_map m (fun mm => mm <| wait_for_udev := 0 |>) w in
          if waited && c_delayed_reconfig (e_conf E) && negb (need_to_delay_reconfig w)
          then (0, emit Reconfigure w)
          else (0, if c_reassign_maps (e_conf E) then emit (DmReassign alias) w else w)
    | None =>
        match add_map_without_path alias w with
        | (Some m, w) => (0, sync_map_state m w)
        | (None, w) => (1, w)
        end
    end.

Definition uev_add_map (u : uevent) (w : world) : Z * world :=
  match uevent_get_dm_name u with
  | Some alias => ev_add_map alias w
  | None =>
      let name := e_mapname E (trace w) in
      let w := emit DmMapName w in
      match name with
      | Some alias => ev_add_map alias w
      | None => (1, w)
      end
  end.

Definition uev_remove_map (u : uevent) (w : world) : Z * world :=
  match uevent_get_dm_name u with
  | None => (0, w)
  | Some alias =>
      match find_mp_by_minor (w_maps w) (mpvec w) (u32 (uevent_get_minor u)) with
      | None => (0, w)
      | Some m =>
          if negb (streq (m_alias (wm w m)) alias) then (0, w)
          else (0, remove_map_and_stop_waiter m (emit (DmQueueIfNoPath alias false) w))
      end
  end.

(** The handler of the command line. *)
Definition ev_remove_map (alias : cstr) (minor : Z) (w : world) : Z * world :=
  match find_mp_by_minor (w_maps w) (mpvec w) (u32 minor) with
  | None => (1, w)
  | Some m => if negb (streq (m_alias (wm w m)) alias) then (1, w) else flush_map m false w
  end.

(** ** Paths appear and disappear *)

(** All paths of the WWID join the map; [None] when storing fails or the path is
    not in the path vector. *)
Definition join_map (p m : ptr) (w : world) : bool * world :=
  let '(failure, w) := adopt_paths E m w in
  if failure || negb (bool_decide (p ∈ pathvec w)) then (false, w)
  else (true, set_action ACT_RELOAD m (snd (verify_paths E m w))).

Definition add_failed (p : ptr) (w : world) : Z * world := (1, orphan_path p w).
Definition add_map_failed (p m : ptr) (w : world) : Z * world := add_failed p (remove_map m true w).

(** The table of the map; one that is not in the kernel is created. *)
Definition prepare_map (m : ptr) (start_waiter : bool) (w : world) : bool * option cstr * world :=
  let present := e_map_present E (trace w) in
  let w := emit (DmInfo (m_alias (wm w m))) w in
  let '(start_waiter, w) := if present then (start_waiter, w) else (true, set_action ACT_CREATE m w) in
  let '(params, w) := setup_map E m w in
  (start_waiter, params, w).

(** The end of [ev_add_path]; [ok] tells that the retries were not used up. *)
Definition finish_add (p m : ptr) (start_waiter ok : bool) (w : world) : Z * world :=
  let '(failed, w) :=
    if eqb (action (wm w m)) ACT_CREATE ||
       (eqb (action (wm w m)) ACT_NOTHING && start_waiter && negb (waiter (wm w m)))
    then wait_for_events m w else (false, w) in
  if failed then add_map_failed p m w
  else
    let '(gone, w) := setup_multipath true m w in
    if gone then add_failed p w
    else
      let w := sync_map_state m w in
      if ok then (0, w) else add_failed p w.

(** [mpath_pr_event_handle]: the reservation is handled by another thread. *)
Definition mpath_pr_event_handle (p : ptr) (w : world) : world := emit (PrHandler p) w.

(** Pushing the map to the kernel: a map that is in use is tried again, and a
    failed reload starts over from the paths. *)
Fixpoint push_path (retries : nat) (p m : ptr) (start_waiter : bool) (params : cstr) (w : world)
  : Z * world :=
  let '(r, w) := domap E m params true w in
  match r, retries with
  | DOMAP_RETRY, S n => push_path n p m start_waiter params (emit Sleep w)
  | DOMAP_FAIL, S n =>
      if eqb (action (wm w m)) ACT_RELOAD then
        let w := snd (update_mpp_paths m (emit Sleep w)) in
        let '(joined, w) := join_map p m w in
        if negb joined then add_failed p w
        else
          let w := mpath_pr_event_handle p w in
          match prepare_map m start_waiter w with
          | (start_waiter, Some params, w) => push_path n p m start_waiter params w
          | (_, None, w) => add_map_failed p m w
          end
      else add_map_failed p m w
  | DOMAP_RETRY, O | DOMAP_FAIL, O =>
      if eqb (action (wm w m)) ACT_RELOAD then finish_add p m start_waiter false w
      else add_map_failed p m w
  | _, _ => finish_add p m start_waiter true w
  end.

(** The map is not reloaded while it is created and has paths that work. *)
Definition delays_addition (p m : ptr) (w : world) : bool :=
  negb (wait_for_udev (wm w m) =? 0) &&
  ((0 <? pathcount (w_paths w) (wm w m) PATH_UP) ||
   ((0 <? pathcount (w_paths w) (wm w m) PATH_GHOST) && negb (e_tpgs_implicit E (wp w p)) &&
    (ghost_delay_tick (wm w m) <=? 0))).

Definition remove_path (p : ptr) (w : world) : world :=
  free_path p (w <| pathvec ::= remove_first p |>).

(** The map the path joins, with the flag that it is new; or the result. *)
Definition find_or_add_map (p : ptr) (found : option ptr) (w : world) : (Z + ptr * bool) * world :=
  match found with
  | Some m =>
      let '(joined, w) := join_map p m w in
      if joined then (inr (m, false), w) else let '(r, w) := add_failed p w in (inl r, w)
  | None =>
      let '(wanted, w) := should_multipath E p w in
      if negb wanted then (inl 0, orphan_path p w)
      else
        match add_map_with_path E p true w with
        | (Some m, w) => (inr (m, true), set_action ACT_CREATE m w)
        | (None, w) => let '(r, w) := add_failed p w in (inl r, w)
        end
  end.

Definition ev_add_path (p : ptr) (need_do_map : bool) (w : world) : Z * world :=
  let pp := wp w p in
  if strlen (wwid pp) =? 0 then add_failed p w
  else
    let found := find_mp_by_wwid (w_maps w) (mpvec w) (wwid pp) in
    if match found with
       | Some m => negb (size pp =? 0) && negb (m_size (wm w m) =? size pp)
       | None => false
       end
    then (1, remove_path p w)
    else if match found with Some m => delays_addition p m w | None => false end
    then (0, orphan_path p (match found with
                            | Some m => upd_map m (fun mm => mm <| wait_for_udev := 2 |>) w
                            | None => w
                            end))
    else
      let w := upd_path p (fun pp => pp <| mpp := found |>) w in
      match find_or_add_map p found w with
      | (inl r, w) => (r, w)
      | (inr (m, start_waiter), w) =>
          let w := mpath_pr_event_handle p w in
          if negb need_do_map then (0, w)
          else
            match prepare_map m start_waiter w with
            | (start_waiter, Some params, w) => push_path 3 p m start_waiter params w
            | (_, None, w) => add_map_failed p m w
            end
      end.

(** The last path of a map goes: queueing stops if the map is to be flushed. *)
Definition disable_queueing_for_flush (m : ptr) (w : world) : world :=
  if flush_on_last_del (wm w m) =? FLUSH_ENABLED then
    dm_queue_if_no_path m false
      (upd_map m (fun mm => mm <| retry_tick := 0 |> <| no_path_retry := NO_PATH_RETRY_FAIL |>
                               <| disable_queueing := true |>
                               <| stat_map_failures ::= (fun n => u32 (n + 1)) |>) w)
  else w.

(** The path leaves the map for good: it will be freed once the kernel does not
    use it any more. *)
Definition forget_path (p m : ptr) (w : world) : world :=
  let w := set_path_removed p w in
  upd_map m (fun mm => (mm <| m_paths ::= option_map (remove_first p) |>)
                         <| m_hwe := if bool_decide (m_hwe mm = hwe (wp w p)) then None else m_hwe mm |>) w.

(** The reload without the path. *)
Definition reload_without (m : ptr) (need_do_map : bool) (w : world) : Z * world :=
  let w := extract_hwe_from_path m w in
  match setup_map E m w with
  | (None, w) => (1, remove_map_and_stop_waiter m w)
  | (Some params, w) =>
      if negb (wait_for_udev (wm w m) =? 0) then (0, upd_map m (fun mm => mm <| wait_for_udev := 2 |>) w)
      else if negb need_do_map then (0, w)
      else
        let '(r, w) := domap E m params true (set_action ACT_RELOAD m w) in
        if eqb r DOMAP_FAIL then (1, w)
        else
          let '(gone, w) := setup_multipath true m w in
          if gone then (1, w) else (0, sync_map_state m w)
  end.

Definition ev_remove_path (p : ptr) (need_do_map : bool) (w : world) : Z * world :=
  match mpp (wp w p) with
  | None => (0, remove_path p w)
  | Some m =>
      let '(failure, w) := update_mpp_paths m w in
      if failure then (1, remove_map_and_stop_waiter m w)
      else
        let w := forget_path p m w in
        if (length (slots (m_paths (wm w m))) =? 0)%nat then
          let '(r, w) := flush_map m true (disable_queueing_for_flush m w) in
          if r =? 0 then (0, w) else reload_without m need_do_map w
        else reload_without m need_do_map w
  end.

(** A path the daemon does not know yet. *)
Definition alloc_path_with_pathinfo (u : uevent) (flags : Z) (keep : bool) (w : world)
  : pathinfo_result * option ptr * world :=
  match sysname u with
  | None => (PATHINFO_FAILED, None, w)
  | Some name =>
      let p := next_ptr w in
      let id := match ue_wwid u with Some id => take (Z.to_nat (WWID_SIZE - 1)) id | None => [] end in
      let w := w <| w_paths ::= <[p := alloc_path <| wwid := id |> <| dev := take (FILE_NAME_SIZE - 1) name |>]> |>
                 <| next_ptr ::= S |> in
      let '(err, w) :=
        if (FILE_NAME_SIZE <=? length name)%nat then (PATHINFO_FAILED, w)
        else run_pathinfo E p (Z.lor flags DI_BLACKLIST) (upd_path p (fun pp => pp <| udev := true |>) w) in
      if negb (eqb err PATHINFO_OK) || negb keep then (err, None, free_path p w) else (err, Some p, w)
  end.

Definition add_new_path (u : uevent) (need_do_map : bool) (w : world) : Z * world :=
  match alloc_path_with_pathinfo u DI_ALL true w with
  | (err, None, w) => (if eqb err PATHINFO_SKIPPED then 0 else 1, w)
  | (_, Some p, w) =>
      match store_path (w_paths w) (pathvec w) p with
      | None => (1, free_path p w)
      | Some pv =>
          ev_add_path p need_do_map
            (upd_path p (fun pp => pp <| checkint := c_checkint (e_conf E) |>) (w <| pathvec := pv |>))
      end
  end.

(** A known path is set up again: a removed one goes back to its map, or is
    removed from it once more. *)
Definition reinit_path (p : ptr) (prev : option ptr) (u : uevent) (need_do_map : bool) (w : world)
  : Z * world :=
  let w := upd_path p (fun pp => pp <| udev := true |>) w in
  let '(r, w) := run_pathinfo E p (Z.lor DI_ALL DI_BLACKLIST) w in
  let w_prev m := upd_path p (fun pp => pp <| mpp := Some m |>) w in
  match prev with
  | None =>
      match r with
      | PATHINFO_OK => ev_add_path p need_do_map w
      | PATHINFO_SKIPPED => (0, remove_path p w)
      | PATHINFO_FAILED => (1, w)
      end
  | Some m =>
      if eqb r PATHINFO_OK && same_wwids WWID_SIZE (wwid (wp w p)) (m_wwid (wm w m))
      then (0, upd_path p (fun pp => pp <| tick := 1 |>) (w_prev m))
      else
        let '(ret, w) := ev_remove_path p true (w_prev m) in
        if eqb r PATHINFO_OK && (ret =? 0) then add_new_path u need_do_map w
        else
          let w := upd_path p (fun pp => pp <| dmstate := PSTATE_FAILED |>) w in
          (ret, match mpp (wp w p) with
                | Some m => emit (DmFailPath (m_alias (wm w m)) (dev_t (wp w p))) w
                | None => w
                end)
  end.

Definition uev_add_path (u : uevent) (need_do_map : bool) (w : world) : Z * world :=
  if has_strstr (ue_kernel u) (s "..") then (1, w)
  else
    match find_path_by_dev (w_paths w) (pathvec w) (ue_kernel u) with
    | None => add_new_path u need_do_map w
    | Some p =>
        let again := eqb (initialized (wp w p)) INIT_REMOVED in
        let prev := if again then mpp (wp w p) else None in
        let w := if again then upd_path p (fun pp => pp <| initialized := INIT_NEW |> <| mpp := None |>
                                                        <| wwid := [] |>) w else w in
        if bool_decide (mpp (wp w p) = None) && (strlen (wwid (wp w p)) =? 0)
        then reinit_path p prev u need_do_map w
        else (0, w)
    end.

Definition uev_remove_path (u : uevent) (need_do_map : bool) (w : world) : Z * world :=
  let w := emit (Foreign (ue_kernel u)) w in
  match find_path_by_dev (w_paths w) (pathvec w) (ue_kernel u) with
  | Some p => ev_remove_path p need_do_map w
  | None => (0, w)
  end.

(** ** Paths change *)

(** 1: failed, 2: the map is gone. *)
Definition reload_map (m : ptr) (refresh is_daemon : bool) (w : world) : bool * world :=
  let w := snd (update_mpp_paths m w) in
  let '(failed, w) :=
    if refresh
    then foldl (fun '(failed, w) p =>
           if (failed : bool) then (failed, w)
           else let '(r, w) := run_pathinfo E p DI_PRIO w in (negb (eqb r PATHINFO_OK), w))
         (false, w) (slots (m_paths (wm w m)))
    else (false, w) in
  if failed then (true, w)
  else
    match setup_map E m w with
    | (None, w) => (true, w)
    | (Some params, w) =>
        let '(r, w) := domap E m params is_daemon (select_action E m (mpvec w) true w) in
        (eqb r DOMAP_FAIL || eqb r DOMAP_RETRY, w)
    end.

Definition reload_and_sync_map (m : ptr) (refresh : bool) (w : world) : Z * world :=
  let '(failed, w) := reload_map m refresh true w in
  if failed then (1, w)
  else
    let '(gone, w) := setup_multipath true m w in
    if gone then (2, w) else (0, sync_map_state m w).

Definition set_readonly (p : ptr) (b : bool) (w : world) : world :=
  match mpp (wp w p) with
  | Some m => upd_map m (fun mm => mm <| force_readonly := b |>) w
  | None => w
  end.

(** A change of the write protection reloads the map. *)
Definition update_readonly (p : ptr) (found : option ptr) (ro : Z) (w : world) : Z * world :=
  match found with
  | None => (0, w)
  | Some m =>
      if ro <? 0 then (0, w)
      else if negb (wait_for_udev (wm w m) =? 0)
      then (0, upd_map m (fun mm => mm <| wait_for_udev := 2 |>) w)
      else
        let w := if ro =? 1 then set_readonly p true w else w in
        let '(r, w) := reload_and_sync_map m false w in
        (r, if r =? 2 then w else set_readonly p false w)
  end.

Definition uev_update_path (u : uevent) (w : world) : Z * world :=
  let known := e_foreign_ok E (trace w) in
  let w := emit (Foreign (ue_kernel u)) w in
  if known then (0, w)
  else
    match find_path_by_dev (w_paths w) (pathvec w) (ue_kernel u) with
    | None =>
        let '(r, _, w) := alloc_path_with_pathinfo u (Z.lor DI_SYSFS DI_WWID) false w in
        (if eqb r PATHINFO_FAILED then 1 else 0, w)
    | Some p =>
        if eqb (initialized (wp w p)) INIT_REQUESTED_UDEV then uev_add_path u true w
        else if strlen (wwid (wp w p)) =? 0 then (0, w)
        else
          let found := mpp (wp w p) in
          let old := wwid (wp w p) in
          let uid := e_get_uid E (trace w) in
          let w := emit (GetUid p) w in
          let id := default old uid in
          let w := upd_path p (fun pp => pp <| wwid := id |>) w in
          if negb (same_wwids WWID_SIZE old id)
          then uev_add_path u true (snd (ev_remove_path p true w))
          else
            let w := match uid with
                     | Some _ => snd (run_pathinfo E p (Z.lor DI_SYSFS DI_NOIO)
                                        (upd_path p (fun pp => pp <| udev := true |>) w))
                     | None => w
                     end in
            update_readonly p found (uevent_get_disk_ro u) w
    end.

Definition uev_pathfail_check (u : uevent) (w : world) : world :=
  match uevent_get_dm_action u, uevent_get_dm_path u with
  | Some action, Some devt =>
      if negb (strneq 11 action (s "PATH_FAILED")) then w
      else match find_path_by_devt (w_paths w) (pathvec w) devt with
           | Some p => io_err_stat_handle_pathfail E p w
           | None => w
           end
  | _, _ => w
  end.

(** ** One event of the queue *)

Definition has_action (u : uevent) (a : cstr) : bool := strneq (length a) (ue_action u) a.

Definition dm_event (u : uevent) (w : world) : Z * world :=
  if negb (uevent_is_mpath u) then
    (0, if has_action u (s "change") || has_action u (s "remove")
        then emit (Foreign (ue_kernel u)) w else w)
  else if has_action u (s "change") then
    let '(r, w) := uev_add_map u w in (r, uev_pathfail_check u w)
  else if has_action u (s "remove") then uev_remove_map u w
  else if has_action u (s "add") && bool_decide (uevent_get_dm_name u = None) then
    let name := e_mapname E (trace w) in
    let w := emit DmMapName w in
    match name with
    | Some (c :: r) => (0, emit (TriggerIncomplete (c :: r)) w)
    | _ => (0, w)
    end
  else (0, w).

(** A merged event: the map is left for the last one. *)
Definition merged_event (r : Z) (u : uevent) (w : world) : Z * world :=
  let '(r, w) := if has_action u (s "add")
                 then let '(r', w) := uev_add_path u false w in (r + r', w) else (r, w) in
  if has_action u (s "remove")
  then let '(r', w) := uev_remove_path u false w in (r + r', w) else (r, w).

Definition uev_trigger (shutdown : bool) (e : entry) (w : world) : Z * world :=
  if shutdown then (0, w)
  else
    let u := en_event e in
    if is_dm u then dm_event u w
    else
      let '(r, w) := foldl (fun '(r, w) u => merged_event r u w) (0, w) (en_merged e) in
      let '(r, w) := if has_action u (s "add")
                     then let '(r', w) := uev_add_path u true w in (r + r', w) else (r, w) in
      let '(r, w) := if has_action u (s "remove")
                     then let '(r', w) := uev_remove_path u true w in (r + r', w) else (r, w) in
      if has_action u (s "change")
      then let '(r', w) := uev_update_path u w in (r + r', w) else (r, w).

Definition service_uevq (q : list entry) (w : world) : world :=
  foldl (fun w e => snd (uev_trigger false e w)) w q.

(** ** Timers *)

(** What the body of a loop over the map vector tells: did it remove the map it
    is at, and did something time out? *)
Record tick_result := { t_gone : bool; t_timed_out : bool }.

Definition quiet : tick_result := {| t_gone := false; t_timed_out := false |}.

(** The loop; [None] is the end of [fuel]. *)
Fixpoint each_map (fuel : nat) (i : nat) (f : ptr -> world -> tick_result * world) (timed_out : bool) (w : world)
  : option (bool * world) :=
  match fuel with
  | O => None
  | S n =>
      match mpvec w !! i with
      | None => Some (timed_out, w)
      | Some m =>
          let '(r, w) := f m w in
          each_map n (if t_gone r then i else S i) f (timed_out || t_timed_out r) w
      end
  end.

Definition all_maps (f : ptr -> world -> tick_result * world) (w : world) : option (bool * world) :=
  each_map (S (length (mpvec w))) 0 f false w.

Definition collect_map (m : ptr) (w : world) : tick_result * world :=
  let present := e_map_present E (trace w) in
  let w := emit (DmInfo (m_alias (wm w m))) w in
  if present then (quiet, w)
  else ({| t_gone := true; t_timed_out := false |}, remove_map_and_stop_waiter m w).

Definition mpvec_garbage_collector (w : world) : option world := snd <$> all_maps collect_map w.

Definition uev_wait_tick_map (m : ptr) (w : world) : tick_result * world :=
  if wait_for_udev (wm w m) =? 0 then (quiet, w)
  else
    let w := upd_map m (fun mm => mm <| uev_wait_tick := uev_wait_tick mm - 1 |>) w in
    if 0 <? uev_wait_tick (wm w m) then (quiet, w)
    else
      let '(gone, w) := if 1 <? wait_for_udev (wm w m) then update_map m false w else (false, w) in
      ({| t_gone := gone; t_timed_out := true |},
       if gone then w else upd_map m (fun mm => mm <| wait_for_udev := 0 |>) w).

Definition missing_uev_wait_tick (w : world) : option world :=
  '(timed_out, w) ← all_maps uev_wait_tick_map w;
  Some (if timed_out && c_delayed_reconfig (e_conf E) && negb (need_to_delay_reconfig w)
        then emit Reconfigure w else w).

Definition ghost_delay_tick_map (m : ptr) (w : world) : tick_result * world :=
  if ghost_delay_tick (wm w m) <=? 0 then (quiet, w)
  else
    let w := upd_map m (fun mm => mm <| ghost_delay_tick := ghost_delay_tick mm - 1 |>) w in
    if 0 <? ghost_delay_tick (wm w m) then (quiet, w)
    else
      let '(gone, w) := update_map m false (upd_map m (fun mm => mm <| force_udev_reload := true |>) w) in
      ({| t_gone := gone; t_timed_out := false |}, w).

Definition ghost_delay_tick_all (w : world) : option world := snd <$> all_maps ghost_delay_tick_map w.

(** ** The checker loop *)

Definition check_path_of (p : ptr) (ticks : Z) (w : world) : Z * world :=
  check_path E (fun m refresh w => snd (reload_and_sync_map m refresh w))
    (fun p w => snd (ev_add_path p true w)) p ticks w.

(** What [checkerloop] does each time it takes the lock: the paths, the timers,
    and now and then [mpvec_garbage_collector]. *)
Definition check_paths (fuel : nat) (ticks : Z) (w : world) : option (Z * world) :=
  check_all E (fun m refresh w => snd (reload_and_sync_map m refresh w))
    (fun p w => snd (ev_add_path p true w)) fuel 0 ticks 0 w.

Definition run_timers (w : world) : option world :=
  w ← missing_uev_wait_tick (retry_count_tick (defered_failback_tick E w));
  ghost_delay_tick_all w.
End Daemon.
