(* ===== verification/Wellformed.v ===== *)
(** * The daemon's objects stay well-formed

    The paths in the path vector are alive, known to udev and unique, and each
    of them belongs to no map or to a map of the map vector, which holds maps
    that are alive: no path is left behind that points to a freed map, and no
    freed path is left in the vector.  Every handler of the daemon keeps it so,
    whatever the kernel, udev and the checkers answer. *)

From S2P Require Import Prelude CString Util Uevent Structs Pgpolicies Dmparser World StructsVec.
From S2P Require Import Configure Coalesce Checker Daemon.

(** ** What the table parsers leave alone *)

Section Parser.
Context (I : dstate -> Prop)
  (I_text : forall st t, I st -> I (st <| d_text := t |>))
  (I_map : forall st f, (forall m, all_paths (f m) ⊆ all_paths m /\ m_alias (f m) = m_alias m) -> I st ->
     I (st <| d_map ::= f |>))
  (I_path : forall st p f, (forall pp, mpp (f pp) = mpp pp /\ udev (f pp) = udev pp) -> I st ->
     I (st <| d_heap ::= (fun h => <[p := f (h !!! p)]> h) |>)).

(** [c] keeps the invariant, and what it returns satisfies [Q]. *)
Definition parses_at {A} (c : D A) (Q : A -> dstate -> Prop) (st : dstate) : Prop :=
  I st -> I (snd (c st)) /\ match fst (c st) with Ret a => Q a (snd (c st)) | _ => True end.

Definition plain {A} (c : D A) : Prop := forall st, parses_at c (fun _ _ => True) st.

Lemma parses_at_bind {A B} (c : D A) (f : A -> D B) P Q st : parses_at c P st ->
  (forall a st, P a st -> parses_at (f a) Q st) -> parses_at (c ≫= f) Q st.
Proof using Type.
  intros Hc Hf Hst. unfold mbind, D_bind. specialize (Hc Hst).
  destruct (c st) as [[a| |] st1]; cbn [fst snd] in *; [|by destruct Hc..].
  destruct Hc. by apply Hf.
Qed.

Lemma plain_bind {A B} (c : D A) (f : A -> D B) : plain c -> (forall a, plain (f a)) -> plain (c ≫= f).
Proof using Type. intros Hc Hf st. eapply parses_at_bind; [apply Hc|]. intros a st' _. apply Hf. Qed.

Lemma plain_at {A} (c : D A) (Q : A -> dstate -> Prop) st : plain c -> (forall a st, I st -> Q a st) ->
  parses_at c Q st.
Proof using Type.
  intros Hc HQ Hst. destruct (Hc st Hst) as [H _]. split; [done|]. case_match; [by apply HQ|done..].
Qed.

Lemma plain_ret {A} (a : A) : plain (mret a).
Proof using Type. by split. Qed.
Lemma plain_fail {A} : plain (@dfail A).
Proof using Type. by split. Qed.
Lemma plain_crash {A} : plain (@dcrash A).
Proof using Type. by split. Qed.

Lemma plain_get_bind {A} (f : dstate -> D A) :
  (forall st, parses_at (f st) (fun _ _ => True) st) -> plain (get_st ≫= f).
Proof using Type. intros H st Hst. by apply (H st). Qed.

Lemma plain_modify_map f : (forall m, all_paths (f m) ⊆ all_paths m /\ m_alias (f m) = m_alias m) -> plain (modify_map f).
Proof using I_map. intros H st Hst. split; [by apply I_map|done]. Qed.

Lemma plain_set_map f : (forall m, all_paths (f m) = all_paths m /\ m_alias (f m) = m_alias m) ->
  plain (modify_map f).
Proof using I_map. intros H. apply plain_modify_map. intros m. destruct (H m) as [-> ->]. done. Qed.

Lemma plain_next_word : plain next_word.
Proof using I_text.
  intros st Hst. unfold next_word. destruct (get_word (d_text st) true). split; [by apply I_text|done].
Qed.

Lemma plain_skip_word : plain skip_word.
Proof using I_text.
  intros st Hst. unfold skip_word. destruct (get_word (d_text st) false). split; [by apply I_text|done].
Qed.

Lemma plain_set_path p f : (forall pp, mpp (f pp) = mpp pp /\ udev (f pp) = udev pp) -> plain (set_path p f).
Proof using I_path. intros H st Hst. split; [by apply I_path|done]. Qed.

Lemma plain_need_word : plain need_word.
Proof using I_text. apply plain_bind; [apply plain_next_word|]. intros []; [apply plain_ret|apply plain_fail]. Qed.

Lemma plain_word_atoi : plain word_atoi.
Proof using I_text. apply plain_bind; [apply plain_next_word|]. intros []; [apply plain_ret|apply plain_crash]. Qed.

Lemma plain_repeat n body : plain body -> plain (repeat_m n body).
Proof using Type. intros H. induction n; [apply plain_ret|]. by apply plain_bind. Qed.

Lemma plain_for n body : (forall i, plain (body i)) -> forall i, plain (for_m n i body).
Proof using Type. intros H. induction n; intros i; [apply plain_ret|]. by apply plain_bind. Qed.

Lemma plain_merge n store : (forall x m, all_paths (store x m) = all_paths m /\ m_alias (store x m) = m_alias m) ->
  forall acc, plain (merge_n n acc store).
Proof using I_map I_text.
  intros H. induction n; intros acc; [apply plain_ret|]. apply plain_bind; [apply plain_need_word|]. intros w.
  apply plain_bind; [by apply plain_set_map|done].
Qed.

Lemma plain_counted store : (forall x m, all_paths (store x m) = all_paths m /\ m_alias (store x m) = m_alias m) -> plain (counted_words store).
Proof using I_map I_text.
  intros H. apply plain_bind; [apply plain_next_word|]. intros w. apply plain_bind; [by apply plain_set_map|].
  intros _. destruct w; [by apply plain_merge|apply plain_fail].
Qed.

Lemma plain_path_minio p : plain (path_minio p).
Proof using I_map I_text.
  apply plain_bind; [apply plain_word_atoi|]. intros n. apply plain_get_bind. intros st.
  cbv zeta. match goal with |- context [if ?b then _ else _] => destruct b end; [apply plain_ret|by apply plain_set_map].
Qed.

Lemma read_header_plain : plain read_header.
Proof using I_map I_text.
  unfold read_header. apply plain_bind; [by apply plain_counted|]. intros _.
  apply plain_bind; [by apply plain_counted|]. intros _. apply plain_bind; [apply plain_need_word|]. intros w.
  apply plain_bind; [|intros _; apply plain_ret]. apply plain_modify_map. intros m.
  destruct (0 <? atoi w); [done|]. split; [|done]. by intros p Hp%elem_of_nil.
Qed.

(** ** The status line *)

Lemma status_path_plain a p : plain (status_path a p).
Proof using I_map I_text I_path.
  unfold status_path. apply plain_bind; [apply plain_skip_word|]. intros _.
  apply plain_bind; [apply plain_need_word|]. intros w. apply plain_bind; [by apply plain_set_path|]. intros _.
  apply plain_bind; [apply plain_need_word|]. intros f. apply plain_bind; [by apply plain_set_path|]. intros _.
  apply plain_repeat, plain_get_bind. intros st.
  destruct (selector (d_map st)); [|apply plain_crash]. case_match; [|apply plain_skip_word].
  apply plain_bind; [apply plain_next_word|]. intros [w'|]; [|apply plain_crash].
  destruct (scan_int w') as [[v ?]|]; [|apply plain_ret]. case_match; [apply plain_ret|by apply plain_set_map].
Qed.

Lemma status_group_plain i g : plain (status_group i g).
Proof using I_map I_text I_path.
  unfold status_group. apply plain_bind; [apply plain_need_word|]. intros w. apply plain_bind.
  { apply plain_set_map. intros m. split; [|done]. unfold all_paths. cbn [pg upd slots default from_option id].
    generalize (slots (pg m)). intros l. revert i. induction l as [|x l IH]; intros [|i]; [done..|]. cbn.
    by rewrite IH. }
  intros _. apply plain_bind; [apply plain_skip_word|]. intros _. apply plain_bind; [apply plain_need_word|].
  intros n. apply plain_bind; [apply plain_need_word|]. intros a. case_match; [apply plain_fail|].
  generalize (take (Z.to_nat (atoi n)) (g_paths g)). intros ps. induction ps as [|p ps IH]; [apply plain_ret|].
  apply plain_bind; [apply status_path_plain|done].
Qed.

Lemma read_status_plain : plain read_status.
Proof using I_map I_text I_path.
  unfold read_status. apply plain_bind; [apply plain_need_word|]. intros nf. apply plain_bind.
  { apply plain_for. intros i. unfold status_feature. case_match; [|apply plain_skip_word].
    apply plain_bind; [apply plain_need_word|]. intros w. by apply plain_set_map. }
  intros _. apply plain_bind; [apply plain_need_word|]. intros nh.
  apply plain_bind; [apply plain_repeat, plain_skip_word|]. intros _.
  apply plain_bind; [apply plain_need_word|]. intros np. case_match; [apply plain_ret|].
  apply plain_bind; [apply plain_skip_word|]. intros _. apply plain_get_bind. intros st.
  assert (forall k i, plain (status_groups k i)) as Hg.
  { induction k as [|k IH]; intros i; [apply plain_ret|]. apply plain_get_bind. intros st1.
    destruct (slots (pg (d_map st1)) !! i); [|apply plain_crash].
    apply plain_bind; [apply status_group_plain|done]. }
  match goal with |- context [if ?b then _ else _] => destruct b end; [apply plain_fail|apply Hg].
Qed.
End Parser.

(** ** What they keep *)

(** Paths that were there keep their map and their udev device. *)
Definition same_path (h h' : pheap) (p : ptr) : Prop :=
  mpp (h' !!! p) = mpp (h !!! p) /\ udev (h' !!! p) = udev (h !!! p) /\ (is_Some (h !! p) -> is_Some (h' !! p)).

Lemma same_path_refl h p : same_path h h p.
Proof. done. Qed.

Lemma same_path_trans h1 h2 h3 p : same_path h1 h2 p -> same_path h2 h3 p -> same_path h1 h3 p.
Proof. intros (A1 & A2 & A3) (B1 & B2 & B3). split_and!; [congruence|congruence|auto]. Qed.

Lemma same_path_insert h q f p : (forall pp, mpp (f pp) = mpp pp /\ udev (f pp) = udev pp) ->
  same_path h (<[q := f (h !!! q)]> h) p.
Proof.
  intros H. unfold same_path. destruct (decide (q = p)) as [->|Hn].
  - rewrite lookup_total_insert_eq, lookup_insert_eq. destruct (H (h !!! p)) as [-> ->].
    split_and!; [done|done|by eexists].
  - by rewrite lookup_total_insert_ne, lookup_insert_ne.
Qed.

Section Table.
Context (h0 : pheap) (n0 : ptr) (a0 : cstr).

Definition parse_inv (st : dstate) : Prop :=
  (n0 <= d_next st)%nat /\ (forall p, (p < n0)%nat -> same_path h0 (d_heap st) p) /\
  Forall (fun p => p < d_next st)%nat (all_paths (d_map st)) /\ m_alias (d_map st) = a0.

Lemma parse_inv_text st t : parse_inv st -> parse_inv (st <| d_text := t |>).
Proof using Type. done. Qed.

Lemma parse_inv_map st f : (forall m, all_paths (f m) ⊆ all_paths m /\ m_alias (f m) = m_alias m) -> parse_inv st -> parse_inv (st <| d_map ::= f |>).
Proof using Type.
  intros H (H1 & H2 & H3 & H4). destruct (H (d_map st)) as [HF HA]. split_and!; [done|done| |exact (eq_trans HA H4)].
  change (Forall (fun p => p < d_next st)%nat (all_paths (f (d_map st)))).
  rewrite Forall_forall in *. intros p Hp. by apply H3, HF.
Qed.

Lemma parse_inv_path st p f : (forall pp, mpp (f pp) = mpp pp /\ udev (f pp) = udev pp) -> parse_inv st ->
  parse_inv (st <| d_heap ::= (fun h => <[p := f (h !!! p)]> h) |>).
Proof using Type.
  intros H (H1 & H2 & H3). split; [done|]. split; [|done]. intros q Hq.
  eapply same_path_trans; [by apply H2|]. by apply same_path_insert.
Qed.

Lemma new_path_inv st pp : parse_inv st -> let p := d_next st in
  parse_inv (st <| d_heap ::= (fun h => <[p := pp]> h) |> <| d_next := S p |>).
Proof using Type.
  intros (H1 & H2 & H3 & H4) p. split_and!; [| | |exact H4].
  - change (n0 <= S p)%nat. unfold p. lia.
  - intros q Hq. destruct (H2 q Hq) as (A & B & C). unfold same_path.
    change (d_heap (st <| d_heap ::= ?g |> <| d_next := S p |>)) with (g (d_heap st)).
    assert (p <> q) by (unfold p; lia). by rewrite lookup_total_insert_ne, lookup_insert_ne.
  - change (Forall (fun p' => p' < S p)%nat (all_paths (d_map st))).
    eapply Forall_impl; [exact H3|]. intros x. cbn beta. unfold p. lia.
Qed.

Lemma add_to_last_paths p m : all_paths (add_to_last p m) ⊆ p :: all_paths m.
Proof using Type.
  unfold add_to_last, all_paths. destruct (reverse (slots (pg m))) as [|g r] eqn:Hr; [set_solver|].
  assert (slots (pg m) = reverse r ++ [g]) as -> by (rewrite <-(reverse_involutive (slots (pg m))), Hr; apply reverse_cons).
  cbn [pg upd slots default from_option id]. rewrite !bind_app. cbn. set_solver.
Qed.

Lemma add_to_last_alias p m : m_alias (add_to_last p m) = m_alias m.
Proof using Type. unfold add_to_last. by destruct (reverse (slots (pg m))). Qed.

Context (pv : list ptr) (Hpv : Forall (fun p => p < n0)%nat pv).

(** A path the table names is known or new. *)
Lemma find_path_old h d p : find_path_by_devt h pv d = Some p -> (p < n0)%nat.
Proof using Hpv.
  intros H. apply List.find_some in H as [H _]. rewrite Forall_forall in Hpv. apply Hpv.
  by apply list_elem_of_In.
Qed.

Definition below (p : ptr) (st : dstate) : Prop := (p < d_next st)%nat.

Abbreviation pl := (plain parse_inv).
Ltac kept := first [exact parse_inv_text | exact parse_inv_map | exact parse_inv_path | done].

Lemma read_path_plain i n : pl (read_path pv i n).
Proof using Hpv.
  unfold read_path. apply plain_bind; [apply plain_need_word; kept|]. intros w.
  apply plain_get_bind. intros st. apply (parses_at_bind _ _ _ below).
  { destruct (find_path_by_devt (d_heap st) pv w) as [p|] eqn:Hf.
    - intros Hst. split; [done|]. apply find_path_old in Hf. destruct Hst as (H1 & _).
      unfold below. cbn. lia.
    - intros Hst. split; [by apply new_path_inv|]. change (d_next st < S (d_next st))%nat. lia. }
  intros p st1 Hp. apply (parses_at_bind _ get_st _ (fun _ st => below p st)); [by intros Hst|].
  intros st2 st3 Hp3.
  apply (parses_at_bind _ _ _ (fun _ st => below p st)).
  { case_match; by intros Hst. }
  intros _ st4 Hp4. apply (parses_at_bind _ _ _ (fun _ st => True)).
  { intros (H1 & H2 & H3 & H4). split; [|done]. split_and!; [done|done| |by rewrite <-H4; apply add_to_last_alias].
    change (Forall (fun p' => p' < d_next st4)%nat (all_paths (add_to_last p (d_map st4)))).
    rewrite Forall_forall in *. intros q Hq%add_to_last_paths. apply elem_of_cons in Hq as [->|Hq]; [done|by apply H3]. }
  intros _ st5 _. apply plain_at; [|done]. apply plain_bind; [by apply (plain_set_path _ parse_inv_path p)|]. intros _.
  case_match; [apply plain_ret|]. apply plain_bind; [apply plain_path_minio; kept|]. intros _.
  apply plain_repeat, plain_skip_word; kept.
Qed.

Lemma read_group_plain i a : pl (read_group pv i a).
Proof using Hpv.
  unfold read_group. apply plain_get_bind. intros st. apply plain_bind.
  { case_match.
    - apply plain_bind; [apply plain_skip_word; kept|]. intros _. apply plain_bind; [apply plain_skip_word; kept|].
      intros _. apply plain_ret.
    - apply plain_bind; [apply plain_need_word; kept|]. intros sel. apply plain_bind; [apply plain_set_map; kept|].
      intros _. apply plain_bind; [apply plain_need_word; kept|]. intros w.
      apply plain_bind; [apply plain_set_map; kept|]. intros _. apply plain_ret. }
  intros n. apply plain_bind; [apply plain_repeat, plain_skip_word; kept|]. intros _. apply plain_bind.
  { apply plain_modify_map; [kept|]. intros m. split; [|done]. unfold all_paths, add_pathgroup. cbn. rewrite bind_app. cbn. set_solver. }
  intros _. apply plain_bind; [apply plain_need_word; kept|]. intros np. apply plain_bind; [apply plain_need_word; kept|].
  intros na. apply plain_bind; [apply plain_for; intros; apply read_path_plain|]. intros _. apply plain_ret.
Qed.

Lemma read_body_plain n : pl (read_body pv n).
Proof using Hpv.
  unfold read_body. apply plain_bind; [apply plain_need_word; kept|]. intros w.
  apply plain_bind; [apply plain_set_map; kept|]. intros _.
  generalize 0 at 1. generalize 0. induction (Z.to_nat n) as [|k IH]; intros a i; [apply plain_ret|].
  apply plain_bind; [apply read_group_plain|done].
Qed.
End Table.

Lemma disassemble_map_frame pv params h n m o st : disassemble_map pv params h n m = (o, st) ->
  Forall (fun p => p < n)%nat pv -> Forall (fun p => p < n)%nat (all_paths m) -> parse_inv h n (m_alias m) st.
Proof.
  intros H Hpv Hm. unfold disassemble_map in H.
  set (st0 := {| d_text := params; d_heap := h; d_next := n; d_map := m |}) in *.
  assert (parse_inv h n (m_alias m) st0) as H0 by (split_and!; [done|by intros p|done|done]).
  destruct (read_header_plain (parse_inv h n (m_alias m)) (parse_inv_text h n _) (parse_inv_map h n _) st0 H0) as [H1 _].
  destruct (read_header st0) as [[num| |] st1]; cbn [snd] in H1; [|by simplify_eq..].
  destruct (read_body_plain h n (m_alias m) pv Hpv num st1 H1) as [H2 _].
  destruct (read_body pv num st1) as [[[]| |] st2]; simplify_eq; [done| |done].
  destruct H2 as (A & B & C & D). split_and!; [done|done| |done]. by constructor.
Qed.

Lemma disassemble_status_frame params h m o st : disassemble_status params h m = (o, st) ->
  (forall p, same_path h (d_heap st) p) /\ m_alias (d_map st) = m_alias m.
Proof.
  intros H. set (I := fun st => (forall p, same_path h (d_heap st) p) /\ m_alias (d_map st) = m_alias m).
  assert (I st) as HI; [|done].
  unfold disassemble_status in H. change st with (snd (o, st)). rewrite <-H.
  apply (read_status_plain I); [done| | |by split].
  { intros st1 f Hf [H1 H2]. split; [done|]. destruct (Hf (d_map st1)) as [_ Ha]. exact (eq_trans Ha H2). }
  intros st1 p f Hf [H1 H2]. split; [|done]. intros q. eapply same_path_trans; [apply H1|]. by apply same_path_insert.
Qed.

(** ** Steps that leave the structure alone *)

Record frame (w w' : world) : Prop := {
  fr_pathvec : pathvec w' = pathvec w;
  fr_mpvec : mpvec w' = mpvec w;
  fr_next : (next_ptr w <= next_ptr w')%nat;
  fr_paths : forall p, (p < next_ptr w)%nat -> same_path (w_paths w) (w_paths w') p;
  fr_maps : forall m, is_Some (w_maps w !! m) -> is_Some (w_maps w' !! m) }.

Lemma frame_refl w : frame w w.
Proof. by split. Qed.

Lemma frame_trans w1 w2 w3 : frame w1 w2 -> frame w2 w3 -> frame w1 w3.
Proof.
  intros [A1 A2 A3 A4 A5] [B1 B2 B3 B4 B5]. split; [congruence|congruence|lia| |auto].
  intros p Hp. eapply same_path_trans; [by apply A4|apply B4; lia].
Qed.

Lemma frame_emit e w : frame w (emit e w).
Proof. by split. Qed.

Lemma insert_some (h : mheap) m x n : is_Some (h !! n) -> is_Some (<[m := x]> h !! n).
Proof. intros H. destruct (decide (m = n)) as [->|Hn]; [by rewrite lookup_insert_eq|by rewrite lookup_insert_ne]. Qed.

Lemma frame_upd_map m f w : frame w (upd_map m f w).
Proof. split; try done. intros n. apply insert_some. Qed.

Lemma frame_upd_path p f w : (forall pp, mpp (f pp) = mpp pp /\ udev (f pp) = udev pp) -> frame w (upd_path p f w).
Proof. intros H. split; try done. intros q _. by apply same_path_insert. Qed.

(** ** Walking through an operation *)

(** A relation between worlds that steps of the first kind keep. *)
Class Walk (R : world -> world -> Prop) := {
  walk_refl w : R w w;
  walk_trans w1 w2 w3 : R w1 w2 -> R w2 w3 -> R w1 w3;
  walk_frame w1 w2 w3 : R w1 w2 -> frame w2 w3 -> R w1 w3 }.

#[export] Instance frame_walk : Walk frame.
Proof. split; [exact frame_refl|exact frame_trans|exact frame_trans]. Qed.

Create HintDb frame.
Create HintDb walk.
#[export] Hint Resolve frame_emit frame_upd_map : frame.
Ltac same_fields := intros; cbn beta; repeat case_match; done.
#[export] Hint Extern 2 (frame _ (upd_path _ _ _)) => apply frame_upd_path; same_fields : frame.

(** The pieces [w1] of an operation are related to the start one after another:
    a value of type world is named, a pair is taken apart, other data is split. *)
Ltac walk :=
  cbn [fst snd];
  lazymatch goal with
  | |- ?R ?w0 (snd (let x := ?v in @?b x)) => let k := constr:(fun y => snd (b y)) in walk_let R w0 v k
  | |- ?R ?w0 (let x := ?v in @?b x) => walk_let R w0 v b
  | |- ?R ?w0 (snd (match ?x with _ => _ end)) => walk_on R w0 x
  | |- ?R ?w0 (match ?x with _ => _ end) => walk_on R w0 x
  | |- ?R ?w0 (snd (?a, ?b)) => change (R w0 b); walk
  | |- _ =>
      try first [assumption | apply walk_refl
                | eapply walk_frame; [|solve [eauto 2 with frame nocore]]; walk
                | eapply walk_trans; [|solve [eauto 3 with walk nocore]]; walk]
  end
with walk_let R w0 v k :=
  lazymatch type of v with
  | world =>
      let H := fresh "HR" in
      assert (R w0 v) as H;
      [walk | revert H; generalize v; let w1 := fresh "w" in intros w1 H;
              let t := eval cbv beta in (k w1) in change (R w0 t); walk]
  | _ => let t := eval cbv beta in (k v) in change (R w0 t); walk
  end
with walk_on R w0 x :=
  lazymatch type of x with
  | (_ * world)%type =>
      let H := fresh "HR" in
      assert (R w0 (snd x)) as H; [walk | destruct x as [? ?]; cbn [snd] in H; walk]
  | _ => destruct x eqn:?; walk
  end.

Lemma walk_foldl {A} R `{!Walk R} (f : world -> A -> world) l :
  (forall w x, R w (f w x)) -> forall w, R w (foldl f w l).
Proof.
  intros H. induction l as [|x l IH]; intros w; [apply walk_refl|]. cbn. eapply walk_trans; [apply H|apply IH].
Qed.

Section Frames.
Context (E : env) (Hinfo : forall h pp, mpp (snd (e_pathinfo E h pp)) = mpp pp /\
                                        udev (snd (e_pathinfo E h pp)) = udev pp).

Lemma run_pathinfo_frame p flags w : frame w (snd (run_pathinfo E p flags w)).
Proof using Hinfo.
  unfold run_pathinfo. destruct (e_pathinfo E (trace w) (wp w p)) as [rc pp] eqn:Hp. cbn [snd].
  eapply frame_trans; [|apply frame_emit]. split; try done. intros q Hq.
  specialize (Hinfo (trace w) (wp w p)). rewrite Hp in Hinfo. cbn in Hinfo.
  pose proof (same_path_insert (w_paths w) p (fun _ => pp) q) as H.
  unfold same_path in *. change (w_paths (upd_path p _ w)) with (<[p := pp]> (w_paths w)).
  destruct (decide (p = q)) as [->|Hn].
  - rewrite lookup_total_insert_eq, lookup_insert_eq. destruct Hinfo as [-> ->]. split_and!; [done|done|by eexists].
  - by rewrite lookup_total_insert_ne, lookup_insert_ne.
Qed.

Lemma update_mpp_paths_frame m w : frame w (snd (update_mpp_paths m w)).
Proof using Type. unfold update_mpp_paths. walk. Qed.

Lemma guess_frame m w : frame w (snd (guess_mpp_wwid m w)).
Proof using Type. unfold guess_mpp_wwid. walk. Qed.

Lemma extract_hwe_frame m w : frame w (extract_hwe_from_path m w).
Proof using Type. unfold extract_hwe_from_path. walk. Qed.

Lemma update_status_frame m w : frame w (snd (update_multipath_status E m w)).
Proof using Type.
  unfold update_multipath_status. destruct (e_get_status E (trace w)) as [r status].
  set (w1 := emit _ w). assert (frame w w1) as H1 by apply frame_emit. destruct r; [done| |done].
  destruct (disassemble_status status (w_paths w1) (wm w1 m)) as [o st] eqn:Hd.
  pose proof (disassemble_status_frame _ _ _ _ _ Hd) as [Hs _].
  assert (frame w (upd_map m (fun _ => d_map st) (w1 <| w_paths := d_heap st |>))) as H2.
  { eapply frame_trans; [|apply frame_upd_map]. eapply frame_trans; [exact H1|]. split; try done. }
  by destruct o.
Qed.

#[local] Hint Resolve run_pathinfo_frame update_mpp_paths_frame guess_frame extract_hwe_frame update_status_frame : frame.

(** *** Recovery mode and the kernel's view *)

Lemma dm_queue_frame m b w : frame w (dm_queue_if_no_path m b w).
Proof using Type. unfold dm_queue_if_no_path. walk. Qed.
#[local] Hint Resolve dm_queue_frame : frame.

Lemma enter_recovery_frame m w : frame w (enter_recovery_mode E m w).
Proof using Type. unfold enter_recovery_mode. walk. Qed.

Lemma leave_recovery_frame m w : frame w (leave_recovery_mode m w).
Proof using Type. unfold leave_recovery_mode. walk. Qed.
#[local] Hint Resolve enter_recovery_frame leave_recovery_frame : frame.

Lemma set_no_path_retry_frame b m w : frame w (set_no_path_retry E b m w).
Proof using Type. unfold set_no_path_retry. walk. Qed.

Lemma queue_del_frame m w : frame w (update_queue_mode_del_path E m w).
Proof using Type. unfold update_queue_mode_del_path. walk. Qed.

Lemma queue_add_frame m w : frame w (update_queue_mode_add_path m w).
Proof using Type. unfold update_queue_mode_add_path. walk. Qed.

Lemma sync_map_state_frame m w : frame w (sync_map_state m w).
Proof using Type. unfold sync_map_state. apply (walk_foldl frame). intros w1 p. walk. Qed.
#[local] Hint Resolve set_no_path_retry_frame queue_del_frame queue_add_frame sync_map_state_frame : frame.

(** *** Setting up a map *)

Lemma get_state_frame p b w : frame w (snd (get_state E p b w)).
Proof using Hinfo. unfold get_state. walk. Qed.
#[local] Hint Resolve get_state_frame : frame.

Lemma poll_pending_frame ps : forall n goal w, frame w (snd (poll_pending E ps n goal w)).
Proof using Hinfo.
  induction ps as [|p ps IH]; intros n goal w; [apply frame_refl|]. cbn [poll_pending].
  walk.
Qed.

Lemma wait_pending_frame rounds : forall m n goal w, frame w (snd (wait_for_pending_paths E rounds m n goal w)).
Proof using Hinfo.
  induction rounds as [|r IH]; intros m n goal w; [apply frame_refl|]. cbn [wait_for_pending_paths].
  pose proof (poll_pending_frame (all_paths (wm w m)) n goal w) as H.
  destruct (poll_pending E (all_paths (wm w m)) n goal w) as [[done_ n1] w1]. cbn [snd] in H.
  destruct done_; [done|]. eapply frame_trans; [|apply IH]. walk.
Qed.
#[local] Hint Resolve wait_pending_frame : frame.

Lemma wait_checkers_frame m n w : frame w (wait_checkers E m n w).
Proof using Hinfo. unfold wait_checkers. walk. Qed.
#[local] Hint Resolve wait_checkers_frame : frame.

Lemma setup_map_frame m w : frame w (snd (setup_map E m w)).
Proof using Hinfo. unfold setup_map. walk. Qed.

Lemma pgcmp_loop_frame n : forall i m c w, frame w (snd (pgcmp_loop n i m c w)).
Proof using Type.
  induction n as [|n IH]; intros i m c w; [apply frame_refl|]. cbn [pgcmp_loop].
  walk.
Qed.

Lemma pgcmp_frame m c w : frame w (snd (pgcmp m c w)).
Proof using Type. apply pgcmp_loop_frame. Qed.

Lemma set_action_frame a m w : frame w (set_action a m w).
Proof using Type. apply frame_upd_map. Qed.
#[local] Hint Resolve setup_map_frame pgcmp_frame set_action_frame : frame.

Lemma select_reload_frame m c w : frame w (select_reload_action E m c w).
Proof using Type. unfold select_reload_action. walk. Qed.
#[local] Hint Resolve select_reload_frame : frame.

Lemma select_action_frame m cur b w : frame w (select_action E m cur b w).
Proof using Type. unfold select_action. walk. Qed.
#[local] Hint Resolve select_action_frame : frame.

(** *** Pushing a map *)

Lemma dm_task_frame op m pa ro fl w : frame w (snd (dm_task E op m pa ro fl w)).
Proof using Type. unfold dm_task. walk. Qed.
#[local] Hint Resolve dm_task_frame : frame.

Lemma dm_addmap_frame op m pa ro fl w : frame w (snd (dm_addmap E op m pa ro fl w)).
Proof using Type. unfold dm_addmap. walk. Qed.

Lemma mark_wwid_frame b m w : frame w (mark_wwid E b m w).
Proof using Type. unfold mark_wwid. walk. Qed.
#[local] Hint Resolve dm_addmap_frame mark_wwid_frame : frame.

Lemma dm_addmap_create_frame m pa w : frame w (snd (dm_addmap_create E m pa w)).
Proof using Type.
  unfold dm_addmap_create. walk.
Qed.

Lemma dm_addmap_reload_frame m pa b w : frame w (snd (dm_addmap_reload E m pa b w)).
Proof using Type. unfold dm_addmap_reload. walk. Qed.

Lemma lock_paths_frame ps : forall locked w, frame w (snd (lock_paths E ps locked w)).
Proof using Type.
  induction ps as [|p ps IH]; intros locked w; [apply frame_refl|]. cbn [lock_paths].
  case_match; [apply frame_emit|]. eapply frame_trans; [apply frame_emit|apply IH].
Qed.

Lemma unlock_paths_frame ps w : frame w (unlock_paths ps w).
Proof using Type. unfold unlock_paths. apply (walk_foldl frame). intros w1 p. walk. Qed.
#[local] Hint Resolve dm_addmap_create_frame dm_addmap_reload_frame lock_paths_frame unlock_paths_frame : frame.

Lemma lock_multipath_frame m b w : frame w (snd (lock_multipath E m b w)).
Proof using Type. unfold lock_multipath. walk. Qed.

Lemma max_sectors_frame m b w : frame w (sysfs_set_max_sectors_kb E m b w).
Proof using Type. unfold sysfs_set_max_sectors_kb. walk. Qed.

Lemma stop_ghost_frame m w : frame w (stop_ghost_delay m w).
Proof using Type. unfold stop_ghost_delay. walk. Qed.

Lemma trigger_frame m b w : frame w (trigger_paths_udev_change m b w).
Proof using Type. unfold trigger_paths_udev_change. walk. Qed.

Lemma reinstate_paths_frame m w : frame w (reinstate_paths m w).
Proof using Type.
  unfold reinstate_paths. apply (walk_foldl frame). intros w1 g. apply (walk_foldl frame). intros w2 p. walk.
Qed.

Lemma check_present_frame m w : frame w (check_present E m w).
Proof using Type. unfold check_present. walk. Qed.

Lemma rename_frame m w : frame w (snd (rename_kernel_map E m w)).
Proof using Type. unfold rename_kernel_map. walk. Qed.
#[local] Hint Resolve lock_multipath_frame max_sectors_frame stop_ghost_frame trigger_frame reinstate_paths_frame
  check_present_frame rename_frame : frame.

Lemma reload_kernel_frame m pa b w : frame w (snd (reload_kernel_map E m pa b w)).
Proof using Type. unfold reload_kernel_map. walk. Qed.
#[local] Hint Resolve reload_kernel_frame : frame.

Lemma perform_action_frame m pa d w : frame w (snd (perform_action E m pa d w)).
Proof using Type. unfold perform_action. walk. Qed.

Lemma domap_done_frame m d w : frame w (domap_done E m d w).
Proof using Type. unfold domap_done. walk. Qed.
#[local] Hint Resolve perform_action_frame domap_done_frame : frame.

Lemma domap_frame m pa d w : frame w (snd (domap E m pa d w)).
Proof using Type. unfold domap. walk. Qed.
End Frames.

(** ** Well-formed worlds *)

Section Tracked.
Context (T : list ptr).

(** [live] are the maps that are in use.  The paths [T] are followed even when
    they leave the path vector. *)
Record wf (live : list ptr) (w : world) : Prop := {
  wf_alive : forall p, p ∈ pathvec w -> is_Some (w_paths w !! p) /\ (p < next_ptr w)%nat;
  wf_udev : forall p, p ∈ pathvec w -> udev (wp w p) = true;
  wf_owner : forall p m, p ∈ pathvec w \/ p ∈ T -> mpp (wp w p) = Some m -> m ∈ live;
  wf_known : forall p, p ∈ T -> (p < next_ptr w)%nat;
  wf_unique : NoDup (pathvec w);
  wf_live : forall m, m ∈ live -> is_Some (w_maps w !! m) /\ (m < next_ptr w)%nat }.

Definition keeps (live : list ptr) (w w' : world) : Prop :=
  wf live w -> wf live w' /\ mpvec w' = mpvec w /\ (next_ptr w <= next_ptr w')%nat.

Lemma frame_wf live w w' : frame w w' -> wf live w -> wf live w'.
Proof.
  intros [F1 F2 F3 F4 F5] [W1 W2 W3 WT W4 W5]. split; rewrite ?F1.
  - intros p Hp. destruct (W1 p Hp) as [HS Hlt]. destruct (F4 p Hlt) as (_ & _ & H). split; [auto|lia].
  - intros p Hp. destruct (W1 p Hp) as [HS Hlt]. destruct (F4 p Hlt) as (_ & H & _).
    unfold wp in *. rewrite H. by apply W2.
  - intros p m Hp Hm. assert (p < next_ptr w)%nat as Hlt by (destruct Hp as [Hp|Hp]; [by apply W1|by apply WT]).
    destruct (F4 p Hlt) as (H & _ & _). unfold wp in *. rewrite H in Hm. by eapply W3.
  - intros p Hp. specialize (WT p Hp). lia.
  - done.
  - intros m Hm. destruct (W5 m Hm). split; [auto|lia].
Qed.

Lemma keeps_refl live w : keeps live w w.
Proof. by intros W. Qed.

Lemma keeps_trans live w1 w2 w3 : keeps live w1 w2 -> keeps live w2 w3 -> keeps live w1 w3.
Proof.
  intros K1 K2 W. destruct (K1 W) as (W1 & A1 & A2). destruct (K2 W1) as (W2 & B1 & B2).
  split_and!; [done|congruence|lia].
Qed.

Lemma frame_keeps live w w' : frame w w' -> keeps live w w'.
Proof. intros H W. split_and!; [by eapply frame_wf|apply H|apply H]. Qed.

#[export] Instance keeps_walk live : Walk (keeps live).
Proof.
  split; [apply keeps_refl|apply keeps_trans|].
  intros w1 w2 w3 H F. eapply keeps_trans; [exact H|by apply frame_keeps].
Qed.

(** *** Paths leave and join maps *)

Lemma keeps_set_mpp live p f w :
  (forall pp, udev pp = udev (f pp)) -> (forall m, mpp (f (wp w p)) = Some m -> m ∈ live) ->
  keeps live w (upd_path p f w).
Proof.
  intros Hu Hm [W1 W2 W3 WT W4 W5]. split_and!; [|done|done].
  split; [| | |exact WT|exact W4|exact W5]; change (pathvec (upd_path p f w)) with (pathvec w).
  - intros q Hq. destruct (W1 q Hq) as [HS Hlt]. split; [|done].
    change (w_paths (upd_path p f w)) with (<[p := f (wp w p)]> (w_paths w)).
    destruct (decide (p = q)) as [->|Hn]; [by rewrite lookup_insert_eq|by rewrite lookup_insert_ne].
  - intros q Hq. rewrite wp_upd_path. destruct (decide (p = q)) as [->|Hn]; [|by apply W2].
    rewrite <-Hu. by apply W2.
  - intros q m Hq. rewrite wp_upd_path. destruct (decide (p = q)) as [->|Hn]; [by apply Hm|by apply W3].
Qed.

Lemma keeps_set_udev live p w : keeps live w (upd_path p (fun pp => pp <| udev := true |>) w).
Proof.
  intros [W1 W2 W3 WT W4 W5]. split_and!; [|done|done].
  split; [| | |done..]; change (pathvec (upd_path p ?f w)) with (pathvec w); intros q.
  - intros Hq. destruct (W1 q Hq). split; [|done]. unfold upd_path. cbn [w_paths upd].
    destruct (decide (p = q)) as [->|Hn]; [by rewrite lookup_insert_eq|by rewrite lookup_insert_ne].
  - intros Hq. rewrite wp_upd_path. case_decide; [done|by apply W2].
  - intros x Hq. rewrite wp_upd_path. case_decide; [subst q; cbn [mpp upd]|]; by apply W3.
Qed.

Lemma orphan_path_keeps live p w : keeps live w (orphan_path p w).
Proof.
  unfold orphan_path. eapply keeps_trans; [|apply keeps_set_mpp; [done|done]].
  apply frame_keeps. walk.
Qed.

Lemma set_path_removed_frame p w : frame w (set_path_removed p w).
Proof.
  unfold set_path_removed. destruct (mpp (wp w p)) as [m|] eqn:Hm.
  - assert (exists w1, frame w w1 /\ mpp (wp w1 p) = Some m /\
      upd_path p (fun pp => pp <| mpp := Some m |> <| initialized := INIT_REMOVED |>) (orphan_path p w) =
      upd_path p (fun pp => uninitialize_path (pp <| mpp := None |>) <| mpp := Some m |> <| initialized := INIT_REMOVED |>) w1)
      as (w1 & F & Hm1 & ->).
    { unfold orphan_path. rewrite Hm. eexists. split; [|split]; [..|].
      3: { unfold upd_path. cbn. f_equal. rewrite lookup_total_insert_eq. by rewrite insert_insert_eq. }
      - case_match; [apply frame_upd_map|apply frame_refl].
      - case_match; done. }
    eapply frame_trans; [exact F|]. split; try done. intros q _. unfold same_path.
    change (w_paths (upd_path p ?f w1)) with (<[p := f (wp w1 p)]> (w_paths w1)).
    destruct (decide (p = q)) as [->|Hn].
    + rewrite lookup_total_insert_eq, lookup_insert_eq. split_and!; [by rewrite <-Hm1|done|by eexists].
    + by rewrite lookup_total_insert_ne, lookup_insert_ne.
  - unfold orphan_path. rewrite Hm. split; try done. intros q _. unfold same_path.
    change (w_paths (upd_path p ?f w)) with (<[p := f (wp w p)]> (w_paths w)).
    destruct (decide (p = q)) as [->|Hn].
    + rewrite lookup_total_insert_eq, lookup_insert_eq. split_and!; [by rewrite <-Hm|done|by eexists].
    + by rewrite lookup_total_insert_ne, lookup_insert_ne.
Qed.

Lemma free_path_keeps live p w : p ∉ pathvec w -> keeps live w (free_path p w).
Proof.
  intros Hp [W1 W2 W3 WT W4 W5]. split_and!; [|done|done].
  assert (forall q, q ∈ pathvec w -> wp (free_path p w) q = wp w q) as Heq.
  { intros q Hq. apply free_path_wp. by intros ->. }
  split; change (pathvec (free_path p w)) with (pathvec w); [| | |done..].
  - intros q Hq. destruct (W1 q Hq). split; [|done]. cbn. rewrite lookup_delete_ne; [done|by intros ->].
  - intros q Hq. rewrite Heq by done. by apply W2.
  - intros q m Hq. destruct (decide (p = q)) as [->|Hn]; [|rewrite free_path_wp by done; by apply W3].
    unfold wp, free_path. cbn. by rewrite lookup_total_delete_eq.
Qed.

(** A vector without some of the paths. *)
Lemma keeps_pathvec live ps w : ps `sublist_of` pathvec w -> keeps live w (w <| pathvec := ps |>).
Proof.
  intros Hs [W1 W2 W3 WT W4 W5]. split_and!; [|done|done].
  assert (forall p, p ∈ ps -> p ∈ pathvec w) as Hin.
  { intros p Hp. eapply elem_of_submseteq; [exact Hp|]. by apply sublist_submseteq. }
  split; cbn [pathvec upd].
  - intros p Hp. by apply W1, Hin.
  - intros p Hp. by apply W2, Hin.
  - intros p m Hp. apply W3. destruct Hp; auto.
  - done.
  - by eapply sublist_NoDup.
  - done.
Qed.

Lemma remove_first_sublist x l : remove_first x l `sublist_of` l.
Proof. unfold remove_first. destruct (list_find (x =.) l) as [[i y]|]; [apply sublist_delete|done]. Qed.

Lemma remove_first_gone x l : NoDup l -> x ∉ remove_first x l.
Proof. intros H. rewrite remove_first_NoDup by done. intros [_ Hx]%filter_idx_elem. by rewrite Nat.eqb_refl in Hx. Qed.

(** A path is freed and leaves the vector. *)
Lemma drop_path_keeps live w l1 p l2 : 
  keeps live (w <| pathvec := l1 ++ p :: l2 |>) (free_path p w <| pathvec := l1 ++ l2 |>).
Proof.
  intros W. pose proof (wf_unique _ _ W) as Hnd. cbn [pathvec upd] in Hnd.
  change (free_path p w <| pathvec := l1 ++ l2 |>) with
    (free_path p (w <| pathvec := l1 ++ p :: l2 |> <| pathvec := l1 ++ l2 |>)).
  destruct (free_path_keeps live p (w <| pathvec := l1 ++ p :: l2 |> <| pathvec := l1 ++ l2 |>)) as [H1 H2]; [| |done].
  - change (p ∉ l1 ++ l2). apply NoDup_app in Hnd as (_ & H1 & H2). apply NoDup_cons in H2 as [H2 _].
    rewrite elem_of_app. intros [Hp|Hp]; [|done]. apply (H1 p Hp). by left.
  - apply (keeps_pathvec live (l1 ++ l2) (w <| pathvec := l1 ++ p :: l2 |>)); [|done]. change (l1 ++ l2 `sublist_of` l1 ++ p :: l2).
    apply sublist_app; [done|]. by constructor.
Qed.

Lemma same_pathvec w : w <| pathvec := [] ++ pathvec w |> = w.
Proof. by destruct w. Qed.

Lemma check_removed_keeps live m ps : forall kept w,
  keeps live (w <| pathvec := kept ++ ps |>) (check_removed_loop m ps kept w).
Proof.
  induction ps as [|p ps IH]; intros kept w; cbn [check_removed_loop].
  { rewrite app_nil_r. apply keeps_refl. }
  assert (keeps live (w <| pathvec := kept ++ p :: ps |>) (check_removed_loop m ps (kept ++ [p]) w)) as Hkeep.
  { specialize (IH (kept ++ [p]) w). by rewrite <-(assoc_L (++)) in IH. }
  case_match; [done|]. case_match; [done|].
  eapply keeps_trans; [apply drop_path_keeps|apply IH].
Qed.

Lemma check_removed_paths_keeps live m w : keeps live w (check_removed_paths m w).
Proof. pose proof (check_removed_keeps live m (pathvec w) [] w) as H. by rewrite same_pathvec in H. Qed.

Lemma orphan_path_pathvec p w l : orphan_path p (w <| pathvec := l |>) = orphan_path p w <| pathvec := l |>.
Proof.
  unfold orphan_path. change (wp (w <| pathvec := l |>) p) with (wp w p).
  destruct (mpp (wp w p)) as [m|]; [|done]. change (wm (w <| pathvec := l |>) m) with (wm w m). by case_match.
Qed.

Lemma orphan_loop_keeps live m ps : forall kept w,
  keeps live (w <| pathvec := kept ++ ps |>) (orphan_loop m ps kept w).
Proof.
  induction ps as [|p ps IH]; intros kept w; cbn [orphan_loop].
  { rewrite app_nil_r. apply keeps_refl. }
  case_match; [case_match|].
  - eapply keeps_trans; [apply drop_path_keeps|apply IH].
  - eapply keeps_trans; [|apply IH]. rewrite <-(assoc_L (++)). cbn [app]. rewrite <-orphan_path_pathvec.
    apply orphan_path_keeps.
  - specialize (IH (kept ++ [p]) w). by rewrite <-(assoc_L (++)) in IH.
Qed.

Lemma orphan_paths_keeps live m w : keeps live w (orphan_paths m w).
Proof.
  unfold orphan_paths. eapply keeps_trans; [apply frame_keeps, frame_upd_map|].
  set (w1 := upd_map m _ w). pose proof (orphan_loop_keeps live m (pathvec w1) [] w1) as H.
  by rewrite same_pathvec in H.
Qed.

(** No path of the vector belongs to the map any more. *)
Lemma orphan_paths_none m w p : NoDup (pathvec w) -> p ∈ pathvec (orphan_paths m w) ->
  mpp (wp (orphan_paths m w) p) <> Some m.
Proof.
  intros Hnd Hp. unfold orphan_paths in *. set (w1 := upd_map m _ w) in *.
  destruct (orphan_loop_spec m (pathvec w1) [] w1 Hnd) as [O1 O2 O3 O4 O5 O6].
  rewrite O1 in Hp. apply filter_idx_elem in Hp as [Hp Hf]. apply negb_true_iff in Hf.
  destruct (owned m w1 p) eqn:Ho.
  - cbn [andb] in Hf. rewrite O5 by done. done.
  - rewrite O4 by auto. unfold owned in Ho. by apply bool_decide_eq_false in Ho.
Qed.

(** ** Reading the kernel's table *)

Section Keeps.
Context (E : env) (Hinfo : forall h pp, mpp (snd (e_pathinfo E h pp)) = mpp pp /\
                                        udev (snd (e_pathinfo E h pp)) = udev pp).
Context (live : list ptr) (m : ptr) (Hm : m ∈ live).

#[local] Hint Extern 1 (frame _ _) => solve [apply run_pathinfo_frame; exact Hinfo] : frame.
#[local] Hint Resolve orphan_path_keeps check_removed_paths_keeps : walk.
#[local] Hint Resolve guess_frame update_mpp_paths_frame extract_hwe_frame update_status_frame set_path_removed_frame : frame.

Lemma own_path_keeps p w : keeps live w (upd_path p (fun pp => pp <| mpp := Some m |>) w).
Proof using Hm. apply keeps_set_mpp; [done|]. intros x [= <-]. exact Hm. Qed.
#[local] Hint Resolve own_path_keeps : walk.

Lemma check_path_wwid_keeps p w : keeps live w (snd (check_path_wwid m p w)).
Proof using Type. unfold check_path_wwid. walk. Qed.

Lemma free_unknown_keeps p w : udev (wp w p) = false -> keeps live w (free_path p w).
Proof using Type.
  intros Hu W. apply free_path_keeps; [|done].
  intros Hp. apply (wf_udev _ _ W) in Hp. congruence.
Qed.

Lemma store_new_wf p w : wf live w -> p ∉ pathvec w -> is_Some (w_paths w !! p) -> (p < next_ptr w)%nat ->
  udev (wp w p) = true -> (forall x, mpp (wp w p) = Some x -> x ∈ live) ->
  wf live (w <| pathvec := pathvec w ++ [p] |>).
Proof using Type.
  intros [W1 W2 W3 WT W4 W5] Hp Hs Hlt Hu Hx. split; cbn [pathvec upd]; [| | |done| |done].
  - intros q [Hq|Hq]%elem_of_app; [by apply W1|]. apply list_elem_of_singleton in Hq as ->. done.
  - intros q [Hq|Hq]%elem_of_app; [by apply W2|]. apply list_elem_of_singleton in Hq as ->. done.
  - intros q x [[Hq|Hq]%elem_of_app|Hq]; [apply W3; auto| |apply W3; auto].
    apply list_elem_of_singleton in Hq as ->. apply Hx.
  - apply NoDup_app. split; [done|]. split; [|by apply NoDup_singleton].
    intros q Hq ->%list_elem_of_singleton. done.
Qed.

Lemma update_dm_path_keeps flags b p w : (p < next_ptr w)%nat ->
  keeps live w (snd (update_dm_path E m flags b p w)).
Proof using Hinfo Hm.
  intros Hlt. unfold update_dm_path. case_match; [by apply frame_keeps, frame_emit|].
  set (w1 := upd_path p _ w). assert (keeps live w w1) as K1 by apply own_path_keeps.
  assert (forall w2, keeps live w w2 ->
    keeps live w (snd (if b then check_path_wwid m p w2 else (true, w2)))) as Hfin.
  { intros w2 K. destruct b; [|done]. eapply keeps_trans; [exact K|apply check_path_wwid_keeps]. }
  destruct (udev (wp w1 p)) eqn:Hu.
  { apply Hfin. destruct (Z.land flags (Z.lnot DI_NOIO) =? 0); [done|]. eapply walk_frame; [exact K1|].
    by apply run_pathinfo_frame. }
  set (w2 := emit _ w1). assert (keeps live w w2) as K2 by (eapply walk_frame; [exact K1|apply frame_emit]).
  destruct (e_udev E (trace w1)); cbn [negb].
  2: { eapply keeps_trans; [exact K2|]. by apply free_unknown_keeps. }
  set (w3 := upd_path p _ w2).
  destruct (run_pathinfo E p _ w3) as [rc w4] eqn:Hr.
  assert (frame w3 w4) as F4 by (change w4 with (snd (rc, w4)); rewrite <-Hr; by apply run_pathinfo_frame).
  assert (keeps live w2 w3) as K3.
  { intros W. split_and!; [|done|done]. assert (p ∉ pathvec w2) as Hp.
    { intros Hp. apply (wf_udev _ _ W) in Hp. unfold w2 in Hp. rewrite wp_emit in Hp. congruence. }
    destruct W as [V1 V2 V3 VT V4 V5].
    assert (forall q, q ∈ pathvec w2 -> p <> q) as Hne by (intros q Hq ->; done).
    split; change (pathvec w3) with (pathvec w2); [| | |done..]; intros q.
    - intros Hq. destruct (V1 q Hq). split; [|done]. change (w_paths w3 !! q) with (<[p := _]> (w_paths w2) !! q) || idtac.
      unfold w3, upd_path. cbn [w_paths upd]. rewrite lookup_insert_ne; [done|by apply Hne].
    - intros Hq. unfold w3. rewrite wp_upd_path_ne by by apply Hne. by apply V2.
    - intros x Hq. unfold w3. rewrite wp_upd_path. destruct (decide (p = q)) as [->|Hn]; by apply V3. }
  assert (keeps live w w4) as K4.
  { eapply walk_frame; [|exact F4]. by eapply keeps_trans. }
  assert (wf live w -> p ∉ pathvec w4) as Hnew.
  { intros W. rewrite (fr_pathvec _ _ F4). change (pathvec w3) with (pathvec w).
    intros Hp. apply (wf_udev _ _ W) in Hp. unfold w1 in Hu. rewrite wp_upd_path_eq in Hu. cbn in Hu. congruence. }
  assert (keeps live w (free_path p w4)) as Kfree.
  { intros W. exact (keeps_trans _ _ _ _ K4 (free_path_keeps live p w4 (Hnew W)) W). }
  destruct rc; [|exact Kfree..]. apply Hfin.
  eapply walk_frame; [|by apply frame_upd_path].
  unfold store_path. destruct ((strlen (dev_t (w_paths w4 !!! p)) =? 0) && _); cbn [default from_option id].
  { replace (w4 <| pathvec := pathvec w4 |>) with w4; [exact K4|by destruct w4]. }
  intros W. destruct (K4 W) as (W4 & A1 & A2). split_and!; [|done|done]. apply store_new_wf; [done|by apply Hnew|..].
  - apply (fr_paths _ _ F4); [exact Hlt|]. exists (wp w3 p). unfold w3, upd_path at 1. cbn [w_paths upd].
    rewrite lookup_insert_eq. f_equal. unfold w3. by rewrite wp_upd_path_eq.
  - pose proof (fr_next _ _ F4) as Hn. change (next_ptr w <= next_ptr w4)%nat in Hn. lia.
  - destruct (fr_paths _ _ F4 p Hlt) as (_ & Hu4 & _). unfold wp in *. rewrite Hu4.
    change (udev (wp w3 p) = true). unfold w3. by rewrite wp_upd_path_eq.
  - intros x. destruct (fr_paths _ _ F4 p Hlt) as (Hm4 & _ & _). unfold wp in *. rewrite Hm4.
    change (mpp (wp w3 p) = Some x -> x ∈ live). unfold w3, w2, w1.
    rewrite wp_upd_path_eq, wp_emit, wp_upd_path_eq. intros [= <-]. exact Hm.
Qed.

Lemma below_mono ps (n n' : nat) : (n <= n')%nat -> Forall (fun p => p < n)%nat ps -> Forall (fun p => p < n')%nat ps.
Proof using Type. intros Hn H. eapply Forall_impl; [exact H|]. intros p. cbn. lia. Qed.

Lemma update_dm_paths_keeps flags b ps : forall kept mr w, Forall (fun p => p < next_ptr w)%nat ps ->
  keeps live w (snd (update_dm_paths E m flags b ps kept mr w)).
Proof using Hinfo Hm.
  induction ps as [|p ps IH]; intros kept mr w Hps; [apply keeps_refl|]. cbn [update_dm_paths].
  apply Forall_cons in Hps as [Hp Hps]. pose proof (update_dm_path_keeps flags b p w Hp) as K.
  destruct (update_dm_path E m flags b p w) as [keep w1]. cbn [snd] in K. intros W.
  destruct (K W) as (W1 & A1 & A2). pose proof (below_mono _ _ _ A2 Hps) as Hps1.
  revert W. eapply keeps_trans; [exact K|]. destruct keep; by apply IH.
Qed.

Lemma update_dm_groups_keeps flags b gs : forall kept mr w,
  Forall (fun p => p < next_ptr w)%nat (gs ≫= g_paths) ->
  keeps live w (snd (update_dm_groups E m flags b gs kept mr w)).
Proof using Hinfo Hm.
  induction gs as [|g gs IH]; intros kept mr w Hps; [apply keeps_refl|]. cbn [update_dm_groups].
  rewrite bind_cons in Hps. apply Forall_app in Hps as [Hg Hps].
  pose proof (update_dm_paths_keeps flags b (g_paths g) [] mr w Hg) as K.
  destruct (update_dm_paths E m flags b (g_paths g) [] mr w) as [[ps mr1] w1]. cbn [snd] in K. intros W.
  destruct (K W) as (W1 & A1 & A2). pose proof (below_mono _ _ _ A2 Hps) as Hps1.
  revert W. eapply keeps_trans; [exact K|]. case_match; by apply IH.
Qed.

Lemma update_pathvec_keeps flags w : Forall (fun p => p < next_ptr w)%nat (all_paths (wm w m)) ->
  keeps live w (snd (update_pathvec_from_dm E m flags w)).
Proof using Hinfo Hm.
  unfold update_pathvec_from_dm, all_paths. destruct (pg (wm w m)) as [groups|]; [|intros _; apply keeps_refl].
  intros Hps. pose proof (guess_frame m w) as F. destruct (guess_mpp_wwid m w) as [b w1]. cbn [snd] in F.
  pose proof (below_mono _ _ _ (fr_next _ _ F) Hps) as Hps1.
  pose proof (update_dm_groups_keeps flags b groups [] false w1 Hps1) as K.
  destruct (update_dm_groups E m flags b groups [] false w1) as [[gs mr] w2]. cbn [snd] in *.
  eapply walk_frame; [|apply frame_upd_map]. eapply keeps_trans; [by apply frame_keeps|exact K].
Qed.

Lemma update_table_keeps flags w : pg (wm w m) = None ->
  keeps live w (snd (update_multipath_table E m flags w)).
Proof using Hinfo Hm.
  intros Hpg. unfold update_multipath_table. destruct (e_get_map E (trace w)) as [[r sz] params].
  set (w1 := emit _ w). assert (frame w w1) as F1 by apply frame_emit.
  destruct r; [by apply frame_keeps| |by apply frame_keeps]. set (w2 := upd_map m _ w1).
  assert (frame w w2) as F2 by (eapply frame_trans; [exact F1|apply frame_upd_map]).
  destruct (disassemble_map (pathvec w2) params (w_paths w2) (next_ptr w2) (wm w2 m)) as [o st] eqn:Hd.
  set (w3 := upd_map m _ _). intros W.
  assert (parse_inv (w_paths w2) (next_ptr w2) (m_alias (wm w2 m)) st) as (P1 & P2 & P3 & _).
  { apply (disassemble_map_frame _ _ _ _ _ _ _ Hd).
    - apply Forall_forall. intros p Hp. by apply (wf_alive _ _ W).
    - unfold w2. rewrite wm_upd_map_eq. unfold all_paths.
      change (pg (wm w1 m <| m_size := sz |>)) with (pg (wm w m)). rewrite Hpg. constructor. }
  assert (frame w w3) as F3.
  { eapply frame_trans; [exact F2|]. eapply frame_trans; [|apply frame_upd_map]. by split. }
  revert W. destruct o; [|by apply frame_keeps..].
  eapply keeps_trans; [by apply frame_keeps|]. apply update_pathvec_keeps.
  unfold w3. rewrite wm_upd_map_eq. exact P3.
Qed.

Lemma drop_ungrouped_keeps ps : forall kept w, keeps live w (drop_ungrouped m ps kept w).
Proof using Type.
  induction ps as [|p ps IH]; intros kept w; cbn [drop_ungrouped]; [by apply frame_keeps, frame_upd_map|]. walk.
Qed.
#[local] Hint Resolve drop_ungrouped_keeps : walk.

Lemma sync_paths_keeps w : keeps live w (sync_paths m w).
Proof using Hm.
  unfold sync_paths. walk. eapply keeps_trans; [|apply (walk_foldl (keeps live)); intros w4 p; walk]. walk.
Qed.

Lemma verify_loop_frame ps : forall kept n w, frame w (snd (verify_loop E m ps kept n w)).
Proof using Type. induction ps as [|p ps IH]; intros kept n w; cbn [verify_loop]; walk. Qed.
#[local] Hint Resolve verify_loop_frame : frame.

Lemma verify_paths_frame w : frame w (snd (verify_paths E m w)).
Proof using Type. unfold verify_paths. walk. Qed.

Lemma adopt_path_keeps p w w' : adopt_path E m p w = Some w' -> keeps live w w'.
Proof using Hinfo Hm.
  unfold adopt_path. intros H. repeat (case_match; [simplify_eq; apply keeps_refl|]).
  set (w1 := upd_map m _ w) in *. assert (frame w w1) as F1 by apply frame_upd_map.
  pose proof (run_pathinfo_frame E Hinfo p (Z.lor DI_PRIO DI_CHECKER) w1) as F2.
  destruct (run_pathinfo E p _ w1) as [ret w2]. cbn [snd] in F2.
  case_match; [simplify_eq; apply frame_keeps; by eapply frame_trans|].
  match type of H with context [?x ≫= _] => destruct x as [stored|]; [|done] end.
  injection H as <-. eapply keeps_trans; [|apply own_path_keeps]. apply frame_keeps.
  eapply frame_trans; [exact F1|]. eapply frame_trans; [exact F2|apply frame_upd_map].
Qed.

Lemma adopt_paths_keeps w : keeps live w (snd (adopt_paths E m w)).
Proof using Hinfo Hm.
  unfold adopt_paths. pose proof (update_mpp_paths_frame m w) as F.
  destruct (update_mpp_paths m w) as [failure w1]. cbn [snd] in F.
  destruct failure; [by apply frame_keeps|]. eapply keeps_trans; [by apply frame_keeps|].
  clear F. generalize (pathvec w1). intros ps. revert w1. induction ps as [|p ps IH]; intros w1; cbn [adopt_loop]; [apply keeps_refl|].
  destruct (adopt_path E m p w1) as [w2|] eqn:Ha; [|apply keeps_refl].
  eapply keeps_trans; [by eapply adopt_path_keeps|apply IH].
Qed.

Lemma update_strings_keeps w : keeps live w (snd (update_multipath_strings E m w)).
Proof using Hinfo Hm.
  unfold update_multipath_strings.
  set (w1 := snd (update_mpp_paths m w)). assert (frame w w1) as F1 by apply update_mpp_paths_frame.
  set (w2 := upd_map m _ w1). assert (frame w w2) as F2 by (eapply frame_trans; [exact F1|apply frame_upd_map]).
  assert (pg (wm w2 m) = None) as Hpg by (unfold w2; by rewrite wm_upd_map_eq).
  pose proof (update_table_keeps 0 w2 Hpg) as K3. destruct (update_multipath_table E m 0 w2) as [r w3]. cbn [snd] in K3.
  assert (keeps live w w3) as K by (eapply keeps_trans; [by apply frame_keeps|exact K3]).
  destruct r; [exact K| |exact K].
  pose proof (sync_paths_keeps w3) as K4.
  pose proof (update_status_frame E m (sync_paths m w3)) as F5.
  destruct (update_multipath_status E m (sync_paths m w3)) as [r w5]. cbn [snd] in *.
  assert (keeps live w w5) as K5 by (eapply walk_frame; [|exact F5]; by eapply keeps_trans).
  destruct r; [exact K5| |exact K5]. cbn [snd]. eapply walk_frame; [exact K5|apply frame_upd_map].
Qed.
End Keeps.
End Tracked.

(** *** Removing a map *)

Lemma orphan_loop_rest m ps : forall kept w,
  mpvec (orphan_loop m ps kept w) = mpvec w /\ next_ptr (orphan_loop m ps kept w) = next_ptr w.
Proof.
  induction ps as [|p ps IH]; intros kept w; cbn [orphan_loop]; [done|].
  case_match; [case_match|].
  - apply (IH kept (free_path p w)).
  - destruct (IH (kept ++ [p]) (orphan_path p w)) as [-> ->]. destruct (orphan_path_rest p w) as (_ & -> & _).
    split; [done|]. unfold orphan_path. by repeat case_match.
  - apply IH.
Qed.

Lemma orphan_paths_rest m w : mpvec (orphan_paths m w) = mpvec w /\ next_ptr (orphan_paths m w) = next_ptr w.
Proof. unfold orphan_paths. set (w1 := upd_map m _ w). exact (orphan_loop_rest m (pathvec w1) [] w1). Qed.

Lemma remove_map_mpvec m b w : mpvec (remove_map m b w) = if b then remove_first m (mpvec w) else mpvec w.
Proof. unfold remove_map. destruct (orphan_paths_rest m w) as [<- _]. by destruct b. Qed.

Lemma remove_map_next m b w : next_ptr (remove_map m b w) = next_ptr w.
Proof. unfold remove_map. destruct (orphan_paths_rest m w) as [_ <-]. by destruct b. Qed.

Lemma free_multipath_wf live live' m w : (forall x, x ∈ live' <-> x ∈ live /\ x <> m) ->
  (forall p, p ∈ pathvec w -> mpp (wp w p) <> Some m) -> wf [] live w -> wf [] live' (free_multipath m w).
Proof.
  intros Hl Hno [W1 W2 W3 WT W4 W5].
  assert (forall p, p ∈ pathvec w -> w_paths (free_multipath m w) !! p = w_paths w !! p) as Heq.
  { intros p Hp. apply free_backrefs_other. by apply Hno. }
  assert (forall p, p ∈ pathvec w -> wp (free_multipath m w) p = wp w p) as Hwp.
  { intros p Hp. unfold wp. by rewrite !lookup_total_alt, Heq. }
  split; change (pathvec (free_multipath m w)) with (pathvec w); [| | |done|done|].
  - intros p Hp. rewrite Heq by done. by apply W1.
  - intros p Hp. rewrite Hwp by done. by apply W2.
  - intros p x [Hp|Hp] Hx; [|by apply elem_of_nil in Hp]. rewrite Hwp in Hx by done. apply Hl.
    split; [by eapply W3; [left|]|]. intros ->. by apply (Hno p Hp).
  - intros x [Hx Hn]%Hl. destruct (W5 x Hx). split; [|done].
    change (w_maps (free_multipath m w)) with (delete m (w_maps w)). by rewrite lookup_delete_ne.
Qed.

Lemma remove_map_wf live live' m b w : (forall x, x ∈ live' <-> x ∈ live /\ x <> m) ->
  wf [] live w -> wf [] live' (remove_map m b w).
Proof.
  intros Hl W. unfold remove_map. destruct (orphan_paths_keeps [] live m w W) as [W1 _].
  set (w1 := orphan_paths m w) in *.
  assert (forall w2, w_paths w2 = w_paths w1 -> w_maps w2 = w_maps w1 -> pathvec w2 = pathvec w1 ->
    next_ptr w2 = next_ptr w1 -> wf [] live' (free_multipath m w2)) as Hgo.
  { intros w2 E1 E2 E3 E4. apply (free_multipath_wf live); [done| |].
    - intros p. unfold wp. rewrite E3, E1. apply orphan_paths_none. by apply W.
    - destruct W1 as [V1 V2 V3 VT V4 V5]. split; unfold wp; rewrite ?E1, ?E2, ?E3, ?E4; done. }
  destruct b; by apply Hgo.
Qed.

(** ** New maps *)

Lemma new_multipath_wf live mm w m w' : new_multipath mm w = (m, w') -> wf [] live w ->
  (m ∉ live) /\ wf [] (m :: live) w' /\ mpvec w' = mpvec w /\ (m < next_ptr w')%nat /\ wm w' m = mm /\
  (next_ptr w <= m)%nat.
Proof.
  intros [= <- <-] [W1 W2 W3 WT W4 W5].
  assert (next_ptr w ∉ live) as Hn by (intros H%W5; lia). split; [done|]. split_and!; [|done| | |done].
  - split; cbn [pathvec upd]; [| | |by intros p ?%elem_of_nil|done|].
    + intros p Hp. destruct (W1 p Hp). split; [done|]. cbn. lia.
    + by apply W2.
    + intros p x Hp Hx. right. by eapply W3.
    + intros x [->|Hx]%elem_of_cons; cbn; [rewrite lookup_insert_eq; split; [by eexists|lia]|].
      destruct (W5 x Hx). split; [by apply insert_some|lia].
  - cbn. lia.
  - unfold wm. cbn. by rewrite lookup_total_insert_eq.
Qed.

(** The new map is given up. *)
Lemma remove_new_wf live m b w : m ∉ live -> wf [] (m :: live) w -> wf [] live (remove_map m b w).
Proof.
  intros Hm. apply remove_map_wf. intros x. rewrite elem_of_cons. split; [|by intros [[->|] ?]].
  intros Hx. split; [by right|]. by intros ->.
Qed.

Lemma remove_first_none x l : x ∉ l -> remove_first x l = l.
Proof.
  intros Hx. unfold remove_first. destruct (list_find (x =.) l) as [[i y]|] eqn:Hf; [|done].
  apply list_find_Some in Hf as (Hi & <- & _). apply list_elem_of_lookup_2 in Hi. done.
Qed.

Section New.
Context (E : env) (Hinfo : forall h pp, mpp (snd (e_pathinfo E h pp)) = mpp pp /\
                                        udev (snd (e_pathinfo E h pp)) = udev pp).

Lemma should_multipath_frame p w : frame w (snd (should_multipath E p w)).
Proof using Type. unfold should_multipath. walk. Qed.

Lemma add_map_with_path_wf live p add w r w' : add_map_with_path E p add w = (r, w') -> wf [] live w ->
  Forall (fun x => x < next_ptr w)%nat (mpvec w) ->
  (next_ptr w <= next_ptr w')%nat /\
  match r with
  | None => wf [] live w' /\ mpvec w' = mpvec w
  | Some m => (m ∉ live) /\ (m ∉ mpvec w) /\ (m < next_ptr w')%nat /\ wf [] (m :: live) w' /\
              mpvec w' = if add then mpvec w ++ [m] else mpvec w
  end.
Proof using Hinfo.
  unfold add_map_with_path. intros H W Hmv. case_match; [by simplify_eq|].
  match type of H with context [new_multipath ?x w] => set (mm := x) in * end.
  destruct (new_multipath mm w) as [m w1] eqn:Hn.
  destruct (new_multipath_wf live _ _ _ _ Hn W) as (Hm & W1 & Hmv1 & Hlt & _ & Hge).
  assert (m ∉ mpvec w) as Hmm by (rewrite Forall_forall in Hmv; intros Hin%Hmv; lia).
  assert ((next_ptr w <= next_ptr w1)%nat) as Hn1 by (injection Hn as _ <-; cbn; lia).
  assert (forall w2, wf [] (m :: live) w2 -> mpvec w2 = mpvec w -> (next_ptr w1 <= next_ptr w2)%nat ->
    (next_ptr w <= next_ptr (remove_map m true w2))%nat /\
    wf [] live (remove_map m true w2) /\ mpvec (remove_map m true w2) = mpvec w) as Hfail.
  { intros w2 W2 E2 N2. rewrite remove_map_next, remove_map_mpvec, E2. split; [lia|].
    split; [by apply remove_new_wf|]. by apply remove_first_none. }
  destruct (e_select_alias E mm) as [alias|]; [|simplify_eq; by apply Hfail].
  set (w2 := upd_map m _ w1) in *. assert (frame w1 w2) as F2 by apply frame_upd_map.
  pose proof (adopt_paths_keeps [] E Hinfo (m :: live) m ltac:(by left) w2) as K.
  destruct (adopt_paths E m w2) as [failure w3]. cbn [snd] in K.
  destruct (K (frame_wf _ _ _ _ F2 W1)) as (W3 & M3 & N3). change (mpvec w2) with (mpvec w1) in M3.
  change (next_ptr w2) with (next_ptr w1) in N3.
  destruct (failure || _); simplify_eq; [by apply Hfail; [|congruence|]|].
  split; [destruct add; cbn; lia|]. split_and!; [done|done|destruct add; cbn; lia| |].
  - destruct add; [|done]. destruct W3. by split.
  - destruct add; cbn [mpvec upd]; congruence.
Qed.
End New.
