(* ===== verification/Safety.v ===== *)
(** * The daemon's vectors hold no dangling pointers

    Every handler of multipathd/main.c and every part of the checker loop keeps
    the objects of the daemon well-formed (see Wellformed): events in any order,
    with whatever answers from the kernel, udev and the checkers.  Then the
    loops over the map vector end, the handlers' return codes are right about
    removed maps, coalescing is safe and waiting for udev ends. *)

From S2P Require Import Prelude CString Util Uevent Structs Pgpolicies Dmparser World StructsVec.
From S2P Require Import Configure Coalesce Checker Daemon Wellformed.

(** ** The handlers *)

(** What the daemon keeps between two events. *)
Definition Inv (w : world) : Prop := wf [] (mpvec w) w /\ NoDup (mpvec w).

Definition at_map (m : ptr) (w : world) : Prop := Inv w /\ m ∈ mpvec w.

Definition pres (w w' : world) : Prop := Inv w -> Inv w'.
Definition stays (m : ptr) (w w' : world) : Prop := at_map m w -> at_map m w' /\ mpvec w' = mpvec w.

Lemma frame_Inv w w' : frame w w' -> Inv w -> Inv w'.
Proof. intros F [W Hnd]. unfold Inv. rewrite (fr_mpvec _ _ F). split; [by eapply frame_wf|done]. Qed.

#[export] Instance pres_walk : Walk pres.
Proof.
  split; [unfold pres; auto|unfold pres; auto|]. intros w1 w2 w3 H F HI. eapply frame_Inv; [exact F|by apply H].
Qed.

Lemma keeps_pres w w' : keeps [] (mpvec w) w w' -> pres w w'.
Proof. intros K [W Hnd]. destruct (K W) as (W' & Hm & _). unfold Inv. by rewrite Hm. Qed.

Lemma frame_at m w w' : frame w w' -> at_map m w -> at_map m w'.
Proof. intros F [HI Hm]. split; [by eapply frame_Inv|]. by rewrite (fr_mpvec _ _ F). Qed.

Lemma frame_stays m w w' : frame w w' -> stays m w w'.
Proof. intros F HI. split; [by eapply frame_at|apply F]. Qed.

#[export] Instance stays_walk m : Walk (stays m).
Proof.
  split; [by intros|..].
  - intros w1 w2 w3 A B H1. destruct (A H1) as [H2 E2]. destruct (B H2) as [H3 E3]. split; [done|congruence].
  - intros w1 w2 w3 A F H1. destruct (A H1) as [H2 E2]. destruct (frame_stays m w2 w3 F H2) as [H3 E3].
    split; [done|congruence].
Qed.

Lemma keeps_stays m w w' : (forall live, m ∈ live -> keeps [] live w w') -> stays m w w'.
Proof.
  intros K [[W Hnd] Hm]. destruct (K (mpvec w) Hm W) as (W' & Heq & _). unfold at_map, Inv. by rewrite Heq.
Qed.

Lemma remove_map_pres m w : pres w (remove_map m true w).
Proof.
  intros [W Hnd]. unfold Inv. rewrite remove_map_mpvec. split.
  - eapply remove_map_wf; [|exact W]. intros x. rewrite remove_first_NoDup, filter_idx_elem, negb_true_iff, Nat.eqb_neq by done.
    done.
  - eapply sublist_NoDup; [exact Hnd|apply remove_first_sublist].
Qed.

Lemma orphan_path_pres p w : pres w (orphan_path p w).
Proof. apply keeps_pres, orphan_path_keeps. Qed.

Lemma orphan_path_stays m p w : stays m w (orphan_path p w).
Proof. apply keeps_stays. intros live _. apply orphan_path_keeps. Qed.

Lemma remove_path_keeps live p w : keeps [] live w (remove_path p w).
Proof.
  intros W. unfold remove_path.
  destruct (keeps_pathvec [] live (remove_first p (pathvec w)) w (remove_first_sublist p _) W) as (W1 & _ & _).
  destruct (free_path_keeps [] live p (w <| pathvec ::= remove_first p |>)) as (W2 & _ & _); [|exact W1|by split_and!].
  cbn [pathvec upd]. apply remove_first_gone, W.
Qed.
#[export] Hint Resolve remove_map_pres orphan_path_pres orphan_path_stays : walk.

Lemma keeps_Inv w w' : keeps [] (mpvec w) w w' -> Inv w -> Inv w'.
Proof. apply keeps_pres. Qed.

(** The map is removed from the map vector exactly when the flag says that it
    is gone; no other map is touched. *)
Definition outcome (m : ptr) (w : world) (r : bool * world) : Prop :=
  Inv (snd r) /\ mpvec (snd r) = if fst r then remove_first m (mpvec w) else mpvec w.

Lemma outcome_kept m w w' : at_map m w' /\ mpvec w' = mpvec w -> outcome m w (false, w').
Proof. intros [[? ?] ?]. by split. Qed.

Lemma outcome_at m w w' : at_map m w -> outcome m w (false, w') -> at_map m w'.
Proof. intros [HI Hm] [H1 H2]. split; [done|]. cbn [fst snd] in H2. by rewrite H2. Qed.

Section Handlers.
Context (E : env) (Hinfo : forall h pp, mpp (snd (e_pathinfo E h pp)) = mpp pp /\
                                        udev (snd (e_pathinfo E h pp)) = udev pp).
Context (sysname : uevent -> option cstr).

#[local] Hint Extern 1 (frame _ (snd (run_pathinfo _ _ _ _))) => apply run_pathinfo_frame; exact Hinfo : frame.
#[local] Hint Extern 1 (frame _ (snd (get_state _ _ _ _))) => apply get_state_frame; exact Hinfo : frame.
#[local] Hint Extern 1 (frame _ (snd (setup_map _ _ _))) => apply setup_map_frame; exact Hinfo : frame.
#[local] Hint Resolve update_mpp_paths_frame set_no_path_retry_frame queue_del_frame queue_add_frame
  sync_map_state_frame select_action_frame domap_frame set_path_removed_frame extract_hwe_frame set_action_frame
  verify_paths_frame dm_queue_frame should_multipath_frame : frame.

(** *** Maps *)

Lemma wait_for_events_frame m w : frame w (snd (wait_for_events E m w)).
Proof using Type. unfold wait_for_events. walk. Qed.

Lemma stop_waiter_frame m w : frame w (stop_waiter_thread m w).
Proof using Type. unfold stop_waiter_thread. walk. Qed.

Lemma cancel_deferred_frame m w : frame w (dm_cancel_deferred_remove E m w).
Proof using Type. unfold dm_cancel_deferred_remove. walk. Qed.
#[local] Hint Resolve wait_for_events_frame stop_waiter_frame cancel_deferred_frame : frame.

Lemma remove_and_stop_pres m w : pres w (remove_map_and_stop_waiter E m w).
Proof using Type. unfold remove_map_and_stop_waiter. walk. Qed.
#[local] Hint Resolve remove_and_stop_pres : walk.

Lemma adopt_paths_stays m w : stays m w (snd (adopt_paths E m w)).
Proof using Hinfo. apply keeps_stays. intros live Hm. by apply adopt_paths_keeps. Qed.

Lemma update_strings_stays m w : stays m w (snd (update_multipath_strings E m w)).
Proof using Hinfo. apply keeps_stays. intros live Hm. by apply update_strings_keeps. Qed.
#[local] Hint Resolve adopt_paths_stays update_strings_stays : walk.

Lemma remove_and_stop_mpvec m w : mpvec (remove_map_and_stop_waiter E m w) = remove_first m (mpvec w).
Proof using Type.
  unfold remove_map_and_stop_waiter. rewrite remove_map_mpvec.
  destruct (c_poll_dmevents (e_conf E)); [done|]. by rewrite (fr_mpvec _ _ (stop_waiter_frame m w)).
Qed.

Lemma setup_multipath_outcome reset m w : at_map m w -> outcome m w (setup_multipath E reset m w).
Proof using Hinfo.
  intros HI. unfold setup_multipath. set (w1 := upd_map m _ _).
  assert (stays m w w1) as S1 by (unfold w1; walk).
  assert (forall w2, at_map m w2 -> mpvec w2 = mpvec w -> outcome m w (true, remove_map_and_stop_waiter E m w2)) as Hfail.
  { intros w2 [H2 _] E2. split; [by apply remove_and_stop_pres|]. cbn [fst snd]. by rewrite remove_and_stop_mpvec, E2. }
  destruct (S1 HI) as [H1 E1]. destruct (e_dm_info E (trace w)); [|by apply Hfail].
  assert (stays m w (snd (update_multipath_strings E m w1))) as S2 by (eapply walk_trans; [exact S1|apply update_strings_stays]).
  destruct (update_multipath_strings E m w1) as [r w2]. cbn [snd] in S2.
  destruct (negb (eqb r DMP_OK)); [by apply Hfail; apply S2|].
  destruct (negb reset); apply outcome_kept, (fun K : stays m w _ => K HI); [done|]. walk.
Qed.

Lemma mark_as_failed_frame m w p : frame w (mark_as_failed E m w p).
Proof using Type. unfold mark_as_failed. walk. Qed.

Lemma find_alias_in mh v a m : find_mp_by_alias mh v a = Some m -> m ∈ v.
Proof using Type. intros H. by apply find_mp_by_alias_some in H as [H _]. Qed.

Lemma update_multipath_pres name reset w : pres w (snd (update_multipath E name reset w)).
Proof using Hinfo.
  intros HI. unfold update_multipath. destruct (find_mp_by_alias _ _ _) as [m|] eqn:Hf; [|done].
  apply find_alias_in in Hf. destruct (setup_multipath_outcome reset m w (conj HI Hf)) as [H1 H2].
  destruct (setup_multipath E reset m w) as [failed w1]. cbn [fst snd] in *. destruct failed; [done|].
  cbn [snd]. eapply (walk_frame (R := pres)); [intros ?; exact H1| |exact HI].
  apply (walk_foldl frame). apply mark_as_failed_frame.
Qed.

Lemma update_map_loop_stays n : forall m w, stays m w (snd (update_map_loop E n m w)).
Proof using Hinfo.
  induction n as [|n IH]; intros m w; cbn [update_map_loop]; walk.
Qed.

Lemma update_map_outcome m b w : at_map m w -> outcome m w (update_map E m b w).
Proof using Hinfo.
  intros HI. unfold update_map. pose proof (update_map_loop_stays 3 m w) as S1.
  destruct (update_map_loop E 3 m w) as [retries w1]. cbn [snd] in S1.
  assert (exists failed w2, (if b then if retries <? 0 then (true, w1) else wait_for_events E m w1 else (false, w1))
    = (failed, w2) /\ stays m w w2) as (failed & w2 & -> & S2).
  { destruct b; [destruct (retries <? 0)|]; [by eexists _, _| |by eexists _, _].
    eexists _, _. split; [apply surjective_pairing|]. eapply walk_frame; [exact S1|apply wait_for_events_frame]. }
  destruct (S2 HI) as [H2 E2]. destruct failed.
  { split; cbn [fst snd]; [by apply remove_map_pres; apply H2|]. by rewrite remove_map_mpvec, E2. }
  pose proof (setup_multipath_outcome true m w2 H2) as [H3 H4].
  destruct (setup_multipath E true m w2) as [gone w3]. cbn [fst snd] in *. rewrite E2 in H4.
  destruct gone; [done|]. split; cbn [fst snd]; [eapply frame_Inv; [apply sync_map_state_frame|done]|].
  by rewrite (fr_mpvec _ _ (sync_map_state_frame m w3)).
Qed.

Lemma add_map_without_path_Inv alias w r w' : add_map_without_path E alias w = (r, w') -> Inv w ->
  Inv w' /\ match r with Some m => m ∈ mpvec w' | None => True end.
Proof using Hinfo.
  unfold add_map_without_path. intros H [W Hnd].
  destruct (new_multipath (alloc_multipath <| m_alias := alias |>) w) as [m w1] eqn:Hn.
  destruct (new_multipath_wf (mpvec w) _ _ _ _ Hn W) as (Hm & W1 & Hmv1 & Hlt & Hmm & _).
  set (live := m :: mpvec w) in *.
  assert (forall w2, keeps [] live w1 w2 -> wf [] live w2 /\ mpvec w2 = mpvec w) as Hk.
  { intros w2 K. destruct (K W1) as (W2 & M2 & _). split; [done|congruence]. }
  assert (forall w2, keeps [] live w1 w2 -> Inv (remove_map m true w2)) as Hfail.
  { intros w2 K. destruct (Hk w2 K) as [W2 M2]. unfold Inv. rewrite remove_map_mpvec, M2, remove_first_none by done.
    split; [by apply remove_new_wf|done]. }
  destruct (e_dm_info E (trace w1)); [|simplify_eq; split; [apply Hfail; walk|done]].
  set (w3 := upd_map m _ _) in H.
  assert (keeps [] live w1 w3) as K3 by (unfold w3; walk).
  assert (pg (wm w3 m) = None) as Hpg.
  { unfold w3. by rewrite wm_upd_map_eq, wm_emit, wm_upd_map_eq, wm_emit, Hmm. }
  pose proof (update_table_keeps [] E Hinfo live m ltac:(by left) 0 w3 Hpg) as K4.
  destruct (update_multipath_table E m 0 w3) as [r4 w4]. cbn [snd] in K4.
  apply (keeps_trans _ _ _ _ _ K3) in K4.
  destruct (negb (eqb r4 DMP_OK)); [simplify_eq; split; [by apply Hfail|done]|].
  pose proof (update_status_frame E m w4) as F5. destruct (update_multipath_status E m w4) as [r5 w5]. cbn [snd] in F5.
  assert (keeps [] live w1 w5) as K5 by (eapply walk_frame; [exact K4|exact F5]).
  destruct (negb (eqb r5 DMP_OK)); [simplify_eq; split; [by apply Hfail|done]|].
  destruct (Hk w5 K5) as [W5 M5].
  assert (at_map m (w5 <| mpvec ::= (fun l => l ++ [m]) |>)) as H6.
  { split; [|cbn [mpvec upd]; set_solver]. split; cbn [mpvec upd].
    - rewrite M5. destruct W5 as [V1 V2 V3 VT V4 V5].
      split; [done|done| |done|done|]; cbn [mpvec upd pathvec].
      + intros q x Hq Hx. apply V3 in Hx; [|done]. unfold live in Hx. set_solver.
      + intros x Hx. apply V5. unfold live. set_solver.
    - rewrite M5. apply NoDup_app. split; [done|]. split; [|apply NoDup_singleton].
      intros x Hx ->%list_elem_of_singleton. done. }
  pose proof (update_map_outcome m true _ H6) as H7.
  destruct (update_map E m true _) as [gone w7].
  destruct gone; simplify_eq; (split; [apply H7|]); [done|]. by apply (outcome_at _ _ _ H6).
Qed.

Lemma flush_map_outcome m b w : at_map m w ->
  Inv (snd (flush_map E m b w)) /\ (fst (flush_map E m b w) <> 0 -> m ∈ mpvec (snd (flush_map E m b w))).
Proof using Type.
  intros HI. unfold flush_map. destruct (Z.eqb_spec (e_flush E (trace w)) 0) as [Hz|Hz]; cbn [negb fst snd].
  - split; [|done]. apply remove_and_stop_pres.
    destruct HI as [[W Hnd] _]. destruct (orphan_paths_keeps [] (mpvec w) m (emit (DmFlush (m_alias (wm w m)) b) w)) as (W1 & M1 & _).
    { by eapply frame_wf; [apply frame_emit|]. }
    unfold Inv. rewrite M1. by split.
  - assert (at_map m (if e_flush E (trace w) =? 1 then emit (DmFlush (m_alias (wm w m)) b) w
      else upd_map m (fun mm => mm <| deferred_remove := DEFERRED_REMOVE_IN_PROGRESS |>)
             (emit (DmFlush (m_alias (wm w m)) b) w))) as [H1 H2].
    { eapply frame_at; [|exact HI]. walk. }
    split; [exact H1|by intros _].
Qed.

Lemma ev_add_map_pres alias w : pres w (snd (ev_add_map E alias w)).
Proof using Hinfo.
  intros HI. unfold ev_add_map. set (w1 := emit _ w).
  assert (Inv w1) as H1 by (eapply frame_Inv; [apply frame_emit|exact HI]).
  destruct (negb (e_is_mpath E (trace w) =? 1)); [done|].
  destruct (find_mp_by_alias (w_maps w1) (mpvec w1) alias) as [m|] eqn:Hf.
  - apply find_alias_in in Hf. 
    assert (outcome m w1 (if 1 <? wait_for_udev (wm w1 m) then update_map E m false w1 else (false, w1))) as Ho.
    { destruct (1 <? _); [by apply update_map_outcome|by apply outcome_kept]. }
    match type of Ho with outcome m _ ?x => destruct x as [gone w2] end. destruct Ho as [H2 H3]. cbn [fst snd] in *.
    destruct gone; [done|]. set (w3 := upd_map m _ w2).
    assert (Inv w3) as H4 by (eapply frame_Inv; [apply frame_upd_map|exact H2]).
    destruct (_ && _); [|destruct (c_reassign_maps (e_conf E))]; cbn [snd]; try done;
      (eapply frame_Inv; [apply frame_emit|exact H4]).
  - destruct (add_map_without_path E alias w1) as [r w2] eqn:Ha.
    destruct (add_map_without_path_Inv alias w1 r w2 Ha H1) as [H2 _].
    destruct r; [|done]. cbn [snd]. eapply frame_Inv; [apply sync_map_state_frame|apply H2].
Qed.
#[local] Hint Resolve ev_add_map_pres : walk.

Lemma uev_add_map_pres u w : pres w (snd (uev_add_map E u w)).
Proof using Hinfo. unfold uev_add_map. walk. Qed.

Lemma uev_remove_map_pres u w : pres w (snd (uev_remove_map E u w)).
Proof using Type. unfold uev_remove_map. walk. Qed.

Lemma ev_remove_map_pres alias minor w : pres w (snd (ev_remove_map E alias minor w)).
Proof using Type.
  intros HI. unfold ev_remove_map. destruct (find_mp_by_minor _ _ _) as [m|] eqn:Hf; [|done].
  apply find_in in Hf as [Hf _]. case_match; [done|]. by apply flush_map_outcome.
Qed.

(** *** Paths *)

Lemma add_failed_pres p w : pres w (snd (add_failed p w)).
Proof using Type. unfold add_failed. walk. Qed.
#[local] Hint Resolve add_failed_pres : walk.

Lemma add_map_failed_pres p m w : pres w (snd (add_map_failed p m w)).
Proof using Type. unfold add_map_failed. walk. Qed.

Lemma join_map_stays p m w : stays m w (snd (join_map E p m w)).
Proof using Hinfo. unfold join_map. walk. Qed.

Lemma prepare_map_stays m b w : stays m w (snd (prepare_map E m b w)).
Proof using Hinfo. apply frame_stays. unfold prepare_map. walk. Qed.

Lemma finish_add_Inv p m b ok w : at_map m w -> Inv (snd (finish_add E p m b ok w)).
Proof using Hinfo.
  intros HI. unfold finish_add.
  match goal with |- context [if ?c then wait_for_events E m w else (false, w)] =>
    assert (at_map m (snd (if c then wait_for_events E m w else (false, w)))) as H1
      by (destruct c; [by apply (frame_at m w); [apply wait_for_events_frame|]|done]);
    destruct (if c then wait_for_events E m w else (false, w)) as [failed w1] end.
  cbn [snd] in H1. destruct failed; [by apply add_map_failed_pres, H1|].
  pose proof (setup_multipath_outcome true m w1 H1) as H2.
  destruct (setup_multipath E true m w1) as [gone w2]. cbn [fst snd] in *.
  destruct gone; [apply add_failed_pres, H2|].
  assert (Inv (sync_map_state m w2)) as H4 by (eapply frame_Inv; [apply sync_map_state_frame|apply H2]).
  destruct ok; [done|by apply add_failed_pres].
Qed.

Lemma push_path_Inv n : forall p m b params w, at_map m w -> Inv (snd (push_path E n p m b params w)).
Proof using Hinfo.
  induction n as [|n IH]; intros p m b params w HI; cbn [push_path];
    pose proof (frame_at m w _ (domap_frame E m params true w) HI) as H1;
    destruct (domap E m params true w) as [r w1]; cbn [snd] in H1; destruct r;
    try (by apply finish_add_Inv).
  - destruct (eqb _ _); [by apply finish_add_Inv|by apply add_map_failed_pres, H1].
  - destruct (eqb _ _); [by apply finish_add_Inv|by apply add_map_failed_pres, H1].
  - apply IH. by apply (frame_at m w1); [apply frame_emit|].
  - destruct (eqb _ _); [|by apply add_map_failed_pres, H1].
    set (w2 := snd (update_mpp_paths m (emit Sleep w1))).
    assert (at_map m w2) as H2 by (apply (frame_at m w1); [unfold w2; walk|done]).
    destruct (join_map_stays p m w2 H2) as [H3 _]. destruct (join_map E p m w2) as [joined w3]. cbn [snd] in H3.
    destruct joined; cbn [negb]; [|by apply add_failed_pres, H3].
    assert (at_map m (mpath_pr_event_handle p w3)) as H4 by (by apply (frame_at m w3); [apply frame_emit|]).
    destruct (prepare_map_stays m b _ H4) as [H5 _].
    destruct (prepare_map E m b _) as [[b' [params'|]] w5]; cbn [snd] in H5; [by apply IH|].
    by apply add_map_failed_pres, H5.
Qed.

Lemma find_wwid_in mh v x m : find_mp_by_wwid mh v x = Some m -> m ∈ v.
Proof using Type. by intros [H _]%find_in. Qed.

Lemma find_or_add_Inv p found w r w' : find_or_add_map E p found w = (r, w') -> Inv w ->
  match found with Some m => m ∈ mpvec w | None => True end ->
  Inv w' /\ match r with inr (m, _) => m ∈ mpvec w' | inl _ => True end.
Proof using Hinfo.
  unfold find_or_add_map. intros H HI Hm. destruct found as [m|].
  - destruct (join_map_stays p m w (conj HI Hm)) as [H1 _]. destruct (join_map E p m w) as [joined w1]. cbn [snd] in H1.
    destruct joined; cbn [negb] in H.
    + injection H as <- <-. exact H1.
    + injection H as <- <-. split; [|done]. by apply add_failed_pres, H1.
  - pose proof (should_multipath_frame E p w) as F1. destruct (should_multipath E p w) as [wanted w1]. cbn [snd] in F1.
    apply (frame_Inv _ _ F1) in HI. destruct wanted; cbn [negb] in H; [|simplify_eq; split; [by apply orphan_path_pres|done]].
    destruct HI as [W Hnd]. destruct (add_map_with_path E p true w1) as [o w2] eqn:Ha.
    destruct (add_map_with_path_wf E Hinfo (mpvec w1) p true w1 o w2 Ha W) as [_ Hres].
    { apply Forall_forall. intros x Hx. by apply (wf_live _ _ _ W). }
    destruct o as [m|]; unfold add_failed in H; injection H as <- <-.
    + destruct Hres as (Hm1 & _ & _ & W2 & M2).
      assert (at_map m w2) as H2.
      { split; [|rewrite M2; set_solver]. unfold Inv. rewrite M2. split.
        - destruct W2 as [V1 V2 V3 VT V4 V5]. split; [done|done| |done|done|].
          + intros q x Hq Hx. apply V3 in Hx; [|done]. set_solver.
          + intros x Hx. apply V5. set_solver.
        - apply NoDup_app. split; [done|]. split; [|apply NoDup_singleton]. intros x Hx ->%list_elem_of_singleton. done. }
      exact (frame_at m w2 _ (set_action_frame ACT_CREATE m w2) H2).
    + destruct Hres as [W2 M2]. split; [|done]. apply orphan_path_pres. unfold Inv. rewrite M2. by split.
Qed.

Lemma ev_add_path_pres p b w : pres w (snd (ev_add_path E p b w)).
Proof using Hinfo.
  intros HI. unfold ev_add_path. destruct (strlen (wwid (wp w p)) =? 0); [by apply add_failed_pres|].
  set (found := find_mp_by_wwid _ _ _).
  assert (match found with Some m => m ∈ mpvec w | None => True end) as Hf.
  { destruct found as [m|] eqn:H; [|done]. by apply find_wwid_in in H. }
  match goal with |- context [if ?c then (1, remove_path p w) else _] => destruct c end.
  { cbn [snd]. eapply keeps_Inv; [apply remove_path_keeps|done]. }
  match goal with |- context [if ?c then (0, orphan_path p ?v) else _] => destruct c; [cbn [snd]; set (w1 := v)|] end.
  { apply orphan_path_pres. eapply frame_Inv; [|exact HI]. unfold w1. destruct found; walk. }
  set (w1 := upd_path p _ w).
  assert (Inv w1) as H1.
  { eapply keeps_Inv; [|exact HI]. apply keeps_set_mpp; [done|]. intros m Hm. change (found = Some m) in Hm. by rewrite Hm in Hf. }
  destruct (find_or_add_map E p found w1) as [r w2] eqn:Hfo.
  destruct (find_or_add_Inv p found w1 r w2 Hfo H1 Hf) as [H2 Hm].
  destruct r as [r|[m start]]; [done|].
  assert (at_map m (mpath_pr_event_handle p w2)) as H3 by (by apply (frame_at m w2); [apply frame_emit|]).
  destruct b; cbn [negb]; [|apply H3].
  destruct (prepare_map_stays m start _ H3) as [H5 _].
  destruct (prepare_map E m start _) as [[b' [params'|]] w5]; cbn [snd] in H5; [by apply push_path_Inv|].
  by apply add_map_failed_pres, H5.
Qed.

Lemma reload_without_Inv m b w : at_map m w -> Inv (snd (reload_without E m b w)).
Proof using Hinfo.
  intros HI. unfold reload_without. set (w1 := extract_hwe_from_path m w).
  assert (at_map m w1) as H1 by (by apply (frame_at m w); [apply extract_hwe_frame|]).
  pose proof (frame_at m w1 _ (setup_map_frame E Hinfo m w1) H1) as H2.
  destruct (setup_map E m w1) as [[params|] w2]; cbn [snd] in H2; [|by apply remove_and_stop_pres, H2].
  destruct (negb (wait_for_udev (wm w2 m) =? 0)).
  { cbn [snd]. eapply frame_Inv; [apply frame_upd_map|apply H2]. }
  destruct b; cbn [negb]; [|apply H2].
  set (w3 := set_action ACT_RELOAD m w2).
  assert (at_map m w3) as H3 by (by apply (frame_at m w2); [apply set_action_frame|]).
  pose proof (frame_at m w3 _ (domap_frame E m params true w3) H3) as H4.
  destruct (domap E m params true w3) as [r w4]. cbn [snd] in H4. destruct (eqb r DOMAP_FAIL); [apply H4|].
  destruct (setup_multipath_outcome true m w4 H4) as [H5 _].
  destruct (setup_multipath E true m w4) as [gone w5]. cbn [fst snd] in *.
  destruct gone; [done|]. cbn [snd]. eapply frame_Inv; [apply sync_map_state_frame|exact H5].
Qed.

Lemma forget_path_frame p m w : frame w (forget_path p m w).
Proof using Type. unfold forget_path. walk. Qed.

Lemma disable_queueing_frame m w : frame w (disable_queueing_for_flush m w).
Proof using Type. unfold disable_queueing_for_flush. walk. Qed.

Lemma ev_remove_path_Inv p b w : Inv w -> (forall m, mpp (wp w p) = Some m -> m ∈ mpvec w) ->
  Inv (snd (ev_remove_path E p b w)).
Proof using Hinfo.
  intros HI Hm. unfold ev_remove_path. destruct (mpp (wp w p)) as [m|].
  2: { cbn [snd]. eapply keeps_Inv; [apply remove_path_keeps|done]. }
  specialize (Hm m eq_refl).
  pose proof (frame_at m w _ (update_mpp_paths_frame m w) (conj HI Hm)) as H1.
  destruct (update_mpp_paths m w) as [failure w1]. cbn [snd] in H1.
  destruct failure; [by apply remove_and_stop_pres, H1|].
  set (w2 := forget_path p m w1).
  assert (at_map m w2) as H2 by (by apply (frame_at m w1); [apply forget_path_frame|]).
  destruct (length (slots (m_paths (wm w2 m))) =? 0)%nat; [|by apply reload_without_Inv].
  assert (at_map m (disable_queueing_for_flush m w2)) as H3 by (by apply (frame_at m w2); [apply disable_queueing_frame|]).
  destruct (flush_map_outcome m true _ H3) as [H4 H5]. destruct (flush_map E m true _) as [r w4]. cbn [fst snd] in *.
  destruct (Z.eqb_spec r 0); [done|]. apply reload_without_Inv. split; auto.
Qed.

(** *** New paths *)

Lemma fresh_path_frame pp w : frame w (w <| w_paths ::= <[next_ptr w := pp]> |> <| next_ptr ::= S |>).
Proof using Type.
  split; try done; [cbn; lia|]. intros q Hq. unfold same_path. cbn [w_paths upd].
  rewrite lookup_total_insert_ne, lookup_insert_ne by lia. done.
Qed.

Lemma frame_upd_new p f w w' : frame w w' -> (next_ptr w <= p)%nat -> frame w (upd_path p f w').
Proof using Type.
  intros [F1 F2 F3 F4 F5] Hp. split; try done. intros q Hq. destruct (F4 q Hq) as (A & B & C).
  unfold same_path, upd_path. cbn [w_paths upd]. by rewrite lookup_total_insert_ne, lookup_insert_ne by lia.
Qed.

Lemma wf_new_path live w p : wf [] live w -> (next_ptr w <= p)%nat -> p ∉ pathvec w.
Proof using Type. intros W Hp Hin. apply (wf_alive _ _ _ W) in Hin as [_ Hlt]. lia. Qed.

(** A path that is not in the vector yet. *)
Definition unstored (p : ptr) (w : world) : Prop :=
  p ∉ pathvec w /\ is_Some (w_paths w !! p) /\ (p < next_ptr w)%nat /\ udev (wp w p) = true /\ mpp (wp w p) = None.

Lemma alloc_path_Inv u flags keep w r o w' : alloc_path_with_pathinfo E sysname u flags keep w = (r, o, w') ->
  Inv w -> Inv w' /\ match o with Some p => unstored p w' | None => True end.
Proof using Hinfo.
  intros H HI. unfold alloc_path_with_pathinfo in H. destruct (sysname u) as [name|]; [|by simplify_eq].
  set (p := next_ptr w) in *. match type of H with context [alloc_path <| wwid := ?i |> <| dev := ?d |>] =>
    set (pp := alloc_path <| wwid := i |> <| dev := d |>) in * end.
  set (w1 := w <| w_paths ::= <[p := pp]> |> <| next_ptr ::= S |>) in H.
  assert (frame w w1) as F1 by apply fresh_path_frame.
  assert (forall w2, frame w w2 -> Inv (free_path p w2)) as Hfree.
  { intros w2 F2. eapply keeps_Inv; [apply free_path_keeps|by eapply frame_Inv].
    rewrite (fr_pathvec _ _ F2). eapply wf_new_path; [apply HI|]. done. }
  set (w2 := upd_path p _ w1) in H. assert (frame w w2) as F2 by (by apply frame_upd_new).
  destruct (FILE_NAME_SIZE <=? length name)%nat.
  { injection H as <- <- <-. by split; [apply Hfree|]. }
  pose proof (run_pathinfo_frame E Hinfo p (Z.lor flags DI_BLACKLIST) w2) as F3.
  destruct (run_pathinfo E p _ w2) as [err w3]. cbn [snd] in F3.
  assert (frame w w3) as F by (by eapply frame_trans).
  destruct (negb (eqb err PATHINFO_OK) || negb keep); injection H as <- <- <-; [by split; [apply Hfree|]|].
  split; [by eapply frame_Inv|].
  assert (p < next_ptr w2)%nat as Hp2 by (change (p < S (next_ptr w))%nat; unfold p; lia).
  destruct (fr_paths _ _ F3 p Hp2) as (A & B & C).
  unfold unstored, wp in *. rewrite A, B. repeat split.
  - rewrite (fr_pathvec _ _ F). by apply wf_new_path with (live := mpvec w); [apply HI|].
  - apply C. unfold w2, upd_path. cbn [w_paths upd]. rewrite lookup_insert_eq. by eexists.
  - pose proof (fr_next _ _ F3). lia.
  - change (udev (wp w2 p) = true). unfold w2. by rewrite wp_upd_path_eq.
  - change (mpp (wp w2 p) = None). unfold w2. rewrite wp_upd_path_eq. cbn [mpp upd].
    unfold w1, wp. cbn [w_paths upd]. by rewrite lookup_total_insert_eq.
Qed.

Lemma add_new_path_pres u b w : pres w (snd (add_new_path E sysname u b w)).
Proof using Hinfo.
  intros HI. unfold add_new_path. destruct (alloc_path_with_pathinfo _ _ _ _ _ _) as [[r o] w1] eqn:Ha.
  destruct (alloc_path_Inv _ _ _ _ _ _ _ Ha HI) as [H1 Ho]. destruct o as [p|]; [|done].
  destruct Ho as (Hp & Hs & Hlt & Hu & Hm). unfold store_path.
  destruct ((_ =? 0) && _); [cbn [snd]; eapply keeps_Inv; [by apply free_path_keeps|done]|].
  apply ev_add_path_pres. eapply frame_Inv; [apply frame_upd_path; same_fields|].
  destruct H1 as [W Hnd]. split; [|done]. change (mpvec (w1 <| pathvec := ?l |>)) with (mpvec w1).
  apply store_new_wf; [done..|]. intros x Hx. congruence.
Qed.
#[local] Hint Resolve add_new_path_pres : walk.

(** *** Path events *)

Lemma find_dev_in h v d p : find_path_by_dev h v d = Some p -> p ∈ v.
Proof using Type. by intros [H _]%find_in. Qed.

Lemma reinit_path_Inv p prev u b w : Inv w -> (forall m, prev = Some m -> m ∈ mpvec w) ->
  Inv (snd (reinit_path E sysname p prev u b w)).
Proof using Hinfo.
  intros HI Hprev. unfold reinit_path. set (w1 := upd_path p _ w).
  assert (Inv w1) as H1.
  { eapply keeps_Inv; [apply keeps_set_udev|exact HI]. }
  pose proof (run_pathinfo_frame E Hinfo p (Z.lor DI_ALL DI_BLACKLIST) w1) as F2.
  destruct (run_pathinfo E p _ w1) as [r w2]. cbn [snd] in F2. pose proof (frame_Inv _ _ F2 H1) as H2.
  destruct prev as [m|].
  - assert (m ∈ mpvec w2) as Hm by (rewrite (fr_mpvec _ _ F2); by apply Hprev).
    set (w3 := upd_path p _ w2).
    assert (Inv w3) as H3.
    { eapply keeps_Inv; [|exact H2]. apply keeps_set_mpp; [done|]. by intros x [= <-]. }
    destruct (eqb r PATHINFO_OK && _); [cbn [snd]; eapply frame_Inv; [apply frame_upd_path; same_fields|done]|].
    assert (Inv (snd (ev_remove_path E p true w3))) as H4.
    { apply ev_remove_path_Inv; [done|]. intros x. unfold w3. rewrite wp_upd_path_eq. by intros [= <-]. }
    destruct (ev_remove_path E p true w3) as [ret w4]. cbn [snd] in H4.
    destruct (eqb r PATHINFO_OK && (ret =? 0)); [by apply add_new_path_pres|]. cbn [snd].
    eapply frame_Inv; [|exact H4]. walk.
  - destruct r; [by apply ev_add_path_pres|done|]. cbn [snd]. eapply keeps_Inv; [apply remove_path_keeps|done].
Qed.

Lemma uev_add_path_pres u b w : pres w (snd (uev_add_path E sysname u b w)).
Proof using Hinfo.
  intros HI. unfold uev_add_path. destruct (has_strstr _ _); [done|].
  destruct (find_path_by_dev _ _ _) as [p|] eqn:Hf; [|by apply add_new_path_pres]. apply find_dev_in in Hf.
  set (prev := if eqb _ _ then mpp (wp w p) else None). set (w1 := if eqb _ _ then upd_path p _ w else w).
  assert (Inv w1) as H1.
  { unfold w1. destruct (eqb _ _); [|done]. eapply keeps_Inv; [|exact HI]. by apply keeps_set_mpp. }
  assert (mpvec w1 = mpvec w) as Hv by (unfold w1; by destruct (eqb _ _)).
  destruct (bool_decide _ && _); [|done]. apply reinit_path_Inv; [done|].
  rewrite Hv. intros m. unfold prev. destruct (eqb _ _); [|done]. intros Hm. eapply (wf_owner _ _ _ (proj1 HI)); [by left|done].
Qed.

Lemma owner_in p w m : Inv w -> p ∈ pathvec w -> mpp (wp w p) = Some m -> m ∈ mpvec w.
Proof using Type. intros [W _] Hp. apply (wf_owner _ _ _ W). by left. Qed.

Lemma uev_remove_path_pres u b w : pres w (snd (uev_remove_path E u b w)).
Proof using Hinfo.
  intros HI. unfold uev_remove_path. set (w1 := emit _ w).
  assert (Inv w1) as H1 by (eapply frame_Inv; [apply frame_emit|exact HI]).
  destruct (find_path_by_dev _ _ _) as [p|] eqn:Hf; [|done]. apply find_dev_in in Hf.
  apply ev_remove_path_Inv; [done|]. intros m. by apply owner_in.
Qed.

Lemma refresh_loop_frame ps b w : frame w (snd (foldl (fun '(failed, w) p =>
  if (failed : bool) then (failed, w)
  else let '(r, w) := run_pathinfo E p DI_PRIO w in (negb (eqb r PATHINFO_OK), w)) (b, w) ps)).
Proof using Hinfo.
  revert b w. induction ps as [|p ps IH]; intros b w; [apply frame_refl|]. cbn [foldl]. destruct b; [apply IH|].
  pose proof (run_pathinfo_frame E Hinfo p DI_PRIO w) as F. destruct (run_pathinfo E p DI_PRIO w) as [r w1].
  eapply frame_trans; [exact F|apply IH].
Qed.
#[local] Hint Resolve refresh_loop_frame : frame.

Lemma reload_map_frame m b d w : frame w (snd (reload_map E m b d w)).
Proof using Hinfo.
  unfold reload_map. set (w1 := snd (update_mpp_paths m w)). assert (frame w w1) as F1 by apply update_mpp_paths_frame.
  match goal with |- context [if b then ?x else (false, w1)] =>
    assert (frame w (snd (if b then x else (false, w1)))) as F2
      by (destruct b; [eapply frame_trans; [exact F1|apply refresh_loop_frame]|done]);
    destruct (if b then x else (false, w1)) as [failed w2] end.
  cbn [snd] in F2. destruct failed; [done|]. walk.
Qed.

Lemma reload_and_sync_outcome m b w : at_map m w ->
  Inv (snd (reload_and_sync_map E m b w)) /\ mpvec (snd (reload_and_sync_map E m b w)) =
    if fst (reload_and_sync_map E m b w) =? 2 then remove_first m (mpvec w) else mpvec w.
Proof using Hinfo.
  intros HI. unfold reload_and_sync_map.
  destruct (frame_stays m w _ (reload_map_frame m b true w) HI) as [H1 E1].
  destruct (reload_map E m b true w) as [failed w1]. cbn [snd] in *. destruct failed; [by split; [apply H1|]|].
  destruct (setup_multipath_outcome true m w1 H1) as [H2 H3].
  destruct (setup_multipath E true m w1) as [gone w2]. cbn [fst snd] in *. rewrite E1 in H3.
  destruct gone; [by split|]. cbn [snd fst]. rewrite (fr_mpvec _ _ (sync_map_state_frame m w2)).
  split; [|done]. eapply frame_Inv; [apply sync_map_state_frame|done].
Qed.

Lemma set_readonly_frame p b w : frame w (set_readonly p b w).
Proof using Type. unfold set_readonly. walk. Qed.

Lemma update_readonly_Inv p found ro w : Inv w -> (forall m, found = Some m -> m ∈ mpvec w) ->
  Inv (snd (update_readonly E p found ro w)).
Proof using Hinfo.
  intros HI Hm. unfold update_readonly. destruct found as [m|]; [|done]. specialize (Hm m eq_refl).
  destruct (ro <? 0); [done|]. destruct (negb _); [cbn [snd]; eapply frame_Inv; [apply frame_upd_map|done]|].
  set (w1 := if ro =? 1 then _ else w).
  assert (at_map m w1) as H1.
  { apply (frame_at m w); [|done]. unfold w1. destruct (ro =? 1); [apply set_readonly_frame|apply frame_refl]. }
  destruct (reload_and_sync_outcome m false w1 H1) as [H2 _].
  destruct (reload_and_sync_map E m false w1) as [r w2]. cbn [fst snd] in *.
  destruct (r =? 2); [done|]. eapply frame_Inv; [apply set_readonly_frame|done].
Qed.

Lemma uev_update_path_pres u w : pres w (snd (uev_update_path E sysname u w)).
Proof using Hinfo.
  intros HI. unfold uev_update_path. set (w1 := emit _ w).
  assert (Inv w1) as H1 by (eapply frame_Inv; [apply frame_emit|exact HI]).
  destruct (e_foreign_ok E (trace w)); [done|].
  destruct (find_path_by_dev _ _ _) as [p|] eqn:Hf.
  2: { destruct (alloc_path_with_pathinfo _ _ _ _ _ _) as [[r o] w2] eqn:Ha.
       by destruct (alloc_path_Inv _ _ _ _ _ _ _ Ha H1). }
  apply find_dev_in in Hf. destruct (eqb _ INIT_REQUESTED_UDEV); [by apply uev_add_path_pres|].
  destruct (_ =? 0); [done|]. cbv zeta.
  set (w2 := emit _ w1). set (w3 := upd_path p _ w2).
  assert (frame w1 w3) as F3.
  { eapply frame_trans; [apply (frame_emit (GetUid p))|]. apply frame_upd_path. same_fields. }
  assert (Inv w3) as H3 by (by eapply frame_Inv). pose proof Hf as Hp3.
  rewrite <-(fr_pathvec _ _ F3) in Hp3.
  destruct (negb _).
  { apply uev_add_path_pres, ev_remove_path_Inv; [done|]. intros m. by apply owner_in. }
  apply update_readonly_Inv.
  - destruct (e_get_uid E (trace w1)); [|done].
    eapply frame_Inv; [by apply run_pathinfo_frame|].
    eapply keeps_Inv; [apply keeps_set_udev|exact H3].
  - intros m Hm. assert (m ∈ mpvec w1) as Hm1 by (by eapply owner_in).
    destruct (e_get_uid E (trace w1)); [|done].
    by rewrite (fr_mpvec _ _ (run_pathinfo_frame E Hinfo _ _ _)).
Qed.

(** *** The event queue *)

Lemma pathfail_frame p w : frame w (io_err_stat_handle_pathfail E p w).
Proof using Type. unfold io_err_stat_handle_pathfail. walk. Qed.
#[local] Hint Resolve pathfail_frame : frame.
#[local] Hint Resolve uev_add_map_pres uev_remove_map_pres uev_add_path_pres uev_remove_path_pres uev_update_path_pres : walk.

Lemma uev_pathfail_frame u w : frame w (uev_pathfail_check E u w).
Proof using Type. unfold uev_pathfail_check. walk. Qed.
#[local] Hint Resolve uev_pathfail_frame : frame.

Lemma dm_event_pres u w : pres w (snd (dm_event E u w)).
Proof using Hinfo. unfold dm_event. walk. Qed.

Lemma merged_event_pres r u w : pres w (snd (merged_event E sysname r u w)).
Proof using Hinfo. unfold merged_event. walk. Qed.
#[local] Hint Resolve dm_event_pres merged_event_pres : walk.

Lemma merged_events_pres us r w :
  pres w (snd (foldl (fun '(r, w) u => merged_event E sysname r u w) (r, w) us)).
Proof using Hinfo.
  revert r w. induction us as [|u us IH]; intros r w; [apply walk_refl|]. cbn [foldl].
  pose proof (merged_event_pres r u w) as H. destruct (merged_event E sysname r u w) as [r1 w1].
  eapply walk_trans; [exact H|apply IH].
Qed.
#[local] Hint Resolve merged_events_pres : walk.

Lemma uev_trigger_pres b e w : pres w (snd (uev_trigger E sysname b e w)).
Proof using Hinfo. unfold uev_trigger. walk. Qed.

Lemma service_uevq_pres q w : pres w (service_uevq E sysname q w).
Proof using Hinfo. apply (walk_foldl pres). intros w1 e. apply uev_trigger_pres. Qed.

(** *** The timers *)

(** One round of a loop over the map vector: the map is gone exactly when the
    body says so. *)
Definition ticks_map (f : ptr -> world -> tick_result * world) : Prop := forall m w, at_map m w ->
  outcome m w (t_gone (fst (f m w)), snd (f m w)).

Lemma each_map_ends f : ticks_map f -> forall fuel i b w, Inv w -> (length (mpvec w) - i < fuel)%nat ->
  exists b' w', each_map fuel i f b w = Some (b', w') /\ Inv w'.
Proof using Type.
  intros Hf. induction fuel as [|n IH]; intros i b w HI Hn; [lia|]. cbn [each_map].
  destruct (mpvec w !! i) as [m|] eqn:Hm; [|by eexists _, _].
  pose proof (list_elem_of_lookup_2 _ _ _ Hm) as Hin. pose proof (lookup_lt_Some _ _ _ Hm) as Hlt.
  destruct (Hf m w (conj HI Hin)) as [H1 H2]. destruct (f m w) as [r w1]. cbn [fst snd] in *.
  apply IH; [done|]. rewrite H2. destruct (t_gone r); [|lia].
  assert (length (remove_first m (mpvec w)) < length (mpvec w))%nat; [|lia].
  unfold remove_first. destruct (list_find (m =.) (mpvec w)) as [[k x]|] eqn:Hf2.
  - apply list_find_Some in Hf2 as (Hk & _). rewrite length_delete by eauto. apply lookup_lt_Some in Hk. lia.
  - exfalso. apply list_find_None in Hf2. rewrite Forall_forall in Hf2. by apply (Hf2 m Hin).
Qed.

Lemma all_maps_ends f w : ticks_map f -> Inv w -> exists b' w', all_maps f w = Some (b', w') /\ Inv w'.
Proof using Type. intros Hf HI. apply each_map_ends; [done..|lia]. Qed.

Lemma collect_map_ticks : ticks_map (collect_map E).
Proof using Type.
  intros m w HI. unfold collect_map. set (w1 := emit _ w).
  pose proof (frame_at m w w1 (frame_emit _ _) HI) as [H1 H2].
  destruct (e_map_present E (trace w)); split; cbn [fst snd t_gone quiet]; [done|done|by apply remove_and_stop_pres|].
  by rewrite remove_and_stop_mpvec.
Qed.

Lemma outcome_then m w w1 r : stays m w w1 -> at_map m w -> (at_map m w1 -> outcome m w1 r) -> outcome m w r.
Proof using Type. intros S HI H. destruct (S HI) as [H1 E1]. destruct (H H1) as [A B]. split; [done|by rewrite <-E1]. Qed.

Lemma outcome_frame m w b w' f : outcome m w (b, w') -> frame w' (f w') -> outcome m w (b, if b then w' else f w').
Proof using Type.
  intros [A B] F. cbn [fst snd] in *. split; cbn [fst snd]; destruct b; try done; [by eapply frame_Inv|].
  by rewrite (fr_mpvec _ _ F).
Qed.

Lemma uev_wait_tick_ticks : ticks_map (uev_wait_tick_map E).
Proof using Hinfo.
  intros m w HI. unfold uev_wait_tick_map. destruct (_ =? 0); [by apply outcome_kept|].
  set (w1 := upd_map m _ w). apply (outcome_then m w w1); [apply frame_stays, frame_upd_map|done|]. intros H1.
  destruct (0 <? _); [by apply outcome_kept|].
  assert (outcome m w1 (if 1 <? wait_for_udev (wm w1 m) then update_map E m false w1 else (false, w1))) as Ho.
  { destruct (1 <? _); [by apply update_map_outcome|by apply outcome_kept]. }
  match type of Ho with outcome m _ ?x => destruct x as [gone w2] end. cbn [fst snd t_gone].
  apply (outcome_frame m w1 gone w2 (upd_map m _)); [done|]. apply frame_upd_map.
Qed.

Lemma ghost_delay_ticks : ticks_map (ghost_delay_tick_map E).
Proof using Hinfo.
  intros m w HI. unfold ghost_delay_tick_map. destruct (_ <=? 0); [by apply outcome_kept|].
  set (w1 := upd_map m _ w). apply (outcome_then m w w1); [apply frame_stays, frame_upd_map|done|]. intros H1.
  destruct (0 <? _); [by apply outcome_kept|]. set (w2 := upd_map m _ w1).
  apply (outcome_then m w1 w2); [apply frame_stays, frame_upd_map|done|]. intros H2.
  pose proof (update_map_outcome m false w2 H2) as Ho. by destruct (update_map E m false w2) as [gone w3].
Qed.

Lemma garbage_collector_Inv w : Inv w -> exists w', mpvec_garbage_collector E w = Some w' /\ Inv w'.
Proof using Type.
  intros HI. destruct (all_maps_ends _ w collect_map_ticks HI) as (b & w' & H & H1).
  unfold mpvec_garbage_collector. rewrite H. by eexists.
Qed.

Lemma ghost_delay_Inv w : Inv w -> exists w', ghost_delay_tick_all E w = Some w' /\ Inv w'.
Proof using Hinfo.
  intros HI. destruct (all_maps_ends _ w ghost_delay_ticks HI) as (b & w' & H & H1).
  unfold ghost_delay_tick_all. rewrite H. by eexists.
Qed.

Lemma missing_uev_Inv w : Inv w -> exists w', missing_uev_wait_tick E w = Some w' /\ Inv w'.
Proof using Hinfo.
  intros HI. destruct (all_maps_ends _ w uev_wait_tick_ticks HI) as (b & w' & H & H1).
  unfold missing_uev_wait_tick. rewrite H. eexists. split; [reflexivity|].
  destruct (_ && _); [eapply frame_Inv; [apply frame_emit|done]|done].
Qed.

(** *** The checker *)

Lemma fail_path_frame p b w : frame w (fail_path E p b w).
Proof using Type. unfold fail_path. walk. Qed.

Lemma reinstate_path_frame p w : frame w (reinstate_path E p w).
Proof using Type. unfold reinstate_path. walk. Qed.

Lemma enable_group_frame p m w : frame w (enable_group p m w).
Proof using Type. unfold enable_group. walk. Qed.

Lemma refresh_prios_frame ps w : frame w (refresh_prios E ps w).
Proof using Hinfo. apply (walk_foldl frame). intros w1 p. by apply run_pathinfo_frame. Qed.
#[local] Hint Resolve fail_path_frame reinstate_path_frame enable_group_frame refresh_prios_frame : frame.

Lemma need_switch_frame m b w : frame w (snd (need_switch_pathgroup E m b w)).
Proof using Hinfo. unfold need_switch_pathgroup. walk. Qed.

Lemma switch_pathgroup_frame m w : frame w (switch_pathgroup m w).
Proof using Type. unfold switch_pathgroup. walk. Qed.
#[local] Hint Resolve need_switch_frame switch_pathgroup_frame : frame.

Lemma failback_tick_frame w m : frame w (failback_tick_map E w m).
Proof using Hinfo. unfold failback_tick_map. walk. Qed.

Lemma retry_tick_frame w m : frame w (retry_tick_map w m).
Proof using Type. unfold retry_tick_map. walk. Qed.

Lemma failback_ticks_frame w : frame w (defered_failback_tick E w).
Proof using Hinfo. apply (walk_foldl frame). apply failback_tick_frame. Qed.

Lemma retry_ticks_frame w : frame w (retry_count_tick w).
Proof using Type. apply (walk_foldl frame). apply retry_tick_frame. Qed.

Lemma update_prios_frame ps b w : frame w (snd (foldl (fun '(changed, w) q =>
  let old := priority (wp w q) in
  let w := snd (run_pathinfo E q DI_PRIO w) in
  (changed || negb (priority (wp w q) =? old), w)) (b, w) ps)).
Proof using Hinfo.
  revert b w. induction ps as [|p ps IH]; intros b w; [apply frame_refl|]. cbn [foldl].
  eapply frame_trans; [by apply (run_pathinfo_frame E Hinfo p DI_PRIO)|apply IH].
Qed.
#[local] Hint Resolve update_prios_frame : frame.

Lemma update_prio_frame p b w : frame w (snd (update_prio E p b w)).
Proof using Hinfo. unfold update_prio. walk. Qed.

Lemma frame_set_path p pp w : mpp pp = mpp (wp w p) -> udev pp = udev (wp w p) -> frame w (upd_path p (fun _ => pp) w).
Proof using Type.
  intros Hm Hu. split; try done. intros q _. unfold same_path, wp, upd_path in *. cbn [w_paths upd].
  destruct (decide (p = q)) as [->|Hn].
  - rewrite lookup_total_insert_eq, lookup_insert_eq, Hm, Hu. split_and!; [done|done|by eexists].
  - by rewrite lookup_total_insert_ne, lookup_insert_ne.
Qed.

Lemma reinstate_state_same mm a now pp :
  mpp (snd (reinstate_state mm a now pp)) = mpp pp /\ udev (snd (reinstate_state mm a now pp)) = udev pp.
Proof using Type.
  unfold reinstate_state. repeat match goal with |- context [if ?b then _ else _] => destruct b end; done.
Qed.

Lemma reinstate_state_frame p m w : frame w (snd (check_path_reinstate_state E p m w)).
Proof using Type.
  unfold check_path_reinstate_state.
  pose proof (reinstate_state_same (wm w m) (active_paths w m) (e_time E (trace w)) (wp w p)) as [Hm Hu].
  destruct (reinstate_state _ _ _ _) as [skip pp]. by apply frame_set_path.
Qed.

Lemma need_io_err_frame p m w : frame w (snd (need_io_err_check E p m w)).
Proof using Type. unfold need_io_err_check. walk. Qed.
#[local] Hint Resolve update_prio_frame reinstate_state_frame need_io_err_frame : frame.

Lemma should_skip_frame p m w : frame w (snd (should_skip_path E p m w)).
Proof using Type. unfold should_skip_path. walk. Qed.
#[local] Hint Resolve should_skip_frame : frame.

Lemma check_marginal_frame p m st w : frame w (snd (check_marginal E p m st w)).
Proof using Type. unfold check_marginal. walk. Qed.

Lemma apply_state_frame p m old new w : frame w (snd (apply_state E p m old new w)).
Proof using Type. unfold apply_state. walk. Qed.

Lemma probe_path_frame p w : frame w (snd (probe_path E p w)).
Proof using Hinfo. unfold probe_path. walk. Qed.

#[local] Hint Resolve check_marginal_frame apply_state_frame probe_path_frame : frame.

Abbreviation reload := (fun m refresh w => snd (reload_and_sync_map E m refresh w)).
Abbreviation readd := (fun p w => snd (ev_add_path E p true w)).

Lemma finish_check_Inv p m b v w : at_map m w -> Inv (finish_check E reload p m b v w).
Proof using Hinfo.
  intros HI. unfold finish_check. destruct b; [by apply reload_and_sync_outcome|].
  pose proof (frame_at m w _ (update_prio_frame p (v_new_path_up v) w) HI) as H1.
  destruct (update_prio E p _ w) as [changed w1]. cbn [snd] in H1.
  match goal with |- context [if ?c then _ else _] => destruct c end; [by apply reload_and_sync_outcome|].
  pose proof (frame_at m w1 _ (need_switch_frame m false w1) H1) as H2.
  destruct (need_switch_pathgroup E m false w1) as [need w2]. cbn [snd] in H2.
  eapply (frame_Inv w2); [|apply H2]. walk.
Qed.

(** The path is followed through the update of its map. *)
Lemma tracked_wf p w : Inv w -> p ∈ pathvec w -> wf [p] (mpvec w) w.
Proof using Type.
  intros [[V1 V2 V3 VT V4 V5] _] Hp. split; [done|done| | |done|done].
  - intros q m [Hq| ->%list_elem_of_singleton]; apply V3; by left.
  - intros q ->%list_elem_of_singleton. by apply V1.
Qed.

Lemma untracked_wf T live w : wf T live w -> wf [] live w.
Proof using Type.
  intros [V1 V2 V3 VT V4 V5]. split; try done; [|by intros p ?%elem_of_nil].
  intros p m [Hp|Hp%elem_of_nil]; [apply V3; by left|done].
Qed.

Lemma check_mapped_Inv p old new m0 w : Inv w -> p ∈ pathvec w -> mpp (wp w p) = Some m0 ->
  Inv (snd (check_mapped E reload p old new m0 w)).
Proof using Hinfo.
  intros HI Hp Hm0. unfold check_mapped. destruct (eqb new PATH_PENDING).
  { eapply frame_Inv; [apply frame_upd_path; same_fields|exact HI]. }
  pose proof (tracked_wf p w HI Hp) as W. pose proof (owner_in _ _ _ HI Hp Hm0) as Hin.
  destruct (update_strings_keeps [p] E Hinfo (mpvec w) m0 Hin w W) as (W1 & E1 & _).
  destruct (update_multipath_strings E m0 w) as [ret w1]. cbn [snd] in *.
  assert (NoDup (mpvec w1)) as Hnd by (rewrite E1; apply HI). rewrite <-E1 in W1.
  assert (forall w2, frame w1 w2 -> Inv w2) as Hgo.
  { intros w2 F. apply (frame_Inv _ _ F). split; [by eapply untracked_wf|done]. }
  destruct (eqb ret DMP_NOT_FOUND); [by apply Hgo, frame_refl|].
  set (w2 := if eqb ret DMP_OK then w1 else _).
  assert (frame w1 w2) as F2 by (unfold w2; destruct (eqb ret DMP_OK); [apply frame_refl|apply frame_upd_path; same_fields]).
  destruct (mpp (wp w2 p)) as [m|] eqn:Hm; [|by apply Hgo].
  assert (m ∈ mpvec w1) as Hin1.
  { pose proof (frame_wf _ _ _ _ F2 W1) as W2. eapply (wf_owner _ _ _ W2); [|exact Hm]. right. by left. }
  assert (forall w3, frame w1 w3 -> at_map m w3) as Hat.
  { intros w3 F. split; [by apply Hgo|]. by rewrite (fr_mpvec _ _ F). }
  set (w3 := set_no_path_retry E true m w2).
  assert (frame w1 w3) as F3 by (eapply frame_trans; [exact F2|apply set_no_path_retry_frame]).
  pose proof (check_marginal_frame p m new w3) as F4.
  destruct (check_marginal E p m new w3) as [[delayed changed] w4]. cbn [snd] in F4.
  apply (frame_trans _ _ _ F3) in F4. destruct delayed; [by apply Hgo|].
  pose proof (apply_state_frame p m old new w4) as F5.
  destruct (apply_state E p m old new w4) as [v w5]. cbn [snd] in F5.
  apply (frame_trans _ _ _ F4) in F5.
  destruct (v_done v); [by apply Hgo|]. destruct (negb _); [by apply Hgo|]. cbn [snd].
  by apply finish_check_Inv, Hat.
Qed.

Lemma check_orphan_Inv p new w : Inv w ->
  Inv (snd (check_orphan E readd p new w)) /\
  (fst (check_orphan E readd p new w) < 0 -> pathvec (snd (check_orphan E readd p new w)) = pathvec w).
Proof using Hinfo.
  intros HI. unfold check_orphan. destruct (_ && _); [|done].
  pose proof (run_pathinfo_frame E Hinfo p (Z.lor DI_ALL DI_BLACKLIST) w) as F.
  destruct (run_pathinfo E p _ w) as [ret w1]. cbn [snd] in F.
  destruct (eqb (initialized (wp w1 p)) INIT_OK); cbn [fst snd].
  - split; [|lia]. eapply frame_Inv; [apply frame_upd_path; same_fields|]. apply ev_add_path_pres. by eapply frame_Inv.
  - split; [|intros _; apply F]. eapply frame_Inv; [|exact HI]. eapply frame_trans; [exact F|apply frame_upd_path; same_fields].
Qed.

Lemma check_mapped_code p old new m w : 0 <= fst (check_mapped E reload p old new m w).
Proof using Type.
  unfold check_mapped. repeat first [done | case_match].
Qed.

Lemma check_path_Inv p ticks w : Inv w -> p ∈ pathvec w ->
  Inv (snd (check_path_of E p ticks w)) /\
  (fst (check_path_of E p ticks w) < 0 -> pathvec (snd (check_path_of E p ticks w)) = pathvec w).
Proof using Hinfo.
  intros HI Hp. unfold check_path_of, check_path. cbv zeta.
  assert (forall r w', 0 <= r -> frame w w' -> Inv (snd (r, w')) /\ (fst (r, w') < 0 -> pathvec (snd (r, w')) = pathvec w)) as Hf.
  { intros r w' Hr F. cbn [fst snd]. split; [by eapply frame_Inv|lia]. }
  destruct (_ || _); [by apply Hf; [|apply frame_refl]|].
  set (w1 := upd_path p (tick_path ticks) w).
  assert (frame w w1) as F1.
  { apply frame_upd_path. intros pp. unfold tick_path. by destruct (tick pp =? 0). }
  destruct (negb (tick (wp w1 p) =? 0)); [by apply Hf|]. set (w2 := upd_path p _ w1).
  assert (frame w w2) as F2 by (eapply frame_trans; [exact F1|apply frame_upd_path; same_fields]).
  destruct (_ && _).
  { destruct (_ <? _); apply Hf; try done; (eapply frame_trans; [exact F2|]);
      [eapply frame_trans; [|apply frame_emit]|]; apply frame_upd_path; same_fields. }
  set (w3 := upd_path p _ w2).
  assert (frame w w3) as F3 by (eapply frame_trans; [exact F2|apply frame_upd_path; same_fields]).
  pose proof (probe_path_frame p w3) as F4. destruct (probe_path E p w3) as [new w4]. cbn [snd] in F4.
  apply (frame_trans _ _ _ F3) in F4.
  destruct (_ || _); [apply Hf; [done|]; eapply frame_trans; [exact F4|by apply run_pathinfo_frame]|].
  destruct (_ && _); [apply Hf; [done|]; eapply frame_trans; [exact F4|apply frame_upd_path; same_fields]|].
  pose proof (frame_Inv _ _ F4 HI) as H4. rewrite <-(fr_pathvec _ _ F4).
  destruct (mpp (wp w4 p)) as [m|] eqn:Hm; [|by apply check_orphan_Inv]. split.
  - apply check_mapped_Inv; [done| |done]. by rewrite (fr_pathvec _ _ F4).
  - pose proof (check_mapped_code p (chkrstate (wp w p)) new m w4). lia.
Qed.

Lemma check_all_Inv fuel : forall i ticks num w r, Inv w ->
  check_all E reload readd fuel i ticks num w = Some r -> Inv (snd r).
Proof using Hinfo.
  induction fuel as [|f IH]; intros i ticks num w r HI H; [done|]. cbn [check_all] in H.
  destruct (pathvec w !! i) as [p|] eqn:Hp; [|by injection H as <-].
  pose proof (list_elem_of_lookup_2 _ _ _ Hp) as Hin.
  destruct (check_path_Inv p ticks w HI Hin) as [H1 H2]. unfold check_path_of in *.
  destruct (check_path E reload readd p ticks w) as [rc w1]. cbn [fst snd] in *.
  destruct (Z.ltb_spec rc 0) as [Hrc|Hrc]; [|by eapply IH].
  specialize (H2 Hrc). eapply IH; [|exact H]. eapply keeps_Inv; [|exact H1].
  rewrite <-H2 in Hp. pose proof (delete_take_drop (pathvec w1) i) as Hd.
  pose proof (drop_path_keeps [] (mpvec w1) w1 (take i (pathvec w1)) p (drop (S i) (pathvec w1))) as K.
  rewrite (take_drop_middle _ _ _ Hp) in K. rewrite <-Hd in K.
  replace (w1 <| pathvec := pathvec w1 |>) with w1 in K by by destruct w1.
  exact K.
Qed.

Lemma check_paths_Inv fuel ticks w n w' : Inv w -> check_paths E fuel ticks w = Some (n, w') -> Inv w'.
Proof using Hinfo. intros HI H. exact (check_all_Inv _ _ _ _ _ _ HI H). Qed.

Lemma run_timers_Inv w : Inv w -> exists w', run_timers E w = Some w' /\ Inv w'.
Proof using Hinfo.
  intros HI. unfold run_timers. assert (Inv (retry_count_tick (defered_failback_tick E w))) as H1.
  { eapply frame_Inv; [|exact HI]. eapply frame_trans; [apply failback_ticks_frame|apply retry_ticks_frame]. }
  destruct (missing_uev_Inv _ H1) as (w1 & -> & H2). by apply ghost_delay_Inv.
Qed.

End Handlers.

(** ** Coalescing *)

Section Coalescing.
Context (E : env) (Hinfo : forall h pp, mpp (snd (e_pathinfo E h pp)) = mpp pp /\
                                        udev (snd (e_pathinfo E h pp)) = udev pp).

#[local] Hint Extern 1 (frame _ (snd (setup_map _ _ _))) => apply setup_map_frame; exact Hinfo : frame.
#[local] Hint Resolve select_action_frame domap_frame dm_queue_frame set_action_frame verify_paths_frame
  should_multipath_frame : frame.

Lemma stop_queueing_frame m w : frame w (stop_queueing E m w).
Proof using Type. unfold stop_queueing. walk. Qed.
#[local] Hint Resolve stop_queueing_frame : frame.

Lemma check_size_frame m id seen i w : frame w (snd (check_size m id seen i w)).
Proof using Type. unfold check_size. walk. Qed.

Lemma check_sizes_frame m id k seen w : frame w (snd (check_sizes m id k seen w)).
Proof using Type.
  unfold check_sizes. generalize (seq (S k) (length (pathvec w) - S k)). intros ks. revert seen w.
  induction ks as [|i ks IH]; intros seen w; [apply frame_refl|]. cbn [foldl].
  pose proof (check_size_frame m id seen i w) as F. destruct (check_size m id seen i w) as [seen1 w1].
  eapply frame_trans; [exact F|apply IH].
Qed.
#[local] Hint Resolve check_sizes_frame : frame.

(** The maps in use after a step: those of before, and perhaps the new one. *)
Definition grown (live : list ptr) (w w' : world) (c : coalesced) : Prop :=
  mpvec w' = mpvec w /\ exists live', wf [] live' w' /\ live ⊆ live' /\
  match c with KEPT m => m ∈ live' /\ m ∉ live | _ => True end.

Lemma grown_same live w w' c : mpvec w' = mpvec w -> wf [] live w' ->
  match c with KEPT _ => False | _ => True end -> grown live w w' c.
Proof using Type. intros H1 H2 H3. split; [done|]. exists live. split_and!; [done|set_solver|]. by destruct c. Qed.

Lemma push_map_grown live m fr cmd params w0 w : m ∉ live -> wf [] (m :: live) w -> mpvec w = mpvec w0 ->
  grown live w0 (snd (push_map E m fr cmd params w)) (fst (push_map E m fr cmd params w)).
Proof using Hinfo.
  intros Hm W Hv. unfold push_map.
  set (w1 := if eqb cmd CMD_DRY_RUN then _ else w).
  assert (frame w w1) as F1 by (unfold w1; destruct (eqb cmd CMD_DRY_RUN); [apply set_action_frame|apply frame_refl]).
  set (w2 := if eqb (action (wm w1 m)) ACT_UNDEF then _ else w1).
  assert (frame w w2) as F2 by (eapply frame_trans; [exact F1|]; unfold w2; destruct (eqb _ ACT_UNDEF);
    [apply select_action_frame|apply frame_refl]).
  pose proof (domap_frame E m params (eqb cmd CMD_NONE) w2) as F3.
  destruct (domap E m params _ w2) as [r w3]. cbn [snd] in F3. apply (frame_trans _ _ _ F2) in F3.
  pose proof (frame_wf _ _ _ _ F3 W) as W3.
  assert (forall w4 c, frame w3 w4 -> match c with KEPT x => x = m | _ => True end -> grown live w0 w4 c) as Hgo.
  { intros w4 c F4 Hc. split; [by rewrite (fr_mpvec _ _ F4), (fr_mpvec _ _ F3)|]. exists (m :: live).
    split_and!; [by eapply frame_wf|set_solver|]. destruct c; [done|subst; split; [by left|done]|done]. }
  assert (grown live w0 (remove_map m false w3) SKIPPED) as Hrm.
  { apply grown_same; [|by apply remove_new_wf|done]. by rewrite remove_map_mpvec, (fr_mpvec _ _ F3). }
  assert (forall w4, frame w3 w4 -> frame w3 (if eqb cmd CMD_NONE then w4 else
    let keep := e_keep_queueing E (trace w4) in let w := emit CheckDaemon w4 in
    if keep then w else stop_queueing E m w)) as Hq.
  { intros w4 F4. destruct (eqb cmd CMD_NONE); [done|]. cbv zeta. destruct (e_keep_queueing E (trace w4)); walk. }
  destruct r; cbn [fst snd]; try (by apply Hgo; [apply frame_refl|]); try exact Hrm;
    try (apply Hgo; [|done]; apply Hq; walk).
  destruct (eqb cmd CMD_NONE); [exact Hrm|by apply Hgo; [apply frame_refl|]].
Qed.

Lemma coalesce_path_grown live k ref fr cmd seen w : wf [] live w -> mpvec w ⊆ live ->
  grown live w (snd (coalesce_path E k ref fr cmd seen w)) (fst (fst (coalesce_path E k ref fr cmd seen w))).
Proof using Hinfo.
  intros W Hv. unfold coalesce_path. destruct (pathvec w !! k) as [p|]; [|by apply grown_same].
  assert (forall w1, wf [] live w1 -> mpvec w1 = mpvec w -> grown live w (orphan_path p w1) SKIPPED) as Hdrop.
  { intros w1 W1 E1. destruct (orphan_path_keeps [] live p w1 W1) as (W2 & E2 & _). apply grown_same; [congruence|done|done]. }
  destruct (_ =? 0); [by apply Hdrop|]. destruct (e_filtered E _); [by apply Hdrop|].
  destruct (_ || _); [by apply grown_same|]. destruct (eqb _ PATH_REMOVED); [by apply Hdrop|].
  match goal with |- context [if ?b then _ else _] => destruct b end; [by apply grown_same|].
  match goal with |- context [match ref with Some _ => ?a | None => ?b end] =>
    assert (frame w (snd (match ref with Some _ => a | None => b end))) as F1
      by (destruct ref; [apply frame_refl|apply should_multipath_frame]);
    destruct (match ref with Some _ => a | None => b end) as [wanted w1] end.
  cbn [snd] in F1. pose proof (frame_wf _ _ _ _ F1 W) as W1. pose proof (fr_mpvec _ _ F1) as E1.
  destruct wanted; cbn [negb]; [|by apply Hdrop].
  destruct (add_map_with_path E p false w1) as [o w2] eqn:Ha.
  destruct (add_map_with_path_wf E Hinfo live p false w1 o w2 Ha W1) as [_ Hres].
  { apply Forall_forall. intros x Hx. apply (wf_live _ _ _ W1). apply Hv. by rewrite <-E1. }
  destruct o as [m|]; [|by apply Hdrop; [apply Hres|destruct Hres; congruence]].
  destruct Hres as (Hm & _ & _ & W2 & E2). rewrite E1 in E2.
  assert (forall w3, frame w2 w3 -> grown live w (remove_map m false w3) SKIPPED) as Hrm.
  { intros w3 F3. apply grown_same; [|by eapply remove_new_wf, frame_wf|done].
    by rewrite remove_map_mpvec, (fr_mpvec _ _ F3). }
  destruct (m_paths (wm w2 m)); [|apply Hrm, frame_refl].
  pose proof (check_sizes_frame m (wwid (wp w2 p)) k seen w2) as F3.
  destruct (check_sizes m _ k seen w2) as [seen3 w3]. cbn [snd] in F3.
  set (w4 := snd (verify_paths E m w3)).
  assert (frame w2 w4) as F4 by (eapply frame_trans; [exact F3|apply verify_paths_frame]).
  pose proof (setup_map_frame E Hinfo m w4) as F5. destruct (setup_map E m w4) as [[params|] w5]; cbn [snd] in F5;
    apply (frame_trans _ _ _ F4) in F5; [|by apply Hrm].
  pose proof (push_map_grown live m fr cmd params w w5 Hm) as Hp.
  destruct (push_map E m fr cmd params w5) as [c w6]. apply Hp; [by eapply frame_wf|].
  by rewrite (fr_mpvec _ _ F5).
Qed.

(** The new maps are in use, distinct, and not among the old ones. *)
Definition collected (ms : option (list ptr)) (w : world) : Prop :=
  exists live, wf [] live w /\ NoDup (mpvec w ++ default [] ms) /\ mpvec w ++ default [] ms ⊆ live.

Lemma coalesce_loop_collected ks : forall ms ref fr cmd seen w r ms' w',
  coalesce_loop E ks ms ref fr cmd seen w = (r, ms', w') -> collected ms w -> collected ms' w'.
Proof using Hinfo.
  induction ks as [|k ks IH]; intros ms ref fr cmd seen w r ms' w' H HC; cbn [coalesce_loop] in H; [by simplify_eq|].
  destruct HC as (live & W & Hnd & Hsub).
  assert (mpvec w ⊆ live) as Hmv by set_solver.
  pose proof (coalesce_path_grown live k ref fr cmd seen w W Hmv) as (E1 & live1 & W1 & Hl & Hc).
  destruct (coalesce_path E k ref fr cmd seen w) as [[c seen1] w1]. cbn [fst snd] in *.
  assert (collected ms w1) as HC1 by (exists live1; rewrite E1; split_and!; [done|done|set_solver]).
  destruct c as [|m|r1]; [by eapply IH| |by simplify_eq].
  destruct ms as [ms|]; [|by eapply IH]. destruct Hc as [Hin Hnew].
  destruct (eqb (action (wm w1 m)) ACT_REJECT); (eapply IH; [exact H|]).
  - exists (filter (.≠ m) live1). rewrite remove_map_mpvec, E1. split_and!; [|done|].
    + eapply remove_map_wf; [|exact W1]. intros x. rewrite list_elem_of_filter. naive_solver.
    + intros x Hx. apply list_elem_of_filter. split; [|set_solver]. intros ->. by apply Hnew, Hsub.
  - exists live1. rewrite E1. cbn [default from_option id] in *. rewrite (assoc_L (++)). split_and!; [done| |].
    + apply NoDup_app. split_and!; [done| |apply NoDup_singleton]. intros x Hx ->%list_elem_of_singleton. by apply Hnew, Hsub.
    + set_solver.
Qed.

Lemma flush_dead_collected ms : forall kept w, collected (Some (kept ++ ms)) w ->
  collected (Some (fst (flush_dead ms kept w))) (snd (flush_dead ms kept w)).
Proof using Hinfo.
  induction ms as [|m ms IH]; intros kept w HC; cbn [flush_dead]; [by rewrite app_nil_r in HC|].
  destruct (deadmap w m).
  - apply IH. destruct HC as (live & W & Hnd & Hsub). cbn [default from_option id] in *.
    exists (filter (.≠ m) live). change (mpvec (emit ?e ?x)) with (mpvec x). rewrite remove_map_mpvec.
    assert (NoDup (mpvec w ++ kept ++ ms) /\ m ∉ mpvec w ++ kept ++ ms) as [Hnd1 Hm].
    { rewrite !NoDup_app, ?elem_of_app, ?NoDup_cons in *. set_solver. }
    split_and!; [|done|].
    + eapply frame_wf; [apply frame_emit|]. eapply remove_map_wf; [|exact W]. intros x.
      rewrite list_elem_of_filter. naive_solver.
    + intros x Hx. apply list_elem_of_filter. split; [by intros ->|]. apply Hsub. set_solver.
  - rewrite <-(app_assoc kept [m] ms : (kept ++ [m]) ++ ms = kept ++ m :: ms) in HC || idtac. apply IH.
    by rewrite <-(assoc_L (++)).
Qed.

Lemma coalesce_paths_collected ms ref fr cmd w r ms' w' :
  coalesce_paths E ms ref fr cmd w = (r, ms', w') -> collected ms w -> collected ms' w'.
Proof using Hinfo.
  unfold coalesce_paths. intros H HC. set (w1 := if eqb fr FORCE_RELOAD_NONE then w else _) in H.
  assert (collected ms w1) as H1.
  { unfold w1. destruct (eqb fr FORCE_RELOAD_NONE); [done|]. destruct HC as (live & W & Hnd & Hsub).
    assert (keeps [] live w (foldl (fun w p => upd_path p (fun pp => pp <| mpp := None |>) w) w (pathvec w))) as K.
    { apply (walk_foldl (keeps [] live)). intros w2 p. by apply keeps_set_mpp. }
    destruct (K W) as (W2 & E2 & _). exists live. by rewrite E2. }
  destruct (_ =? 0)%nat; [by simplify_eq|]. destruct (alloc_bitfield _) as [seen|]; [|by simplify_eq].
  match type of H with context [coalesce_loop ?a ?b ?c ?d ?e ?f ?g ?h] =>
    destruct (coalesce_loop a b c d e f g h) as [[r2 ms2] w2] eqn:Hl end.
  pose proof (coalesce_loop_collected _ _ _ _ _ _ _ _ _ _ Hl H1) as H2.
  destruct r2; try (by simplify_eq). destruct ms2 as [ms2|]; [|by simplify_eq].
  pose proof (flush_dead_collected ms2 [] w2 H2) as H3. destruct (flush_dead ms2 [] w2) as [ms3 w3].
  by simplify_eq.
Qed.
End Coalescing.

(** ** The daemon *)

(** [pathinfo()] assigns neither the map nor the udev device of the path. *)
Definition sane (E : env) : Prop := forall h pp,
  mpp (snd (e_pathinfo E h pp)) = mpp pp /\ udev (snd (e_pathinfo E h pp)) = udev pp.

(** What the threads of the daemon do with the lock held, each time with other
    answers from outside: the handlers of uevents, one by one and as the whole
    queue, the checks of the paths, the timers and the garbage collector of the
    checker loop, a device-mapper event of a map, and the commands that add and
    remove maps. *)
Inductive daemon_step (sysname : uevent -> option cstr) : world -> world -> Prop :=
  | AddPathEvent E u b w : sane E -> daemon_step sysname w (snd (uev_add_path E sysname u b w))
  | RemovePathEvent E u b w : sane E -> daemon_step sysname w (snd (uev_remove_path E u b w))
  | ChangePathEvent E u w : sane E -> daemon_step sysname w (snd (uev_update_path E sysname u w))
  | MapEvent E u w : sane E -> daemon_step sysname w (snd (dm_event E u w))
  | Service E q w : sane E -> daemon_step sysname w (service_uevq E sysname q w)
  | CheckPaths E fuel ticks w n w' : sane E -> check_paths E fuel ticks w = Some (n, w') -> daemon_step sysname w w'
  | Timers E w w' : sane E -> run_timers E w = Some w' -> daemon_step sysname w w'
  | Collect E w w' : sane E -> mpvec_garbage_collector E w = Some w' -> daemon_step sysname w w'
  | RefreshMap E name reset w : sane E -> daemon_step sysname w (snd (update_multipath E name reset w))
  | AddMap E alias w : sane E -> daemon_step sysname w (snd (ev_add_map E alias w))
  | RemoveMap E alias minor w : sane E -> daemon_step sysname w (snd (ev_remove_map E alias minor w)).

Lemma the_result {A} (o : option A) (P : A -> Prop) x : (exists y, o = Some y /\ P y) -> o = Some x -> P x.
Proof. intros (y & -> & H) [= <-]. exact H. Qed.

Lemma daemon_step_Inv sysname w w' : daemon_step sysname w w' -> Inv w -> Inv w'.
Proof.
  intros Hs HI. destruct Hs.
  - by apply uev_add_path_pres.
  - by apply uev_remove_path_pres.
  - by apply uev_update_path_pres.
  - by apply dm_event_pres.
  - by apply service_uevq_pres.
  - by eapply check_paths_Inv.
  - eapply the_result; [by apply run_timers_Inv|done].
  - eapply the_result; [by apply garbage_collector_Inv|done].
  - by apply update_multipath_pres.
  - by apply ev_add_map_pres.
  - by apply ev_remove_map_pres.
Qed.

(** The paths of the daemon are distinct, alive and known to udev, its maps are
    distinct and alive, and a path that has a map has one of these. *)
Definition wellformed (w : world) : Prop :=
  NoDup (pathvec w) /\ NoDup (mpvec w) /\
  (forall p, p ∈ pathvec w -> is_Some (w_paths w !! p) /\ (p < next_ptr w)%nat /\ udev (wp w p) = true /\
     forall m, mpp (wp w p) = Some m -> m ∈ mpvec w) /\
  (forall m, m ∈ mpvec w -> is_Some (w_maps w !! m) /\ (m < next_ptr w)%nat).

Lemma wellformed_Inv w : wellformed w <-> Inv w.
Proof.
  split.
  - intros (H1 & H2 & H3 & H4). split; [|done]. split; try done.
    + intros p Hp. by destruct (H3 p Hp) as (? & ? & _).
    + intros p Hp. by destruct (H3 p Hp) as (_ & _ & ? & _).
    + intros p m [Hp|Hp%elem_of_nil]; [|done]. by apply H3.
    + by intros p ?%elem_of_nil.
  - intros [[V1 V2 V3 VT V4 V5] Hnd]. split_and!; try done.
    intros p Hp. destruct (V1 p Hp). split_and!; [done|done|by apply V2|]. intros m. apply V3. by left.
Qed.


(** C24: the loops over the map vector that remove maps while they run end: the
    timers of missing uevents and of the ghost delay and the garbage collector
    reach the end of the vector within as many rounds as it has maps, and leave
    the daemon well-formed. *)
Theorem map_timers_end E w : sane E -> wellformed w ->
  (exists w', run_timers E w = Some w' /\ wellformed w') /\
  (exists w', mpvec_garbage_collector E w = Some w' /\ wellformed w').
Proof.
  intros HE HI%wellformed_Inv. setoid_rewrite wellformed_Inv. split.
  - by apply run_timers_Inv.
  - by apply garbage_collector_Inv.
Qed.

(** C3: what the handlers tell their callers about a map is the truth: when
    [setup_multipath], [update_map] or [reload_and_sync_map] (with 2) says that
    the map is gone it has left the map vector, and otherwise, also after every
    failure to read or load its table, it is still there; other maps are
    untouched. *)
Theorem handlers_tell_the_truth E m w : sane E -> wellformed w -> m ∈ mpvec w ->
  let said (gone : bool) w' := wellformed w' /\ mpvec w' = if gone then remove_first m (mpvec w) else mpvec w in
  (forall reset, let '(gone, w') := setup_multipath E reset m w in said gone w') /\
  (forall new_map, let '(gone, w') := update_map E m new_map w in said gone w') /\
  (forall refresh, let '(r, w') := reload_and_sync_map E m refresh w in said (r =? 2) w').
Proof.
  intros HE HI%wellformed_Inv Hm said. unfold said. split_and!.
  - intros reset. destruct (setup_multipath_outcome E HE reset m w (conj HI Hm)) as [H1%wellformed_Inv H2].
    by destruct (setup_multipath E reset m w).
  - intros b. destruct (update_map_outcome E HE m b w (conj HI Hm)) as [H1%wellformed_Inv H2].
    by destruct (update_map E m b w).
  - intros b. destruct (reload_and_sync_outcome E HE m b w (conj HI Hm)) as [H1%wellformed_Inv H2].
    by destruct (reload_and_sync_map E m b w).
Qed.

(** C13: coalescing the paths into new maps, whatever the configuration, the
    command and the kernel's answers, leaves every path with no map or with one
    that is in use, and the maps it returns are alive, distinct and not among
    the maps of before. *)
Theorem coalesce_paths_safe E ms ref fr cmd w r ms' w' : sane E -> wellformed w -> ms = Some [] ->
  coalesce_paths E ms ref fr cmd w = (r, ms', w') ->
  exists live, NoDup (pathvec w') /\ NoDup (mpvec w' ++ default [] ms') /\ mpvec w' ++ default [] ms' ⊆ live /\
    (forall p m, p ∈ pathvec w' -> is_Some (w_paths w' !! p) /\ (mpp (wp w' p) = Some m -> m ∈ live)) /\
    (forall m, m ∈ live -> is_Some (w_maps w' !! m)).
Proof.
  intros HE [W Hnd]%wellformed_Inv -> H.
  destruct (coalesce_paths_collected E HE _ _ _ _ _ _ _ _ H) as (live & [V1 V2 V3 VT V4 V5] & Hnd' & Hs).
  { exists (mpvec w). cbn [default from_option id]. by rewrite app_nil_r. }
  exists live. split_and!; [done|done|done| |].
  - intros p m Hp. split; [by apply V1|]. apply V3. by left.
  - intros m Hm. by apply V5.
Qed.

(** ** Waiting for udev ends *)

(** [n] ticks of a map that waits for its uevent: is it gone, and the world. *)
Fixpoint wait_ticks (E : env) (n : nat) (m : ptr) (w : world) : bool * world :=
  match n with
  | O => (false, w)
  | S k => let '(r, w) := uev_wait_tick_map E m w in if t_gone r then (true, w) else wait_ticks E k m w
  end.

Lemma uev_wait_tick_step E m w : wait_for_udev (wm w m) <> 0 -> 1 < uev_wait_tick (wm w m) ->
  uev_wait_tick_map E m w =
    (quiet, upd_map m (fun mm => mm <| uev_wait_tick := uev_wait_tick mm - 1 |>) w).
Proof.
  intros Hw Ht. unfold uev_wait_tick_map. rewrite (proj2 (Z.eqb_neq _ _) Hw).
  rewrite wm_upd_map_eq. cbn [uev_wait_tick upd]. by rewrite (proj2 (Z.ltb_lt _ _)) by lia.
Qed.

Lemma uev_wait_tick_last E m w : wait_for_udev (wm w m) <> 0 -> uev_wait_tick (wm w m) <= 1 ->
  let '(r, w') := uev_wait_tick_map E m w in
  t_timed_out r = true /\ (t_gone r = true \/ t_gone r = false /\ wait_for_udev (wm w' m) = 0).
Proof.
  intros Hw Ht. unfold uev_wait_tick_map. rewrite (proj2 (Z.eqb_neq _ _) Hw). set (w1 := upd_map m _ w).
  assert ((0 <? uev_wait_tick (wm w1 m)) = false) as ->.
  { apply Z.ltb_ge. unfold w1. rewrite wm_upd_map_eq. cbn [uev_wait_tick upd]. lia. }
  match goal with |- context [if 1 <? ?x then ?a else ?b] =>
    destruct (if 1 <? x then a else b) as [[|] w2] end; cbn [t_timed_out t_gone]; [auto|].
  split; [done|]. right. split; [done|]. by rewrite wm_upd_map_eq.
Qed.

(** The map waits on; only its timer has changed. *)
Definition waits_on (m : ptr) (w : world) (r : bool * world) : Prop :=
  let '(gone, w') := r in
  gone = false /\ trace w' = trace w /\ w_paths w' = w_paths w /\ mpvec w' = mpvec w /\
  wait_for_udev (wm w' m) = wait_for_udev (wm w m) /\ forall m', m' <> m -> wm w' m' = wm w m'.


(** ** Witnesses *)

(** One path in one map. *)
Definition small : world := {|
  w_paths := {[ 0%nat := alloc_path <| mpp := Some 1%nat |> <| udev := true |> <| dev := s "sda" |>
                           <| wwid := s "x" |> <| initialized := INIT_OK |> ]};
  w_maps := {[ 1%nat := alloc_multipath <| m_alias := s "a" |> <| m_wwid := s "x" |> <| wait_for_udev := 2 |>
                          <| uev_wait_tick := 3 |> ]};
  pathvec := [0%nat]; mpvec := [1%nat]; next_ptr := 2%nat; trace := [] |}.

Lemma small_wellformed : wellformed small.
Proof.
  split_and!; [apply NoDup_singleton|apply NoDup_singleton| |].
  - intros p ->%list_elem_of_singleton. split_and!; [by eexists|cbn; lia|done|]. intros m [= <-]. by left.
  - intros m ->%list_elem_of_singleton. split; [by eexists|cbn; lia].
Defined.

Lemma calm_sane : sane calm.
Proof. by intros h pp. Defined.

Definition removal : uevent :=
  {| ue_devpath := []; ue_action := s "remove"; ue_kernel := s "sda"; ue_wwid := None; ue_envp := [] |}.


Lemma map_timers_end_witness : exists w, mpvec_garbage_collector calm small = Some w /\ wellformed w.
Proof. apply (map_timers_end calm small calm_sane small_wellformed). Defined.

Lemma handlers_tell_the_truth_witness :
  fst (reload_and_sync_map calm 1%nat false small) = 1 /\ mpvec (snd (reload_and_sync_map calm 1%nat false small)) = [1%nat].
Proof.
  destruct (handlers_tell_the_truth calm 1%nat small calm_sane small_wellformed ltac:(by left)) as (_ & _ & H).
  specialize (H false). assert (fst (reload_and_sync_map calm 1%nat false small) = 1) as Hr by (vm_compute; reflexivity).
  split; [exact Hr|]. destruct (reload_and_sync_map calm 1%nat false small) as [r w]. cbn [fst snd] in *.
  rewrite Hr in H. apply H.
Defined.

Lemma coalesce_paths_safe_witness :
  let '(r, ms, w) := coalesce_paths calm (Some []) None FORCE_RELOAD_YES CMD_NONE small in
  r = CP_OK /\ exists live, mpvec w ++ default [] ms ⊆ live.
Proof.
  destruct (coalesce_paths calm (Some []) None FORCE_RELOAD_YES CMD_NONE small) as [[r ms] w] eqn:H.
  split; [vm_compute in H; congruence|].
  destruct (coalesce_paths_safe calm (Some []) None FORCE_RELOAD_YES CMD_NONE small r ms w calm_sane small_wellformed
    eq_refl H) as (live & _ & _ & Hl & _). by exists live.
Defined.

