(* ===== verification/Crc32.v ===== *)
(** * kpartx/crc32.c: the checksums of partition tables

    The tables are filled by the doubling loops of the code and used byte by
    byte; what they compute is the division by the polynomial, one bit at a time,
    which is the code for [CRC_LE_BITS == 1] and [CRC_BE_BITS == 1].  A table is
    a list with [None] for an entry that is not yet written. *)

From S2P Require Import Prelude.

Definition CRCPOLY_LE : Z := 0xedb88320.
Definition CRCPOLY_BE : Z := 0x04c11db7.

(** ** The little-endian checksum *)

(** One bit. *)
Definition step_le (crc : Z) : Z := Z.lxor (Z.shiftr crc 1) (if Z.testbit crc 0 then CRCPOLY_LE else 0).

Definition crc32_le_bits (crc : Z) (p : list Z) : Z :=
  foldl (fun crc b => Nat.iter 8 step_le (Z.lxor crc b)) crc p.

(** [for (j = 0; j < 256; j += 2 * i) t[i + j] = crc ^ t[j]] *)
Fixpoint fill_le (fuel : nat) (i j : nat) (crc : Z) (t : list (option Z)) : option (list (option Z)) :=
  if (256 <=? j)%nat then Some t
  else match fuel with
       | O => None
       | S f => v ← mjoin (t !! j); fill_le f i (j + 2 * i) crc (<[(i + j)%nat := Some (Z.lxor crc v)]> t)
       end.

(** [for (i = 1 << 7; i; i >>= 1)] *)
Fixpoint init_le (fuel : nat) (i : nat) (crc : Z) (t : list (option Z)) : option (list (option Z)) :=
  if (i =? 0)%nat then Some t
  else match fuel with
       | O => None
       | S f => let crc := step_le crc in t ← fill_le 256 i 0 crc t; init_le f (Nat.div2 i) crc t
       end.

Definition crc32init_le : option (list (option Z)) := init_le 8 128 1 (<[0%nat := Some 0]> (replicate 256 None)).

(** [None]: an entry that was never written. *)
Definition crc32_le (t : list (option Z)) (crc : Z) (p : list Z) : option Z :=
  foldl (fun acc b => crc ← acc; v ← mjoin (t !! Z.to_nat (Z.land (Z.lxor crc b) 255));
                      Some (Z.lxor (Z.shiftr crc 8) v)) (Some crc) p.

(** ** The big-endian checksum *)

Definition step_be (crc : Z) : Z := Z.lxor (u32 (Z.shiftl crc 1)) (if Z.testbit crc 31 then CRCPOLY_BE else 0).

Definition crc32_be_bits (crc : Z) (p : list Z) : Z :=
  foldl (fun crc b => Nat.iter 8 step_be (Z.lxor crc (Z.shiftl b 24))) crc p.

(** [for (j = 0; j < i; j++) t[i + j] = crc ^ t[j]], [n] entries left *)
Fixpoint fill_be (n : nat) (i j : nat) (crc : Z) (t : list (option Z)) : option (list (option Z)) :=
  match n with
  | O => Some t
  | S n => v ← mjoin (t !! j); fill_be n i (S j) crc (<[(i + j)%nat := Some (Z.lxor crc v)]> t)
  end.

(** [for (i = 1; i < 256; i <<= 1)] *)
Fixpoint init_be (fuel : nat) (i : nat) (crc : Z) (t : list (option Z)) : option (list (option Z)) :=
  if (256 <=? i)%nat then Some t
  else match fuel with
       | O => None
       | S f => let crc := step_be crc in t ← fill_be i i 0 crc t; init_be f (2 * i) crc t
       end.

Definition crc32init_be : option (list (option Z)) := init_be 8 1 0x80000000 (<[0%nat := Some 0]> (replicate 256 None)).

Definition crc32_be (t : list (option Z)) (crc : Z) (p : list Z) : option Z :=
  foldl (fun acc b => crc ← acc; v ← mjoin (t !! Z.to_nat (Z.lxor (Z.shiftr crc 24) b));
                      Some (Z.lxor (u32 (Z.shiftl crc 8)) v)) (Some crc) p.

(** Memory is assumed to last. *)
Definition init_crc32 : option (list (option Z) * list (option Z)) :=
  le ← crc32init_le; be ← crc32init_be; Some (le, be).

(** ** What one bit does *)

Definition word (z : Z) : Prop := 0 <= z < 2 ^ 32.

Lemma word_testbit z n : word z -> 32 <= n -> Z.testbit z n = false.
Proof. intros H Hn. apply Z.bits_above_log2; [unfold word in H; lia|]. destruct (decide (z = 0)) as [->|]; [cbn; lia|].
  apply Z.lt_le_trans with 32; [|done]. apply Z.log2_lt_pow2; unfold word in H; lia. Qed.

Lemma word_bits z : 0 <= z -> (forall n, 32 <= n -> Z.testbit z n = false) -> word z.
Proof.
  intros Hz H. split; [done|]. destruct (decide (z = 0)) as [->|]; [done|].
  apply Z.log2_lt_pow2; [lia|]. destruct (Z.lt_ge_cases (Z.log2 z) 32) as [|Hge]; [done|].
  pose proof (Z.bit_log2 z ltac:(lia)) as Hb. by rewrite H in Hb.
Qed.

Lemma word_lxor a b : word a -> word b -> word (Z.lxor a b).
Proof.
  intros Ha Hb. apply word_bits; [apply Z.lxor_nonneg; unfold word in *; lia|].
  intros n Hn. rewrite Z.lxor_spec, !word_testbit; done.
Qed.

Lemma step_le_word z : word z -> word (step_le z).
Proof.
  intros Hz. apply word_lxor; [|by destruct (Z.testbit z 0)].
  apply word_bits; [apply Z.shiftr_nonneg; unfold word in Hz; lia|].
  intros n Hn. rewrite Z.shiftr_spec by lia. apply word_testbit; [done|lia].
Qed.

Lemma step_be_word z : word z -> word (step_be z).
Proof. intros Hz. apply word_lxor; [apply u32_range|by destruct (Z.testbit z 31)]. Qed.

Lemma steps_word (step : Z -> Z) n z : (forall x, word x -> word (step x)) -> word z -> word (Nat.iter n step z).
Proof. intros Hs Hz. by induction n as [|n IH]; [|apply Hs]. Qed.

Lemma lxor_swap a b c d : Z.lxor (Z.lxor a b) (Z.lxor c d) = Z.lxor (Z.lxor a c) (Z.lxor b d).
Proof. by rewrite !Z.lxor_assoc, <-(Z.lxor_assoc b c d), (Z.lxor_comm b c), Z.lxor_assoc. Qed.

Lemma select_lxor (a b : bool) p :
  (if xorb a b then p else 0) = Z.lxor (if a then p else 0) (if b then p else 0).
Proof. destruct a, b; cbn; by rewrite ?Z.lxor_0_r, ?Z.lxor_0_l, ?Z.lxor_nilpotent. Qed.

Lemma step_le_lxor a b : step_le (Z.lxor a b) = Z.lxor (step_le a) (step_le b).
Proof. unfold step_le. by rewrite Z.shiftr_lxor, Z.lxor_spec, select_lxor, lxor_swap. Qed.

Lemma u32_land z : u32 z = Z.land z (Z.ones 32).
Proof. by rewrite Z.land_ones. Qed.

Lemma u32_lxor a b : u32 (Z.lxor a b) = Z.lxor (u32 a) (u32 b).
Proof.
  rewrite !u32_land. apply Z.bits_inj'. intros n Hn. rewrite Z.lxor_spec, !Z.land_spec, Z.lxor_spec.
  by destruct (Z.testbit a n), (Z.testbit b n), (Z.testbit (Z.ones 32) n).
Qed.

Lemma step_be_lxor a b : step_be (Z.lxor a b) = Z.lxor (step_be a) (step_be b).
Proof. unfold step_be. by rewrite Z.shiftl_lxor, u32_lxor, Z.lxor_spec, select_lxor, lxor_swap. Qed.

Lemma steps_lxor (step : Z -> Z) n a b : (forall x y, step (Z.lxor x y) = Z.lxor (step x) (step y)) ->
  Nat.iter n step (Z.lxor a b) = Z.lxor (Nat.iter n step a) (Nat.iter n step b).
Proof. intros Hl. induction n as [|n IH]; [done|]. by rewrite !Nat.iter_succ, IH, Hl. Qed.

(** Bits that are not yet reached are only shifted. *)
Lemma steps_le_shift (n : nat) y : Nat.iter n step_le (Z.shiftl y (Z.of_nat n)) = y.
Proof.
  revert y. induction n as [|n IH]; intros y; [by rewrite Z.shiftl_0_r|].
  rewrite Nat.iter_succ_r. rewrite <-(IH y) at 2. f_equal. unfold step_le.
  rewrite Z.shiftl_spec by lia. rewrite (Z.testbit_neg_r y) by lia. cbn iota.
  rewrite Z.lxor_0_r, Z.shiftr_shiftl_l by lia. f_equal. lia.
Qed.

Lemma steps_be_shift (n : nat) y : (n <= 32)%nat -> 0 <= y < 2 ^ (32 - Z.of_nat n) ->
  Nat.iter n step_be y = Z.shiftl y (Z.of_nat n).
Proof.
  induction n as [|n IH]; intros Hn Hy; [by rewrite Z.shiftl_0_r|]. rewrite Nat.iter_succ.
  assert (2 ^ (32 - Z.of_nat n) = 2 * 2 ^ (32 - Z.of_nat (S n))) as Hp.
  { rewrite <-Z.pow_succ_r by lia. f_equal. lia. }
  assert (2 ^ 32 = 2 ^ (32 - Z.of_nat (S n)) * 2 ^ Z.of_nat (S n)) as H32.
  { rewrite <-Z.pow_add_r by lia. f_equal. lia. }
  assert (2 ^ Z.of_nat (S n) = 2 * 2 ^ Z.of_nat n) as Hs.
  { rewrite <-Z.pow_succ_r by lia. f_equal. lia. }
  rewrite IH by lia. unfold step_be. rewrite Z.shiftl_shiftl by lia.
  assert (Z.testbit (Z.shiftl y (Z.of_nat n)) 31 = false) as ->.
  { rewrite Z.shiftl_spec by lia. destruct (decide (y = 0)) as [->|]; [apply Z.bits_0|].
    apply Z.bits_above_log2; [lia|]. apply Z.log2_lt_pow2; [lia|].
    replace (31 - Z.of_nat n) with (32 - Z.of_nat (S n)) by lia. lia. }
  rewrite Z.lxor_0_r. replace (Z.of_nat n + 1) with (Z.of_nat (S n)) by lia.
  apply u32_id. rewrite Z.shiftl_mul_pow2 by lia. nia.
Qed.

(** ** The tables *)

Lemma table_le : exists t, crc32init_le = Some t /\
  forallb (fun i => bool_decide (mjoin (t !! i) = Some (Nat.iter 8 step_le (Z.of_nat i)))) (seq 0 256) = true.
Proof. eexists. split; vm_compute; reflexivity. Qed.

Lemma table_be : exists t, crc32init_be = Some t /\
  forallb (fun i => bool_decide (mjoin (t !! i) = Some (Nat.iter 8 step_be (Z.shiftl (Z.of_nat i) 24)))) (seq 0 256) = true.
Proof. eexists. split; vm_compute; reflexivity. Qed.

Lemma table_entry (t : list (option Z)) (f : nat -> Z) z :
  forallb (fun i => bool_decide (mjoin (t !! i) = Some (f i))) (seq 0 256) = true ->
  0 <= z < 256 -> mjoin (t !! Z.to_nat z) = Some (f (Z.to_nat z)).
Proof.
  intros H Hz. rewrite forallb_forall in H. apply (bool_decide_eq_true_1 _), H, in_seq. lia.
Qed.

Lemma land_byte z : 0 <= Z.land z 255 < 256.
Proof. change 255 with (Z.ones 8). rewrite Z.land_ones by lia. apply Z.mod_pos_bound. lia. Qed.

Lemma byte_bit b n : is_byte b -> 8 <= n -> Z.testbit b n = false.
Proof.
  intros Hb Hn. destruct (decide (b = 0)) as [->|]; [apply Z.bits_0|]. unfold is_byte in Hb.
  apply Z.bits_above_log2; [lia|]. apply Z.lt_le_trans with 8; [|done]. apply Z.log2_lt_pow2; lia.
Qed.

(** Eight bits at once. *)
Lemma step8_le crc b : is_byte b ->
  Nat.iter 8 step_le (Z.lxor crc b) =
  Z.lxor (Z.shiftr crc 8) (Nat.iter 8 step_le (Z.land (Z.lxor crc b) 255)).
Proof.
  intros Hb. set (x := Z.lxor crc b).
  assert (x = Z.lxor (Z.shiftl (Z.shiftr x 8) 8) (Z.land x 255)) as Hx.
  { apply Z.bits_inj'. intros n Hn. change 255 with (Z.ones 8).
    rewrite Z.lxor_spec, Z.shiftl_spec, Z.land_spec by done. destruct (Z.lt_ge_cases n 8).
    - rewrite Z.ones_spec_low, (Z.testbit_neg_r _ (n - 8)) by lia. by rewrite andb_true_r, xorb_false_l.
    - rewrite Z.ones_spec_high, Z.shiftr_spec by lia. rewrite andb_false_r, xorb_false_r. f_equal. lia. }
  rewrite Hx at 1. rewrite (steps_lxor _ _ _ _ step_le_lxor). f_equal.
  rewrite (steps_le_shift 8). apply Z.bits_inj'. intros n Hn. rewrite !Z.shiftr_spec by done.
  unfold x. rewrite Z.lxor_spec, (byte_bit b) by (done || lia). by rewrite xorb_false_r.
Qed.

Lemma step8_be crc b : word crc -> is_byte b ->
  Nat.iter 8 step_be (Z.lxor crc (Z.shiftl b 24)) =
  Z.lxor (u32 (Z.shiftl crc 8)) (Nat.iter 8 step_be (Z.shiftl (Z.lxor (Z.shiftr crc 24) b) 24)).
Proof.
  intros Hc Hb. set (x := Z.lxor crc (Z.shiftl b 24)).
  assert (x = Z.lxor (Z.land crc (Z.ones 24)) (Z.shiftl (Z.lxor (Z.shiftr crc 24) b) 24)) as Hx.
  { apply Z.bits_inj'. intros n Hn. unfold x.
    rewrite !Z.lxor_spec, Z.land_spec, !Z.shiftl_spec by done. destruct (Z.lt_ge_cases n 24).
    - rewrite Z.ones_spec_low, !(Z.testbit_neg_r _ (n - 24)) by lia. by rewrite andb_true_r.
    - rewrite Z.ones_spec_high, Z.lxor_spec, Z.shiftr_spec by lia. rewrite andb_false_r, xorb_false_l.
      do 2 f_equal. lia. }
  rewrite Hx, (steps_lxor _ _ _ _ step_be_lxor). f_equal. rewrite Z.land_ones by lia.
  rewrite steps_be_shift by (lia || apply (Z.mod_pos_bound _ (2 ^ 24)); lia).
  rewrite <-Z.land_ones by lia. rewrite u32_land. apply Z.bits_inj'. intros n Hn.
  rewrite Z.shiftl_spec, !Z.land_spec, Z.shiftl_spec by lia. destruct (Z.lt_ge_cases n 8).
  { by rewrite !(Z.testbit_neg_r _ (_ - 8)) by lia. }
  f_equal. destruct (Z.lt_ge_cases n 32); [by rewrite !Z.ones_spec_low by lia|by rewrite !Z.ones_spec_high by lia].
Qed.

Lemma crc32_le_sound t crc p : crc32init_le = Some t -> Forall is_byte p ->
  crc32_le t crc p = Some (crc32_le_bits crc p).
Proof.
  intros Ht Hp. destruct table_le as (t' & Ht' & Htab). assert (t' = t) as -> by congruence. clear Ht Ht'.
  unfold crc32_le, crc32_le_bits. revert crc. induction Hp as [|b p Hb Hp IH]; intros crc; [done|].
  cbn [foldl mbind option_bind]. rewrite (table_entry _ _ _ Htab (land_byte _)). cbn [mbind option_bind].
  rewrite IH, step8_le by done. do 3 f_equal. by rewrite Z2Nat.id by apply land_byte.
Qed.

Lemma high_byte crc b : word crc -> is_byte b -> 0 <= Z.lxor (Z.shiftr crc 24) b < 256.
Proof.
  intros Hc Hb.
  assert (0 <= Z.lxor (Z.shiftr crc 24) b) as Hn.
  { apply Z.lxor_nonneg. rewrite Z.shiftr_nonneg. unfold word, is_byte in *. lia. }
  split; [done|]. destruct (decide (Z.lxor (Z.shiftr crc 24) b = 0)) as [->|]; [done|].
  apply (Z.log2_lt_cancel _ (2 ^ 8)). rewrite Z.log2_pow2 by lia.
  destruct (Z.lt_ge_cases (Z.log2 (Z.lxor (Z.shiftr crc 24) b)) 8) as [|Hge]; [done|].
  assert (0 < Z.lxor (Z.shiftr crc 24) b) as Hbit%Z.bit_log2 by lia. revert Hbit.
  set (k := Z.log2 _) in *. rewrite Z.lxor_spec, Z.shiftr_spec, (word_testbit crc), (byte_bit b) by (done || lia). done.
Qed.

Lemma crc32_be_sound t crc p : crc32init_be = Some t -> word crc -> Forall is_byte p ->
  crc32_be t crc p = Some (crc32_be_bits crc p).
Proof.
  intros Ht Hc Hp. destruct table_be as (t' & Ht' & Htab). assert (t' = t) as -> by congruence. clear Ht Ht'.
  unfold crc32_be, crc32_be_bits. revert crc Hc. induction Hp as [|b p Hb Hp IH]; intros crc Hc; [done|].
  cbn [foldl mbind option_bind]. pose proof (high_byte crc b Hc Hb) as Hi.
  rewrite (table_entry _ _ _ Htab Hi). cbn [mbind option_bind].
  rewrite Z2Nat.id by apply Hi. rewrite <-step8_be by done. apply IH.
  apply steps_word; [apply step_be_word|]. apply word_lxor; [done|].
  rewrite Z.shiftl_mul_pow2 by lia. unfold word, is_byte in *. lia.
Qed.

(** ** Errors that are detected *)

(** The bytes as one number, the first one lowest. *)
Fixpoint le_number (p : list Z) : Z :=
  match p with [] => 0 | b :: p => Z.lxor b (Z.shiftl (le_number p) 8) end.

Lemma crc32_le_bits_number c p : crc32_le_bits c p = Nat.iter (8 * length p) step_le (Z.lxor c (le_number p)).
Proof.
  revert c. induction p as [|b p IH]; intros c; [by rewrite Z.lxor_0_r|].
  unfold crc32_le_bits in *. cbn [foldl]. rewrite IH. cbn [length le_number].
  replace (8 * S (length p))%nat with (8 * length p + 8)%nat by lia. rewrite Nat.iter_add. f_equal.
  rewrite <-Z.lxor_assoc, (steps_lxor _ _ _ (Z.shiftl _ _) step_le_lxor). f_equal.
  symmetry. apply (steps_le_shift 8).
Qed.

Lemma step_le_inj a b : word a -> word b -> step_le a = step_le b -> a = b.
Proof.
  assert (forall z, word z -> Z.testbit (step_le z) 31 = Z.testbit z 0) as Hlow.
  { intros z Hz. unfold step_le. rewrite Z.lxor_spec, Z.shiftr_spec, (word_testbit z) by (done || lia).
    by destruct (Z.testbit z 0). }
  intros Ha Hb H. assert (Z.testbit a 0 = Z.testbit b 0) as H0 by (by rewrite <-!Hlow, H).
  assert (Z.shiftr a 1 = Z.shiftr b 1) as H1.
  { unfold step_le in H. rewrite H0 in H. set (p := if Z.testbit b 0 then CRCPOLY_LE else 0) in H.
    apply (f_equal (fun x => Z.lxor x p)) in H. by rewrite !Z.lxor_assoc, Z.lxor_nilpotent, !Z.lxor_0_r in H. }
  apply Z.bits_inj'. intros n Hn. destruct (decide (n = 0)) as [->|]; [done|].
  apply (f_equal (fun x => Z.testbit x (n - 1))) in H1. rewrite !Z.shiftr_spec in H1 by lia.
  by replace (n - 1 + 1) with n in H1 by lia.
Qed.

Lemma steps_le_inj n a b : word a -> word b -> Nat.iter n step_le a = Nat.iter n step_le b -> a = b.
Proof.
  intros Ha Hb. induction n as [|n IH]; [done|]. rewrite !Nat.iter_succ. intros H. apply IH.
  by apply step_le_inj; [apply steps_word; [apply step_le_word|]..|].
Qed.

Lemma crc32_le_bits_word c p : word c -> Forall is_byte p -> word (crc32_le_bits c p).
Proof.
  intros Hc Hp. unfold crc32_le_bits. revert c Hc. induction Hp as [|b p Hb Hp IH]; intros c Hc; [done|].
  cbn [foldl]. apply IH, steps_word; [apply step_le_word|]. apply word_lxor; [done|].
  unfold word, is_byte in *. lia.
Qed.

Lemma crc32_le_bits_app c p q : crc32_le_bits c (p ++ q) = crc32_le_bits (crc32_le_bits c p) q.
Proof. apply foldl_app. Qed.

Lemma crc32_le_bits_inj c d p : word c -> word d -> Forall is_byte p -> crc32_le_bits c p = crc32_le_bits d p -> c = d.
Proof.
  intros Hc Hd Hp. unfold crc32_le_bits. revert c d Hc Hd. induction Hp as [|b p Hb Hp IH]; intros c d Hc Hd; [done|].
  assert (word b) as Hw by (unfold word, is_byte in *; lia). cbn [foldl]. intros H.
  apply IH in H; [|by apply steps_word; [apply step_le_word|by apply word_lxor]..].
  apply steps_le_inj in H; [|by apply word_lxor..].
  apply (f_equal (fun x => Z.lxor x b)) in H. by rewrite !Z.lxor_assoc, Z.lxor_nilpotent, !Z.lxor_0_r in H.
Qed.

Lemma le_number_range p : Forall is_byte p -> 0 <= le_number p < 2 ^ (8 * Z.of_nat (length p)).
Proof.
  induction 1 as [|b p Hb Hp IH]; [done|]. cbn [le_number length].
  replace (8 * Z.of_nat (S (length p))) with (8 * Z.of_nat (length p) + 8) by lia. rewrite Z.pow_add_r by lia.
  assert (Z.lxor b (Z.shiftl (le_number p) 8) = b + le_number p * 2 ^ 8) as ->.
  { rewrite <-Z.shiftl_mul_pow2 by lia. rewrite Z.add_nocarry_lxor; [done|].
    apply Z.bits_inj'. intros n Hn. rewrite Z.land_spec, Z.bits_0, Z.shiftl_spec by done.
    destruct (Z.lt_ge_cases n 8); [by rewrite (Z.testbit_neg_r _ (n - 8)), andb_false_r by lia|].
    by rewrite (byte_bit b). }
  unfold is_byte in Hb. lia.
Qed.

Lemma le_number_inj p q : length p = length q -> Forall is_byte p -> Forall is_byte q ->
  le_number p = le_number q -> p = q.
Proof.
  revert q. induction p as [|a p IH]; intros [|b q] Hlen Hp Hq H; try done.
  apply Forall_cons in Hp as [Ha Hp], Hq as [Hb Hq]. cbn [le_number] in H.
  assert (forall n, Z.testbit (Z.lxor a (Z.shiftl (le_number p) 8)) n = Z.testbit (Z.lxor b (Z.shiftl (le_number q) 8)) n)
    as Hbits by (intros n; by rewrite H).
  f_equal.
  - apply Z.bits_inj'. intros n Hn. destruct (Z.lt_ge_cases n 8) as [Hlt|]; [|by rewrite !byte_bit].
    specialize (Hbits n). rewrite !Z.lxor_spec, !Z.shiftl_spec, !(Z.testbit_neg_r _ (n - 8)) in Hbits by lia.
    by rewrite !xorb_false_r in Hbits.
  - apply IH; [by injection Hlen|done|done|]. apply Z.bits_inj'. intros n Hn. specialize (Hbits (n + 8)).
    rewrite !Z.lxor_spec, !Z.shiftl_spec, (byte_bit a), (byte_bit b), !xorb_false_l in Hbits by (done || lia).
    by replace (n + 8 - 8) with n in Hbits by lia.
Qed.

(** C20: [init_crc32] fills both tables, no checksum reads an entry that was not written, and the
    checksums taken byte by byte from the tables are the ones the division by the
    polynomial gives bit by bit.  A message of which up to four neighbouring bytes were changed has
    another checksum. *)
Theorem crc32_correct : exists le be, init_crc32 = Some (le, be) /\
  (forall crc p, word crc -> Forall is_byte p ->
     crc32_le le crc p = Some (crc32_le_bits crc p) /\ crc32_be be crc p = Some (crc32_be_bits crc p)) /\
  (forall crc pre a b suf, word crc -> Forall is_byte (pre ++ a ++ suf) -> Forall is_byte b ->
     length a = length b -> (length a <= 4)%nat -> a <> b ->
     crc32_le le crc (pre ++ a ++ suf) <> crc32_le le crc (pre ++ b ++ suf)).
Proof.
  destruct table_le as (le & Hle & _), table_be as (be & Hbe & _). exists le, be.
  unfold init_crc32. rewrite Hle, Hbe. split; [reflexivity|]. split.
  { intros crc p Hc Hp. split; [exact (crc32_le_sound _ _ _ Hle Hp)|exact (crc32_be_sound _ _ _ Hbe Hc Hp)]. }
  intros crc pre a b suf Hc Hall Hb Hlen H4 Hne. rewrite !Forall_app in Hall. destruct Hall as (Hpre & Ha & Hsuf).
  rewrite !(crc32_le_sound le _ _ Hle) by (by repeat apply Forall_app_2). clear Hle Hbe.
  rewrite !crc32_le_bits_app. intros [= H].
  pose proof (crc32_le_bits_word crc pre Hc Hpre) as Hw. set (c := crc32_le_bits crc pre) in *.
  apply crc32_le_bits_inj in H; [|by apply crc32_le_bits_word..|done].
  assert (forall q, Forall is_byte q -> (length q <= 4)%nat -> word (le_number q)) as Hnum.
  { intros q Hq Hl. pose proof (le_number_range q Hq). unfold word.
    assert (2 ^ (8 * Z.of_nat (length q)) <= 2 ^ 32) by (apply Z.pow_le_mono_r; lia). lia. }
  rewrite !crc32_le_bits_number, Hlen in H.
  apply steps_le_inj in H; [|by apply word_lxor; [|apply Hnum; first [done|lia]]..].
  apply Hne, le_number_inj; [done..|]. apply (f_equal (Z.lxor c)) in H.
  by rewrite <-!Z.lxor_assoc, Z.lxor_nilpotent, !Z.lxor_0_l in H.
Qed.

(** The check value of CRC-32. *)
Example crc32_check : (le ← crc32init_le; crc ← crc32_le le 0xffffffff [49;50;51;52;53;54;55;56;57];
  Some (Z.lxor crc 0xffffffff)) = Some 0xcbf43926.
Proof. vm_compute. reflexivity. Qed.
