(* ===== verification/Ptable.v ===== *)
(** * kpartx: reading partition tables

    The readers of dos.c, bsd.c, solaris.c, unixware.c, mac.c, sun.c and ps3.c with
    [getblock] of kpartx.c.  What the device answers is a [disk]; a computation
    [M] carries the cache of blocks, the sectors that were asked for and the
    array of slices, and has no result, [None], when it reads memory that does
    not hold data of the disk, writes a slice outside of the array or divides by
    zero.  The machine is a 64-bit little-endian one. *)

From S2P Require Import Prelude.

Record slice := { start : Z; size : Z; container : Z; major : Z; minor : Z }.

#[export] Instance eta_slice : Eta slice := fun x =>
  {| start := start x; size := size x; container := container x; major := major x; minor := minor x |}.

Definition empty_slice : slice := {| start := 0; size := 0; container := 0; major := 0; minor := 0 |}.

Definition MAXSLICES : Z := 256.

(** Seeking to an offset and reading: [SeekFails], [ReadFails] (the return code -1) or the bytes. *)
Inductive io_result := SeekFails | ReadFails | ReadOk (b : list Z).

(** What the device is: the answers to [BLKSSZGET], to seeking and reading a whole
    sector, to [fstat] (is it a block device), [BLKGETSIZE64], reading a number of bytes at an
    offset and [BLKGETLASTSECT].  The answers to reads depend on the number of reads so far. *)
Record disk := {
  d_sector_size : option Z;
  d_read : nat -> Z -> option (list Z);
  d_is_block : option bool;
  d_size64 : option Z;
  d_pread : nat -> Z -> Z -> io_result;
  d_lastsect : option (list Z) }.

Record kstate := { k_cache : list (Z * list Z); k_reads : nat; k_slices : list slice }.

#[export] Instance eta_kstate : Eta kstate := fun x =>
  {| k_cache := k_cache x; k_reads := k_reads x; k_slices := k_slices x |}.

Definition M (A : Type) : Type := kstate -> option (A * kstate).

#[export] Instance M_ret : MRet M := fun _ x st => Some (x, st).
#[export] Instance M_bind : MBind M := fun _ _ f m st => match m st with Some (x, st) => f x st | None => None end.

Definition lift {A} (o : option A) : M A := fun st => match o with Some x => Some (x, st) | None => None end.

Definition get_slice (i : Z) : M slice := fun st =>
  if i <? 0 then None else match k_slices st !! Z.to_nat i with Some x => Some (x, st) | None => None end.

Definition set_slice (i : Z) (f : slice -> slice) : M unit := fun st =>
  if i <? 0 then None
  else match k_slices st !! Z.to_nat i with
       | Some x => Some (tt, st <| k_slices := <[Z.to_nat i := f x]> (k_slices st) |>)
       | None => None
       end.

(** ** Numbers in memory *)

Fixpoint le_value (p : list Z) : Z := match p with [] => 0 | b :: p => b + 256 * le_value p end.
Definition be_value (p : list Z) : Z := le_value (reverse p).

Definition bytes_at (b : list Z) (off n : nat) : option (list Z) :=
  if (off + n <=? length b)%nat then Some (take n (drop off b)) else None.

Definition le_at (b : list Z) (off n : nat) : M Z := lift (le_value <$> bytes_at b off n).
Definition be_at (b : list Z) (off n : nat) : M Z := lift (be_value <$> bytes_at b off n).

Section Readers.
Variable D : disk.

Definition get_sector_size : Z := default 512 (d_sector_size D).

(** [xmalloc] and [aligned_malloc] are assumed to succeed. *)
Definition getblock (blknr : Z) : M (option (list Z)) := fun st =>
  let secsz := get_sector_size in
  let blks_per_sec := u32 (Z.quot secsz 512) in
  if blks_per_sec =? 0 then None
  else
    let secnr := blknr / blks_per_sec in
    let blk_off := Z.to_nat (blknr mod blks_per_sec * 512) in
    match find (fun '(n, _) => n =? secnr) (k_cache st) with
    | Some (_, block) => Some (Some (drop blk_off block), st)
    | None =>
        let st' := st <| k_reads ::= S |> in
        match d_read D (k_reads st) secnr with
        | None => Some (None, st')
        | Some block => Some (Some (drop blk_off block), st' <| k_cache ::= cons (secnr, block) |>)
        end
    end.

Definition sector_size_mul : Z := Z.quot get_sector_size 512.

(** ** dos.c *)

Record partition := { sys_type : Z; start_sect : Z; nr_sects : Z }.

Definition is_extended (type : Z) : bool := (type =? 5) || (type =? 0xf) || (type =? 0x85).
Definition is_gpt (type : Z) : bool := type =? 0xEE.

Definition partition_at (bp : list Z) (i : nat) : M partition :=
  let off := (446 + i * 16)%nat in
  t ← le_at bp (off + 4) 1; a ← le_at bp (off + 8) 4; n ← le_at bp (off + 12) 4;
  mret {| sys_type := t; start_sect := a; nr_sects := n |}.

(** The last two bytes of the block are the signature. *)
Definition signature_ok (bp : list Z) : M bool :=
  a ← le_at bp 510 1; b ← le_at bp 511 1; mret ((a =? 0x55) && (b =? 0xaa)).

Record ext_state := { x_next : Z; x_moretodo : bool; x_n : Z; x_loopct : nat }.

(** One entry of an extended partition table; [true]: the function returns. *)
Definition ext_entry (en sp ns first here : Z) (bp : list Z) (i : nat) (x : ext_state) : M (bool * ext_state) :=
  p ← partition_at bp i;
  if is_extended (sys_type p) then
    if negb (start_sect p =? 0) && negb (nr_sects p =? 0) && negb (x_moretodo x) then
      mret (false, {| x_next := u64 (first + u32 (sector_size_mul * start_sect p)); x_moretodo := true;
                      x_n := x_n x; x_loopct := x_loopct x |})
    else mret (false, x)
  else if x_n x <? ns then
    set_slice (sp + x_n x) (fun sl => sl <| start := u64 (here + u32 (sector_size_mul * start_sect p)) |>
                                         <| size := u32 (sector_size_mul * nr_sects p) |> <| container := en + 1 |>);;
    mret (false, {| x_next := x_next x; x_moretodo := x_moretodo x; x_n := x_n x + 1; x_loopct := 0 |})
  else mret (true, x).

(** [while (moretodo)] *)
Fixpoint ext_loop (fuel : nat) (en sp ns first : Z) (next n : Z) (loopct : nat) : M Z :=
  match fuel with
  | O => fun _ => None
  | S f =>
      if (100 <? S loopct)%nat then mret n
      else
        bp ← getblock (u32 next);
        match bp with
        | None => mret n
        | Some bp =>
            ok ← signature_ok bp;
            if negb ok then mret n
            else
              '(r, x) ← ext_entry en sp ns first next bp 0
                          {| x_next := next; x_moretodo := false; x_n := n; x_loopct := S loopct |};
              if (r : bool) then mret (x_n x)
              else
                '(r, x) ← ext_entry en sp ns first next bp 1 x;
                if (r : bool) then mret (x_n x)
                else if x_moretodo x then ext_loop f en sp ns first (x_next x) (x_n x) (x_loopct x)
                else mret (x_n x)
        end
  end.

Definition EXT_FUEL (ns : Z) : nat := S (101 * S (Z.to_nat ns)).

(** [sp] is the index of the first slice that may be filled. *)
Definition read_extended_partition (ep : partition) (en sp ns : Z) : M Z :=
  let first := u32 (sector_size_mul * start_sect ep) in
  ext_loop (EXT_FUEL ns) en sp ns first first 0 0.

(** [for (i = 0; i < 4; i++)], with [todo] entries left *)
Fixpoint dos_entries (todo : nat) (bp : list Z) (ns : Z) (i : nat) (n : Z) : M Z :=
  match todo with
  | O => mret n
  | S todo =>
      p ← partition_at bp i;
      if is_gpt (sys_type p) then mret 0
      else if Z.of_nat i <? ns then
        set_slice (Z.of_nat i) (fun sl => sl <| start := u64 (sector_size_mul * start_sect p) |>
                                             <| size := u64 (sector_size_mul * nr_sects p) |>);;
        if is_extended (sys_type p) then
          set_slice (Z.of_nat i) (fun sl => sl <| size := if sector_size_mul =? 1 then 2 else sector_size_mul |>);;
          k ← read_extended_partition p (Z.of_nat i) n (s32 (ns - n));
          dos_entries todo bp ns (S i) (n + k)
        else dos_entries todo bp ns (S i) n
      else mret n
  end.

Definition read_dos_pt (all : slice) (ns : Z) : M Z :=
  bp ← getblock (u32 (start all));
  match bp with
  | None => mret (-1)
  | Some bp => ok ← signature_ok bp; if negb ok then mret (-1) else dos_entries 4 bp ns 0 4
  end.

(** ** Slices inside of others (bsd.c and sun.c)

    The body of the two loops is the same in both files. *)

Definition contain_pair (i j e : Z) : M unit :=
  if i =? j then mret tt
  else
    b ← get_slice j;
    if size b =? 0 then mret tt
    else
      a ← get_slice i;
      if start a <? start b then
        if (start b <? e) && (e <? u64 (start b + size b)) then set_slice i (fun sl => sl <| size := 0 |>) else mret tt
      else if e <=? u64 (start b + size b) then set_slice i (fun sl => sl <| container := j + 1 |>)
      else mret tt.

Fixpoint contain_all (todo : nat) (i j e : Z) : M unit :=
  match todo with O => mret tt | S todo => contain_pair i j e;; contain_all todo i (j + 1) e end.

Fixpoint contain_slices (todo : nat) (count : nat) (i : Z) : M unit :=
  match todo with
  | O => mret tt
  | S todo =>
      a ← get_slice i;
      (if size a =? 0 then mret tt else contain_all count i 0 (u32 (start a + size a)));;
      contain_slices todo count (i + 1)
  end.

(** ** bsd.c *)

Definition BSD_DISKMAGIC : Z := 0x82564557.
Definition BSD_FS_UNUSED : Z := 0.

(** [for (p = l->d_partitions; p - l->d_partitions < max_partitions; p++)] *)
Fixpoint bsd_partitions (todo : nat) (l : list Z) (ns : Z) (off : nat) (n : Z) : M Z :=
  match todo with
  | O => mret n
  | S todo =>
      fstype ← le_at l (off + 12) 1;
      if fstype =? BSD_FS_UNUSED then bsd_partitions todo l ns (off + 16) n
      else if n <? ns then
        o ← le_at l (off + 4) 4; z ← le_at l off 4;
        set_slice n (fun sl => sl <| start := o |> <| size := z |>);;
        bsd_partitions todo l ns (off + 16) (n + 1)
      else mret n
  end.

Definition bsd_label (l : list Z) (ns : Z) : M Z :=
  d_npartitions ← le_at l 138 2;
  n ← bsd_partitions (Z.to_nat (Z.min 16 d_npartitions)) l ns 148 0;
  contain_slices (Z.to_nat n) (Z.to_nat n) 0;;
  mret n.

Definition read_bsd_pt (all : slice) (ns : Z) : M Z :=
  let offset := u32 (start all) in
  bp ← getblock (u32 (offset + 1));
  match bp with
  | None => mret (-1)
  | Some l =>
      d_magic ← le_at l 0 4;
      if d_magic =? BSD_DISKMAGIC then bsd_label l ns
      else
        bp ← getblock offset;
        match bp with
        | None => mret (-1)
        | Some bp =>
            let l := drop 64 bp in
            d_magic ← le_at l 0 4;
            if d_magic =? BSD_DISKMAGIC then bsd_label l ns else mret (-1)
        end
  end.

(** ** solaris.c *)

Definition SOLARIS_X86_VTOC_SANE : Z := 0x600DDEEE.
Definition SOLARIS_X86_NUMSLICE : nat := 8.

Fixpoint solaris_slices (todo : nat) (v : list Z) (ns offset : Z) (off : nat) (n : Z) : M Z :=
  match todo with
  | O => mret n
  | S todo =>
      s_size ← le_at v (off + 8) 8;
      if s_size =? 0 then solaris_slices todo v ns offset (off + 16) n
      else if n <? ns then
        s_start ← le_at v (off + 4) 4;
        set_slice n (fun sl => sl <| start := u32 (offset + s32 s_start) |> <| size := s_size |>);;
        solaris_slices todo v ns offset (off + 16) (n + 1)
      else mret n
  end.

Definition read_solaris_pt (all : slice) (ns : Z) : M Z :=
  let offset := u32 (start all) in
  bp ← getblock (u32 (offset + 1));
  match bp with
  | None => mret (-1)
  | Some v =>
      v_sanity ← le_at v 24 8;
      if negb (v_sanity =? SOLARIS_X86_VTOC_SANE) then mret (-1)
      else v_version ← le_at v 32 8;
           if negb (v_version =? 1) then mret 0
           else solaris_slices SOLARIS_X86_NUMSLICE v ns offset 136 0
  end.

(** ** unixware.c *)

Definition UNIXWARE_FS_UNUSED : Z := 0.
Definition UNIXWARE_NUMSLICE : nat := 16.
Definition UNIXWARE_DISKMAGIC : Z := 0xCA5E600D.
Definition UNIXWARE_DISKMAGIC2 : Z := 0x600DDEEE.

Definition four2int (p : list Z) (off : nat) : M Z :=
  a ← le_at p off 1; b ← le_at p (off + 1) 1; c ← le_at p (off + 2) 1; d ← le_at p (off + 3) 1;
  mret (u32 (a + Z.shiftl b 8 + Z.shiftl c 16 + Z.shiftl d 24)).

Fixpoint unixware_slices (todo : nat) (l : list Z) (ns : Z) (off : nat) (n : Z) : M Z :=
  match todo with
  | O => mret n
  | S todo =>
      s_label ← le_at l off 2;
      if s_label =? UNIXWARE_FS_UNUSED then unixware_slices todo l ns (off + 12) n
      else if n <? ns then
        a ← le_at l (off + 4) 4; z ← le_at l (off + 8) 4;
        set_slice n (fun sl => sl <| start := a |> <| size := z |>);;
        unixware_slices todo l ns (off + 12) (n + 1)
      else mret n
  end.

(** Slice 0 is the whole disk. *)
Definition read_unixware_pt (all : slice) (ns : Z) : M Z :=
  bp ← getblock (u32 (u32 (start all) + 29));
  match bp with
  | None => mret (-1)
  | Some l =>
      d_magic ← four2int l 4;
      v_magic ← four2int l 156;
      if negb (d_magic =? UNIXWARE_DISKMAGIC) || negb (v_magic =? UNIXWARE_DISKMAGIC2) then mret (-1)
      else unixware_slices (UNIXWARE_NUMSLICE - 1) l ns 228 0
  end.

(** ** mac.c *)

Definition MAC_DRIVER_MAGIC : Z := 0x4552.
Definition MAC_PARTITION_MAGIC : Z := 0x504d.

(** [for (blk = 1; blk <= blocks_in_map && blk <= ns; ++blk, ++n)] *)
Fixpoint mac_partitions (todo : nat) (secsize blocks_in_map ns blk n : Z) : M Z :=
  match todo with
  | O => mret n
  | S todo =>
      if (blk <=? blocks_in_map) && (blk <=? ns) then
        let pos := s32 (blk * secsize) in
        data ← getblock (u32 (Z.quot pos 512));
        match data with
        | None => mret (-1)
        | Some data =>
            part ← lift (if pos <? 0 then None else Some (drop (Z.to_nat (Z.rem pos 512)) data));
            signature ← be_at part 0 2;
            if negb (signature =? MAC_PARTITION_MAGIC) then mret n
            else
              start_block ← be_at part 8 4; block_count ← be_at part 12 4;
              set_slice n (fun sl => sl <| start := u32 (start_block * (secsize / 512)) |>
                                        <| size := u32 (block_count * (secsize / 512)) |>);;
              mac_partitions todo secsize blocks_in_map ns (blk + 1) (n + 1)
        end
      else mret n
  end.

Definition read_mac_pt (all : slice) (ns : Z) : M Z :=
  md ← getblock 0;
  match md with
  | None => mret (-1)
  | Some md =>
      signature ← be_at md 0 2;
      if negb (signature =? MAC_DRIVER_MAGIC) then mret (-1)
      else
        secsize ← be_at md 2 2;
        data ← getblock (secsize / 512);
        match data with
        | None => mret (-1)
        | Some data =>
            let part := drop (Z.to_nat (secsize mod 512)) data in
            signature ← be_at part 0 2;
            if negb (signature =? MAC_PARTITION_MAGIC) then mret (-1)
            else blocks_in_map ← be_at part 4 4; mac_partitions (S (Z.to_nat ns)) secsize blocks_in_map ns 1 0
        end
  end.

(** ** sun.c *)

Definition SUN_DISK_MAGIC : Z := 0xDABE.
Definition SUN_DISK_MAXPARTITIONS : nat := 8.

(** The exclusive or of [todo] 16-bit words. *)
Fixpoint xor_words (todo : nat) (l : list Z) (off : nat) (csum : Z) : M Z :=
  match todo with
  | O => mret csum
  | S todo => w ← le_at l off 2; xor_words todo l (off + 2) (Z.lxor csum w)
  end.

Definition sun_verify_checksum (l : list Z) : M bool := csum ← xor_words 256 l 0 0; mret (csum =? 0).

Fixpoint sun_slices (todo : nat) (l : list Z) (ns offset : Z) (off : nat) (n : Z) : M Z :=
  match todo with
  | O => mret n
  | S todo =>
      if n <? ns then
        start_cylinder ← be_at l off 4; nsect ← be_at l 438 2; ntrks ← be_at l 436 2; num_sectors ← be_at l (off + 4) 4;
        set_slice n (fun sl => sl <| start := u32 (offset + u32 (start_cylinder * nsect * ntrks)) |>
                                  <| size := num_sectors |>);;
        sun_slices todo l ns offset (off + 8) (n + 1)
      else mret n
  end.

Definition read_sun_pt (all : slice) (ns : Z) : M Z :=
  let offset := u32 (start all) in
  bp ← getblock offset;
  match bp with
  | None => mret (-1)
  | Some l =>
      magic ← be_at l 508 2;
      if negb (magic =? SUN_DISK_MAGIC) then mret (-1)
      else
        ok ← sun_verify_checksum l;
        if negb ok then mret (-1)
        else
          n ← sun_slices SUN_DISK_MAXPARTITIONS l ns offset 444 0;
          contain_slices SUN_DISK_MAXPARTITIONS SUN_DISK_MAXPARTITIONS 0;;
          mret n
  end.

(** ** ps3.c *)

Definition MAGIC1 : Z := 0x0FACE0FF.
Definition MAGIC2 : Z := 0xDEADFACE.
Definition MAX_PARTITIONS : nat := 8.

(** [todo] sectors from block [i] on; [None]: one of them was not read. *)
Fixpoint read_disklabel (todo : nat) (i : Z) : M (option (list Z)) :=
  match todo with
  | O => mret (Some [])
  | S todo =>
      data ← getblock i;
      match data with
      | None => mret None
      | Some data =>
          sector ← lift (bytes_at data 0 512);
          rest ← read_disklabel todo (i + 1);
          mret (rest ← rest; Some (sector ++ rest))
      end
  end.

Fixpoint ps3_partitions (todo : nat) (label : list Z) (off : nat) (n : Z) : M Z :=
  match todo with
  | O => mret n
  | S todo =>
      p_start ← be_at label off 8; p_size ← be_at label (off + 8) 8;
      if negb (p_start =? 0) && negb (p_size =? 0) then
        set_slice n (fun sl => sl <| start := p_start |> <| size := p_size |>);;
        ps3_partitions todo label (off + 144) (n + 1)
      else ps3_partitions todo label (off + 144) n
  end.

Definition read_ps3_pt (all : slice) (ns : Z) : M Z :=
  label ← read_disklabel 3 0;
  match label with
  | None => mret (-1)
  | Some label =>
      d_magic1 ← be_at label 16 8; d_magic2 ← be_at label 24 8;
      if negb (d_magic1 =? MAGIC1) || negb (d_magic2 =? MAGIC2) then mret (-1)
      else ps3_partitions MAX_PARTITIONS label 48 0
  end.

End Readers.

(** ** Computations that return

    [returns OK P m]: from every state in [OK], [m] has a result, in [P], and leaves
    a state in [OK]. *)

Definition returns {A} (OK : kstate -> Prop) (P : A -> Prop) (m : M A) : Prop :=
  forall st, OK st -> exists x st', m st = Some (x, st') /\ OK st' /\ P x.

Section Returns.
Context (OK : kstate -> Prop).

Lemma returns_ret {A} (P : A -> Prop) x : P x -> returns OK P (mret x).
Proof. intros HP st Hst. by exists x, st. Qed.

Lemma returning_bind {A B} (P : A -> Prop) (Q : B -> Prop) (m : M A) (f : A -> M B) :
  returns OK P m -> (forall x, P x -> returns OK Q (f x)) -> returns OK Q (m ≫= f).
Proof.
  intros Hm Hf st Hst. destruct (Hm st Hst) as (x & st1 & E & H1 & Hx).
  destruct (Hf x Hx st1 H1) as (y & st2 & E2 & H2 & Hy). exists y, st2. split; [|done].
  unfold mbind, M_bind. by rewrite E.
Qed.

Lemma returns_mono {A} (P Q : A -> Prop) m : (forall x, P x -> Q x) -> returns OK P m -> returns OK Q m.
Proof. intros H Hm st Hst. destruct (Hm st Hst) as (x & st' & E & H' & Hx). exists x, st'. auto. Qed.

Lemma returns_lift {A} (P : A -> Prop) (o : option A) x : o = Some x -> P x -> returns OK P (lift o).
Proof. intros -> HP st Hst. by exists x, st. Qed.
End Returns.

Lemma bytes_at_Some b off n : (off + n <= length b)%nat -> bytes_at b off n = Some (take n (drop off b)).
Proof. intros H. unfold bytes_at. by rewrite (proj2 (Nat.leb_le _ _) H). Qed.

Lemma le_value_range p : Forall is_byte p -> 0 <= le_value p < 256 ^ Z.of_nat (length p).
Proof.
  induction 1 as [|b p Hb Hp IH]; [done|]. cbn [le_value length].
  rewrite Nat2Z.inj_succ, Z.pow_succ_r by lia. unfold is_byte in Hb. lia.
Qed.

(** What the C library promises of the device: whole sectors of bytes, in a sector
    size the kernel has.  A Macintosh driver descriptor gives whole sectors as its
    block size ([mac_reads_past] shows why this is needed). *)
Definition mac_blocks_ok (b : list Z) : Prop :=
  be_value (take 2 b) = MAC_DRIVER_MAGIC -> be_value (take 2 (drop 2 b)) mod 512 = 0.

Record sane_disk (D : disk) : Prop := {
  sane_size : exists k, get_sector_size D = 512 * k /\ 1 <= k <= 8;
  sane_read : forall t n b, d_read D t n = Some b ->
    Z.of_nat (length b) = get_sector_size D /\ Forall is_byte b /\ (n = 0 -> mac_blocks_ok b) }.

Record OKstate (D : disk) (st : kstate) : Prop := {
  ok_cache : Forall (fun '(n, b) => Z.of_nat (length b) = get_sector_size D /\ Forall is_byte b /\
                                    (n = 0 -> mac_blocks_ok b)) (k_cache st);
  ok_slices : length (k_slices st) = 256%nat }.

Definition good_block (bp : list Z) : Prop := (512 <= length bp)%nat /\ Forall is_byte bp.

Section Safe.
Context (D : disk) (HD : sane_disk D).

Abbreviation ok := (returns (OKstate D)).

Lemma getblock_reads blknr : 0 <= blknr ->
  ok (fun r => match r with Some bp => good_block bp /\ (blknr = 0 -> mac_blocks_ok bp) | None => True end) (getblock D blknr).
Proof.
  intros Hb st [Hc Hs]. destruct (sane_size D HD) as (k & Hsz & Hk). unfold getblock. cbv zeta.
  rewrite Hsz, (Z.mul_comm 512 k), Z.quot_mul, u32_id by lia. if_false.
  assert (forall b, Z.of_nat (length b) = get_sector_size D -> Forall is_byte b ->
            (blknr / k = 0 -> mac_blocks_ok b) ->
            let bp := drop (Z.to_nat (blknr mod k * 512)) b in good_block bp /\ (blknr = 0 -> mac_blocks_ok bp)) as Hgood.
  { intros b Hlen Hby Hmac. cbv zeta. pose proof (Z.mod_pos_bound blknr k ltac:(lia)). split.
    - split; [rewrite length_drop; lia|by apply Forall_drop].
    - intros ->. rewrite Z.mod_0_l by lia. by apply Hmac, Z.div_0_l; lia. }
  destruct (find _ (k_cache st)) as [[n b]|] eqn:Hf.
  - apply find_some in Hf as [Hin Hn%Z.eqb_eq]. apply list_elem_of_In in Hin. rewrite Forall_forall in Hc.
    destruct (Hc _ Hin) as (H1 & H2 & H3). eexists _, st. split; [reflexivity|]. split; [split; [by apply Forall_forall|done]|].
    apply Hgood; [done..|]. rewrite <-Hn. done.
  - destruct (d_read D (k_reads st) (blknr / k)) as [b|] eqn:Hr.
    + destruct (sane_read D HD _ _ _ Hr) as (H1 & H2 & H3). eexists _, _. split; [reflexivity|].
      split; [|by apply Hgood]. split; [|done]. cbn. by constructor.
    + eexists _, _. split; [reflexivity|]. by split; [split|].
Qed.

Lemma set_slice_returns i f : 0 <= i < 256 -> ok (fun _ => True) (set_slice i f).
Proof.
  intros Hi st [Hc Hs]. unfold set_slice. if_false.
  destruct (lookup_lt_is_Some_2 (k_slices st) (Z.to_nat i) ltac:(lia)) as [x Hx]. rewrite Hx.
  eexists _, _. split; [reflexivity|]. split; [|done]. split; [done|]. cbn. by rewrite length_insert.
Qed.

Lemma get_slice_returns i : 0 <= i < 256 -> ok (fun _ => True) (get_slice i).
Proof.
  intros Hi st Hst. unfold get_slice. if_false.
  destruct (lookup_lt_is_Some_2 (k_slices st) (Z.to_nat i)) as [x Hx]; [rewrite (ok_slices D st Hst); lia|].
  rewrite Hx. by exists x, st.
Qed.

Lemma le_at_returns b off n : (off + n <= length b)%nat -> Forall is_byte b ->
  ok (fun z => 0 <= z < 256 ^ Z.of_nat n) (le_at b off n).
Proof.
  intros Hl Hb. unfold le_at. rewrite bytes_at_Some by done. eapply returns_lift; [reflexivity|].
  pose proof (le_value_range (take n (drop off b)) ltac:(by apply Forall_take, Forall_drop)) as H.
  rewrite length_take, length_drop in H. by replace (n `min` (length b - off))%nat with n in H by lia.
Qed.

Lemma be_at_returns b off n : (off + n <= length b)%nat -> Forall is_byte b ->
  ok (fun z => z = be_value (take n (drop off b)) /\ 0 <= z < 256 ^ Z.of_nat n) (be_at b off n).
Proof.
  intros Hl Hb. unfold be_at. rewrite bytes_at_Some by done. eapply returns_lift; [reflexivity|]. split; [done|].
  pose proof (le_value_range (reverse (take n (drop off b)))) as H. rewrite length_reverse, length_take, length_drop in H.
  replace (n `min` (length b - off))%nat with n in H by lia. apply H.
  by apply Forall_reverse, Forall_take, Forall_drop.
Qed.
End Safe.

Create HintDb reads.
#[export] Hint Resolve set_slice_returns get_slice_returns le_at_returns be_at_returns : reads.

(** One step of a computation that returns: the rule for its head. *)
Ltac ret_step :=
  lazymatch goal with
  | |- returns _ _ (mbind _ _) =>
      eapply returning_bind;
      [ first [ eapply le_at_returns | eapply be_at_returns | eapply set_slice_returns | eapply get_slice_returns ] ; try eassumption; try lia
      | cbv beta; intros ? ? ]
  | |- returns _ _ (mret _) => apply returns_ret
  | |- returns _ _ (if ?b then _ else _) => destruct b eqn:?; bools
  | |- returns _ _ (match ?o with Some _ => _ | None => _ end) => destruct o
  end.

Section SafeReaders.
Context (D : disk) (HD : sane_disk D).

Abbreviation ok := (returns (OKstate D)).
Abbreviation any := (fun _ => True).

(** The pattern of all readers: no block, no table. *)
Lemma getblock_then {B} (Q : B -> Prop) blknr (f : option (list Z) -> M B) : 0 <= blknr ->
  ok Q (f None) -> (forall bp, good_block bp -> ok Q (f (Some bp))) -> ok Q (getblock D blknr ≫= f).
Proof.
  intros Hb Hn Hs. eapply returning_bind; [by apply getblock_reads|]. intros [bp|]; [|done]. intros [H _]. by apply Hs.
Qed.

Lemma partition_returns bp i : good_block bp -> (i < 4)%nat -> ok any (partition_at bp i).
Proof. intros [Hl Hb] Hi. unfold partition_at. do 3 ret_step. ret_step. done. Qed.

Lemma signature_returns bp : good_block bp -> ok any (signature_ok bp).
Proof. intros [Hl Hb]. unfold signature_ok. do 2 ret_step. ret_step. done. Qed.

Lemma ext_entry_returns en sp ns first here bp i x : good_block bp -> (i < 4)%nat ->
  0 <= sp -> sp + ns <= 256 -> 0 <= x_n x ->
  ok (fun '(r, y) => x_n x <= x_n y /\ (x_n y <= x_n x \/ x_n y <= ns) /\
        (r = false -> x_n y = x_n x /\ x_loopct y = x_loopct x \/ x_n x < x_n y /\ x_loopct y = 0%nat))
     (ext_entry D en sp ns first here bp i x).
Proof.
  intros Hbp Hi Hsp Hns Hx. unfold ext_entry.
  eapply returning_bind; [by apply partition_returns|]. intros p _.
  destruct (is_extended _). { destruct (_ && _)%bool; apply returns_ret; cbn; lia. }
  ret_step; [|apply returns_ret; lia]. ret_step. ret_step. cbn. lia.
Qed.

(** The loop ends: every 100 tables at least one slice is filled. *)
Lemma ext_loop_returns fuel en sp ns first next n loopct : 0 <= sp -> sp + ns <= 256 -> 0 <= n <= ns ->
  (101 * Z.to_nat (ns - n) + (101 - loopct) < fuel)%nat ->
  ok (fun k => n <= k <= ns) (ext_loop D fuel en sp ns first next n loopct).
Proof.
  intros Hsp Hns. revert next n loopct. induction fuel as [|f IH]; intros next n loopct Hn Hf; [lia|].
  cbn [ext_loop]. destruct (100 <? S loopct)%nat eqn:Hct; [apply returns_ret; lia|]. apply Nat.ltb_ge in Hct.
  apply getblock_then; [apply u32_range|by apply returns_ret; lia|]. intros bp Hbp.
  eapply returning_bind; [by apply signature_returns|]. intros b _. destruct b; cbn [negb]; [|apply returns_ret; lia].
  eapply returning_bind; [apply ext_entry_returns; cbn; first [done|lia]|]. intros [r x]; cbn [x_n x_loopct]. intros H1.
  destruct r; [apply returns_ret; lia|]. destruct H1 as (H1 & H2 & H3).
  eapply returning_bind; [apply ext_entry_returns; first [done|lia]|]. intros [r y] H4.
  destruct r; [apply returns_ret; lia|]. destruct H4 as (H4 & H5 & H6).
  specialize (H3 eq_refl). specialize (H6 eq_refl).
  destruct (x_moretodo y); [|apply returns_ret; lia].
  eapply returns_mono; [|apply IH; lia]. cbn. lia.
Qed.

Lemma dos_entries_returns todo bp i n : good_block bp -> (todo + i = 4)%nat -> 4 <= n <= 256 ->
  ok (fun k => 0 <= k <= 256) (dos_entries D todo bp 256 i n).
Proof.
  intros Hbp. revert i n. induction todo as [|todo IH]; intros i n Hi Hn; cbn [dos_entries]; [apply returns_ret; lia|].
  eapply returning_bind; [apply partition_returns; first [done|lia]|]. intros p _.
  destruct (is_gpt _); [apply returns_ret; lia|]. destruct (Z.of_nat i <? 256); [|apply returns_ret; lia].
  ret_step. destruct (is_extended _); [|apply IH; lia]. ret_step.
  assert (s32 (256 - n) = 256 - n) as -> by (apply s32_id; unfold is_int, INT_MIN, INT_MAX; lia).
  unfold read_extended_partition. eapply returning_bind.
  { apply ext_loop_returns; first [lia|unfold EXT_FUEL; lia]. }
  cbv beta. intros k Hk. apply IH; lia.
Qed.

Lemma read_dos_returns all : ok (fun n => -1 <= n <= 256) (read_dos_pt D all 256).
Proof.
  unfold read_dos_pt. apply getblock_then; [apply u32_range|by apply returns_ret; lia|]. intros bp Hbp.
  eapply returning_bind; [by apply signature_returns|]. intros b _. destruct b; cbn [negb]; [|apply returns_ret; lia].
  eapply returns_mono; [|apply dos_entries_returns; first [done|lia]]. cbn. lia.
Qed.

Lemma contain_pair_returns i j e : 0 <= i < 256 -> 0 <= j < 256 -> ok any (contain_pair i j e).
Proof. intros Hi Hj. unfold contain_pair. repeat ret_step; first [done|by apply set_slice_returns]. Qed.

Lemma contain_all_returns todo i j e : 0 <= i < 256 -> 0 <= j -> j + Z.of_nat todo <= 256 ->
  ok any (contain_all todo i j e).
Proof.
  intros Hi. revert j. induction todo as [|todo IH]; intros j Hj Ht; cbn [contain_all]; [by apply returns_ret|].
  eapply returning_bind; [apply contain_pair_returns; lia|]. intros _ _. apply IH; lia.
Qed.

Lemma contain_slices_returns todo count i : 0 <= i -> i + Z.of_nat todo <= 256 -> Z.of_nat count <= 256 ->
  ok any (contain_slices todo count i).
Proof.
  intros Hi Ht Hc. revert i Hi Ht. induction todo as [|todo IH]; intros i Hi Ht; cbn [contain_slices]; [by apply returns_ret|].
  ret_step. eapply (returning_bind _ (fun _ : unit => True)); [|intros _ _; apply IH; lia].
  ret_step; [by apply returns_ret|apply contain_all_returns; lia].
Qed.

(** The tables that are arrays of entries of one size. *)
Lemma bsd_partitions_returns todo l off n : Forall is_byte l -> (off + 16 * todo <= length l)%nat -> 0 <= n <= 256 ->
  ok (fun k => 0 <= k <= 256) (bsd_partitions todo l 256 off n).
Proof.
  intros Hl. revert off n. induction todo as [|todo IH]; intros off n Ho Hn; cbn [bsd_partitions]; [by apply returns_ret|].
  ret_step. ret_step; [apply IH; lia|]. ret_step; [|apply returns_ret; lia]. do 3 ret_step. apply IH; lia.
Qed.

Lemma solaris_slices_returns todo l offset off n : Forall is_byte l -> (off + 16 * todo <= length l)%nat -> 0 <= n <= 256 ->
  ok (fun k => 0 <= k <= 256) (solaris_slices todo l 256 offset off n).
Proof.
  intros Hl. revert off n. induction todo as [|todo IH]; intros off n Ho Hn; cbn [solaris_slices]; [by apply returns_ret|].
  ret_step. ret_step; [apply IH; lia|]. ret_step; [|apply returns_ret; lia]. do 2 ret_step. apply IH; lia.
Qed.

Lemma unixware_slices_returns todo l off n : Forall is_byte l -> (off + 12 * todo <= length l)%nat -> 0 <= n <= 256 ->
  ok (fun k => 0 <= k <= 256) (unixware_slices todo l 256 off n).
Proof.
  intros Hl. revert off n. induction todo as [|todo IH]; intros off n Ho Hn; cbn [unixware_slices]; [by apply returns_ret|].
  ret_step. ret_step; [apply IH; lia|]. ret_step; [|apply returns_ret; lia]. do 3 ret_step. apply IH; lia.
Qed.

Lemma sun_slices_returns todo l offset off n : Forall is_byte l -> (off + 8 * todo <= length l)%nat -> (440 <= length l)%nat ->
  0 <= n <= 256 -> ok (fun k => 0 <= k <= 256) (sun_slices todo l 256 offset off n).
Proof.
  intros Hl. revert off n. induction todo as [|todo IH]; intros off n Ho Hn Hk; cbn [sun_slices]; [by apply returns_ret|].
  ret_step; [|apply returns_ret; lia]. do 5 ret_step. apply IH; lia.
Qed.

Lemma ps3_partitions_returns todo l off n : Forall is_byte l -> (off + 144 * todo <= length l)%nat ->
  0 <= n -> n + Z.of_nat todo <= 256 -> ok (fun k => 0 <= k <= 256) (ps3_partitions todo l off n).
Proof.
  intros Hl. revert off n. induction todo as [|todo IH]; intros off n Ho Hn Hk; cbn [ps3_partitions]; [apply returns_ret; lia|].
  do 2 ret_step. ret_step; [ret_step|]; apply IH; lia.
Qed.

Lemma bsd_label_returns l : Forall is_byte l -> (404 <= length l)%nat -> ok (fun n => -1 <= n <= 256) (bsd_label l 256).
Proof.
  intros Hl Hlen. unfold bsd_label. ret_step.
  eapply returning_bind; [apply bsd_partitions_returns; first [done|lia]|]. cbv beta. intros n Hn.
  eapply returning_bind; [apply contain_slices_returns; lia|]. intros _ _. apply returns_ret. lia.
Qed.

Lemma read_bsd_returns all : ok (fun n => -1 <= n <= 256) (read_bsd_pt D all 256).
Proof.
  unfold read_bsd_pt. cbv zeta. apply getblock_then; [apply u32_range|by apply returns_ret; lia|]. intros bp [Hl Hb].
  ret_step. ret_step; [apply bsd_label_returns; [done|lia]|].
  apply getblock_then; [apply u32_range|by apply returns_ret; lia|]. intros bp2 [Hl2 Hb2].
  eapply returning_bind; [apply le_at_returns; [rewrite length_drop; lia|by apply Forall_drop]|]. cbv beta. intros z Hz.
  ret_step; [|apply returns_ret; lia]. apply bsd_label_returns; [by apply Forall_drop|rewrite length_drop; lia].
Qed.

Lemma read_solaris_returns all : ok (fun n => -1 <= n <= 256) (read_solaris_pt D all 256).
Proof.
  unfold read_solaris_pt. cbv zeta. apply getblock_then; [apply u32_range|by apply returns_ret; lia|]. intros bp [Hl Hb].
  ret_step. ret_step; [apply returns_ret; lia|]. ret_step. ret_step; [apply returns_ret; lia|].
  eapply returns_mono; [|apply solaris_slices_returns; [done|unfold SOLARIS_X86_NUMSLICE; lia|lia]]. cbn. lia.
Qed.

Lemma four2int_returns l off : Forall is_byte l -> (off + 4 <= length l)%nat -> ok any (four2int l off).
Proof. intros Hl Hlen. unfold four2int. do 4 ret_step. by apply returns_ret. Qed.

Lemma read_unixware_returns all : ok (fun n => -1 <= n <= 256) (read_unixware_pt D all 256).
Proof.
  unfold read_unixware_pt. apply getblock_then; [apply u32_range|by apply returns_ret; lia|]. intros bp [Hl Hb].
  do 2 (eapply returning_bind; [apply four2int_returns; [done|lia]|]; intros ? _).
  destruct (_ || _)%bool; [apply returns_ret; lia|].
  eapply returns_mono; [|apply unixware_slices_returns; [done|unfold UNIXWARE_NUMSLICE; lia|lia]]. cbn. lia.
Qed.

Lemma xor_words_returns todo l off csum : Forall is_byte l -> (off + 2 * todo <= length l)%nat -> ok any (xor_words todo l off csum).
Proof.
  intros Hl. revert off csum. induction todo as [|todo IH]; intros off csum Ho; cbn [xor_words]; [by apply returns_ret|].
  ret_step. apply IH. lia.
Qed.

Lemma sun_checksum_returns l : Forall is_byte l -> (512 <= length l)%nat -> ok any (sun_verify_checksum l).
Proof.
  intros Hb Hl. unfold sun_verify_checksum. eapply returning_bind; [apply xor_words_returns; [done|lia]|].
  intros c _. by apply returns_ret.
Qed.

Lemma read_sun_returns all : ok (fun n => -1 <= n <= 256) (read_sun_pt D all 256).
Proof.
  unfold read_sun_pt. cbv zeta. apply getblock_then; [apply u32_range|by apply returns_ret; lia|]. intros bp [Hl Hb].
  ret_step. ret_step; [apply returns_ret; lia|].
  eapply returning_bind; [by apply sun_checksum_returns|].
  intros b _. destruct b; cbn [negb]; [|apply returns_ret; lia].
  eapply returning_bind; [apply sun_slices_returns; [done|unfold SUN_DISK_MAXPARTITIONS; lia..]|]. cbv beta. intros n Hn.
  eapply returning_bind; [apply contain_slices_returns; unfold SUN_DISK_MAXPARTITIONS; lia|]. intros _ _. apply returns_ret. cbn in Hn. lia.
Qed.

Lemma read_disklabel_returns todo i : 0 <= i ->
  ok (fun r => match r with Some l => Forall is_byte l /\ length l = (512 * todo)%nat | None => True end) (read_disklabel D todo i).
Proof.
  revert i. induction todo as [|todo IH]; intros i Hi; cbn [read_disklabel]; [by apply returns_ret|].
  apply getblock_then; [done|by apply returns_ret|]. intros bp [Hl Hb].
  eapply returning_bind.
  { rewrite bytes_at_Some by done. eapply (returns_lift _ (fun l => Forall is_byte l /\ length l = 512%nat)); [done|].
    split; [by apply Forall_take|]. rewrite length_take, drop_0. lia. }
  intros sector [Hs Hsl]. eapply returning_bind; [apply IH; lia|]. intros [rest|] Hr; apply returns_ret; [|done].
  cbn. destruct Hr. split; [by apply Forall_app_2|]. rewrite length_app. lia.
Qed.

Lemma read_ps3_returns all : ok (fun n => -1 <= n <= 256) (read_ps3_pt D all 256).
Proof.
  unfold read_ps3_pt. eapply returning_bind; [by apply read_disklabel_returns|]. intros [l|]; [|intros _; apply returns_ret; lia].
  intros [Hl Hlen]. do 2 ret_step. destruct (_ || _)%bool; [apply returns_ret; lia|].
  eapply returns_mono; [|apply ps3_partitions_returns; [done|unfold MAX_PARTITIONS; lia..]]. cbn. lia.
Qed.

Lemma mac_partitions_returns todo secsize bim blk n : 0 <= secsize < 65536 -> secsize mod 512 = 0 ->
  1 <= blk -> n = blk - 1 -> n <= 256 ->
  ok (fun k => -1 <= k <= 256) (mac_partitions D todo secsize bim 256 blk n).
Proof.
  intros Hs Hm. revert blk n. induction todo as [|todo IH]; intros blk n Hblk Hn Hmax; cbn [mac_partitions]; [apply returns_ret; lia|].
  ret_step; [|apply returns_ret; lia]. cbv zeta.
  assert (s32 (blk * secsize) = blk * secsize) as -> by (apply s32_id; unfold is_int, INT_MIN, INT_MAX; nia).
  apply getblock_then; [apply u32_range|apply returns_ret; lia|]. intros bp [Hl Hb].
  rewrite (Z.rem_mod_nonneg (blk * secsize) 512), <-Zmult_mod_idemp_r, Hm, Z.mul_0_r by nia.
  eapply returning_bind. { eapply (returns_lift _ (fun l => l = bp)); [|reflexivity]. if_false. reflexivity. }
  intros l ->. ret_step. ret_step; [apply returns_ret; lia|]. do 3 ret_step. apply IH; lia.
Qed.

Lemma read_mac_returns all : ok (fun n => -1 <= n <= 256) (read_mac_pt D all 256).
Proof.
  unfold read_mac_pt. eapply returning_bind; [by apply getblock_reads|].
  intros [md|]; [|intros _; apply returns_ret; lia]. intros [[Hl Hb] Hmac].
  ret_step. ret_step; [apply returns_ret; lia|]. ret_step. cbv beta in *. destruct_and!. subst.
  specialize (Hmac eq_refl). unfold mac_blocks_ok in Hmac. rewrite drop_0 in *. specialize (Hmac ltac:(done)).
  set (secsize := be_value (take 2 (drop 2 md))) in *.
  apply getblock_then; [apply Z.div_pos; lia|apply returns_ret; lia|]. intros bp [Hl2 Hb2].
  rewrite Hmac, drop_0. ret_step. ret_step; [apply returns_ret; lia|]. ret_step.
  apply mac_partitions_returns; [cbn in *; lia|done|lia..].
Qed.
End SafeReaders.

(** The readers of this file, in the order in which kpartx tries them (the one for GPT is in Gpt). *)
Definition readers (D : disk) : list (slice -> Z -> M Z) :=
  [read_dos_pt D; read_bsd_pt D; read_solaris_pt D; read_unixware_pt D; read_mac_pt D; read_sun_pt D; read_ps3_pt D].


Definition initial : kstate := {| k_cache := []; k_reads := 0; k_slices := replicate 256 empty_slice |}.

(** A disk of 512-byte sectors, most of them zero. *)
Definition sectors (l : list (Z * list Z)) (n : Z) : list Z :=
  match find (fun '(k, _) => k =? n) l with Some (_, b) => b | None => replicate 512 0 end.

Definition plain_disk (l : list (Z * list Z)) : disk := {|
  d_sector_size := Some 512; d_read := fun _ n => Some (sectors l n); d_is_block := Some true;
  d_size64 := Some (2 ^ 40); d_pread := fun _ _ _ => SeekFails; d_lastsect := None |}.

(** A sector with bytes put at offsets. *)
Definition sector (l : list (nat * list Z)) : list Z :=
  foldl (fun b '(off, p) => take off b ++ p ++ drop (off + length p) b) (replicate 512 0) l.

(** ** What a DOS table means

    The image of a disk of 512-byte sectors that answers every read.  A table of
    logical partitions is a chain of sectors: each has an entry of its own and one
    that leads to the next sector; starts are relative to the sector, links to the
    extended partition. *)

Definition entry (bp : list Z) (i : nat) : partition :=
  let off := (446 + i * 16)%nat in
  {| sys_type := le_value (take 1 (drop (off + 4) bp)); start_sect := le_value (take 4 (drop (off + 8) bp));
     nr_sects := le_value (take 4 (drop (off + 12) bp)) |}.

Definition signed_sector (bp : list Z) : Prop :=
  length bp = 512%nat /\ Forall is_byte bp /\ drop 510 bp = [0x55; 0xaa].

Definition data_slice (here : Z) (p : partition) (en : Z) : slice :=
  empty_slice <| start := here + start_sect p |> <| size := nr_sects p |> <| container := en |>.

Inductive logical_chain (image : Z -> list Z) (first en : Z) : Z -> list slice -> Prop :=
  | chain_end here : 0 <= here < 2 ^ 32 -> signed_sector (image here) ->
      is_extended (sys_type (entry (image here) 0)) = false -> is_extended (sys_type (entry (image here) 1)) = false ->
      logical_chain image first en here
        [data_slice here (entry (image here) 0) en; data_slice here (entry (image here) 1) en]
  | chain_link here l : 0 <= here < 2 ^ 32 -> signed_sector (image here) ->
      is_extended (sys_type (entry (image here) 0)) = false -> is_extended (sys_type (entry (image here) 1)) = true ->
      start_sect (entry (image here) 1) <> 0 -> nr_sects (entry (image here) 1) <> 0 ->
      logical_chain image first en (first + start_sect (entry (image here) 1)) l ->
      logical_chain image first en here (data_slice here (entry (image here) 0) en :: l).

(** The primary and the logical partitions from entry [i] on; of an extended
    partition two sectors are mapped. *)
Inductive dos_table (image : Z -> list Z) (mbr : list Z) : nat -> list slice -> list slice -> Prop :=
  | table_end : dos_table image mbr 4 [] []
  | table_plain i ps ls : (i < 4)%nat -> is_gpt (sys_type (entry mbr i)) = false ->
      is_extended (sys_type (entry mbr i)) = false -> dos_table image mbr (S i) ps ls ->
      dos_table image mbr i (data_slice 0 (entry mbr i) 0 :: ps) ls
  | table_extended i ps ls l : (i < 4)%nat -> is_extended (sys_type (entry mbr i)) = true ->
      logical_chain image (start_sect (entry mbr i)) (Z.of_nat i + 1) (start_sect (entry mbr i)) l ->
      dos_table image mbr (S i) ps ls ->
      dos_table image mbr i (data_slice 0 (entry mbr i) 0 <| size := 2 |> :: ps) (l ++ ls).

Section Image.
Context (D : disk) (image : Z -> list Z).
Context (Hsize : get_sector_size D = 512) (Hread : forall t n, d_read D t n = Some (image n)).

(** [m] reads the image: it gives [x] and turns the slices [l] into [l']. *)
Definition runs {A} (m : M A) (l : list slice) (x : A) (l' : list slice) : Prop :=
  forall st, Forall (fun '(n, b) => b = image n) (k_cache st) -> k_slices st = l ->
  exists st', m st = Some (x, st') /\ Forall (fun '(n, b) => b = image n) (k_cache st') /\ k_slices st' = l'.

Lemma runs_ret {A} (x : A) l : runs (mret x) l x l.
Proof. intros st Hc Hl. by exists st. Qed.

Lemma runs_bind {A B} (m : M A) (f : A -> M B) l1 x l2 y l3 : runs m l1 x l2 -> runs (f x) l2 y l3 -> runs (m ≫= f) l1 y l3.
Proof.
  intros Hm Hf st Hc Hl. destruct (Hm st Hc Hl) as (st1 & E & H1 & H2). destruct (Hf st1 H1 H2) as (st2 & E2 & H3).
  exists st2. split; [|done]. unfold mbind, M_bind. by rewrite E.
Qed.

Lemma mul_one : sector_size_mul D = 1.
Proof. unfold sector_size_mul. by rewrite Hsize. Qed.

Lemma getblock_runs b l : 0 <= b -> runs (getblock D b) l (Some (image b)) l.
Proof.
  intros Hb st Hc Hl. unfold getblock. cbv zeta. rewrite Hsize. cbn [Z.quot]. change (u32 (Z.quot 512 512)) with 1. if_false.
  rewrite Z.div_1_r, Z.mod_1_r. cbn [Z.mul Z.to_nat]. destruct (find _ (k_cache st)) as [[n blk]|] eqn:Hf.
  - apply find_some in Hf as [Hin Hn%Z.eqb_eq]. apply list_elem_of_In in Hin. rewrite Forall_forall in Hc.
    specialize (Hc _ Hin) as H1. cbn in H1. subst. exists st. rewrite drop_0. split; [done|]. split; [by apply Forall_forall|done].
  - rewrite Hread, drop_0. eexists. split; [reflexivity|]. split; [|done]. cbn. by constructor.
Qed.

Lemma le_at_runs b off n l : (off + n <= length b)%nat -> runs (le_at b off n) l (le_value (take n (drop off b))) l.
Proof. intros H st Hc Hl. unfold le_at. rewrite bytes_at_Some by done. by exists st. Qed.

Lemma partition_runs bp i l : length bp = 512%nat -> (i < 4)%nat -> runs (partition_at bp i) l (entry bp i) l.
Proof.
  intros Hl Hi. unfold partition_at. cbv zeta. do 3 (eapply runs_bind; [apply le_at_runs; lia|]). apply runs_ret.
Qed.

Lemma signature_runs bp l : signed_sector bp -> runs (signature_ok bp) l true l.
Proof.
  intros (Hl & _ & Hs). unfold signature_ok. do 2 (eapply runs_bind; [apply le_at_runs; lia|]).
  replace 511%nat with (510 + 1)%nat by done. rewrite <-drop_drop, Hs. apply runs_ret.
Qed.

Lemma set_slice_runs i (f : slice -> slice) a x b : i = Z.of_nat (length a) -> runs (set_slice i f) (a ++ x :: b) tt (a ++ f x :: b).
Proof.
  intros -> st Hc Hl. unfold set_slice. if_false. rewrite Nat2Z.id, Hl, list_lookup_middle by done.
  eexists. split; [reflexivity|]. split; [done|]. cbn. by rewrite insert_app_r_alt, Nat.sub_diag.
Qed.

Lemma entry_range bp i : Forall is_byte bp -> 0 <= start_sect (entry bp i) < 2 ^ 32 /\ 0 <= nr_sects (entry bp i) < 2 ^ 32.
Proof.
  intros Hb. assert (forall off, 0 <= le_value (take 4 (drop off bp)) < 2 ^ 32) as H; [|split; apply H].
  intros off. pose proof (le_value_range (take 4 (drop off bp)) ltac:(by apply Forall_take, Forall_drop)) as H.
  assert (256 ^ Z.of_nat (length (take 4 (drop off bp))) <= 256 ^ 4); [|lia].
  apply Z.pow_le_mono_r; [lia|]. rewrite length_take. lia.
Qed.

(** An entry with data fills the next slice. *)
Lemma data_entry_runs en sp ns first here bp i x a b :
  signed_sector bp -> (i < 4)%nat -> is_extended (sys_type (entry bp i)) = false -> 0 <= here < 2 ^ 32 ->
  x_n x < ns -> sp + x_n x = Z.of_nat (length a) ->
  runs (ext_entry D en sp ns first here bp i x) (a ++ empty_slice :: b)
    (false, {| x_next := x_next x; x_moretodo := x_moretodo x; x_n := x_n x + 1; x_loopct := 0 |})
    (a ++ data_slice here (entry bp i) (en + 1) :: b).
Proof.
  intros (Hl & Hby & _) Hi He Hh Hn Ha. unfold ext_entry. eapply runs_bind; [by apply partition_runs|].
  rewrite He. if_true. pose proof (entry_range bp i Hby) as [Hs Hz]. rewrite mul_one.
  eapply runs_bind; [by apply set_slice_runs|]. cbn [upd eta_of eta_slice].
  rewrite !Z.mul_1_l, !u32_id, u64_id by lia. apply runs_ret.
Qed.

Lemma link_entry_runs en sp ns first here bp i x l :
  signed_sector bp -> (i < 4)%nat -> is_extended (sys_type (entry bp i)) = true -> start_sect (entry bp i) <> 0 ->
  nr_sects (entry bp i) <> 0 -> x_moretodo x = false -> 0 <= first < 2 ^ 32 ->
  runs (ext_entry D en sp ns first here bp i x) l
    (false, {| x_next := first + start_sect (entry bp i); x_moretodo := true; x_n := x_n x; x_loopct := x_loopct x |}) l.
Proof.
  intros (Hl & Hby & _) Hi He Hs Hz Hm Hf. unfold ext_entry. eapply runs_bind; [by apply partition_runs|].
  rewrite He, Hm, mul_one. pose proof (entry_range bp i Hby) as [Hs' Hz']. do 2 rewrite (proj2 (Z.eqb_neq _ _)) by done.
  cbn [negb andb]. rewrite Z.mul_1_l, u32_id, u64_id by lia. apply runs_ret.
Qed.

Lemma app_cons {A} (a : list A) x b : a ++ x :: b = (a ++ [x]) ++ b.
Proof. by rewrite <-app_assoc. Qed.

Lemma ext_loop_runs en sp ns first next l m : logical_chain image first (en + 1) next l -> 0 <= first < 2 ^ 32 ->
  forall fuel n a, (length l < fuel)%nat -> n + Z.of_nat (length l) <= ns -> sp + n = Z.of_nat (length a) ->
  runs (ext_loop D fuel en sp ns first next n 0) (a ++ replicate (length l + m) empty_slice)
    (n + Z.of_nat (length l)) (a ++ l ++ replicate m empty_slice).
Proof.
  intros Hch Hf. induction Hch as [here Hh Hsig H0 H1 | here l Hh Hsig H0 H1 Hs Hz Hch IH]; intros [|fuel] n a Hfuel Hn Ha;
    try lia; cbn [length] in *; cbn [ext_loop]; change (100 <? 1)%nat with false; cbn iota.
  - change (replicate (2 + m) empty_slice) with (empty_slice :: empty_slice :: replicate m empty_slice).
    eapply runs_bind; [apply getblock_runs, u32_range|]. rewrite u32_id by lia.
    eapply runs_bind; [by apply signature_runs|]. cbn [negb].
    eapply runs_bind; [apply data_entry_runs; cbn [x_n]; (done || lia)|]. cbn [x_n x_next x_moretodo].
    rewrite (app_cons a).
    eapply runs_bind; [apply data_entry_runs; cbn [x_n]; (done || lia || (rewrite length_app; cbn; lia))|].
    cbn [x_n x_moretodo]. rewrite <-!app_cons. replace (n + 1 + 1) with (n + Z.of_nat 2) by lia. apply runs_ret.
  - change (replicate (S (length l) + m) empty_slice) with (empty_slice :: replicate (length l + m) empty_slice).
    eapply runs_bind; [apply getblock_runs, u32_range|]. rewrite u32_id by lia.
    eapply runs_bind; [by apply signature_runs|]. cbn [negb].
    eapply runs_bind; [apply data_entry_runs; cbn [x_n]; (done || lia)|]. cbn [x_n x_next x_moretodo].
    eapply runs_bind; [apply link_entry_runs; (done || lia)|]. cbn [x_n x_next x_moretodo x_loopct].
    rewrite (app_cons a).
    replace (n + Z.of_nat (S (length l))) with (n + 1 + Z.of_nat (length l)) by lia.
    cbn [app]. rewrite (app_cons a _ (l ++ _)).
    apply IH; [lia|lia|]. rewrite length_app. cbn. lia.
Qed.

Lemma table_primaries mbr i ps ls : dos_table image mbr i ps ls -> (length ps + i = 4)%nat.
Proof. induction 1; cbn [length]; lia. Qed.

Lemma dos_entries_runs mbr i ps ls : signed_sector mbr -> dos_table image mbr i ps ls ->
  forall a b m, length a = i -> (4 + length b + length ls + m = 256)%nat ->
  runs (dos_entries D (4 - i) mbr 256 i (4 + Z.of_nat (length b)))
    (a ++ replicate (4 - i) empty_slice ++ b ++ replicate (length ls + m) empty_slice)
    (4 + Z.of_nat (length b) + Z.of_nat (length ls)) (a ++ ps ++ b ++ ls ++ replicate m empty_slice).
Proof.
  intros (Hl & Hby & _) Ht. induction Ht as [|i ps ls Hi Hg He Ht IH|i ps ls l Hi He Hch Ht IH]; intros a b m Ha Hm.
  { cbn [Nat.sub dos_entries app length]. rewrite Z.add_0_r. apply runs_ret. }
  all: pose proof (entry_range mbr i Hby) as [Hs Hz].
  all: replace (4 - i)%nat with (S (4 - S i)) by lia; cbn [dos_entries replicate app].
  all: eapply runs_bind; [by apply partition_runs|].
  - rewrite Hg. if_true. eapply runs_bind; [apply set_slice_runs; lia|]. rewrite He, mul_one, !Z.mul_1_l, !u64_id by lia.
    specialize (IH (a ++ [data_slice 0 (entry mbr i) 0]) b m). rewrite length_app, <-!app_assoc in IH. cbn [app length] in IH.
    apply IH; lia.
  - assert (is_gpt (sys_type (entry mbr i)) = false) as ->.
    { unfold is_extended in He. unfold is_gpt. apply Z.eqb_neq. intros E. by rewrite E in He. }
    if_true. eapply runs_bind; [apply set_slice_runs; lia|]. rewrite He, mul_one, !Z.mul_1_l, !u64_id by lia. cbn [Z.eqb Pos.eqb].
    eapply runs_bind; [apply set_slice_runs; lia|]. rewrite length_app in *.
    assert (s32 (256 - (4 + Z.of_nat (length b))) = 256 - (4 + Z.of_nat (length b))) as ->
      by (apply s32_id; unfold is_int, INT_MIN, INT_MAX; lia).
    unfold read_extended_partition. rewrite mul_one, Z.mul_1_l, u32_id by lia.
    set (a' := a ++ data_slice 0 (entry mbr i) 0 <| size := 2 |> :: replicate (4 - S i) empty_slice ++ b).
    assert (length a' = (4 + length b)%nat) as Ha' by (subst a'; rewrite length_app; cbn [length]; rewrite length_app, length_replicate; lia).
    pose proof (ext_loop_runs (Z.of_nat i) (4 + Z.of_nat (length b)) (256 - (4 + Z.of_nat (length b))) _ _ l (length ls + m) Hch Hs
      (EXT_FUEL (256 - (4 + Z.of_nat (length b)))) 0 a' ltac:(unfold EXT_FUEL; lia) ltac:(lia) ltac:(lia)) as Hext.
    subst a'. rewrite <-!app_assoc in Hext. cbn [app] in Hext. rewrite <-!app_assoc in Hext.
    replace (length l + (length ls + m))%nat with (length l + length ls + m)%nat in Hext by lia.
    eapply runs_bind; [exact Hext|].
    specialize (IH (a ++ [data_slice 0 (entry mbr i) 0 <| size := 2 |>]) (b ++ l) m). rewrite !length_app, <-!app_assoc in IH.
    cbn [app length] in IH. rewrite <-!app_assoc.
    replace (4 + Z.of_nat (length b) + (0 + Z.of_nat (length l))) with (4 + Z.of_nat (length b + length l)) by lia.
    replace (4 + Z.of_nat (length b) + Z.of_nat (length l + length ls)) with (4 + Z.of_nat (length b + length l) + Z.of_nat (length ls)) by lia.
    apply IH; lia.
Qed.
End Image.


(** ** Examples *)

(** An entry of a DOS table; the numbers are below 65536. *)
Definition dos_entry (type a z : Z) : list Z :=
  [0; 0; 0; 0; type; 0; 0; 0; a mod 256; a / 256; 0; 0; z mod 256; z / 256; 0; 0].

Definition dos_disk : list (Z * list Z) := [
  (0, sector [(446%nat, dos_entry 0x83 2048 4096); (462%nat, dos_entry 5 8192 8192); (510%nat, [0x55; 0xaa])]);
  (8192, sector [(446%nat, dos_entry 0x83 63 100); (462%nat, dos_entry 5 200 300); (510%nat, [0x55; 0xaa])]);
  (8392, sector [(446%nat, dos_entry 0x83 63 50); (510%nat, [0x55; 0xaa])])].

Definition dos_primaries : list slice :=
  [{| start := 2048; size := 4096; container := 0; major := 0; minor := 0 |};
   {| start := 8192; size := 2; container := 0; major := 0; minor := 0 |}; empty_slice; empty_slice].
Definition dos_logicals : list slice :=
  [{| start := 8255; size := 100; container := 2; major := 0; minor := 0 |};
   {| start := 8455; size := 50; container := 2; major := 0; minor := 0 |};
   {| start := 8392; size := 0; container := 2; major := 0; minor := 0 |}].

Lemma plain_disk_sane : sane_disk (plain_disk dos_disk).
Proof.
  split; [exists 1; split; [reflexivity|lia]|]. intros t n b [= <-].
  assert (Forall (fun c => length c = 512%nat /\ Forall is_byte c /\ mac_blocks_ok c) (replicate 512 0 :: map snd dos_disk)) as H.
  { repeat apply Forall_cons_2; try apply Forall_nil_2;
      (split; [reflexivity|split; [decide_closed|intros E; vm_compute in E; discriminate E]]). }
  rewrite Forall_forall in H.
  destruct (H (sectors dos_disk n)) as (H1 & H2 & H3); [|rewrite H1; split; [reflexivity|done]].
  unfold sectors. destruct (find _ dos_disk) as [[k c]|] eqn:E; [|by left].
  apply find_some in E as [E _]. right. apply list_elem_of_In, (in_map snd _ _ E).
Qed.

Lemma initial_ok D : OKstate D initial.
Proof. split; [by constructor|reflexivity]. Qed.


Lemma signed_examples : Forall (fun n => signed_sector (sectors dos_disk n)) [0; 8192; 8392].
Proof. repeat apply Forall_cons_2; try apply Forall_nil_2; (split; [reflexivity|split; [decide_closed|reflexivity]]). Qed.

Lemma dos_disk_table : dos_table (sectors dos_disk) (sectors dos_disk 0) 0 dos_primaries dos_logicals.
Proof.
  pose proof signed_examples as Hs. rewrite !Forall_cons in Hs. destruct Hs as (H0 & H1 & H2 & _).
  set (img := sectors dos_disk) in *.
  assert (dos_primaries = [data_slice 0 (entry (img 0) 0) 0; data_slice 0 (entry (img 0) 1) 0 <| size := 2 |>;
                           data_slice 0 (entry (img 0) 2) 0; data_slice 0 (entry (img 0) 3) 0]) as -> by reflexivity.
  assert (dos_logicals = [data_slice 8192 (entry (img 8192) 0) 2; data_slice 8392 (entry (img 8392) 0) 2;
                          data_slice 8392 (entry (img 8392) 1) 2] ++ []) as -> by reflexivity.
  apply table_plain; [lia|reflexivity..|]. apply table_extended; [lia|reflexivity| |].
  - change (start_sect (entry (img 0) 1)) with 8192.
    apply chain_link; [lia|done|reflexivity..| | |]; [by vm_compute..|].
    change (8192 + start_sect (entry (img 8192) 1)) with 8392. apply chain_end; [lia|done|reflexivity..].
  - do 2 (apply table_plain; [lia|reflexivity..|]). apply table_end.
Qed.


(** A Macintosh disk with blocks of 1023 bytes: the signature of the first partition is looked
    for at the last byte of a sector. *)
Example mac_reads_past :
  read_mac_pt (plain_disk [(0, sector [(0%nat, [0x45; 0x52; 0x03; 0xff])])]) empty_slice MAXSLICES initial = None.
Proof. vm_compute. reflexivity. Qed.

(** A disk of 4096-byte sectors whose extended partition starts at sector 2^29: its
    address in units of 512 bytes is computed with 32 bits, and the table is looked for in the first
    sector of the disk. *)
Example extended_start_wraps :
  let D := {| d_sector_size := Some 4096; d_read := fun _ _ => None; d_is_block := None; d_size64 := None;
              d_pread := fun _ _ _ => SeekFails; d_lastsect := None |} in
  forall fuel st, ext_loop D (S fuel) 0 4 252 (u32 (sector_size_mul D * 2 ^ 29)) (u32 (sector_size_mul D * 2 ^ 29)) 0 0 st =
                  ext_loop D (S fuel) 0 4 252 0 0 0 0 st.
Proof. reflexivity. Qed.
