(* ===== verification/Gpt.v ===== *)
(** * kpartx/gpt.c: GUID partition tables

    A table is its header and its array of entries, both as the bytes of the
    buffers they were read into.  [force_gpt] is the option -g, [le] the table of
    [Crc32].  The messages, those of [compare_gpts] too, are left out, and memory
    is assumed to last. *)

From S2P Require Import Prelude Crc32 Ptable.

Definition MSDOS_MBR_SIGNATURE : Z := 0xaa55.
Definition EFI_PMBR_OSTYPE_EFI_GPT : Z := 0xEE.
Definition GPT_HEADER_SIGNATURE : Z := 0x5452415020494645.
Definition GPT_PRIMARY_PARTITION_TABLE_LBA : Z := 1.
Definition GPT_HEADER_SIZE : Z := 512.
Definition GPT_ENTRY_SIZE : Z := 128.
Definition NULL_GUID : list Z := replicate 16 0.

(** The size that [aligned_malloc] gives. *)
Definition aligned (align size : Z) : Z := (size + align - 1) / align * align.

(** The first [n] bytes of a buffer. *)
Definition first_bytes (n : Z) (buf : list Z) : option (list Z) :=
  if n <=? Z.of_nat (length buf) then Some (take (Z.to_nat n) buf) else None.

Section Gpt.
Variable (D : disk) (le : list (option Z)) (force_gpt : bool).

Definition efi_crc32 (buf : list Z) (len : Z) : M Z :=
  lift (p ← first_bytes len buf; crc ← crc32_le le (2 ^ 32 - 1) p; Some (u32 (Z.lxor crc (2 ^ 32 - 1)))).

Definition is_pmbr_valid (mbr : list Z) : M bool :=
  signature ← le_at mbr 510 2;
  a ← le_at mbr 450 1; b ← le_at mbr 466 1; c ← le_at mbr 482 1; d ← le_at mbr 498 1;
  mret ((signature =? MSDOS_MBR_SIGNATURE) && existsb (Z.eqb EFI_PMBR_OSTYPE_EFI_GPT) [a; b; c; d]).

Definition get_num_sectors : Z :=
  match d_size64 D with Some bytes => bytes / get_sector_size D | None => 0 end.

Definition last_lba : Z :=
  match d_is_block D with
  | None => 0
  | Some blk => let sectors := if blk then get_num_sectors else 1 in if sectors =? 0 then 0 else sectors - 1
  end.

(** The return code and the buffer of [bytes] bytes, which was zero. *)
Definition read_lba (lba bytes : Z) : M (Z * list Z) := fun st =>
  let put b := b ++ replicate (Z.to_nat bytes - length b) 0 in
  match d_pread D (k_reads st) (s64 (lba * get_sector_size D)) bytes with
  | SeekFails => Some ((0, put []), st <| k_reads ::= S |>)
  | ReadFails => Some ((-1, put []), st <| k_reads ::= S |>)
  | ReadOk b =>
      let lastlba := last_lba in
      (* the last block of a disk of odd size *)
      if negb (lastlba =? 0) && (Z.of_nat (length b) =? 0) && Z.even lastlba && (lba =? lastlba) then
        match d_lastsect D with
        | Some b => Some ((1, put b), st <| k_reads ::= S |>)
        | None => Some ((0, put []), st <| k_reads ::= S |>)
        end
      else Some ((Z.of_nat (length b), put b), st <| k_reads ::= S |>)
  end.

Definition alloc_read_gpt_entries (gpt : list Z) : M (option (list Z)) :=
  num ← le_at gpt 80 4; sizeof ← le_at gpt 84 4;
  let count := u32 (num * sizeof) in
  if count =? 0 then mret None
  else
    lba ← le_at gpt 72 8;
    '(r, pte) ← read_lba lba (aligned (get_sector_size D) count);
    mret (if r =? 0 then None else Some pte).

Definition alloc_read_gpt_header (lba : Z) : M (option (list Z)) :=
  '(r, gpt) ← read_lba lba (aligned (get_sector_size D) GPT_HEADER_SIZE);
  mret (if r =? 0 then None else Some gpt).

(** [header_crc32] set to zero. *)
Definition without_crc (gpt : list Z) : list Z := take 16 gpt ++ [0; 0; 0; 0] ++ drop 20 gpt.

Definition is_gpt_valid (lba : Z) : M (option (list Z * list Z)) :=
  gpt ← alloc_read_gpt_header lba;
  match gpt with
  | None => mret None
  | Some gpt =>
      signature ← le_at gpt 0 8;
      if negb (signature =? GPT_HEADER_SIGNATURE) then mret None
      else
        origcrc ← le_at gpt 16 4; header_size ← le_at gpt 12 4;
        crc ← efi_crc32 (without_crc gpt) header_size;
        if negb (crc =? origcrc) then mret None
        else
          my_lba ← le_at gpt 24 8;
          if negb (my_lba =? lba) then mret None
          else
            sizeof ← le_at gpt 84 4;
            if negb (sizeof =? GPT_ENTRY_SIZE) then mret None
            else
              ptes ← alloc_read_gpt_entries gpt;
              match ptes with
              | None => mret None
              | Some ptes =>
                  num ← le_at gpt 80 4;
                  crc ← efi_crc32 ptes (u32 (num * sizeof));
                  array_crc ← le_at gpt 88 4;
                  mret (if crc =? array_crc then Some (gpt, ptes) else None)
              end
  end.

(** The alternate table. *)
Definition find_agpt (pgpt : option (list Z * list Z)) (lastlba : Z) : M (option (list Z * list Z)) :=
  match pgpt with
  | Some (gpt, _) =>
      alternate_lba ← le_at gpt 32 8;
      agpt ← is_gpt_valid alternate_lba;
      match agpt with Some _ => mret agpt | None => is_gpt_valid lastlba end
  | None => is_gpt_valid lastlba
  end.

Definition find_valid_gpt : M (option (list Z * list Z)) :=
  let lastlba := last_lba in
  if lastlba =? 0 then mret None
  else
    pgpt ← is_gpt_valid GPT_PRIMARY_PARTITION_TABLE_LBA;
    agpt ← find_agpt pgpt lastlba;
    match pgpt, agpt with
    | None, None => mret None
    | _, _ =>
        '(_, mbr) ← read_lba 0 (aligned (get_sector_size D) 512);
        good_pmbr ← is_pmbr_valid mbr;
        mret (if (good_pmbr : bool) || force_gpt then match pgpt with Some _ => pgpt | None => agpt end else None)
    end.

(** [i < num_partition_entries && i < ns]; [n] is equal to [i]. *)
Fixpoint gpt_entries (todo : nat) (ptes : list Z) (num i last_used : Z) : M Z :=
  match todo with
  | O => mret last_used
  | S todo =>
      if i <? num then
        guid ← lift (bytes_at ptes (Z.to_nat (128 * i)) 16);
        if bool_decide (guid = NULL_GUID) then
          set_slice i (fun sl => sl <| start := 0 |> <| size := 0 |>);;
          gpt_entries todo ptes num (i + 1) last_used
        else
          a ← le_at ptes (Z.to_nat (128 * i) + 32) 8; z ← le_at ptes (Z.to_nat (128 * i) + 40) 8;
          set_slice i (fun sl => sl <| start := u64 (sector_size_mul D * a) |>
                                    <| size := u64 (sector_size_mul D * u64 (z - a + 1)) |>);;
          gpt_entries todo ptes num (i + 1) i
      else mret last_used
  end.

Definition read_gpt_pt (all : slice) (ns : Z) : M Z :=
  found ← find_valid_gpt;
  match found with
  | None => mret 0
  | Some (gpt, ptes) =>
      num ← le_at gpt 80 4;
      last_used ← gpt_entries (Z.to_nat ns) ptes num 0 (-1);
      mret (last_used + 1)
  end.
End Gpt.

(** ** What is accepted *)

Definition field (buf : list Z) (off n : nat) : Z := le_value (take n (drop off buf)).

Definition efi_checksum (p : list Z) : Z := Z.lxor (crc32_le_bits (2 ^ 32 - 1) p) (2 ^ 32 - 1).

(** A buffer of zeros into which the disk was read. *)
Definition buffer_read (D : disk) (lba bytes : Z) (buf : list Z) : Prop :=
  exists t, let b := match d_pread D t (s64 (lba * get_sector_size D)) bytes with ReadOk b => b | _ => [] end in
    buf = b ++ replicate (Z.to_nat bytes - length b) 0.

Definition header_read (D : disk) (lba : Z) (gpt : list Z) : Prop :=
  buffer_read D lba (aligned (get_sector_size D) GPT_HEADER_SIZE) gpt.

(** A header and its entries that lie on the disk, name the place they were read from and have the
    right checksums. *)
Record valid_table (D : disk) (lba : Z) (gpt ptes : list Z) : Prop := {
  table_read : header_read D lba gpt;
  table_signature : field gpt 0 8 = GPT_HEADER_SIGNATURE;
  table_crc : efi_checksum (take (Z.to_nat (field gpt 12 4)) (without_crc gpt)) = field gpt 16 4;
  table_place : field gpt 24 8 = lba;
  table_entry_size : field gpt 84 4 = GPT_ENTRY_SIZE;
  entries_read : buffer_read D (field gpt 72 8) (aligned (get_sector_size D) (field gpt 80 4 * GPT_ENTRY_SIZE)) ptes;
  entries_there : field gpt 80 4 * GPT_ENTRY_SIZE <= Z.of_nat (length ptes);
  entries_crc : efi_checksum (take (Z.to_nat (field gpt 80 4 * GPT_ENTRY_SIZE)) ptes) = field gpt 88 4 }.

(** A sector 0 that protects the table. *)
Definition protective (mbr : list Z) : bool :=
  (field mbr 510 2 =? MSDOS_MBR_SIGNATURE) &&
  existsb (Z.eqb EFI_PMBR_OSTYPE_EFI_GPT) [field mbr 450 1; field mbr 466 1; field mbr 482 1; field mbr 498 1].

Definition protected (D : disk) : Prop :=
  exists mbr, buffer_read D 0 (aligned (get_sector_size D) 512) mbr /\ protective mbr = true.

(** What is relied on: no more bytes are read than were asked for, the kernel has no [BLKGETLASTSECT] (a call of
    Linux 2.4), and a header with the signature gives its size as at most a sector
    and fewer than 2^25 entries ([header_overread] and [entries_overread] show why). *)
Record honest_disk (D : disk) : Prop := {
  honest_size : exists k, get_sector_size D = 512 * k /\ 1 <= k <= 8;
  honest_pread : forall t off n b, d_pread D t off n = ReadOk b -> (length b <= Z.to_nat n)%nat /\ Forall is_byte b;
  honest_last : d_lastsect D = None;
  honest_headers : forall lba gpt, header_read D lba gpt -> field gpt 0 8 = GPT_HEADER_SIGNATURE ->
    field gpt 12 4 <= get_sector_size D /\ field gpt 80 4 < 2 ^ 25 }.

Definition entry_guid (ptes : list Z) (i : Z) : list Z := take 16 (drop (Z.to_nat (128 * i)) ptes).

(** Start and size of a partition, in units of 512 bytes. *)
Definition entry_extent (D : disk) (ptes : list Z) (i : Z) : Z * Z :=
  if bool_decide (entry_guid ptes i = NULL_GUID) then (0, 0)
  else let a := field ptes (Z.to_nat (128 * i) + 32) 8 in let z := field ptes (Z.to_nat (128 * i) + 40) 8 in
       (u64 (sector_size_mul D * a), u64 (sector_size_mul D * u64 (z - a + 1))).

Lemma first_bytes_Some n buf : 0 <= n <= Z.of_nat (length buf) -> first_bytes n buf = Some (take (Z.to_nat n) buf).
Proof. intros H. unfold first_bytes. by if_true. Qed.

Lemma aligned_ge a n : 0 < a -> n <= aligned a n.
Proof.
  intros Ha. unfold aligned. pose proof (Z.div_mod (n + a - 1) a ltac:(lia)). pose proof (Z.mod_pos_bound (n + a - 1) a Ha). lia.
Qed.

Lemma aligned_multiple k : 1 <= k <= 8 -> aligned (512 * k) 512 = 512 * k.
Proof.
  intros Hk. unfold aligned. rewrite <-(Z.div_unique (512 + 512 * k - 1) (512 * k) 1 511) by lia. lia.
Qed.

Section GptReturns.
Context (D : disk) (HD : honest_disk D) (le : list (option Z)).
Context (Hle : forall crc p, Forall is_byte p -> crc32_le le crc p = Some (crc32_le_bits crc p)).
Context (OK : kstate -> Prop) (HOK : forall st, OK st -> OK (st <| k_reads ::= S |>)).

Abbreviation ok := (returns OK).

Definition good_buffer (lba bytes : Z) (buf : list Z) : Prop :=
  buffer_read D lba bytes buf /\ length buf = Z.to_nat bytes /\ Forall is_byte buf.

Lemma put_good t lba bytes : 0 <= bytes ->
  good_buffer lba bytes (let b := match d_pread D t (s64 (lba * get_sector_size D)) bytes with ReadOk b => b | _ => [] end in
                         b ++ replicate (Z.to_nat bytes - length b) 0).
Proof.
  intros Hn. cbv zeta. split; [by exists t|].
  assert (forall b : list Z, (length b <= Z.to_nat bytes)%nat -> Forall is_byte b ->
    length (b ++ replicate (Z.to_nat bytes - length b) 0) = Z.to_nat bytes /\
    Forall is_byte (b ++ replicate (Z.to_nat bytes - length b) 0)) as H.
  { intros b Hb Hby. split; [len|]. apply Forall_app_2; [done|]. apply Forall_replicate. unfold is_byte. lia. }
  destruct (d_pread D t _ bytes) as [| |b] eqn:E; [apply H; [cbn; lia|by constructor]|apply H; [cbn; lia|by constructor]|].
  destruct (honest_pread D HD _ _ _ _ E). by apply H.
Qed.

Lemma read_lba_returns lba bytes : 0 <= bytes -> ok (fun '(_, buf) => good_buffer lba bytes buf) (read_lba D lba bytes).
Proof.
  intros Hn st Hst. pose proof (put_good (k_reads st) lba bytes Hn) as H. unfold read_lba.
  destruct (d_pread D (k_reads st) _ bytes) as [| |b] eqn:E; cbv zeta in *.
  - eexists _, _. split; [reflexivity|]. split; [by apply HOK|done].
  - eexists _, _. split; [reflexivity|]. split; [by apply HOK|done].
  - rewrite (honest_last D HD). destruct (_ && _)%bool eqn:Hc.
    + eexists _, _. split; [reflexivity|]. split; [by apply HOK|]. apply andb_true_iff in Hc as [Hc _].
      apply andb_true_iff in Hc as [Hc _]. apply andb_true_iff in Hc as [_ Hc]. apply Z.eqb_eq in Hc.
      destruct b; [done|cbn in Hc; lia].
    + eexists _, _. split; [reflexivity|]. by split; [apply HOK|].
Qed.

Lemma field_returns b off n : (off + n <= length b)%nat -> Forall is_byte b ->
  ok (fun z => z = field b off n /\ 0 <= z < 256 ^ Z.of_nat n) (le_at b off n).
Proof.
  intros Hl Hb. unfold le_at. rewrite bytes_at_Some by done. eapply returns_lift; [reflexivity|]. split; [done|].
  pose proof (le_value_range (take n (drop off b)) ltac:(by apply Forall_take, Forall_drop)) as H.
  rewrite length_take, length_drop in H. by replace (n `min` (length b - off))%nat with n in H by lia.
Qed.

Lemma efi_crc32_returns buf len : 0 <= len <= Z.of_nat (length buf) -> Forall is_byte buf ->
  ok (fun c => c = efi_checksum (take (Z.to_nat len) buf)) (efi_crc32 le buf len).
Proof.
  intros Hl Hb. unfold efi_crc32. rewrite first_bytes_Some by done. cbn [mbind option_bind].
  assert (Forall is_byte (take (Z.to_nat len) buf)) as Ht by by apply Forall_take.
  rewrite (Hle _ _ Ht). cbn [mbind option_bind]. eapply returns_lift; [reflexivity|].
  unfold efi_checksum. apply u32_id.
  assert (word (2 ^ 32 - 1)) as H1 by done. by apply word_lxor; [apply crc32_le_bits_word|].
Qed.

Lemma without_crc_good gpt : (20 <= length gpt)%nat -> Forall is_byte gpt ->
  length (without_crc gpt) = length gpt /\ Forall is_byte (without_crc gpt).
Proof.
  intros Hl Hb. unfold without_crc. split; [len|]. apply Forall_app_2; [by apply Forall_take|].
  apply Forall_app_2; [repeat apply Forall_cons_2; done|by apply Forall_drop].
Qed.

Lemma header_fits gpt lba : header_read D lba gpt -> field gpt 0 8 = GPT_HEADER_SIGNATURE ->
  field gpt 12 4 <= get_sector_size D /\ field gpt 80 4 < 2 ^ 25.
Proof. apply (honest_headers D HD). Qed.

Lemma alloc_header_returns lba :
  ok (fun r => match r with
               | Some gpt => header_read D lba gpt /\ Z.of_nat (length gpt) = get_sector_size D /\
                             (512 <= length gpt)%nat /\ Forall is_byte gpt
               | None => True end) (alloc_read_gpt_header D lba).
Proof.
  destruct (honest_size D HD) as (k & Hk & Hk8). unfold alloc_read_gpt_header.
  assert (aligned (get_sector_size D) GPT_HEADER_SIZE = 512 * k) as Ha by (rewrite Hk; by apply aligned_multiple).
  eapply returning_bind; [apply read_lba_returns; lia|]. intros [r gpt] (H1 & H2 & H3). rewrite Ha in H2.
  apply returns_ret. destruct (r =? 0); [done|]. split; [done|]. split; [lia|]. split; [lia|done].
Qed.

Lemma alloc_entries_returns gpt : (512 <= length gpt)%nat -> Forall is_byte gpt -> field gpt 84 4 = GPT_ENTRY_SIZE ->
  field gpt 80 4 < 2 ^ 25 ->
  ok (fun r => match r with
               | Some ptes => buffer_read D (field gpt 72 8) (aligned (get_sector_size D) (field gpt 80 4 * GPT_ENTRY_SIZE)) ptes /\
                              field gpt 80 4 * GPT_ENTRY_SIZE <= Z.of_nat (length ptes) /\ Forall is_byte ptes
               | None => True end) (alloc_read_gpt_entries D gpt).
Proof.
  intros Hl Hb Hs Hnum. destruct (honest_size D HD) as (k & Hk & Hk8). unfold alloc_read_gpt_entries.
  eapply returning_bind; [apply field_returns; [lia|done]|]. intros num [-> Hn].
  eapply returning_bind; [apply field_returns; [lia|done]|]. intros sz [-> _]. rewrite Hs. unfold GPT_ENTRY_SIZE in *.
  rewrite u32_id by lia. destruct (_ =? 0); [by apply returns_ret|].
  eapply returning_bind; [apply field_returns; [lia|done]|]. intros lba [-> _].
  pose proof (aligned_ge (get_sector_size D) (field gpt 80 4 * 128) ltac:(lia)) as Hge.
  eapply returning_bind; [apply read_lba_returns; lia|]. intros [r ptes] (H1 & H2 & H3). apply returns_ret.
  destruct (r =? 0); [done|]. split; [done|]. split; [lia|done].
Qed.

Definition accepted (lba : Z) (r : option (list Z * list Z)) : Prop :=
  match r with
  | Some (gpt, ptes) => valid_table D lba gpt ptes /\ (512 <= length gpt)%nat /\ Forall is_byte gpt /\ Forall is_byte ptes
  | None => True
  end.

Lemma is_gpt_valid_returns lba : ok (accepted lba) (is_gpt_valid D le lba).
Proof.
  unfold is_gpt_valid. eapply returning_bind; [apply alloc_header_returns|].
  intros [gpt|]; [|intros _; by apply returns_ret]. intros (Hrd & Hl & Hl5 & Hb).
  eapply returning_bind; [apply field_returns; [lia|done]|]. intros sig [-> _].
  destruct (negb _) eqn:Hs; bools; [by apply returns_ret|]. destruct (header_fits gpt lba Hrd Hs) as [Hfit Hnum].
  eapply returning_bind; [apply field_returns; [lia|done]|]. intros origcrc [-> _].
  eapply returning_bind; [apply field_returns; [lia|done]|]. intros hs [-> Hhs].
  destruct (without_crc_good gpt ltac:(lia) Hb) as [Hwl Hwb].
  eapply returning_bind; [apply efi_crc32_returns; [rewrite Hwl; lia|done]|]. intros crc ->.
  destruct (negb _) eqn:Hcrc; bools; [by apply returns_ret|].
  eapply returning_bind; [apply field_returns; [lia|done]|]. intros my [-> _].
  destruct (negb _) eqn:Hmy; bools; [by apply returns_ret|].
  eapply returning_bind; [apply field_returns; [lia|done]|]. intros sz [-> _].
  destruct (negb _) eqn:Hsz; bools; [by apply returns_ret|].
  eapply returning_bind; [by apply alloc_entries_returns|]. intros [ptes|]; [|intros _; by apply returns_ret].
  intros (Hpr & Hpl & Hpb). eapply returning_bind; [apply field_returns; [lia|done]|]. intros num [-> Hn0].
  rewrite Hsz. unfold GPT_ENTRY_SIZE in *. rewrite u32_id by lia.
  eapply returning_bind; [apply efi_crc32_returns; [lia|done]|]. intros crc ->.
  eapply returning_bind; [apply field_returns; [lia|done]|]. intros acrc [-> _]. apply returns_ret.
  destruct (_ =? _) eqn:Hac; bools; [|done]. by repeat split.
Qed.

(** A table that was found: the primary one if it is valid, else the one at the end of the disk. *)
Definition found_table (force_gpt : bool) (r : option (list Z * list Z)) : Prop :=
  match r with
  | Some (gpt, ptes) => exists lba, valid_table D lba gpt ptes /\
      (lba = GPT_PRIMARY_PARTITION_TABLE_LBA \/ lba = last_lba D) /\ (force_gpt = true \/ protected D) /\ (512 <= length gpt)%nat /\ Forall is_byte gpt /\ Forall is_byte ptes
  | None => True
  end.

Lemma is_pmbr_returns mbr : (512 <= length mbr)%nat -> Forall is_byte mbr -> ok (fun b => b = protective mbr) (is_pmbr_valid mbr).
Proof.
  intros Hl Hb. unfold is_pmbr_valid. do 5 (eapply returning_bind; [apply field_returns; [lia|done]|]; intros ? [-> _]).
  by apply returns_ret.
Qed.

Lemma find_agpt_returns pgpt : accepted 1 pgpt ->
  ok (fun r => match pgpt, r with None, Some _ => accepted (last_lba D) r | _, _ => True end) (find_agpt D le pgpt (last_lba D)).
Proof.
  intros Hp. unfold find_agpt. destruct pgpt as [[gpt ptes]|].
  - destruct Hp as (_ & Hl & Hb & _). eapply returning_bind; [apply field_returns; [lia|done]|]. intros a _.
    eapply returning_bind; [apply is_gpt_valid_returns|]. intros [ag|] _; [by apply returns_ret|].
    eapply returns_mono; [|apply is_gpt_valid_returns]. done.
  - eapply returns_mono; [|apply is_gpt_valid_returns]. by intros [x|].
Qed.

Lemma find_valid_gpt_returns force_gpt : ok (found_table force_gpt) (find_valid_gpt D le force_gpt).
Proof.
  unfold find_valid_gpt. cbv zeta. destruct (last_lba D =? 0); [by apply returns_ret|].
  eapply returning_bind; [apply is_gpt_valid_returns|]. intros pgpt Hp.
  eapply returning_bind; [by apply find_agpt_returns|]. intros agpt Ha.
  destruct (honest_size D HD) as (k & Hk & Hk8).
  assert (aligned (get_sector_size D) 512 = 512 * k) as Hal by (rewrite Hk; by apply aligned_multiple).
  assert (forall r, ((force_gpt = true \/ protected D) -> found_table force_gpt r) ->
    ok (found_table force_gpt) ('(_, mbr) ← read_lba D 0 (aligned (get_sector_size D) 512);
       good_pmbr ← is_pmbr_valid mbr; mret (if (good_pmbr : bool) || force_gpt then r else None))) as Htail.
  { intros r Hr. eapply returning_bind; [apply read_lba_returns; lia|]. intros [x mbr] (Hrd & Hl & Hb).
    eapply returning_bind; [apply is_pmbr_returns; [lia|done]|]. intros b ->. apply returns_ret.
    destruct (protective mbr) eqn:Hpr; [by apply Hr; right; exists mbr|]. destruct force_gpt; [by apply Hr; left|done]. }
  destruct pgpt as [[gpt ptes]|], agpt as [[gpt2 ptes2]|]; [..|by apply returns_ret]; apply Htail; intros Hpm.
  - destruct Hp as (H1 & H2). exists 1. split; [done|]. split; [by left|done].
  - destruct Hp as (H1 & H2). exists 1. split; [done|]. split; [by left|done].
  - destruct Ha as (H1 & H2). eexists. split; [done|]. split; [by right|done].
Qed.
End GptReturns.

(** The slices after the entries from [i] on were read. *)
Lemma gpt_entries_spec D ptes num : Forall is_byte ptes -> num * 128 <= Z.of_nat (length ptes) ->
  forall todo i last st, length (k_slices st) = 256%nat -> 0 <= i -> i + Z.of_nat todo = 256 -> -1 <= last < i ->
  exists last' st', gpt_entries D todo ptes num i last st = Some (last', st') /\
    k_cache st' = k_cache st /\ length (k_slices st') = 256%nat /\
    (forall j, 0 <= j < 256 -> k_slices st' !! Z.to_nat j =
       (if (i <=? j) && (j <? num)
        then (fun sl => sl <| start := fst (entry_extent D ptes j) |> <| size := snd (entry_extent D ptes j) |>) <$> k_slices st !! Z.to_nat j
        else k_slices st !! Z.to_nat j)) /\
    (last' = last \/ i <= last' < Z.min num 256 /\ entry_guid ptes last' <> NULL_GUID) /\
    (forall j, i <= j < Z.min num 256 -> last' < j -> entry_guid ptes j = NULL_GUID).
Proof.
  intros Hb Hnum. induction todo as [|todo IH]; intros i last st Hlen Hi Ht Hlast; cbn [gpt_entries].
  { exists last, st. split; [done|]. repeat (split; [done|]). split; [intros j Hj; by if_false|]. split; [by left|lia]. }
  destruct (Z.ltb_spec i num) as [Hin|Hout].
  2: { exists last, st. split; [done|]. repeat (split; [done|]). split; [|split; [by left|lia]].
       intros j Hj. destruct (Z.leb_spec i j), (Z.ltb_spec j num); cbn [andb]; try done. lia. }
  unfold mbind at 1, M_bind at 1. rewrite bytes_at_Some by lia. cbn [lift]. fold (entry_guid ptes i).
  set (f := fun sl : slice => sl <| start := fst (entry_extent D ptes i) |> <| size := snd (entry_extent D ptes i) |>).
  destruct (lookup_lt_is_Some_2 (k_slices st) (Z.to_nat i) ltac:(lia)) as [x Hx].
  set (st1 := st <| k_slices := <[Z.to_nat i := f x]> (k_slices st) |>).
  assert (set_slice i f st = Some (tt, st1)) as Hset by (unfold set_slice; if_false; by rewrite Hx).
  assert (length (k_slices st1) = 256%nat) as Hlen1 by (cbn; by rewrite length_insert).
  destruct (IH (i + 1) (if bool_decide (entry_guid ptes i = NULL_GUID) then last else i) st1 Hlen1 ltac:(lia) ltac:(lia)
              ltac:(case_bool_decide; lia)) as (last' & st' & E & H1 & H2 & H3 & H4 & H5).
  exists last', st'. split.
  { rewrite <-E. unfold f, entry_extent in Hset. case_bool_decide.
    - cbn [fst snd] in Hset. unfold mbind, M_bind. by rewrite Hset.
    - cbv zeta in Hset. cbn [fst snd] in Hset. unfold field in Hset. unfold mbind, M_bind, le_at. rewrite !bytes_at_Some by lia. cbn [lift fmap option_fmap option_map].
      by rewrite Hset. }
  split; [done|]. split; [done|]. split; [|split].
  - intros j Hj. rewrite H3 by done. subst st1. cbn [k_slices upd eta_of eta_kstate].
    destruct (decide (j = i)) as [->|Hne].
    + rewrite list_lookup_insert_eq by lia. if_false. if_true. by rewrite Hx.
    + rewrite list_lookup_insert_ne by lia. by destruct (Z.leb_spec (i + 1) j), (Z.leb_spec i j), (Z.ltb_spec j num); cbn [andb]; try lia.
  - destruct H4 as [->|[H4 H4']]; [|right; split; [lia|done]]. case_bool_decide; [by left|]. right. split; [lia|done].
  - intros j Hj Hl. destruct (decide (j = i)) as [->|]; [|apply H5; lia].
    destruct H4 as [->|[H4 _]]; [|lia]. case_bool_decide; [done|lia].
Qed.

(** C19: a disk is used as a GPT disk only with a table that deserves it: on every disk on which a header does not claim to be
    longer than a sector or to have 2^25 entries and more, reading the table ends, stays inside of the
    buffers and the 256 slices, and gives 0 or the number of the last entry in use of a table which lies on sector 1 or on the last
    sector of the disk, carries the signature and its own address and whose header and entries have the right checksums, with a protective MBR unless
    -g was given; the
    slices are then the starts and lengths of its entries. *)
Theorem gpt_table_checked D le force_gpt all st : honest_disk D -> crc32init_le = Some le ->
  length (k_slices st) = 256%nat ->
  exists n st', read_gpt_pt D le force_gpt all MAXSLICES st = Some (n, st') /\ length (k_slices st') = 256%nat /\ 0 <= n <= MAXSLICES /\
    (0 < n -> exists lba gpt ptes, valid_table D lba gpt ptes /\ (lba = 1 \/ lba = last_lba D) /\ (force_gpt = true \/ protected D) /\
       let num := Z.min (field gpt 80 4) MAXSLICES in
       n <= num /\ entry_guid ptes (n - 1) <> NULL_GUID /\ (forall j, n <= j < num -> entry_guid ptes j = NULL_GUID) /\
       forall j, 0 <= j < num -> exists sl, k_slices st' !! Z.to_nat j = Some sl /\ (start sl, size sl) = entry_extent D ptes j).
Proof.
  intros HD Hle Hst. assert (forall crc p, Forall is_byte p -> crc32_le le crc p = Some (crc32_le_bits crc p)) as Hcrc
    by (intros crc p; exact (crc32_le_sound le crc p Hle)). clear Hle.
  unfold read_gpt_pt, mbind, M_bind.
  destruct (find_valid_gpt_returns D HD le Hcrc (fun st => length (k_slices st) = 256%nat) ltac:(done) force_gpt st Hst)
    as (r & st1 & E & H1 & Hr). rewrite E. destruct r as [[gpt ptes]|].
  2: { exists 0, st1. split; [done|]. split; [done|]. split; [unfold MAXSLICES; lia|lia]. }
  destruct Hr as (lba & Hv & Hp & Hpm & Hl & Hbg & Hbp). unfold le_at. rewrite bytes_at_Some by lia. cbn [lift fmap option_fmap option_map].
  fold (field gpt 80 4). pose proof (entries_there D lba gpt ptes Hv) as Hthere. unfold GPT_ENTRY_SIZE in Hthere.
  destruct (gpt_entries_spec D ptes (field gpt 80 4) Hbp Hthere (Z.to_nat MAXSLICES) 0 (-1) st1 H1 ltac:(lia)
              ltac:(unfold MAXSLICES; lia) ltac:(lia)) as (last & st2 & E2 & _ & H2 & H3 & H4 & H5).
  rewrite E2. exists (last + 1), st2. split; [done|]. split; [done|]. unfold MAXSLICES in *. split; [lia|].
  intros Hn. exists lba, gpt, ptes. split; [done|]. split; [done|]. split; [done|]. cbv zeta.
  destruct H4 as [->|[H4 H4']]; [lia|]. split; [lia|]. replace (last + 1 - 1) with last by lia. split; [done|].
  split; [intros j Hj; apply H5; lia|]. intros j Hj. rewrite H3 by lia. if_true.
  destruct (lookup_lt_is_Some_2 (k_slices st1) (Z.to_nat j) ltac:(lia)) as [x Hx]. rewrite Hx. eexists. split; [reflexivity|].
  cbn. by destruct (entry_extent D ptes j).
Qed.

(** ** Examples *)

Fixpoint le_bytes (n : nat) (z : Z) : list Z :=
  match n with O => [] | S n => z mod 256 :: le_bytes n (z / 256) end.

(** A header for [num] entries at sector 2 with a header size of [hs], with [crc] as its checksum. *)
Definition make_header (hs num array_crc crc : Z) : list Z :=
  le_bytes 8 GPT_HEADER_SIGNATURE ++ le_bytes 4 0x10000 ++ le_bytes 4 hs ++ le_bytes 4 crc ++ le_bytes 4 0 ++
  le_bytes 8 1 ++ le_bytes 8 4 ++ le_bytes 8 34 ++ le_bytes 8 100 ++ replicate 16 7 ++ le_bytes 8 2 ++
  le_bytes 4 num ++ le_bytes 4 GPT_ENTRY_SIZE ++ le_bytes 4 array_crc ++ replicate 420 0.

Definition make_gpt (hs num : Z) (entries : list Z) : list (Z * list Z) :=
  let acrc := efi_checksum (take (Z.to_nat (u32 (num * 128))) entries) in
  [(0, replicate 450 0 ++ [0xEE] ++ replicate 59 0 ++ [0x55; 0xaa]);
   (512, make_header hs num acrc (efi_checksum (take (Z.to_nat hs) (make_header hs num acrc 0))));
   (1024, entries)].

Definition gpt_disk (l : list (Z * list Z)) : disk := {|
  d_sector_size := Some 512; d_read := fun _ _ => None; d_is_block := Some true; d_size64 := Some (2 ^ 20);
  d_pread := fun _ off n => match find (fun '(o, _) => o =? off) l with
                            | Some (_, b) => ReadOk (take (Z.to_nat n) b) | None => SeekFails end;
  d_lastsect := None |}.

Definition one_entry : list Z :=
  replicate 16 3 ++ replicate 16 5 ++ le_bytes 8 40 ++ le_bytes 8 99 ++ replicate 80 0 ++ replicate 128 0.

Definition two_slots : list (Z * list Z) := Eval vm_compute in make_gpt 92 2 one_entry.
Definition le_table : list (option Z) := Eval vm_compute in default [] crc32init_le.

Example gpt_read : exists st, read_gpt_pt (gpt_disk two_slots) le_table false empty_slice MAXSLICES initial = Some (1, st) /\
  (start <$> k_slices st !! 0%nat, size <$> k_slices st !! 0%nat) = (Some 40, Some 60).
Proof. eexists. split; vm_compute; reflexivity. Qed.

Lemma find_offset {A} (l : list (Z * A)) off x : find (fun '(o, _) => o =? off) l = Some x -> x ∈ l.
Proof. intros [H _]%find_some. by apply list_elem_of_In. Qed.

Lemma two_slots_honest : honest_disk (gpt_disk two_slots).
Proof.
  assert (Forall (fun '(_, b) => Forall is_byte b /\
    let gpt := take 512 b ++ replicate (512 - length (take 512 b)) 0 in
    (field gpt 0 8 =? GPT_HEADER_SIGNATURE) && negb ((field gpt 12 4 <=? 512) && (field gpt 80 4 <? 2 ^ 25)) = false) two_slots) as H.
  { unfold two_slots. repeat apply Forall_cons_2; try apply Forall_nil_2; cbv beta iota; (split; [decide_closed|vm_compute; reflexivity]). }
  rewrite Forall_forall in H. split; [exists 1; split; [reflexivity|lia]|..|reflexivity|].
  - intros t off n b. cbn [d_pread gpt_disk]. destruct (find _ two_slots) as [[o c]|] eqn:E; [|done]. intros [= <-].
    destruct (H _ (find_offset _ _ _ E)) as [Hb _]. split; [|by apply Forall_take].
    rewrite length_take. lia.
  - intros lba gpt (t & Hgpt) Hs. cbn [d_pread gpt_disk] in Hgpt.
    change (aligned (get_sector_size (gpt_disk two_slots)) GPT_HEADER_SIZE) with 512 in Hgpt.
    destruct (find _ two_slots) as [[o c]|] eqn:E; cbv zeta iota in Hgpt.
    2: { subst gpt. vm_compute in Hs. discriminate Hs. }
    destruct (H _ (find_offset _ _ _ E)) as [_ Hc]. cbv zeta in Hc. change (Z.to_nat 512) with 512%nat in Hgpt.
    rewrite <-Hgpt, Hs, Z.eqb_refl in Hc. cbn [andb] in Hc. bools. change (get_sector_size (gpt_disk two_slots)) with 512. lia.
Qed.

Lemma gpt_table_checked_witness : let D := gpt_disk two_slots in
  honest_disk D /\ crc32init_le = Some le_table /\
  exists n st', read_gpt_pt D le_table false empty_slice MAXSLICES initial = Some (n, st') /\ length (k_slices st') = 256%nat /\
    0 <= n <= MAXSLICES /\
    (0 < n -> exists lba gpt ptes, valid_table D lba gpt ptes /\ (lba = 1 \/ lba = last_lba D) /\ (false = true \/ protected D) /\
       let num := Z.min (field gpt 80 4) MAXSLICES in
       n <= num /\ entry_guid ptes (n - 1) <> NULL_GUID /\ (forall j, n <= j < num -> entry_guid ptes j = NULL_GUID) /\
       forall j, 0 <= j < num -> exists sl, k_slices st' !! Z.to_nat j = Some sl /\ (start sl, size sl) = entry_extent D ptes j).
Proof.
  intros D. assert (crc32init_le = Some le_table) as Hle by (vm_compute; reflexivity).
  split; [exact two_slots_honest|]. split; [exact Hle|].
  exact (gpt_table_checked D le_table false empty_slice initial two_slots_honest Hle eq_refl).
Defined.

(** A header that says it has 600 bytes: the checksum is computed over memory after the buffer of
    one sector. *)
Definition long_header : list (Z * list Z) := Eval vm_compute in make_gpt 600 2 one_entry.
Example header_overread : read_gpt_pt (gpt_disk long_header) le_table false empty_slice MAXSLICES initial = None.
Proof. vm_compute. reflexivity. Qed.

(** A header that says it has 2^25 + 1 entries: 32-bit arithmetic makes that one entry, a sector is
    allocated and read, its checksum is right, and then 256 entries are taken from it. *)
Definition many_entries : list (Z * list Z) := Eval vm_compute in make_gpt 92 (2 ^ 25 + 1) one_entry.
Example entries_overread : read_gpt_pt (gpt_disk many_entries) le_table false empty_slice MAXSLICES initial = None.
Proof. vm_compute. reflexivity. Qed.
