(* ===== verification/Dasd.v ===== *)
(** * kpartx/dasd.c: the labels of DASD volumes

    [read_dasd_pt] with the geometry helpers of dasd.h.  What the device and the
    system calls answer is a [dasd]; reads go through a file position.  A
    computation has no result, [None], when a slice outside of the array is
    written, memory that holds no data is read, a division by zero is done, or
    the fuel of the loop over the labels of a VTOC is out. *)

From S2P Require Import Prelude CString Ptable.

Definition EBCtoASC : list Z := [
  0x00; 0x01; 0x02; 0x03; 0x07; 0x09; 0x07; 0x7f; 0x07; 0x07; 0x07; 0x0b; 0x0c; 0x0d; 0x0e; 0x0f;
  0x10; 0x11; 0x12; 0x13; 0x07; 0x0a; 0x08; 0x07; 0x18; 0x19; 0x07; 0x07; 0x07; 0x07; 0x07; 0x07;
  0x07; 0x07; 0x1c; 0x07; 0x07; 0x0a; 0x17; 0x1b; 0x07; 0x07; 0x07; 0x07; 0x07; 0x05; 0x06; 0x07;
  0x07; 0x07; 0x16; 0x07; 0x07; 0x07; 0x07; 0x04; 0x07; 0x07; 0x07; 0x07; 0x14; 0x15; 0x07; 0x1a;
  0x20; 0xff; 0x83; 0x84; 0x85; 0xa0; 0x07; 0x86; 0x87; 0xa4; 0x9b; 0x2e; 0x3c; 0x28; 0x2b; 0x7c;
  0x26; 0x82; 0x88; 0x89; 0x8a; 0xa1; 0x8c; 0x07; 0x8d; 0xe1; 0x21; 0x24; 0x2a; 0x29; 0x3b; 0xaa;
  0x2d; 0x2f; 0x07; 0x8e; 0x07; 0x07; 0x07; 0x8f; 0x80; 0xa5; 0x07; 0x2c; 0x25; 0x5f; 0x3e; 0x3f;
  0x07; 0x90; 0x07; 0x07; 0x07; 0x07; 0x07; 0x07; 0x70; 0x60; 0x3a; 0x23; 0x40; 0x27; 0x3d; 0x22;
  0x07; 0x61; 0x62; 0x63; 0x64; 0x65; 0x66; 0x67; 0x68; 0x69; 0xae; 0xaf; 0x07; 0x07; 0x07; 0xf1;
  0xf8; 0x6a; 0x6b; 0x6c; 0x6d; 0x6e; 0x6f; 0x70; 0x71; 0x72; 0xa6; 0xa7; 0x91; 0x07; 0x92; 0x07;
  0xe6; 0x7e; 0x73; 0x74; 0x75; 0x76; 0x77; 0x78; 0x79; 0x7a; 0xad; 0xab; 0x07; 0x07; 0x07; 0x07;
  0x5e; 0x9c; 0x9d; 0xfa; 0x07; 0x07; 0x07; 0xac; 0xab; 0x07; 0x5b; 0x5d; 0x07; 0x07; 0x07; 0x07;
  0x7b; 0x41; 0x42; 0x43; 0x44; 0x45; 0x46; 0x47; 0x48; 0x49; 0x07; 0x93; 0x94; 0x95; 0xa2; 0x07;
  0x7d; 0x4a; 0x4b; 0x4c; 0x4d; 0x4e; 0x4f; 0x50; 0x51; 0x52; 0x07; 0x96; 0x81; 0x97; 0xa3; 0x98;
  0x5c; 0xf6; 0x53; 0x54; 0x55; 0x56; 0x57; 0x58; 0x59; 0x5a; 0xfd; 0x07; 0x99; 0x07; 0x07; 0x07;
  0x30; 0x31; 0x32; 0x33; 0x34; 0x35; 0x36; 0x37; 0x38; 0x39; 0x07; 0x07; 0x9a; 0x07; 0x07; 0x07].

(** ** Geometry *)

Record hd_geometry := { heads : Z; sectors : Z; cylinders : Z }.

Definition LV_COMPAT_CYL : Z := 0xFFFE.

Definition sectors512 (sectors blocksize : Z) : Z := u64 (sectors * u64 (Z.shiftr blocksize 9)).

Definition ceil_quot (d1 d2 : Z) : Z := u32 (d1 + u32 (d2 - 1)) / d2.

(** Records of [dl] bytes on a track. *)
Definition recs_per_track (dl : Z) : Z :=
  let dn := u32 (ceil_quot (u32 (dl + 6)) 232 + 1) in
  1729 / u32 (10 + 9 + ceil_quot (u32 (dl + u32 (6 * dn))) 34).

Record cchh := { cc : Z; hh : Z }.

Definition cchh2blk (ptr : cchh) (geo : hd_geometry) : Z :=
  let cyl := Z.lor (Z.shiftl (Z.land (hh ptr) 0xFFF0) 12) (cc ptr) in
  let head := Z.land (hh ptr) 0x000F in
  u64 (cyl * heads geo * sectors geo + head * sectors geo).

Definition cchhb2blk (ptr : cchh) (b : Z) (geo : hd_geometry) : Z := u64 (cchh2blk ptr geo + b).

Definition vtoc_ebcdic_dec (source : list Z) : list Z := map (fun c => znth 0 EBCtoASC c) source.

(** ** The device *)

Record dasd_information := { label_block : Z; FBA_layout : Z; type : list Z }.

(** The answers of [fstat] (the device number), of the calls that look for a DASD below a map, and of
    the ioctls, of [lseek] and [read] on the DASD (the bytes at an offset; [None]: the return
    code -1). *)
Record dasd := {
  a_stat : option (Z * Z);
  a_mapname : Z * Z -> option cstr;
  a_first_dep : cstr -> option (Z * Z);
  a_open : cstr -> bool; a_mknod : cstr -> bool; a_reopen : cstr -> bool; a_dup : bool;
  a_info : option dasd_information; a_blksz : option Z; a_size64 : option Z; a_geo : option hd_geometry;
  a_seek : Z -> bool;
  a_read : nat -> Z -> Z -> option (list Z) }.

Definition ECKD : list Z := s "ECKD".

Section Dasd.
Variable A : dasd.

(** Is there a file descriptor of a DASD? *)
Definition open_dasd (dev : Z * Z) : bool :=
  match a_mapname A dev with
  | Some devname =>
      match a_first_dep A devname with
      | None => false
      | Some (ma, mi) =>
          if negb (ma =? 94) then false
          else
            let pathname := s "/dev/.kpartx-node-" ++ ntoa 10 ma ++ s "-" ++ ntoa 10 mi in
            a_open A pathname || (a_mknod A pathname && a_reopen A pathname)
      end
  | None => a_dup A
  end.

Definition dasd_info : dasd_information :=
  default {| label_block := 2; FBA_layout := 0; type := ECKD |} (a_info A).

(** [None]: division by zero. *)
Definition dasd_geometry (blocksize disksize : Z) : option hd_geometry :=
  match a_geo A with
  | Some geo => Some geo
  | None =>
      let recs := recs_per_track (u32 blocksize) mod 256 in
      let d := u64 (u64 blocksize * 15 * recs) in
      if d =? 0 then None
      else
        let cyl := u32 (disksize / d) in
        Some {| heads := 15; sectors := recs; cylinders := if cyl <? LV_COMPAT_CYL then cyl else LV_COMPAT_CYL |}
  end.

(** The buffer of [blocksize] bytes after a read at [pos]. *)
Definition read_block (pos blocksize : Z) (data : list Z) : M (option (list Z)) := fun st =>
  let st' := st <| k_reads ::= S |> in
  match a_read A (k_reads st) pos blocksize with
  | None => Some (None, st')
  | Some b => Some (Some (b ++ drop (length b) data), st')
  end.

(** The decoded format identifier of a label is one of the digits. *)
Definition fmt_is (digits : cstr) (fmtid : Z) : bool := in_set digits (znth 0 EBCtoASC fmtid).

Definition cchh_at (f1 : list Z) (off : nat) : M cchh :=
  c ← le_at f1 off 2; h ← le_at f1 (off + 2) 2; mret {| cc := c; hh := h |}.

(** [while (read(fd_dasd, data, blocksize) != -1)]; a short read moves the file position by as
    much as was read. *)
Fixpoint vtoc_labels (fuel : nat) (geo : hd_geometry) (blocksize pos : Z) (data : list Z) (counter : Z) : M Z :=
  match fuel with
  | O => fun _ => None
  | S f => fun st =>
      let got := match a_read A (k_reads st) pos blocksize with Some b => Z.of_nat (length b) | None => 0 end in
      (data ← read_block pos blocksize data;
       match data with
       | None => mret counter
       | Some data =>
           fmtid ← le_at data 44 1;
           (* skip FMT4 / FMT5 / FMT7 labels *)
           if fmt_is (s "4579") fmtid then vtoc_labels f geo blocksize (pos + got) data counter
           else if negb (fmt_is (s "18") fmtid) then mret counter
           else
             llimit ← cchh_at data 107; ulimit ← cchh_at data 111;
             let offset := cchh2blk llimit geo in
             let size := u64 (cchh2blk ulimit geo - offset + sectors geo) in
             set_slice counter (fun sl => sl <| start := sectors512 offset blocksize |> <| Ptable.size := sectors512 size blocksize |>);;
             vtoc_labels f geo blocksize (pos + got) data (counter + 1)
       end) st
  end.

(** A VM style CMS1 disk; the label is read as numbers. *)
Definition cms1_label (info : dasd_information) (vlabel : list Z) : M Z :=
  l4 ← le_at vlabel 16 4; l14 ← le_at vlabel 56 4; l8 ← le_at vlabel 32 4;
  let blocksize := s32 l4 in
  let '(offset, sz) := if negb (l14 =? 0) then (l14, sectors512 (u32 (l8 - 1)) blocksize)
                       else (u32 (label_block info + 1), sectors512 l8 blocksize) in
  let first := sectors512 offset blocksize in
  set_slice 0 (fun sl => sl <| start := first |> <| Ptable.size := u64 (sz - first) |>);;
  mret 1.

(** An old LNX1 disk or one without a label. *)
Definition lnx1_label (info : dasd_information) (vlabel : list Z) (lnx1 : bool) (st_major blocksize disksize : Z)
    (geo : hd_geometry) : M Z :=
  version ← le_at vlabel 83 1; formatted ← le_at vlabel 84 8;
  let fmt_size :=
    if version =? 0xf2 then sectors512 formatted blocksize
    else if bool_decide (type info = ECKD) then u64 (s32 (cylinders geo * heads geo * sectors geo * Z.shiftr blocksize 9))
    else disksize in
  let sz := if lnx1 && (fmt_size <? disksize) then fmt_size else disksize in
  if negb lnx1 && negb (st_major =? 94) then mret (-1)
  else
    let first := sectors512 (u32 (label_block info + 1)) blocksize in
    set_slice 0 (fun sl => sl <| start := first |> <| Ptable.size := u64 (sz - first) |>);;
    mret 1.

(** [sizeof(volume_label_t)] *)
Definition VLABEL_SIZE : nat := 92.

Definition dasd_label (fuel : nat) (st_major : Z) (info : dasd_information) (geo : hd_geometry) (blocksize disksize : Z)
    (data : list Z) : M Z :=
  let eckd := (FBA_layout info =? 0) && bool_decide (type info = ECKD) in
  vlabel ← (if eckd then lift (bytes_at data 0 VLABEL_SIZE)
            else b ← lift (bytes_at data 0 (VLABEL_SIZE - 4)); mret ([0; 0; 0; 0] ++ b));
  let label_type := vtoc_ebcdic_dec (take 4 (drop 4 vlabel)) in
  if bool_decide (label_type = s "CMS1") then cms1_label info vlabel
  else if bool_decide (label_type = s "VOL1") && eckd then
    vtoc ← cchh_at vlabel 15; b ← le_at vlabel 19 1;
    let blk := u64 (cchhb2blk vtoc b geo + 1) in
    let pos := s64 (blk * blocksize) in
    if negb (a_seek A pos) then mret (-1) else vtoc_labels fuel geo blocksize pos data 0
  else lnx1_label info vlabel (bool_decide (label_type = s "LNX1")) st_major blocksize disksize geo.

Definition PAGE_SIZE : nat := 4096.

(** The buffer is a page, whose bytes are zero here before they are read. *)
Definition read_dasd_pt (fuel : nat) (all : slice) (ns : Z) : M Z :=
  match a_stat A with
  | None => mret (-1)
  | Some (st_major, st_minor) =>
      if negb (open_dasd (st_major, st_minor)) then mret (-1)
      else
        let info := dasd_info in
        match a_blksz A, a_size64 A with
        | Some blocksize, Some disksize =>
            geo ← lift (dasd_geometry blocksize disksize);
            let disksize := Z.shiftr disksize 9 in
            if (blocksize <? 512) || (4096 <? blocksize) then mret (-1)
            else
              let pos := u32 (label_block info * blocksize) in
              if negb (a_seek A pos) then mret (-1)
              else
                data ← read_block pos blocksize (replicate PAGE_SIZE 0);
                match data with
                | None => mret (-1)
                | Some data => dasd_label fuel st_major info geo blocksize disksize data
                end
        | _, _ => mret (-1)
        end
  end.
End Dasd.

(** ** Examples *)

(** A volume with blocks of 512 bytes, 15 heads and 12 blocks per track; [vtoc] are the blocks after the label
    in the order in which they are read, and then the end of the device is reached. *)
Definition dasd_volume (label : list Z) (vtoc : list (list Z)) : dasd := {|
  a_stat := Some (94, 0); a_mapname := fun _ => None; a_first_dep := fun _ => None; a_open := fun _ => false;
  a_mknod := fun _ => false; a_reopen := fun _ => false; a_dup := true; a_info := None; a_blksz := Some 512;
  a_size64 := Some (2 ^ 30); a_geo := Some {| heads := 15; sectors := 12; cylinders := 100 |};
  a_seek := fun _ => true;
  a_read := fun t _ _ => match t with O => Some label | S t => Some (nth t vtoc []) end |}.

Definition vol1 : list Z := sector [(4%nat, [0xE5; 0xD6; 0xD3; 0xF1])].
Definition fmt4 : list Z := sector [(44%nat, [0xF4])].

(** A format-1 label of the extent from track 2 of cylinder 0 to track 14 of cylinder 9. *)
Definition fmt1 : list Z := sector [(44%nat, [0xF1]); (107%nat, [0; 0; 2; 0; 9; 0; 14; 0])].

Example vol1_partitions : exists st,
  read_dasd_pt (dasd_volume vol1 [fmt4; fmt1; sector []]) 10 empty_slice MAXSLICES initial = Some (1, st) /\
  (start <$> k_slices st !! 0%nat, Ptable.size <$> k_slices st !! 0%nat) = (Some 24, Some 1776).
Proof. eexists. split; vm_compute; reflexivity. Qed.

(** At the end of the device [read] returns 0 and not -1, and the last label is taken again: the search does not end. *)
Lemma vtoc_forever label geo fuel pos data counter st : data !! 44%nat = Some 0xF4 -> (1 < k_reads st)%nat ->
  vtoc_labels (dasd_volume label [fmt4]) fuel geo 512 pos data counter st = None.
Proof.
  revert pos st. induction fuel as [|f IH]; intros pos st Hd Hr; [done|]. cbn [vtoc_labels].
  unfold mbind at 1, M_bind at 1. unfold read_block. cbn [a_read dasd_volume].
  destruct (k_reads st) as [|[|[|t]]] eqn:E; [lia|lia|..]; cbn [nth length drop app];
    rewrite drop_0; unfold mbind, M_bind, le_at, bytes_at;
    assert (44 < length data)%nat as Hlen by (by eapply lookup_lt_Some);
    rewrite (proj2 (Nat.leb_le (44 + 1) (length data))) by lia; cbn [lift fmap option_fmap option_map];
    assert (take 1 (drop 44 data) = [0xF4]) as ->
      by (by rewrite (drop_S data _ _ Hd));
    cbn [le_value]; change (fmt_is (s "4579") (0xF4 + 256 * 0)) with true; cbn iota; apply IH; (done || cbn; lia).
Qed.

Example dasd_never_ends fuel :
  read_dasd_pt (dasd_volume vol1 [fmt4]) fuel empty_slice MAXSLICES initial = None.
Proof.
  set (A := dasd_volume vol1 [fmt4]). set (geo := {| heads := 15; sectors := 12; cylinders := 100 |}).
  set (data := vol1 ++ drop (length vol1) (replicate PAGE_SIZE 0)).
  assert (forall st, read_dasd_pt A fuel empty_slice MAXSLICES initial = vtoc_labels A fuel geo 512 512 data 0 st ->
            st = initial <| k_reads := 1%nat |> -> vtoc_labels A fuel geo 512 512 data 0 st = None ->
            read_dasd_pt A fuel empty_slice MAXSLICES initial = None) as H by congruence.
  apply (H (initial <| k_reads := 1%nat |>)); [|done|]; clear H.
  - assert (lift (bytes_at data 0 VLABEL_SIZE) (initial <| k_reads := 1%nat |>) =
              Some (take 92 vol1, initial <| k_reads := 1%nat |>)) as Hl by (vm_compute; reflexivity).
    unfold read_dasd_pt. cbn [a_stat A dasd_volume a_blksz a_size64]. change (open_dasd A (94, 0)) with true.
    change (dasd_geometry A 512 (2 ^ 30)) with (Some geo). cbn [negb lift]. unfold mbind at 1, M_bind at 1.
    change ((512 <? 512) || (4096 <? 512)) with false. change (a_seek A (u32 (label_block (dasd_info A) * 512))) with true.
    cbn [negb]. unfold mbind at 1, M_bind at 1. unfold read_block at 1. cbn [a_read A dasd_volume k_reads initial].
    unfold dasd_label. change ((FBA_layout (dasd_info A) =? 0) && bool_decide (type (dasd_info A) = ECKD)) with true.
    cbn iota. unfold mbind at 1, M_bind at 1. change (initial <| k_reads ::= S |>) with (initial <| k_reads := 1%nat |>).
    cbn [lift]. change (k_reads initial) with 0%nat. cbn iota beta. fold data.
    change (initial <| k_reads ::= S |>) with (initial <| k_reads := 1%nat |>).
    rewrite Hl. cbn iota beta. change (vtoc_ebcdic_dec (take 4 (drop 4 (take 92 vol1)))) with (s "VOL1").
    change (bool_decide (s "VOL1" = s "CMS1")) with false. change (bool_decide (s "VOL1" = s "VOL1") && true) with true.
    cbn iota. reflexivity.
  - destruct fuel as [|fuel]; [done|]. cbn [vtoc_labels]. unfold mbind at 1, M_bind at 1. unfold read_block.
    change (a_read A (k_reads (initial <| k_reads := 1%nat |>)) 512 512) with (Some fmt4). cbn iota beta.
    set (st2 := initial <| k_reads := 1%nat |> <| k_reads ::= S |>). unfold mbind at 1, M_bind at 1.
    assert (le_at (fmt4 ++ drop (length fmt4) data) 44 1 st2 = Some (0xF4, st2)) as -> by (vm_compute; reflexivity).
    change (fmt_is (s "4579") 0xF4) with true. cbn iota. cbn beta. apply vtoc_forever; [vm_compute; reflexivity|cbn; lia].
Qed.
