(* ===== verification/Kpartx.v ===== *)
(** * kpartx: partitions as device-mapper maps

    What kpartx.c does with the slices of a table (listing, adding, updating,
    deleting) and the functions of devmapper.c it uses.  A [dm_env] answers the
    questions to libdevmapper; its answers depend on the changes made so far, the
    history.  A computation has no result, [None], when the fuel of a loop is out,
    when [kpartx] exits because a text does not fit, or when a pointer that was
    never set is used.  Messages are left out. *)

From S2P Require Import Prelude CString Crc32 Ptable Gpt Dasd.

Definition PARTNAME_SIZE : nat := 128.
Definition PARAMS_SIZE : nat := 1024.
Definition DM_TARGET : cstr := s "linear".

(** The changes: creating or reloading a map with one target, and so on. *)
Inductive dm_event :=
  | DmAddMap (reload : bool) (name : cstr) (len : Z) (target params : cstr) (ro : bool) (uuid : option cstr)
  | DmResume (name : cstr)
  | DmRemove (name : cstr) (noflush : bool)
  | DmRename (old new : cstr).

Abbreviation dm_history := (list dm_event).

(** The UUID of a map that exists, the map with a UUID, the targets of a map (type and
    parameters), its device number and open count, the names of all maps; whether
    a change succeeds. *)
Record dm_env := {
  x_uuid : dm_history -> cstr -> option cstr;
  x_find_uuid : dm_history -> cstr -> option cstr;
  x_targets : dm_history -> cstr -> option (list (cstr * cstr));
  x_devn : dm_history -> cstr -> option (Z * Z);
  x_opencount : dm_history -> cstr -> Z;
  x_names : dm_history -> option (list cstr);
  x_run : dm_history -> dm_event -> bool }.

(** A line of the option -l: [name : 0 len device first]. *)
Record list_line := { l_name : cstr; l_len : Z; l_device : cstr; l_first : Z }.

Record kpstate := { p_hist : dm_history; p_slices : list slice; p_r : Z; p_lines : list list_line }.

#[export] Instance eta_kpstate : Eta kpstate := fun x =>
  {| p_hist := p_hist x; p_slices := p_slices x; p_r := p_r x; p_lines := p_lines x |}.

Definition K (A : Type) : Type := kpstate -> option (A * kpstate).

#[export] Instance K_ret : MRet K := fun _ x st => Some (x, st).
#[export] Instance K_bind : MBind K := fun _ _ f m st => match m st with Some (x, st) => f x st | None => None end.

Definition ask {A} (f : dm_history -> A) : K A := fun st => Some (f (p_hist st), st).
Definition fails {A} : K A := fun _ => None.
Definition count_failure : K unit := fun st => Some (tt, st <| p_r ::= Z.succ |>).
Definition print_line (l : list_line) : K unit := fun st => Some (tt, st <| p_lines ::= fun ls => ls ++ [l] |>).

Definition slice_at (j : Z) : K slice := fun st =>
  if j <? 0 then None else match p_slices st !! Z.to_nat j with Some x => Some (x, st) | None => None end.

Definition put_slice (j : Z) (f : slice -> slice) : K unit := fun st =>
  if j <? 0 then None
  else match p_slices st !! Z.to_nat j with
       | Some x => Some (tt, st <| p_slices := <[Z.to_nat j := f x]> (p_slices st) |>)
       | None => None
       end.

(** ** Names and UUIDs *)

Definition UUID_PREFIX : cstr := s "part".
Definition NONDM_UUID_PREFIX : cstr := s "devnode".
Definition NONDM_UUID_SUFFIX : cstr := s "Wh5pYvM".
Definition MAX_PREFIX_LEN : nat := 8.

(** The first character stays as it is. *)
Definition strip_slash (device : cstr) : cstr :=
  match device with [] => [] | c :: r => c :: map (fun x => if x =? 47 then 33 else x) r end.

(** The name, and whether it fits. *)
Definition format_partname (bufsiz : nat) (mapname delim : cstr) (part : Z) : cstr * bool :=
  let text := mapname ++ delim ++ itoa part in
  if (bufsiz <=? length text)%nat then (take (bufsiz - 1) text, false) else (strip_slash text, true).

Definition make_prefixed_uuid (part : Z) (uuid : cstr) : cstr :=
  take (MAX_PREFIX_LEN + length uuid) (UUID_PREFIX ++ itoa part ++ [45] ++ uuid).

(** [true]: the UUID is that of a partition of the device. *)
Definition check_uuid (uuid part_uuid : cstr) : bool :=
  match strchr 45 part_uuid with
  | Some i => strneq 4 part_uuid UUID_PREFIX && streq uuid (drop (S i) part_uuid)
  | None => false
  end.

Definition nondm_create_uuid (ma mi : Z) : cstr :=
  take 49 (NONDM_UUID_PREFIX ++ [95] ++ ntoa 10 ma ++ [58] ++ ntoa 10 mi ++ [95] ++ NONDM_UUID_SUFFIX).

Definition nondm_parse_uuid (uuid : cstr) : option (Z * Z) :=
  if negb (strneq 8 uuid (NONDM_UUID_PREFIX ++ [95])) then None
  else
    '(ma, e) ← strtoul10 (drop 8 uuid);
    match e with
    | 58 :: p =>
        '(mi, e) ← strtoul10 p;
        match e with
        | 95 :: p => if streq p NONDM_UUID_SUFFIX then Some (u32 (s32 ma), u32 (s32 mi)) else None
        | _ => None
        end
    | _ => None
    end.

Definition dev_text (dev : Z * Z) : cstr := itoa (s32 (fst dev)) ++ [58] ++ itoa (s32 (snd dev)).

Section Dm.
Variable X : dm_env.

Definition run_event (e : dm_event) : K bool := fun st =>
  Some (x_run X (p_hist st) e, st <| p_hist ::= fun h => h ++ [e] |>).

Definition dm_simplecmd (e : dm_event) : K bool := run_event e.

Definition dm_addmap (reload : bool) (name target params : cstr) (len : Z) (ro : bool) (uuid : option cstr) (part : Z) : K bool :=
  run_event (DmAddMap reload name len target params ro
               (if reload then None else (fun u => make_prefixed_uuid part u) <$> uuid)).

(** Is there a map, and what is its UUID, unless it is empty? *)
Definition dm_map_present (name : cstr) : K (option (option cstr)) :=
  ask (fun h => (fun u => match u with [] => None | _ => Some u end) <$> x_uuid X h name).

Definition dm_rename (old new : cstr) : K bool := run_event (DmRename old new).

Definition dm_find_uuid (uuid : cstr) : K (option cstr) :=
  ask (fun h => match x_find_uuid X h uuid with Some (c :: n) => Some (c :: n) | _ => None end).

Definition dm_mapuuid (mapname : cstr) : K (option cstr) :=
  ask (fun h => match x_uuid X h mapname with Some (c :: u) => Some (c :: u) | _ => None end).

Definition dm_devn (mapname : cstr) : K (option (Z * Z)) := ask (fun h => x_devn X h mapname).

(** The parameters of the first target. *)
Definition dm_get_map (mapname : cstr) : K (option cstr) :=
  ask (fun h => targets ← x_targets X h mapname;
       let params := match targets with (_, p) :: _ => p | [] => s "(null)" end in
       if (length params <=? PARAMS_SIZE)%nat then Some (take (PARAMS_SIZE - 1) params) else None).

Definition dm_get_opencount (mapname : cstr) : K Z := ask (fun h => x_opencount X h mapname).

Definition dm_type (name type : cstr) : K Z :=
  ask (fun h => match x_targets X h name with
                | None => 0
                | Some [(t, _)] => if streq t type then 1 else 0
                | Some _ => -1
                end).

(** [false]: it is the UUID of a partition of this device. *)
Definition dm_compare_uuid (mapuuid partname : cstr) : K bool :=
  partuuid ← dm_mapuuid partname;
  mret (match partuuid with
        | None => true
        | Some u =>
            if strneq 4 u UUID_PREFIX then
              match span isdigit (drop 4 u) with
              | ((_ :: _), 45 :: p) => negb (streq mapuuid p)
              | _ => true
              end
            else true
        end).

(** The result, the name, and the pointer [part_uuid]: [None] if it was not set, else NULL or
    a UUID. *)
Definition dm_find_part (parent delim : cstr) (part : Z) (parent_uuid : option cstr) : K (bool * cstr * option (option cstr)) :=
  let '(name, fits) := format_partname PARTNAME_SIZE parent delim part in
  if negb fits then mret (false, name, None)
  else
    present ← dm_map_present name;
    match present, parent_uuid with
    | Some part_uuid, _ => mret (true, name, Some part_uuid)
    | None, None | None, Some [] => mret (false, name, Some None)
    | None, Some ((_ :: _) as parent_uuid) =>
        let uuid := make_prefixed_uuid part parent_uuid in
        tmp ← dm_find_uuid uuid;
        match tmp with
        | None => mret (false, name, Some None)
        | Some tmp =>
            t ← dm_type tmp DM_TARGET;
            parent_dev ← dm_devn parent;
            params ← dm_get_map tmp;
            match (if t =? 1 then match nondm_parse_uuid parent_uuid with Some dev => Some dev | None => parent_dev end else None), params with
            | Some dev, Some params =>
                if has_strstr params (dev_text dev) then
                  r ← dm_rename tmp name;
                  mret (if (r : bool) then (true, name, Some (Some uuid)) else (false, name, Some None))
                else mret (false, name, Some None)
            | _, _ => mret (false, name, Some None)
            end
        end
    end.

Definition remove_partmap (name : cstr) : K bool :=
  opens ← dm_get_opencount name;
  if negb (opens =? 0) then mret true
  else ok ← dm_simplecmd (DmRemove name false); mret (negb ok).

(** Is the map a partition of the device? *)
Definition is_partmap (mapname : cstr) (uuid : option cstr) (devt : cstr) (is_dmdev : bool) (name : cstr) : K bool :=
  params ← dm_get_map name;
  t ← dm_type name DM_TARGET;
  mismatch ← match uuid with Some u => dm_compare_uuid u name | None => mret false end;
  mret (negb (is_dmdev && streq name mapname) &&
        match params with Some p => has_strstr p devt | None => false end && (t =? 1) && negb mismatch).

(** [true]: a removal failed. *)
Fixpoint foreach_partmaps (names : list cstr) (mapname : cstr) (uuid : option cstr) (devt : cstr) (is_dmdev : bool) : K bool :=
  match names with
  | [] => mret false
  | name :: names =>
      match_ ← is_partmap mapname uuid devt is_dmdev name;
      failed ← (if (match_ : bool) then remove_partmap name else mret false);
      if (failed : bool) then mret true else foreach_partmaps names mapname uuid devt is_dmdev
  end.

Definition do_foreach_partmaps (mapname : cstr) (uuid : option cstr) (devt : Z * Z) : K bool :=
  names ← ask (x_names X);
  match names with
  | None => mret true
  | Some [] => mret false
  | Some names =>
      dev ← dm_devn mapname;
      foreach_partmaps names mapname uuid (dev_text devt) (bool_decide (dev = Some devt))
  end.

Definition dm_remove_partmaps := do_foreach_partmaps.

(** ** The slices of a table *)

Section Actions.
Variable (mapname delim device : cstr) (uuid : option cstr) (devt : Z * Z) (ro : bool).

Definition part_name (j : Z) : cstr := mapname ++ delim ++ itoa (j + 1).

(** -l: the slices that lie in no other; the number of the others and the next minor number. *)
Fixpoint list_simple (todo : nat) (j c m : Z) : K (Z * Z) :=
  match todo with
  | O => mret (c, m)
  | S todo =>
      sl ← slice_at j;
      if size sl =? 0 then list_simple todo (j + 1) c m
      else if 0 <? container sl then list_simple todo (j + 1) (c + 1) m
      else
        put_slice j (fun sl => sl <| minor := m |>);;
        print_line {| l_name := part_name j; l_len := size sl; l_device := device; l_first := start sl |};;
        list_simple todo (j + 1) c (m + 1)
  end.

Fixpoint list_contained (todo : nat) (j c m : Z) : K (Z * Z) :=
  match todo with
  | O => mret (c, m)
  | S todo =>
      sl ← slice_at j;
      if (size sl =? 0) || (0 <? minor sl) || (container sl =? 0) then list_contained todo (j + 1) c m
      else
        put_slice j (fun sl => sl <| minor := m |>);;
        outer ← slice_at (container sl - 1);
        print_line {| l_name := part_name j; l_len := size sl; l_device := s "/dev/dm-" ++ itoa (s32 (minor outer));
                      l_first := u64 (start sl - start outer) |};;
        list_contained todo (j + 1) (c - 1) (m + 1)
  end.

(** [while (c)], with [d] contained slices at first *)
Fixpoint list_rest (fuel : nat) (n : nat) (d c m : Z) : K unit :=
  if c =? 0 then mret tt
  else match fuel with
       | O => fails
       | S f => '(c, m) ← list_contained n 0 c m; if d =? c then mret tt else list_rest f n d c m
       end.

Definition do_list (fuel : nat) (n : nat) : K unit := '(c, m) ← list_simple n 0 0 0; list_rest fuel n c c m.

(** The parameters of a partition; they always fit. *)
Definition part_params (first : Z) : cstr := dev_text devt ++ [32] ++ ntoa 10 first.

Definition params_fit (first : Z) : bool := (length (part_params first) <? PARTNAME_SIZE + 16)%nat.

(** [part_uuid && uuid] and [check_uuid]: may the map be used? [None]: [part_uuid] was never set. *)
Definition may_use (part_uuid : option (option cstr)) : option bool :=
  part_uuid ← part_uuid;
  Some (match part_uuid, uuid with Some p, Some u => check_uuid u p | _, _ => true end).

Definition set_devn (j : Z) (name : cstr) : K unit :=
  dev ← dm_devn name;
  match dev with
  | Some (ma, mi) => put_slice j (fun sl => sl <| major := ma |> <| minor := mi |>)
  | None => mret tt
  end.

(** A slice that lies in no other. *)
Definition add_one (j : Z) (sl : slice) : K unit :=
  if negb (params_fit (start sl)) then fails
  else
    '(found, name, part_uuid) ← dm_find_part mapname delim (j + 1) uuid;
    match may_use part_uuid with
    | None => fails
    | Some false => count_failure
    | Some true =>
        ok ← dm_addmap found name DM_TARGET (part_params (start sl)) (size sl) ro uuid (j + 1);
        if negb ok then count_failure
        else
          resumed ← (if (found : bool) then dm_simplecmd (DmResume name) else mret true);
          if negb resumed then count_failure else set_devn j name
    end.

Fixpoint add_simple (todo : nat) (j c : Z) : K Z :=
  match todo with
  | O => mret c
  | S todo =>
      sl ← slice_at j;
      if size sl =? 0 then add_simple todo (j + 1) c
      else if 0 <? container sl then add_simple todo (j + 1) (c + 1)
      else add_one j sl;; add_simple todo (j + 1) c
  end.

(** A slice in another; [true] if it counts as resolved. *)
Definition add_inner (j : Z) (sl : slice) : K bool :=
  _ ← slice_at (container sl - 1);
  if negb (params_fit (start sl)) then fails
  else
    '(found, name, part_uuid) ← dm_find_part mapname delim (j + 1) uuid;
    match may_use part_uuid with
    | None => fails
    | Some false => mret false
    | Some true =>
        dm_addmap found name DM_TARGET (part_params (start sl)) (size sl) ro uuid (j + 1);;
        (if (found : bool) then dm_simplecmd (DmResume name) else mret true);;
        set_devn j name;;
        mret true
    end.

Fixpoint add_contained (todo : nat) (j c : Z) : K Z :=
  match todo with
  | O => mret c
  | S todo =>
      sl ← slice_at j;
      if (size sl =? 0) || (0 <? minor sl) || (container sl =? 0) then add_contained todo (j + 1) c
      else resolved ← add_inner j sl; add_contained todo (j + 1) (if (resolved : bool) then c - 1 else c)
  end.

Fixpoint add_rest (fuel : nat) (n : nat) (d c : Z) : K unit :=
  if c =? 0 then mret tt
  else match fuel with
       | O => fails
       | S f => c ← add_contained n 0 c; if d =? c then mret tt else add_rest f n d c
       end.

Definition do_add (fuel : nat) (n : nat) : K unit := c ← add_simple n 0 0; add_rest fuel n c c.

(** [for (j = MAXSLICES-1; j >= 0; j--)]: [todo] is [j + 1] *)
Fixpoint remove_stale (todo : nat) : K unit :=
  match todo with
  | O => mret tt
  | S j =>
      sl ← slice_at (Z.of_nat j);
      (if negb (size sl =? 0) then mret tt
       else
         '(found, name, part_uuid) ← dm_find_part mapname delim (Z.of_nat j + 1) uuid;
         if negb found then mret tt
         else match may_use part_uuid with
              | None => fails
              | Some false => mret tt
              | Some true => ok ← dm_simplecmd (DmRemove name true); if (ok : bool) then mret tt else count_failure
              end);;
      remove_stale j
  end.

Inductive action := LIST | ADD | DELETE | UPDATE.

(** What is done with a table of [n] slices. *)
Definition do_slices (fuel : nat) (what : action) (n : nat) : K unit :=
  match what with
  | LIST => do_list fuel n
  | ADD => do_add fuel n
  | UPDATE => do_add fuel n;; remove_stale (Z.to_nat MAXSLICES)
  | DELETE => mret tt
  end.

End Actions.
End Dm.

(** ** The program *)

Section Main.
Variable (D : disk) (A : dasd) (le : list (option Z)) (force_gpt : bool) (X : dm_env).

Definition initpts (fuel : nat) : list (cstr * (slice -> Z -> M Z)) := [
  (s "gpt", read_gpt_pt D le force_gpt); (s "dos", read_dos_pt D); (s "bsd", read_bsd_pt D);
  (s "solaris", read_solaris_pt D); (s "unixware", read_unixware_pt D); (s "dasd", read_dasd_pt A fuel);
  (s "mac", read_mac_pt D); (s "sun", read_sun_pt D); (s "ps3", read_ps3_pt D)].

(** [for (i = 0; i < ptct; i++)]: the number of slices of the first table that has some; [type] is the
    argument of -t. *)
Fixpoint scan (pts : list (cstr * (slice -> Z -> M Z))) (type : option cstr) : M Z :=
  match pts with
  | [] => mret 0
  | (name, reader) :: pts =>
      if match type with Some t => negb (streq t name) | None => false end then scan pts type
      else n ← reader empty_slice MAXSLICES; if 0 <? n then mret n else scan pts type
  end.

(** The maps in which a partition of the device is looked for are those of libdevmapper when
    the program starts; the result is its return code, with the history and what was printed. *)
Definition kpartx (fuel : nat) (what : action) (type : option cstr) (mapname delim device : cstr) (uuid : option cstr)
    (devt : Z * Z) (ro : bool) : option (Z * kpstate) :=
  let start_state slices := {| p_hist := []; p_slices := slices; p_r := 0; p_lines := [] |} in
  match what with
  | DELETE =>
      '(r, st) ← dm_remove_partmaps X mapname uuid devt (start_state (k_slices initial));
      Some (if (r : bool) then 1 else 0, st)
  | _ =>
      '(n, kst) ← scan (initpts fuel) type initial;
      '(_, st) ← (if 0 <? n then do_slices X mapname delim device uuid devt ro fuel what (Z.to_nat n) else mret tt)
                   (start_state (k_slices kst));
      Some (p_r st, st)
  end.
End Main.

(** ** UUIDs of partitions *)

Lemma itoa_digits n : 0 <= n -> Forall (fun c => isdigit c = true) (itoa n).
Proof.
  intros Hn. unfold itoa. if_false. eapply Forall_impl; [by apply ntoa_aux_chars|].
  cbn. intros c (d & Hd & ->). pose proof (digit_char10_range d Hd). unfold isdigit. blia.
Qed.

Lemma part_digits p : 1 <= p <= MAXSLICES -> (1 <= length (itoa p) <= 3)%nat.
Proof.
  intros Hp. assert (forallb (fun p => (1 <=? length (itoa p)) && (length (itoa p) <=? 3))%nat (seqZ 1 256) = true) as H
    by (vm_compute; reflexivity).
  rewrite forallb_forall in H. specialize (H p). rewrite <-list_elem_of_In, elem_of_seqZ in H.
  unfold MAXSLICES in Hp. specialize (H ltac:(lia)). apply andb_true_iff in H as [H1%Nat.leb_le H2%Nat.leb_le]. lia.
Qed.

(** The prefix always fits. *)
Lemma prefixed_uuid p u : 1 <= p <= MAXSLICES -> make_prefixed_uuid p u = UUID_PREFIX ++ itoa p ++ 45 :: u.
Proof.
  intros Hp%part_digits. unfold make_prefixed_uuid. apply take_ge. unfold MAX_PREFIX_LEN, UUID_PREFIX.
  rewrite !length_app. cbn. lia.
Qed.

Lemma no_dash p : 0 <= p -> Forall (fun x => x <> 45) (UUID_PREFIX ++ itoa p).
Proof.
  intros Hp. apply Forall_app_2; [decide_closed|]. eapply Forall_impl; [by apply itoa_digits|].
  cbn. unfold isdigit. intros x H ->. done.
Qed.

Lemma check_prefixed_uuid v p u : 1 <= p <= MAXSLICES -> check_uuid v (make_prefixed_uuid p u) = streq v u.
Proof.
  intros Hp. rewrite prefixed_uuid by done. unfold check_uuid. rewrite app_assoc.
  rewrite strchr_first by (apply no_dash; lia).
  assert (drop (S (length (UUID_PREFIX ++ itoa p))) ((UUID_PREFIX ++ itoa p) ++ 45 :: u) = u) as ->.
  { replace (S (length (UUID_PREFIX ++ itoa p))) with (length (UUID_PREFIX ++ itoa p) + 1)%nat by lia.
    by rewrite <-drop_drop, drop_app_length. }
  assert (strneq 4 ((UUID_PREFIX ++ itoa p) ++ 45 :: u) UUID_PREFIX = true) as -> by (by apply bool_decide_eq_true).
  done.
Qed.

(** What [dm_compare_uuid] says of the UUID of a partition. *)
Definition own_uuid (mapuuid u : cstr) : Prop :=
  exists digits, digits <> [] /\ Forall (fun c => isdigit c = true) digits /\ u = UUID_PREFIX ++ digits ++ 45 :: mapuuid.

Lemma compare_own X mapuuid name st : exists b, dm_compare_uuid X mapuuid name st = Some (b, st) /\
  (b = false <-> exists u, x_uuid X (p_hist st) name = Some u /\ own_uuid mapuuid u).
Proof.
  eexists. split; [reflexivity|]. cbn [p_hist]. destruct (x_uuid X (p_hist st) name) as [[|c u]|].
  1,3: split; [done|]. { intros (u & [= <-] & ds & _ & _ & H). done. } { by intros (u & H & _). }
  generalize (c :: u). clear c u. intros u. unfold own_uuid. split.
  - destruct (strneq 4 u UUID_PREFIX) eqn:Hp; [|done]. apply bool_decide_eq_true in Hp.
    destruct (span isdigit (drop 4 u)) as [[|d ds] rest] eqn:Hs; [done|]. destruct rest as [|x rest]; [done|].
    destruct (decide (x = 45)) as [->|Hx]; [|intros H; exfalso; revert H; destruct x as [|x|x]; try done;
      do 6 (destruct x as [x|x|]; try done)].
    intros H%negb_false_iff. apply streq_eq in H as ->. exists u. split; [done|]. exists (d :: ds). split; [done|].
    split; [by eapply span_all|]. rewrite <-(take_drop 4 u), Hp. by rewrite (span_app _ _ _ _ Hs).
  - intros (u' & [= <-] & ds & Hne & Hd & ->).
    assert (strneq 4 (UUID_PREFIX ++ ds ++ 45 :: mapuuid) UUID_PREFIX = true) as -> by (by apply bool_decide_eq_true).
    change (drop 4 (UUID_PREFIX ++ ds ++ 45 :: mapuuid)) with (ds ++ 45 :: mapuuid).
    rewrite (span_intro isdigit ds (45 :: mapuuid) Hd eq_refl). destruct ds; [done|]. by rewrite streq_refl.
Qed.

Lemma u32_s32 z : 0 <= z < 2 ^ 32 -> u32 (s32 z) = z.
Proof.
  intros Hz. unfold u32, s32. rewrite Zminus_mod, Zmod_mod, <-Zminus_mod. replace (z + 2 ^ 31 - 2 ^ 31) with z by lia.
  by apply Z.mod_small.
Qed.

Lemma nondm_uuid_roundtrip ma mi : 0 <= ma < 2 ^ 32 -> 0 <= mi < 2 ^ 32 ->
  nondm_parse_uuid (nondm_create_uuid ma mi) = Some (ma, mi).
Proof.
  intros Hma Hmi. unfold nondm_create_uuid.
  assert (forall n, 0 <= n < 2 ^ 32 -> (length (ntoa 10 n) <= 10)%nat) as Hlen.
  { intros n Hn. apply ntoa_aux_length; [lia| |lia]. change (10 ^ Z.of_nat 10) with 10000000000. lia. }
  pose proof (Hlen ma Hma). pose proof (Hlen mi Hmi).
  rewrite take_ge by (rewrite !length_app; change (length NONDM_UUID_PREFIX) with 7%nat;
    change (length NONDM_UUID_SUFFIX) with 7%nat; cbn [length]; lia).
  unfold nondm_parse_uuid.
  change (strneq 8 (NONDM_UUID_PREFIX ++ [95] ++ ntoa 10 ma ++ [58] ++ ntoa 10 mi ++ [95] ++ NONDM_UUID_SUFFIX)
            (NONDM_UUID_PREFIX ++ [95])) with true.
  change (drop 8 (NONDM_UUID_PREFIX ++ [95] ++ ntoa 10 ma ++ [58] ++ ntoa 10 mi ++ [95] ++ NONDM_UUID_SUFFIX))
    with (ntoa 10 ma ++ [58] ++ ntoa 10 mi ++ [95] ++ NONDM_UUID_SUFFIX).
  cbn [negb]. rewrite strtoul10_ntoa by (done || unfold ULONG_MAX; lia). cbn [mbind option_bind app].
  change (95 :: NONDM_UUID_SUFFIX) with ([95] ++ NONDM_UUID_SUFFIX).
  rewrite strtoul10_ntoa by (done || unfold ULONG_MAX; lia). cbn [mbind option_bind app].
  rewrite streq_refl, !u32_s32 by done. done.
Qed.

(** The UUIDs of partitions name their device: the UUID kpartx gives to a partition is never cut, the checks
    before a map is used ([check_uuid]) and before it is removed ([dm_compare_uuid]) accept it for the device it was made for and for no
    other; the UUID made up for a device that is no map is not cut either and gives the device number back. *)
Theorem partition_uuid_roundtrip X p u v name st ma mi : 1 <= p <= MAXSLICES -> 0 <= ma < 2 ^ 32 -> 0 <= mi < 2 ^ 32 ->
  check_uuid v (make_prefixed_uuid p u) = bool_decide (v = u) /\
  (x_uuid X (p_hist st) name = Some (make_prefixed_uuid p u) ->
   dm_compare_uuid X v name st = Some (negb (bool_decide (v = u)), st)) /\
  nondm_parse_uuid (nondm_create_uuid ma mi) = Some (ma, mi).
Proof.
  intros Hp Hma Hmi. split; [|split].
  - by rewrite check_prefixed_uuid.
  - intros Hu. destruct (compare_own X v name st) as (b & -> & Hb). do 2 f_equal. rewrite Hu, prefixed_uuid in Hb by done.
    case_bool_decide as Huv; cbn; [apply Hb|].
    + subst v. eexists. split; [done|]. exists (itoa p). split; [apply itoa_not_nil|]. split; [apply itoa_digits; lia|done].
    + destruct b; [done|]. exfalso. apply Huv. destruct (proj1 Hb eq_refl) as (w & Hw & ds & _ & Hd & Hx).
      assert (UUID_PREFIX ++ itoa p ++ 45 :: u = UUID_PREFIX ++ ds ++ 45 :: v) as Heq%app_inv_head by congruence.
      assert (span isdigit (itoa p ++ 45 :: u) = span isdigit (ds ++ 45 :: v)) as Hs by by rewrite Heq.
      rewrite !span_intro in Hs by (done || apply itoa_digits; lia). by injection Hs.
  - by apply nondm_uuid_roundtrip.
Qed.

(** ** Removing the partitions of a device *)

(** At this point a map is a partition of the device with UUID [u]: its UUID says so, and it has one linear
    target on the device. *)
Definition own_partition (X : dm_env) (mapname u : cstr) (devt : Z * Z) (is_dmdev : bool) (h : dm_history) (name : cstr) : Prop :=
  (exists w, x_uuid X h name = Some w /\ own_uuid u w) /\
  (exists p, x_targets X h name = Some [(DM_TARGET, p)] /\ (length p <= PARAMS_SIZE)%nat /\
             has_strstr (take (PARAMS_SIZE - 1) p) (dev_text devt) = true) /\
  (is_dmdev = true -> name <> mapname).

Lemma is_partmap_spec X mapname u devt d name st : exists b, is_partmap X mapname (Some u) devt d name st = Some (b, st) /\
  (b = true <-> (exists w, x_uuid X (p_hist st) name = Some w /\ own_uuid u w) /\
                (exists p, x_targets X (p_hist st) name = Some [(DM_TARGET, p)] /\ (length p <= PARAMS_SIZE)%nat /\
                           has_strstr (take (PARAMS_SIZE - 1) p) devt = true) /\ (d = true -> name <> mapname)).
Proof.
  unfold is_partmap. destruct (compare_own X u name st) as (b & Hb & Hown).
  unfold mbind, K_bind, dm_get_map, dm_type, ask. rewrite Hb. eexists. split; [reflexivity|].
  rewrite !andb_true_iff, (negb_true_iff b), Hown. clear Hb Hown.
  assert (negb (d && streq name mapname) = true <-> (d = true -> name <> mapname)) as ->.
  { rewrite negb_true_iff, andb_false_iff. unfold streq. rewrite bool_decide_eq_false. destruct d; naive_solver. }
  destruct (x_targets X (p_hist st) name) as [[|[t p] [|]]|]; cbn [mbind option_bind]; [naive_solver| |naive_solver..].
  destruct (streq t DM_TARGET) eqn:Ht.
  2: { split; [intros [[_ H] _]; discriminate H|]. intros (_ & (q & [= -> ->] & _) & _). by rewrite streq_refl in Ht. }
  apply streq_eq in Ht as ->. destruct (Nat.leb_spec (length p) PARAMS_SIZE) as [Hle|Hgt].
  - split; [intros [[[H1 H2] _] H3]; eauto 7|]. by intros (H1 & (q & [= ->] & _ & H2) & H3).
  - split; [by intros [[[_ H] _] _]|]. intros (_ & (q & [= ->] & H & _) & _). lia.
Qed.

Definition removes (names : list cstr) : dm_history := map (fun n => DmRemove n false) names.

Lemma foreach_partmaps_spec X mapname u devt d names st :
  exists failed removed st', foreach_partmaps X names mapname (Some u) (dev_text devt) d st = Some (failed, st') /\
    p_slices st' = p_slices st /\ p_hist st' = p_hist st ++ removes removed /\
    (forall k name, removed !! k = Some name ->
       name ∈ names /\ own_partition X mapname u devt d (p_hist st ++ removes (take k removed)) name) /\
    (failed = false -> forall name, name ∈ names -> name ∈ removed \/
       exists k, ~ own_partition X mapname u devt d (p_hist st ++ removes (take k removed)) name).
Proof.
  revert st. induction names as [|name names IH]; intros st; cbn [foreach_partmaps].
  { exists false, [], st. split; [done|]. split; [done|]. split; [by rewrite app_nil_r|]. split; [done|].
    by intros _ name H%elem_of_nil. }
  unfold mbind, K_bind. destruct (is_partmap_spec X mapname u (dev_text devt) d name st) as (b & -> & Hb).
  fold (own_partition X mapname u devt d (p_hist st) name) in Hb. destruct b.
  - assert (own_partition X mapname u devt d (p_hist st) name) as Hown by by apply Hb. clear Hb.
    unfold remove_partmap, mbind, K_bind, dm_get_opencount, ask. destruct (negb _).
    { exists true, [], st. split; [done|]. split; [done|]. split; [by rewrite app_nil_r|]. by split. }
    unfold dm_simplecmd, run_event. set (st1 := st <| p_hist ::= fun h => h ++ [DmRemove name false] |>).
    destruct (x_run X (p_hist st) (DmRemove name false)).
    + destruct (IH st1) as (f & rm & st' & E & H1 & H2 & H3 & H4). cbn [negb].
      exists f, (name :: rm), st'. split; [exact E|]. split; [done|].
      assert (forall k, p_hist st1 ++ removes (take k rm) = p_hist st ++ removes (take (S k) (name :: rm))) as Hh
        by (intros k; cbn; by rewrite <-app_assoc).
      split; [rewrite H2; cbn; by rewrite <-app_assoc|]. split.
      * intros [|k] n Hn; cbn in Hn.
        -- injection Hn as <-. split; [by left|]. cbn. by rewrite app_nil_r.
        -- destruct (H3 k n Hn) as [Hin Ho]. split; [by right|]. by rewrite <-Hh.
      * intros Hf n [->|Hn]%elem_of_cons; [left; by left|]. destruct (H4 Hf n Hn) as [Hin|[k Hk]]; [left; by right|].
        right. exists (S k). by rewrite <-Hh.
    + cbn [negb]. exists true, [name], st1. split; [done|]. split; [done|]. split; [done|]. split; [|done].
      intros [|k] n Hn; [|done]. injection Hn as <-. split; [by left|]. cbn. by rewrite app_nil_r.
  - assert (~ own_partition X mapname u devt d (p_hist st) name) as Hown by (intros H; by apply Hb in H). clear Hb.
    cbn [mret K_ret]. destruct (IH st) as (f & rm & st' & E & H1 & H2 & H3 & H4).
    exists f, rm, st'. split; [exact E|]. split; [done|]. split; [done|]. split.
    + intros k n Hn. destruct (H3 k n Hn) as [Hin Ho]. split; [by right|done].
    + intros Hf n [->|Hn]%elem_of_cons; [|by apply H4]. right. exists 0%nat. cbn. by rewrite app_nil_r.
Qed.


(** ** Adding partitions *)

(** Two lists of slices that differ in device numbers only, and only at [j]. *)
Definition same_extent (a b : slice) : Prop := start a = start b /\ size a = size b /\ container a = container b.

Definition numbered (j : Z) (l l' : list slice) : Prop :=
  length l' = length l /\
  forall i x, l !! i = Some x -> exists y, l' !! i = Some y /\ same_extent x y /\ (i <> Z.to_nat j -> y = x).

Lemma numbered_refl j l : numbered j l l.
Proof. split; [done|]. intros i x Hx. by exists x. Qed.

Lemma itoa_short z : is_int z -> (length (itoa z) <= 11)%nat.
Proof.
  intros Hz. unfold is_int, INT_MIN, INT_MAX in Hz. unfold itoa. destruct (Z.ltb_spec z 0); cbn [length];
    (assert (forall n, 0 <= n < 10 ^ Z.of_nat 10 -> (length (ntoa 10 n) <= 10)%nat) as H10
       by (intros n Hn; apply ntoa_aux_length; lia)).
  - specialize (H10 (- z)). change (10 ^ Z.of_nat 10) with 10000000000 in H10. lia.
  - specialize (H10 z). change (10 ^ Z.of_nat 10) with 10000000000 in H10. lia.
Qed.

Lemma params_always_fit devt first : 0 <= first < 2 ^ 64 -> params_fit devt first = true.
Proof.
  intros Hf. unfold params_fit, part_params, dev_text. apply Nat.ltb_lt.
  pose proof (itoa_short (s32 (fst devt)) (s32_range _)). pose proof (itoa_short (s32 (snd devt)) (s32_range _)).
  assert (length (ntoa 10 first) <= 20)%nat.
  { apply ntoa_aux_length; [lia| |lia]. change (10 ^ Z.of_nat 20) with 100000000000000000000. lia. }
  rewrite !length_app. cbn [length]. unfold PARTNAME_SIZE. lia.
Qed.

Lemma set_devn_returns X j name st : 0 <= j -> (Z.to_nat j < length (p_slices st))%nat ->
  exists st', set_devn X j name st = Some (tt, st') /\ numbered j (p_slices st) (p_slices st').
Proof.
  intros Hj Hl. unfold set_devn, mbind, K_bind, dm_devn, ask. destruct (x_devn X (p_hist st) name) as [[ma mi]|].
  2: { exists st. split; [done|apply numbered_refl]. }
  unfold put_slice. if_false. destruct (lookup_lt_is_Some_2 _ _ Hl) as [x Hx]. rewrite Hx.
  eexists. split; [reflexivity|]. cbn. split; [by rewrite length_insert|]. intros i y Hy.
  destruct (decide (i = Z.to_nat j)) as [->|Hne].
  - rewrite list_lookup_insert_eq by done. assert (y = x) as -> by congruence. by eexists.
  - rewrite list_lookup_insert_ne by done. by exists y.
Qed.

Section Adding.
Context (X : dm_env) (mapname delim : cstr) (uuid : option cstr) (devt : Z * Z) (ro : bool).
Context (Hname : (length mapname + length delim + 3 < PARTNAME_SIZE)%nat).

Abbreviation name_of j := (strip_slash (mapname ++ delim ++ itoa (j + 1))).

Lemma part_name_fits j : 0 <= j < MAXSLICES ->
  format_partname PARTNAME_SIZE mapname delim (j + 1) = (name_of j, true).
Proof.
  intros Hj. pose proof (part_digits (j + 1) ltac:(lia)) as Hd. unfold format_partname.
  rewrite (proj2 (Nat.leb_gt _ _)); [done|]. rewrite !length_app. lia.
Qed.

(** A map that has the name of a partition already is one of the partitions of this device. *)
Definition names_are_ours : Prop := forall h j u p, 0 <= j < MAXSLICES -> x_uuid X h (name_of j) = Some p ->
  uuid = Some u -> p = [] \/ check_uuid u p = true.

Lemma find_part_returns j st : names_are_ours -> 0 <= j < MAXSLICES ->
  exists found pu st', dm_find_part X mapname delim (j + 1) uuid st = Some ((found, name_of j, pu), st') /\
    p_slices st' = p_slices st /\ may_use uuid pu = Some true.
Proof.
  intros Hours Hj. unfold dm_find_part. rewrite part_name_fits by done. cbn [negb].
  unfold mbind at 1, K_bind at 1. unfold dm_map_present, ask at 1.
  assert (forall pu, (forall p u, pu = Some p -> uuid = Some u -> check_uuid u p = true) -> may_use uuid (Some pu) = Some true) as Hmay.
  { intros [p|] H; [|done]. cbn. destruct uuid as [u|]; [|done]. by rewrite (H p u). }
  destruct (x_uuid X (p_hist st) (name_of j)) as [p|] eqn:Hp; cbn [fmap option_fmap option_map].
  { eexists true, _, st. split; [reflexivity|]. split; [done|]. apply Hmay. intros q u Hq Hu.
    destruct (Hours _ _ _ _ Hj Hp Hu) as [->|Hc]; [done|]. destruct p; [done|]. by injection Hq as <-. }
  destruct uuid as [[|c u]|] eqn:Huu; [by eexists false, _, st|..|by eexists false, _, st].
  unfold mbind, K_bind, dm_find_uuid, dm_type, dm_devn, dm_get_map, ask.
  assert (may_use (Some (c :: u)) (Some None) = Some true) as Hnull by done.
  destruct (x_find_uuid X (p_hist st) _) as [[|d tmp]|]; [by eexists false, _, st|..|by eexists false, _, st].
  destruct (if _ =? 1 then _ else None) as [dev|]; [|by eexists false, _, st].
  destruct (x_targets X (p_hist st) (d :: tmp)) as [targets|]; cbn [mbind option_bind]; [|by eexists false, _, st].
  destruct (_ <=? PARAMS_SIZE)%nat; [|by eexists false, _, st]. generalize (take (PARAMS_SIZE - 1) match targets with [] => s "(null)" | (_, p) :: _ => p end).
  intros params.
  destruct (has_strstr params (dev_text dev)); [|by eexists false, _, st].
  unfold dm_rename, run_event. destruct (x_run X (p_hist st) _).
  - eexists true, _, _. split; [reflexivity|]. split; [done|]. apply Hmay. intros p v [= <-] [= <-].
    rewrite check_prefixed_uuid by lia. apply streq_refl.
  - by eexists false, _, _.
Qed.

Lemma add_one_returns j sl st : names_are_ours -> 0 <= j < MAXSLICES -> (Z.to_nat j < length (p_slices st))%nat ->
  0 <= start sl < 2 ^ 64 ->
  exists st', add_one X mapname delim uuid devt ro j sl st = Some (tt, st') /\ numbered j (p_slices st) (p_slices st').
Proof.
  intros Hours Hj Hl Hs. unfold add_one. rewrite params_always_fit by done. cbn [negb].
  destruct (find_part_returns j st Hours Hj) as (found & pu & st1 & E & H1 & Hm). unfold mbind at 1, K_bind at 1. rewrite E, Hm.
  assert (forall st2, p_slices st2 = p_slices st1 ->
    exists st', count_failure st2 = Some (tt, st') /\ numbered j (p_slices st) (p_slices st')) as Hfail.
  { intros st2 Hs2. eexists. split; [reflexivity|]. cbn. rewrite Hs2, H1. apply numbered_refl. }
  assert (forall st2, p_slices st2 = p_slices st1 ->
    exists st', set_devn X j (name_of j) st2 = Some (tt, st') /\ numbered j (p_slices st) (p_slices st')) as Hset.
  { intros st2 Hs2. rewrite <-H1, <-Hs2. apply set_devn_returns; [lia|by rewrite Hs2, H1]. }
  unfold mbind, K_bind, dm_addmap, dm_simplecmd, run_event. destruct (x_run X (p_hist st1) _); cbn [negb]; [|by apply Hfail].
  destruct found; cbn [negb mret K_ret]; [|by apply Hset].
  destruct (x_run X _ (DmResume _)); cbn [negb]; [by apply Hset|by apply Hfail].
Qed.

Lemma add_inner_returns j sl st : names_are_ours -> 0 <= j < MAXSLICES -> (Z.to_nat j < length (p_slices st))%nat ->
  0 <= start sl < 2 ^ 64 -> 1 <= container sl <= Z.of_nat (length (p_slices st)) ->
  exists st', add_inner X mapname delim uuid devt ro j sl st = Some (true, st') /\ numbered j (p_slices st) (p_slices st').
Proof.
  intros Hours Hj Hl Hs Hc. unfold add_inner, mbind at 1, K_bind at 1, slice_at. if_false.
  destruct (lookup_lt_is_Some_2 (p_slices st) (Z.to_nat (container sl - 1)) ltac:(lia)) as [o Ho]. rewrite Ho.
  rewrite params_always_fit by done. cbn [negb].
  destruct (find_part_returns j st Hours Hj) as (found & pu & st1 & E & H1 & Hm). unfold mbind at 1, K_bind at 1. rewrite E, Hm.
  assert (forall st2, p_slices st2 = p_slices st1 ->
    exists st', set_devn X j (name_of j) st2 = Some (tt, st') /\ numbered j (p_slices st) (p_slices st')) as Hset.
  { intros st2 Hs2. rewrite <-H1, <-Hs2. apply set_devn_returns; [lia|by rewrite Hs2, H1]. }
  unfold mbind, K_bind, dm_addmap, dm_simplecmd, run_event. cbn [fst snd].
  destruct found; cbn [mret K_ret].
  - match goal with |- context [set_devn X j _ ?s2] => destruct (Hset s2 eq_refl) as (st' & -> & Hn) end. by exists st'.
  - match goal with |- context [set_devn X j _ ?s2] => destruct (Hset s2 eq_refl) as (st' & -> & Hn) end. by exists st'.
Qed.

(** The slices of a table before they have maps. *)
Definition fresh_table (l : list slice) (n : nat) : Prop :=
  (n <= length l)%nat /\ Z.of_nat n <= MAXSLICES /\
  forall i x, l !! i = Some x -> (i < n)%nat ->
    0 <= start x < 2 ^ 64 /\ 0 <= container x <= Z.of_nat (length l) /\ (0 < container x -> minor x = 0).

(** The slices from [k] on that lie in others are as they were. *)
Definition evolved (k : Z) (l l' : list slice) : Prop :=
  length l' = length l /\
  forall i x, l !! i = Some x -> exists y, l' !! i = Some y /\ same_extent x y /\ (0 < container x -> k <= Z.of_nat i -> y = x).

Lemma evolved_refl k l : evolved k l l.
Proof. split; [done|]. intros i x Hx. by exists x. Qed.

Lemma evolved_weaken k k' l l' : k <= k' -> evolved k l l' -> evolved k' l l'.
Proof.
  intros Hk [Hl H]. split; [done|]. intros i x Hx. destruct (H i x Hx) as (y & H1 & H2 & H3).
  exists y. split; [done|]. split; [done|]. intros Hc Hi. apply H3; lia.
Qed.

Lemma evolved_numbered k j l l1 l2 x : 0 <= j -> evolved k l l1 -> numbered j l1 l2 -> l !! Z.to_nat j = Some x ->
  (0 < container x -> j < k) -> evolved k l l2.
Proof.
  intros Hj [Hl H] [Hl2 H2] Hx Hc. split; [congruence|]. intros i z Hz. destruct (H i z Hz) as (y & Hy & Hs & Heq).
  destruct (H2 i y Hy) as (w & Hw & Hsw & Hne). exists w. split; [done|]. unfold same_extent in *. split; [intuition congruence|].
  intros Hcz Hi. destruct (decide (i = Z.to_nat j)) as [->|Hij]; [|rewrite Hne by done; by apply Heq].
  assert (z = x) as -> by congruence. specialize (Hc Hcz). lia.
Qed.

(** How many slices lie in others. *)
Definition is_inner (o : option slice) : bool :=
  match o with Some x => negb (size x =? 0) && (0 <? container x) | None => false end.

Fixpoint inner_count (todo : nat) (l : list slice) (j : Z) : Z :=
  match todo with O => 0 | S todo => (if is_inner (l !! Z.to_nat j) then 1 else 0) + inner_count todo l (j + 1) end.

Lemma slice_at_evolved k l n j st : fresh_table l n -> evolved k l (p_slices st) -> 0 <= j < Z.of_nat n ->
  exists x y, l !! Z.to_nat j = Some x /\ slice_at j st = Some (y, st) /\ same_extent x y /\
    (0 < container x -> k <= j -> y = x) /\ (Z.to_nat j < length (p_slices st))%nat /\
    0 <= start y < 2 ^ 64 /\ 0 <= container x <= Z.of_nat (length l) /\ (0 < container x -> minor x = 0).
Proof.
  intros (Hn & _ & Ht) [Hl H] Hj. destruct (lookup_lt_is_Some_2 l (Z.to_nat j) ltac:(lia)) as [x Hx].
  destruct (H _ _ Hx) as (y & Hy & Hs & Heq). destruct (Ht _ _ Hx ltac:(lia)) as (H1 & H2 & H3).
  exists x, y. split; [done|]. unfold slice_at. if_false. rewrite Hy. split; [done|]. split; [done|].
  split; [intros Hc Hk; apply Heq; lia|]. split; [by eapply lookup_lt_Some|]. destruct Hs as (Hs & _). by rewrite <-Hs.
Qed.

Lemma add_simple_returns l n : names_are_ours -> fresh_table l n ->
  forall todo j c st, 0 <= j -> j + Z.of_nat todo <= Z.of_nat n -> evolved 0 l (p_slices st) ->
  exists st', add_simple X mapname delim uuid devt ro todo j c st = Some (c + inner_count todo l j, st') /\ evolved 0 l (p_slices st').
Proof.
  intros Hours Ht. induction todo as [|todo IH]; intros j c st Hj Htodo Hev; cbn [add_simple inner_count].
  { exists st. by rewrite Z.add_0_r. }
  destruct (slice_at_evolved 0 l n j st Ht Hev ltac:(lia)) as (x & y & Hx & Hy & (Hs1 & Hs2 & Hs3) & _ & Hlt & Hst & Hc & _).
  unfold mbind at 1, K_bind at 1. rewrite Hy, Hx. cbn [is_inner]. rewrite <-Hs2, <-Hs3.
  destruct (size x =? 0); [apply IH; (done || lia)|]. destruct (Z.ltb_spec 0 (container x)); cbn [negb andb].
  - destruct (IH (j + 1) (c + 1) st ltac:(lia) ltac:(lia) Hev) as (st' & E & H1). exists st'. rewrite E. split; [do 2 f_equal; lia|done].
  - unfold mbind at 1, K_bind at 1. destruct Ht as (Hn & Hmax & _).
    destruct (add_one_returns j y st Hours ltac:(lia) Hlt Hst) as (st1 & -> & Hnum).
    apply IH; [lia|lia|]. eapply evolved_numbered; [exact Hj|done..|lia].
Qed.

Lemma add_contained_returns l n : names_are_ours -> fresh_table l n ->
  forall todo j c st, 0 <= j -> j + Z.of_nat todo <= Z.of_nat n -> evolved j l (p_slices st) ->
  exists st', add_contained X mapname delim uuid devt ro todo j c st = Some (c - inner_count todo l j, st') /\
    evolved (j + Z.of_nat todo) l (p_slices st').
Proof.
  intros Hours Ht. induction todo as [|todo IH]; intros j c st Hj Htodo Hev; cbn [add_contained inner_count].
  { exists st. rewrite Z.sub_0_r, Z.add_0_r. done. }
  destruct (slice_at_evolved j l n j st Ht Hev ltac:(lia)) as (x & y & Hx & Hy & (Hs1 & Hs2 & Hs3) & Heq & Hlt & Hst & Hc & Hm).
  unfold mbind at 1, K_bind at 1. rewrite Hy, Hx. cbn [is_inner]. rewrite <-Hs2, <-Hs3.
  replace (j + Z.of_nat (S todo)) with (j + 1 + Z.of_nat todo) by lia.
  assert (evolved (j + 1) l (p_slices st)) as Hev1 by (eapply evolved_weaken; [|done]; lia).
  destruct (size x =? 0); cbn [orb negb andb]; [apply IH; (done || lia)|].
  destruct (Z.ltb_spec 0 (container x)) as [Hpos|Hz].
  - assert (y = x) as -> by (apply Heq; lia). rewrite (Hm Hpos). if_false.
    destruct Ht as (Hn & Hmax & Htab) eqn:Heqt. unfold mbind at 1, K_bind at 1.
    destruct (add_inner_returns j x st Hours ltac:(lia) Hlt Hst ltac:(destruct Hev; lia)) as (st1 & -> & Hnum).
    destruct (IH (j + 1) (c - 1) st1 ltac:(lia) ltac:(lia)) as (st' & -> & H1).
    { eapply evolved_numbered; [exact Hj|exact Hev1|exact Hnum|done|lia]. }
    exists st'. split; [do 2 f_equal; lia|done].
  - assert (container x = 0) as -> by lia. rewrite orb_true_r. apply IH; (done || lia).
Qed.
End Adding.

(** C21: [kpartx -a] ends: for any table of slices with names that fit, where maps that have the name of one of its partitions
    already are partitions of this device, adding the partitions takes at most one pass over the slices that lie
    in others, whatever libdevmapper answers and whatever fails, and leaves the starts and sizes alone. *)
Theorem add_completes X mapname delim uuid devt ro n st :
  (length mapname + length delim + 3 < PARTNAME_SIZE)%nat -> fresh_table (p_slices st) n ->
  names_are_ours X mapname delim uuid ->
  exists st', do_add X mapname delim uuid devt ro 1 n st = Some (tt, st') /\
    forall i x, p_slices st !! i = Some x -> exists y, p_slices st' !! i = Some y /\ start y = start x /\ size y = size x.
Proof.
  intros Hname Ht Hours. unfold do_add, mbind at 1, K_bind at 1.
  destruct (add_simple_returns X mapname delim uuid devt ro Hname _ n Hours Ht n 0 0 st ltac:(lia) ltac:(lia) (evolved_refl _ _))
    as (st1 & -> & H1). rewrite Z.add_0_l. set (c := inner_count n (p_slices st) 0).
  assert (forall k st2, evolved k (p_slices st) (p_slices st2) -> forall i x, p_slices st !! i = Some x ->
            exists y, p_slices st2 !! i = Some y /\ start y = start x /\ size y = size x) as Hev.
  { intros k st2 [_ H] i x Hx. destruct (H i x Hx) as (y & Hy & (E1 & E2 & _) & _). by exists y. }
  cbn [add_rest]. destruct (c =? 0) eqn:Hc; bools; [exists st1; split; [done|by eapply Hev]|].
  unfold mbind at 1, K_bind at 1.
  destruct (add_contained_returns X mapname delim uuid devt ro Hname _ n Hours Ht n 0 c st1 ltac:(lia) ltac:(lia) H1)
    as (st2 & -> & H2). fold c. replace (c - c) with 0 by lia. if_false. exists st2. split; [done|by eapply Hev].
Qed.

(** ** Listing and adding agree *)

(** The slices in use, with their numbers. *)
Fixpoint parts (todo : nat) (l : list slice) (j : Z) : list (Z * slice) :=
  match todo with
  | O => []
  | S todo =>
      match l !! Z.to_nat j with
      | Some x => if size x =? 0 then parts todo l (j + 1) else (j, x) :: parts todo l (j + 1)
      | None => parts todo l (j + 1)
      end
  end.

Definition event_name (e : dm_event) : cstr :=
  match e with DmAddMap _ n _ _ _ _ _ => n | DmResume n => n | DmRemove n _ => n | DmRename _ n => n end.

(** No map is there before it is made, and everything succeeds. *)
Record calm (X : dm_env) : Prop := {
  calm_uuid : forall h name, name ∉ map event_name h -> x_uuid X h name = None;
  calm_find : forall h u, x_find_uuid X h u = None;
  calm_run : forall h e, x_run X h e = true }.

Definition part_line (mapname delim device : cstr) (p : Z * slice) : list_line :=
  {| l_name := mapname ++ delim ++ itoa (fst p + 1); l_len := size (snd p); l_device := device; l_first := start (snd p) |}.

Definition part_map (mapname delim : cstr) (uuid : option cstr) (devt : Z * Z) (ro : bool) (p : Z * slice) : dm_event :=
  DmAddMap false (strip_slash (mapname ++ delim ++ itoa (fst p + 1))) (size (snd p)) DM_TARGET
    (dev_text devt ++ [32] ++ ntoa 10 (start (snd p))) ro (make_prefixed_uuid (fst p + 1) <$> uuid).

Definition simple_table (l : list slice) (n : nat) : Prop :=
  (n <= length l)%nat /\ Z.of_nat n <= MAXSLICES /\
  forall i x, l !! i = Some x -> (i < n)%nat -> 0 <= start x < 2 ^ 64 /\ container x = 0.

Lemma strip_slash_digits b d : Forall (fun c => isdigit c = true) d -> strip_slash (b ++ d) = strip_slash b ++ d.
Proof.
  intros Hd. assert (map (fun x => if x =? 47 then 33 else x) d = d) as Hm.
  { induction Hd as [|c d Hc _ IH]; [done|]. cbn. rewrite IH. unfold isdigit in Hc. by if_false. }
  destruct b as [|c b]; cbn; [|by rewrite map_app, Hm]. destruct d as [|c d]; [done|]. cbn in *. by injection Hm as _ ->.
Qed.

Lemma names_differ b j k : 0 <= j < MAXSLICES -> 0 <= k < MAXSLICES ->
  strip_slash (b ++ itoa (j + 1)) = strip_slash (b ++ itoa (k + 1)) -> j = k.
Proof.
  unfold MAXSLICES. intros Hj Hk. rewrite !strip_slash_digits by (apply itoa_digits; lia).
  intros H%app_inv_head%(f_equal atoi). rewrite !atoi_itoa in H by (unfold is_int, INT_MIN, INT_MAX; lia). lia.
Qed.

Lemma slice_at_simple l n j st : simple_table l n -> length (p_slices st) = length l ->
  (forall i x, l !! i = Some x -> exists y, p_slices st !! i = Some y /\ same_extent x y) -> 0 <= j < Z.of_nat n ->
  exists x y, l !! Z.to_nat j = Some x /\ p_slices st !! Z.to_nat j = Some y /\ slice_at j st = Some (y, st) /\ size y = size x /\
    start y = start x /\ container y = 0 /\ 0 <= start x < 2 ^ 64.
Proof.
  intros (Hn & _ & Ht) Hl H Hj. destruct (lookup_lt_is_Some_2 l (Z.to_nat j) ltac:(lia)) as [x Hx].
  destruct (H _ _ Hx) as (y & Hy & (H1 & H2 & H3)). destruct (Ht _ _ Hx ltac:(lia)) as [H4 H5].
  exists x, y. unfold slice_at. if_false. rewrite Hy. repeat (split; [done|]). by rewrite <-H3, H5.
Qed.

Lemma numbered_extents j l l1 l2 : numbered j l1 l2 ->
  length l1 = length l /\ (forall i x, l !! i = Some x -> exists y, l1 !! i = Some y /\ same_extent x y) ->
  length l2 = length l /\ (forall i x, l !! i = Some x -> exists y, l2 !! i = Some y /\ same_extent x y).
Proof.
  intros [Hl H] [Hl1 H1]. split; [congruence|]. intros i x Hx. destruct (H1 i x Hx) as (y & Hy & Hs).
  destruct (H i y Hy) as (z & Hz & Hsz & _). exists z. split; [done|]. unfold same_extent in *. intuition congruence.
Qed.

Lemma list_simple_spec mapname delim device l n : simple_table l n ->
  forall todo j c m st, 0 <= j -> j + Z.of_nat todo <= Z.of_nat n ->
  length (p_slices st) = length l /\ (forall i x, l !! i = Some x -> exists y, p_slices st !! i = Some y /\ same_extent x y) ->
  exists m' st', list_simple mapname delim device todo j c m st = Some ((c, m'), st') /\
    p_lines st' = p_lines st ++ map (part_line mapname delim device) (parts todo l j).
Proof.
  intros Ht. induction todo as [|todo IH]; intros j c m st Hj Htodo [Hl Hex]; cbn [list_simple parts map].
  { exists m, st. by rewrite app_nil_r. }
  destruct (slice_at_simple l n j st Ht Hl Hex ltac:(lia)) as (x & y & Hx & Hys & Hy & Hs & Hst & Hc & _).
  unfold mbind at 1, K_bind at 1. rewrite Hy, Hx, Hs, Hc. destruct (size x =? 0); [apply IH; (done || lia)|]. if_false.
  unfold mbind, K_bind, put_slice. if_false. rewrite Hys. unfold print_line.
  match goal with |- context [list_simple _ _ _ todo (j + 1) c (m + 1) ?s] => set (st1 := s) end.
  destruct (IH (j + 1) c (m + 1) st1 ltac:(lia) ltac:(lia)) as (m' & st' & E & H1).
  { eapply numbered_extents; [|by split]. subst st1. cbn. split; [by rewrite length_insert|]. intros i z Hz.
    destruct (decide (i = Z.to_nat j)) as [->|Hne].
    - rewrite list_lookup_insert_eq by (by eapply lookup_lt_Some). assert (z = y) as -> by congruence. by eexists.
    - rewrite list_lookup_insert_ne by done. by exists z. }
  exists m', st'. split; [exact E|]. rewrite H1. subst st1. cbn. rewrite <-app_assoc. cbn.
  do 2 f_equal. unfold part_line. cbn. by rewrite Hst.
Qed.

Section Calm.
Context (X : dm_env) (HX : calm X) (mapname delim : cstr) (uuid : option cstr) (devt : Z * Z) (ro : bool).
Context (Hname : (length mapname + length delim + 3 < PARTNAME_SIZE)%nat).

(** No map of a partition from [j] on was made yet. *)
Definition unmade (j : Z) (h : dm_history) : Prop :=
  forall k, j <= k < MAXSLICES -> strip_slash (mapname ++ delim ++ itoa (k + 1)) ∉ map event_name h.

Lemma add_one_calm j sl st : 0 <= j < MAXSLICES -> (Z.to_nat j < length (p_slices st))%nat -> 0 <= start sl < 2 ^ 64 ->
  unmade j (p_hist st) ->
  exists st', add_one X mapname delim uuid devt ro j sl st = Some (tt, st') /\ numbered j (p_slices st) (p_slices st') /\
    p_hist st' = p_hist st ++ [part_map mapname delim uuid devt ro (j, sl)] /\ p_r st' = p_r st.
Proof.
  intros Hj Hl Hs Hun. unfold add_one. rewrite params_always_fit by done. cbn [negb].
  assert (dm_find_part X mapname delim (j + 1) uuid st =
            Some ((false, strip_slash (mapname ++ delim ++ itoa (j + 1)), Some None), st)) as Hf.
  { unfold dm_find_part. rewrite part_name_fits by done. cbn [negb].
    unfold mbind at 1, K_bind at 1, dm_map_present, ask at 1. rewrite (calm_uuid X HX) by (apply Hun; lia). cbn [fmap option_fmap option_map].
    destruct uuid as [[|c u]|]; [done| |done]. unfold mbind at 1, K_bind at 1, dm_find_uuid, ask at 1.
    by rewrite (calm_find X HX). }
  unfold mbind at 1, K_bind at 1. rewrite Hf.
  assert (may_use uuid (Some None) = Some true) as -> by (by destruct uuid).
  unfold mbind, K_bind, dm_addmap, run_event. rewrite (calm_run X HX). cbn [negb mret K_ret].
  match goal with |- context [set_devn X j ?nm ?s] =>
    destruct (set_devn_returns X j nm s ltac:(lia) Hl) as (st' & E & Hn);
    assert (p_hist st' = p_hist s /\ p_r st' = p_r s) as [Hh Hr] end.
  { revert E. unfold set_devn, mbind, K_bind, dm_devn, ask. case_match; [|by intros [= <-]]. case_match. unfold put_slice.
    case_match; [done|]. case_match; [|done]. by intros [= <-]. }
  exists st'. split; [exact E|]. split; [exact Hn|]. split; [rewrite Hh; by destruct uuid|exact Hr].
Qed.

Lemma add_simple_calm l n : simple_table l n ->
  forall todo j c st, 0 <= j -> j + Z.of_nat todo <= Z.of_nat n ->
  length (p_slices st) = length l /\ (forall i x, l !! i = Some x -> exists y, p_slices st !! i = Some y /\ same_extent x y) ->
  unmade j (p_hist st) ->
  exists st', add_simple X mapname delim uuid devt ro todo j c st = Some (c, st') /\
    p_hist st' = p_hist st ++ map (part_map mapname delim uuid devt ro) (parts todo l j) /\ p_r st' = p_r st.
Proof.
  intros Ht. induction todo as [|todo IH]; intros j c st Hj Htodo [Hl Hex] Hun; cbn [add_simple parts map].
  { exists st. by rewrite app_nil_r. }
  destruct (slice_at_simple l n j st Ht Hl Hex ltac:(lia)) as (x & y & Hx & Hys & Hy & Hs & Hst & Hc & Hr).
  assert (unmade (j + 1) (p_hist st)) as Hun1 by (intros k Hk; apply Hun; lia).
  unfold mbind at 1, K_bind at 1. rewrite Hy, Hx, Hs, Hc. destruct (size x =? 0); [apply IH; (done || lia)|]. if_false.
  unfold mbind at 1, K_bind at 1. destruct Ht as (Hn & Hmax & Htab).
  destruct (add_one_calm j y st ltac:(lia) ltac:(by eapply lookup_lt_Some) ltac:(lia) Hun) as (st1 & -> & H1 & H2 & H3).
  destruct (IH (j + 1) c st1 ltac:(lia) ltac:(lia)) as (st' & E & H4 & H5).
  - by eapply numbered_extents.
  - intros k Hk. rewrite H2, map_app, elem_of_app. intros [Hin|Hin]; [by apply (Hun1 k)|].
    apply list_elem_of_singleton in Hin. cbn [event_name part_map fst] in Hin. rewrite !app_assoc in Hin.
    apply names_differ in Hin; unfold MAXSLICES in *; lia.
  - exists st'. split; [exact E|]. split; [|congruence]. rewrite H4, H2, <-app_assoc. cbn [app map]. do 2 f_equal.
    unfold part_map. cbn [fst snd]. by rewrite Hs, Hst.
Qed.
End Calm.

(** [kpartx -l] shows what [kpartx -a] makes: for a table in which no slice lies in another, on a system without
    maps of that name where everything succeeds, the lines of -l and the maps made by -a are those of the slices in use, in
    order: same number, start and length, the UUID of the partition, and the return code 0. *)
Theorem list_shows_what_add_makes X mapname delim device uuid devt ro n st :
  (length mapname + length delim + 3 < PARTNAME_SIZE)%nat -> simple_table (p_slices st) n -> calm X -> p_hist st = [] ->
  exists st1 st2, do_list mapname delim device 1 n st = Some (tt, st1) /\ do_add X mapname delim uuid devt ro 1 n st = Some (tt, st2) /\
    p_lines st1 = p_lines st ++ map (part_line mapname delim device) (parts n (p_slices st) 0) /\
    p_hist st2 = map (part_map mapname delim uuid devt ro) (parts n (p_slices st) 0) /\ p_r st2 = p_r st.
Proof.
  intros Hname Ht HX Hh.
  assert (length (p_slices st) = length (p_slices st) /\
    (forall i x, p_slices st !! i = Some x -> exists y, p_slices st !! i = Some y /\ same_extent x y)) as Hrefl
    by (split; [done|]; intros i x Hx; by exists x).
  destruct (list_simple_spec mapname delim device _ n Ht n 0 0 0 st ltac:(lia) ltac:(lia) Hrefl) as (m & st1 & E1 & H1).
  destruct (add_simple_calm X HX mapname delim uuid devt ro Hname _ n Ht n 0 0 st ltac:(lia) ltac:(lia) Hrefl) as (st2 & E2 & H2 & H3).
  { intros k _. rewrite Hh. apply not_elem_of_nil. }
  exists st1, st2. unfold do_list, do_add, mbind, K_bind. rewrite E1, E2. cbn [list_rest add_rest Z.eqb].
  split; [done|]. split; [done|]. split; [done|]. rewrite H2, Hh. done.
Qed.

(** ** Examples *)

(** A system on which maps can be made, with the ones in [maps] (name and UUID) there already. *)
Definition small_system (maps : list (cstr * cstr)) : dm_env := {|
  x_uuid := fun h name =>
    match find (fun '(n, _) => streq n name) maps with
    | Some (_, u) => Some u
    | None => if existsb (fun e => streq (event_name e) name) h then Some (s "part1-own") else None
    end;
  x_find_uuid := fun _ _ => None; x_targets := fun _ _ => Some [(DM_TARGET, s "253:3 2048")];
  x_devn := fun _ _ => Some (253, 7); x_opencount := fun _ _ => 0;
  x_names := fun _ => Some (map fst maps); x_run := fun _ _ => true |}.

Definition outer_slice : slice := {| start := 100; size := 1000; container := 0; major := 0; minor := 0 |}.
Definition inner_slice (a : Z) : slice := {| start := a; size := 50; container := 1; major := 0; minor := 0 |}.

Definition with_slices (l : list slice) : kpstate := {| p_hist := []; p_slices := l; p_r := 0; p_lines := [] |}.

Lemma partition_uuid_roundtrip_witness :
  1 <= 2 <= MAXSLICES /\ 0 <= 8 < 2 ^ 32 /\ 0 <= 16 < 2 ^ 32 /\
  check_uuid (s "mpath-a") (make_prefixed_uuid 2 (s "mpath-a")) = bool_decide (s "mpath-a" = s "mpath-a") /\
  (x_uuid (small_system []) [] (s "m2") = Some (make_prefixed_uuid 2 (s "mpath-a")) ->
   dm_compare_uuid (small_system []) (s "mpath-a") (s "m2") (with_slices []) =
     Some (negb (bool_decide (s "mpath-a" = s "mpath-a")), with_slices [])) /\
  nondm_parse_uuid (nondm_create_uuid 8 16) = Some (8, 16).
Proof.
  assert (1 <= 2 <= MAXSLICES) as Hp by (unfold MAXSLICES; lia).
  assert (0 <= 8 < 2 ^ 32) as H8 by lia. assert (0 <= 16 < 2 ^ 32) as H16 by lia.
  split; [exact Hp|]. split; [exact H8|]. split; [exact H16|].
  exact (partition_uuid_roundtrip (small_system []) 2 (s "mpath-a") (s "mpath-a") (s "m2") (with_slices []) 8 16 Hp H8 H16).
Defined.

(** A map of another device that has the name of a partition within another. *)
Definition taken_names : dm_env := small_system [(s "m3", s "LVM-foreign")].

(** ... then the loop over the slices that lie in others does not end: one of two is added, the other one
    is refused again and again. *)
Example add_loops_forever fuel :
  do_add taken_names (s "m") [] (Some (s "mpath-a")) (253, 3) false fuel 3
    (with_slices [outer_slice; inner_slice 200; inner_slice 300]) = None.
Proof.
  set (pass := fun c => add_contained taken_names (s "m") [] (Some (s "mpath-a")) (253, 3) false 3 0 c).
  destruct (add_simple taken_names (s "m") [] (Some (s "mpath-a")) (253, 3) false 3 0 0
              (with_slices [outer_slice; inner_slice 200; inner_slice 300])) as [[c st1]|] eqn:E1; [|vm_compute in E1; discriminate E1].
  unfold do_add, mbind at 1, K_bind at 1. rewrite E1. vm_compute in E1. injection E1 as <- <-.
  match goal with |- add_rest _ _ _ _ _ _ _ _ _ _ ?s1 = None =>
    destruct (pass 2 s1) as [[c2 st2]|] eqn:E2; [|vm_compute in E2; discriminate E2] end.
  assert (forall f, add_rest taken_names (s "m") [] (Some (s "mpath-a")) (253, 3) false f 3 2 1 st2 = None) as H.
  { assert (pass 1 st2 = Some (1, st2)) as Hp by (vm_compute in E2; injection E2 as <- <-; vm_compute; reflexivity).
    clear E2.
    induction f as [|f IH]; [done|]. cbn [add_rest Z.eqb Pos.eqb]. unfold mbind, K_bind. fold (pass 1). by rewrite Hp. }
  destruct fuel as [|fuel]; [done|]. cbn [add_rest Z.eqb Pos.eqb]. unfold mbind at 1, K_bind at 1. fold (pass 2). rewrite E2.
  assert (c2 = 1) as -> by (vm_compute in E2; injection E2 as <- <-; reflexivity). cbn [Z.eqb Pos.eqb]. apply H.
Qed.

(** For a slice within another one, -l shows a map on the map of the other one, and -a makes one on the device. *)
Example inner_slices_differ : exists st1 st2,
  do_list (s "m") [] (s "/dev/x") 1 2 (with_slices [outer_slice; inner_slice 300]) = Some (tt, st1) /\
  do_add (small_system []) (s "m") [] None (253, 3) false 1 2 (with_slices [outer_slice; inner_slice 300]) = Some (tt, st2) /\
  p_lines st1 !! 1%nat = Some {| l_name := s "m2"; l_len := 50; l_device := s "/dev/dm-0"; l_first := 200 |} /\
  p_hist st2 !! 1%nat = Some (DmAddMap false (s "m2") 50 DM_TARGET (s "253:3 300") false None).
Proof. eexists _, _. split; [vm_compute; reflexivity|]. split; vm_compute; [reflexivity|]. by split. Qed.

(** A name that does not fit: [dm_find_part] returns before it sets [part_uuid], which is used then. *)
Example long_name_unset_pointer :
  do_add (small_system []) (replicate 127 97) (s "p") (Some (s "mpath-a")) (253, 3) false 1 1 (with_slices [outer_slice]) = None.
Proof. vm_compute. reflexivity. Qed.

(** [strstr] finds the device 253:1 in the table of a map on 253:10. *)
Example prefix_of_a_device_number : has_strstr (s "253:10 2048") (dev_text (253, 1)) = true.
Proof. reflexivity. Qed.

Lemma names_ours_example : names_are_ours (small_system []) (s "m") [] (Some (s "own")).
Proof.
  intros h j u p _. unfold small_system. cbn [x_uuid find]. destruct (existsb _ h); [|done].
  intros [= <-] [= <-]. right. reflexivity.
Qed.

Lemma add_completes_witness : let st := with_slices [outer_slice; inner_slice 200; inner_slice 300] in
  fresh_table (p_slices st) 3 /\ names_are_ours (small_system []) (s "m") [] (Some (s "own")) /\
  exists st', do_add (small_system []) (s "m") [] (Some (s "own")) (253, 3) false 1 3 st = Some (tt, st') /\
    forall i x, p_slices st !! i = Some x -> exists y, p_slices st' !! i = Some y /\ start y = start x /\ size y = size x.
Proof.
  intros st. assert (fresh_table (p_slices st) 3) as Ht.
  { split; [cbn; lia|]. split; [unfold MAXSLICES; lia|]. intros [|[|[|i]]] x; cbn; intros [= <-] _; cbn; (split; [lia|split; [lia|done]]). }
  split; [exact Ht|]. split; [exact names_ours_example|].
  exact (add_completes (small_system []) (s "m") [] (Some (s "own")) (253, 3) false 3 st ltac:(cbn; unfold PARTNAME_SIZE; lia) Ht names_ours_example).
Defined.

Lemma small_system_calm : calm (small_system []).
Proof.
  split; [|done|done]. intros h name Hn. cbn [small_system x_uuid find].
  destruct (existsb _ h) eqn:E; [|done]. apply existsb_exists in E as (e & He & Heq%streq_eq).
  exfalso. apply Hn. rewrite <-Heq. by apply list_elem_of_fmap_2, list_elem_of_In.
Qed.

Lemma list_shows_what_add_makes_witness : let st := with_slices [outer_slice; empty_slice; outer_slice] in
  simple_table (p_slices st) 3 /\ calm (small_system []) /\
  exists st1 st2, do_list (s "m") [] (s "/dev/x") 1 3 st = Some (tt, st1) /\
    do_add (small_system []) (s "m") [] (Some (s "mpath-a")) (253, 3) false 1 3 st = Some (tt, st2) /\
    p_lines st1 = p_lines st ++ map (part_line (s "m") [] (s "/dev/x")) (parts 3 (p_slices st) 0) /\
    p_hist st2 = map (part_map (s "m") [] (Some (s "mpath-a")) (253, 3) false) (parts 3 (p_slices st) 0) /\ p_r st2 = p_r st.
Proof.
  intros st. assert (simple_table (p_slices st) 3) as Ht.
  { split; [cbn; lia|]. split; [unfold MAXSLICES; lia|]. intros [|[|[|i]]] x; cbn; intros [= <-] _; cbn; (split; [lia|done]). }
  split; [exact Ht|]. split; [exact small_system_calm|].
  exact (list_shows_what_add_makes (small_system []) (s "m") [] (s "/dev/x") (Some (s "mpath-a")) (253, 3) false 3 st
    ltac:(cbn; unfold PARTNAME_SIZE; lia) Ht small_system_calm eq_refl).
Defined.

(** The whole program on the disk of the examples of Ptable: the two primary partitions, one of them
    extended, and the two logical ones. *)
Example kpartx_lists : exists st,
  kpartx (plain_disk dos_disk) (dasd_volume [] []) le_table false (small_system []) 20 LIST None (s "sda") [] (s "/dev/sda")
    (Some (s "x")) (8, 0) true = Some (0, st) /\
  map (fun l => (l_name l, l_len l, l_device l, l_first l)) (p_lines st) =
    [(s "sda1", 4096, s "/dev/sda", 2048); (s "sda2", 2, s "/dev/sda", 8192);
     (s "sda5", 100, s "/dev/dm-1", 63); (s "sda6", 50, s "/dev/dm-1", 263)].
Proof. eexists. split; vm_compute; reflexivity. Qed.
