(* ===== verification/Handlers.v ===== *)
(** * multipathd/cli_handlers.c: what the commands of the daemon do

    Every handler of the table of [Cli] as a function on the state it may
    change: the world of the daemon, its own setting, the file of reservation
    keys and the state of the daemon.  The texts the printing functions give are
    arguments.  [None]: a parameter that is missing is a NULL pointer a handler
    would follow; or the file of keys is searched without an end. *)

From S2P Require Import Prelude CString Util Uevent Structs File Parser Cli Conf Blacklist Alias Prkey Dmparser World.
From S2P Require Import StructsVec Configure Propsel Coalesce Checker Daemon.

Record cli_state := {
  cs_world : world; cs_queue_without_daemon : Z; cs_prkeys : cstr; cs_status : daemon_status }.

#[export] Instance eta_cli_state : Eta cli_state := fun x => {|
  cs_world := cs_world x; cs_queue_without_daemon := cs_queue_without_daemon x; cs_prkeys := cs_prkeys x;
  cs_status := cs_status x |}.

(** The texts of print.c; a style is a format string. *)
Record texts := {
  t_path_header : cstr -> cstr; t_path : world -> cstr -> ptr -> bool -> cstr; t_foreign_paths : cstr -> bool -> cstr;
  t_map_header : cstr -> cstr; t_map : world -> cstr -> ptr -> bool -> cstr; t_foreign_maps : cstr -> bool -> cstr;
  t_topology : world -> ptr -> cstr; t_foreign_topology : cstr;
  t_map_json : world -> ptr -> cstr; t_maps_json : world -> cstr;
  t_config : world -> bool -> option cstr;        (* snprint_config(), for all or for the local devices *)
  t_status : world -> cstr; t_wildcards : cstr; t_blacklist : cstr; t_devices : world -> cstr }.

(** What the handlers ask, besides the environment of the daemon. *)
Record command_env := {
  ce_env : env; ce_texts : texts;
  ce_conf : Conf.config;
  ce_regcomp : cstr -> option (cstr -> bool);
  ce_mpe : multipath -> option block; ce_hwe : multipath -> option (list block);
  ce_mptable : list mpentry; ce_io : io; ce_bindings : cstr;
  ce_find_device : history -> option cstr;         (* udev_device_new_from_subsystem_sysname(): its sysname *)
  ce_major_minor : history -> option (Z * Z);      (* dm_get_major_minor() *)
  ce_flush_maps : history -> Z;                    (* dm_flush_maps() *)
  ce_switchgroup : history -> Z;                   (* dm_switchgroup() *)
  ce_simplecmd : history -> bool;                  (* dm_simplecmd_noflush() *)
  ce_fail_path : history -> Z;                     (* dm_fail_path() *)
  ce_sysfs_size : history -> option Z;             (* sysfs_get_size() *)
  ce_wait : Z * daemon_status;                     (* the wait of set_config_state() and the state it leaves *)
  ce_pid : Z }.

Definition PRINT_PATH_CHECKER : cstr := s "%i %d %D %p %t %T %o %C".
Definition PRINT_MAP_STATUS : cstr := s "%n %F %Q %N %t %r".
Definition PRINT_MAP_STATS : cstr := s "%n %0 %1 %2 %3 %4".
Definition PRINT_MAP_NAMES : cstr := s "%n %d %w".
Definition PRINT_JSON_MULTIPLIER : nat := 5.

Definition daemon_status_msg (st : daemon_status) : cstr :=
  match st with
  | DAEMON_INIT => s "init"
  | DAEMON_START => s "startup"
  | DAEMON_CONFIGURE => s "configure"
  | DAEMON_IDLE => s "idle"
  | DAEMON_RUNNING => s "running"
  | DAEMON_SHUTDOWN => s "shutdown"
  end.

Section Handlers.
Variable K : command_env.

Definition E : env := ce_env K.
Definition T : texts := ce_texts K.

(** The return code, the reply and the state. *)
Abbreviation result := (option (Z * option cstr * cli_state)).

Definition done_with (r : Z) (w : world) (st : cli_state) : result := Some (r, None, st <| cs_world := w |>).
Definition failed (st : cli_state) : result := Some (1, None, st).
Definition replied (text : cstr) (st : cli_state) : result := Some (0, Some text, st).

(** The parameter after [convert_dev]. *)
Definition param (v : list key) (c : Z) (is_path : bool) : option cstr :=
  '(name, i) ← convert_dev (get_keyparam v c) is_path; Some (drop i name).

(** ** Replies *)

(** Printing into what is left of a buffer of [maxlen] bytes. *)
Definition put (maxlen : nat) (c text : cstr) : cstr := take (maxlen - 1) (c ++ text).

(** The text is printed again, into a buffer twice as long, while it fills the
    buffer up to [full]; [None] is a buffer that would get too long.  [final] is
    what is done to the text at the end. *)
Fixpoint grow (fuel : nat) (full : nat -> nat) (final : nat -> cstr -> cstr) (maxlen : nat)
    (body : nat -> world -> option (cstr * world)) (w : world) : option (option cstr * world) :=
  match fuel with
  | O => None
  | S f =>
      '(c, w) ← body maxlen w;
      if negb (length c =? full maxlen)%nat then Some (Some (final maxlen c), w)
      else if (MAX_REPLY_LEN <=? N.of_nat maxlen)%N then Some (None, w)
      else grow f full final (maxlen * 2) body w
  end.

(** 1200 doubled fifteen times is more than the longest buffer. *)
Definition GROW_FUEL : nat := 16.

Definition reply_of (r : option (option cstr * world)) (st : cli_state) : result :=
  '(text, w) ← r;
  Some match text with
       | Some text => (0, Some text, st <| cs_world := w |>)
       | None => (1, None, st <| cs_world := w |>)
       end.

Definition as_is (maxlen : nat) (c : cstr) : cstr := c.
Definition room (maxlen : nat) : nat := maxlen - 1.

(** A text that nothing changes while it is printed. *)
Definition show_text (full : nat -> nat) (body : nat -> cstr) (st : cli_state) : result :=
  reply_of (grow GROW_FUEL full as_is INITIAL_REPLY_LEN (fun n w => Some (body n, w)) (cs_world st)) st.

Definition header (pretty : bool) (text : cstr) (maxlen : nat) : cstr := if pretty then put maxlen [] text else [].

(** A reply of nothing but its header is empty. *)
Definition clear_header (pretty : bool) (text : cstr) (maxlen : nat) (c : cstr) : cstr :=
  if pretty && (length c =? length (header pretty text maxlen))%nat then [] else c.

Definition show_paths (style : cstr) (pretty : bool) (st : cli_state) : result :=
  let w := cs_world st in
  let body maxlen :=
    let c := foldl (fun c p => put maxlen c (t_path T w style p pretty)) (header pretty (t_path_header T style) maxlen)
               (pathvec w) in
    put maxlen c (t_foreign_paths T style pretty) in
  reply_of (grow GROW_FUEL room (clear_header pretty (t_path_header T style)) INITIAL_REPLY_LEN
              (fun n w => Some (body n, w)) w) st.

Definition show_path (p : ptr) (style : cstr) (st : cli_state) : result :=
  show_text room (fun n => put n [] (t_path T (cs_world st) style p false)) st.

(** ** Maps are refreshed before they are shown *)

Definition refresh (m : ptr) (w : world) : Z * world := update_multipath E (m_alias (wm w m)) false w.

(** The maps that could not be refreshed are gone, and skipped; [None] is the end of the fuel. *)
Fixpoint each_refreshed (fuel i : nat) (f : world -> ptr -> cstr -> cstr) (c : cstr) (w : world) : option (cstr * world) :=
  match fuel with
  | O => None
  | S n =>
      match mpvec w !! i with
      | None => Some (c, w)
      | Some m =>
          let '(r, w) := refresh m w in
          if negb (r =? 0) then each_refreshed n i f c w else each_refreshed n (S i) f (f w m c) w
      end
  end.

Definition all_refreshed (f : world -> ptr -> cstr -> cstr) (c : cstr) (w : world) : option (cstr * world) :=
  each_refreshed (S (length (mpvec w))) 0 f c w.

Definition show_map_topology (m : ptr) (st : cli_state) : result :=
  let '(r, w) := refresh m (cs_world st) in
  if negb (r =? 0) then done_with 1 w st
  else show_text room (fun n => put n [] (t_topology T w m)) (st <| cs_world := w |>).

Definition show_maps_topology (st : cli_state) : result :=
  reply_of (grow GROW_FUEL room as_is INITIAL_REPLY_LEN (fun n w =>
    '(c, w) ← all_refreshed (fun w m c => put n c (t_topology T w m)) [] w;
    Some (put n c (t_foreign_topology T), w)) (cs_world st)) st.

(** Is one of the maps gone? *)
Fixpoint refresh_all (fuel i : nat) (w : world) : option (bool * world) :=
  match fuel with
  | O => None
  | S n =>
      match mpvec w !! i with
      | None => Some (false, w)
      | Some m => let '(r, w) := refresh m w in if negb (r =? 0) then Some (true, w) else refresh_all n (S i) w
      end
  end.

(** The length of the buffer is assumed not to wrap around. *)
Definition show_maps_json (st : cli_state) : result :=
  let w := cs_world st in
  let n := length (mpvec w) in
  let maxlen := if (0 <? n)%nat then (INITIAL_REPLY_LEN * (PRINT_JSON_MULTIPLIER * n))%nat else INITIAL_REPLY_LEN in
  '(gone, w) ← refresh_all (S n) 0 w;
  if (gone : bool) then done_with 1 w st
  else reply_of (grow GROW_FUEL id as_is maxlen (fun n w => Some (take n (t_maps_json T w), w)) w) st.

Definition show_map_json (m : ptr) (st : cli_state) : result :=
  let '(r, w) := refresh m (cs_world st) in
  if negb (r =? 0) then done_with 1 w st
  else show_text id (fun n => take n (t_map_json T w m)) (st <| cs_world := w |>).

Definition show_map (m : ptr) (style : cstr) (pretty : bool) (st : cli_state) : result :=
  show_text room (fun n => put n [] (t_map T (cs_world st) style m pretty)) st.

Definition show_maps (style : cstr) (pretty : bool) (st : cli_state) : result :=
  reply_of (grow GROW_FUEL room (clear_header pretty (t_map_header T style)) INITIAL_REPLY_LEN (fun n w =>
    '(c, w) ← all_refreshed (fun w m c => put n c (t_map T w style m pretty)) (header pretty (t_map_header T style) n) w;
    Some (put n c (t_foreign_maps T style pretty), w)) (cs_world st)) st.

Definition show_config (local : bool) (st : cli_state) : result :=
  match t_config T (cs_world st) local with
  | Some text => replied text st
  | None => failed st
  end.

Definition show_status (st : cli_state) : result := replied (put INITIAL_REPLY_LEN [] (t_status T (cs_world st))) st.

Definition show_daemon (st : cli_state) : result :=
  replied (s "pid " ++ itoa (ce_pid K) ++ 32 :: daemon_status_msg (cs_status st) ++ [10]) st.

Definition show_blacklist (st : cli_state) : result := show_text id (fun n => take n (t_blacklist T)) st.
Definition show_devices (st : cli_state) : result := show_text id (fun n => take n (t_devices T (cs_world st))) st.

(** ** The handlers that list *)

Definition find_map (name : cstr) (st : cli_state) : option ptr :=
  find_mp_by_str (w_maps (cs_world st)) (mpvec (cs_world st)) name.
Definition find_alias (name : cstr) (st : cli_state) : option ptr :=
  find_mp_by_alias (w_maps (cs_world st)) (mpvec (cs_world st)) name.
Definition find_path (name : cstr) (st : cli_state) : option ptr :=
  find_path_by_dev (w_paths (cs_world st)) (pathvec (cs_world st)) name.
Definition find_path_or_devt (name : cstr) (st : cli_state) : option ptr :=
  match find_path name st with
  | Some p => Some p
  | None => find_path_by_devt (w_paths (cs_world st)) (pathvec (cs_world st)) name
  end.

Definition list_path (v : list key) (st : cli_state) : result :=
  name ← param v PATH true;
  match find_path name st with Some p => show_path p (s "%o") st | None => failed st end.

Definition list_map_topology (v : list key) (st : cli_state) : result :=
  name ← param v MAP false;
  match find_map name st with Some m => show_map_topology m st | None => failed st end.

Definition list_map_json (v : list key) (st : cli_state) : result :=
  name ← param v MAP false;
  match find_map name st with Some m => show_map_json m st | None => failed st end.

Definition list_map_fmt (v : list key) (st : cli_state) : result :=
  name ← param v MAP false;
  match find_map name st with
  | Some m => fmt ← get_keyparam v FMT; show_map m fmt true st
  | None => failed st
  end.

Definition list_paths_fmt (v : list key) (pretty : bool) (st : cli_state) : result :=
  fmt ← get_keyparam v FMT; show_paths fmt pretty st.

Definition list_maps_fmt (v : list key) (pretty : bool) (st : cli_state) : result :=
  fmt ← get_keyparam v FMT; show_maps fmt pretty st.

Definition list_wildcards (st : cli_state) : result := replied (put INITIAL_REPLY_LEN [] (t_wildcards T)) st.

(** ** Statistics *)

Definition reset_stats (mm : multipath) : multipath :=
  mm <| stat_switchgroup := 0 |> <| stat_path_failures := 0 |> <| stat_map_loads := 0 |>
     <| stat_total_queueing_time := 0 |> <| stat_queueing_timeouts := 0 |> <| stat_map_failures := 0 |>.

Definition reset_maps_stats (st : cli_state) : result :=
  let w := cs_world st in done_with 0 (foldl (fun w m => upd_map m reset_stats w) w (mpvec w)) st.

Definition reset_map_stats (v : list key) (st : cli_state) : result :=
  name ← param v MAP false;
  match find_map name st with
  | Some m => done_with 0 (upd_map m reset_stats (cs_world st)) st
  | None => failed st
  end.

(** ** Paths *)

Definition blacklisted (r : Z) (st : cli_state) : result := Some (r, Some (s "blacklisted" ++ [10]), st).

(** A new path of the path vector, unless its information cannot be had. *)
Definition store_pathinfo (name : cstr) (flags : Z) (w : world) : pathinfo_result * option ptr * world :=
  let p := next_ptr w in
  let w := w <| w_paths ::= <[p := alloc_path <| dev := take (FILE_NAME_SIZE - 1) name |>]> |> <| next_ptr ::= S |> in
  let '(err, w) :=
    if (FILE_NAME_SIZE <=? length name)%nat then (PATHINFO_FAILED, w)
    else run_pathinfo E p flags (upd_path p (fun pp => pp <| udev := true |>) w) in
  if negb (eqb err PATHINFO_OK) then (err, None, free_path p w)
  else match store_path (w_paths w) (pathvec w) p with
       | None => (PATHINFO_FAILED, None, free_path p w)
       | Some pv =>
           (PATHINFO_OK, Some p, upd_path p (fun pp => pp <| checkint := c_checkint (e_conf E) |>) (w <| pathvec := pv |>))
       end.

Definition finish (r : Z * world) (st : cli_state) : result := done_with (fst r) (snd r) st.

(** A path the daemon does not know. *)
Definition add_unknown (name : cstr) (w : world) (st : cli_state) : result :=
  let found := ce_find_device K (trace w) in
  let w := emit (FindDevice name) w in
  match found with
  | None => done_with 1 w st
  | Some sysname =>
      match store_pathinfo sysname (Z.lor DI_ALL DI_BLACKLIST) w with
      | (_, Some p, w) => finish (ev_add_path E p true w) st
      | (PATHINFO_SKIPPED, None, w) => blacklisted 0 (st <| cs_world := w |>)
      | (_, None, w) => done_with 1 w st
      end
  end.

(** A path that was removed but is still in the table of its map.  Where the
    path has been freed by [ev_remove_path] nothing is sent. *)
Definition add_removed (name : cstr) (p : ptr) (w : world) (st : cli_state) : result :=
  let prev := mpp (wp w p) in
  let w := upd_path p (fun pp => pp <| mpp := None |> <| initialized := INIT_NEW |> <| wwid := [] |>) w in
  let '(r, w) := run_pathinfo E p (Z.lor DI_ALL DI_BLACKLIST) w in
  match prev with
  | Some m =>
      let w := upd_path p (fun pp => pp <| mpp := Some m |>) w in
      if eqb r PATHINFO_OK && same_wwids WWID_SIZE (m_wwid (wm w m)) (wwid (wp w p))
      then done_with 0 (upd_path p (fun pp => pp <| tick := 1 |>) w) st
      else
        let '(ret, w) := ev_remove_path E p true w in
        if ret =? 0 then add_unknown name w st
        else
          let w := upd_path p (fun pp => pp <| dmstate := PSTATE_FAILED |>) w in
          done_with 1 (match mpp (wp w p) with
                       | Some m => emit (DmFailPath (m_alias (wm w m)) (dev_t (wp w p))) w
                       | None => w
                       end) st
  | None =>
      match r with
      | PATHINFO_SKIPPED => blacklisted 0 (st <| cs_world := w |>)
      | PATHINFO_OK => finish (ev_add_path E p true w) st
      | PATHINFO_FAILED => done_with 1 w st
      end
  end.

Definition add_path (v : list key) (st : cli_state) : result :=
  name ← param v PATH true;
  let w := cs_world st in
  if 0 <? filter_devnode (ce_regcomp K) (default [] (blist_devnode (ce_conf K)))
           (default [] (elist_devnode (ce_conf K))) (Some name)
  then blacklisted 0 st
  else match find_path name st with
       | None => add_unknown name w st
       | Some p =>
           if eqb (initialized (wp w p)) INIT_REMOVED then add_removed name p w st
           else if bool_decide (is_Some (mpp (wp w p))) then done_with 0 w st
           else finish (ev_add_path E p true w) st
       end.

Definition del_path (v : list key) (st : cli_state) : result :=
  name ← param v PATH true;
  match find_path name st with
  | None => failed st
  | Some p => finish (ev_remove_path E p true (cs_world st)) st
  end.

Definition with_path (v : list key) (f : ptr -> ptr -> world -> Z * world) (st : cli_state) : result :=
  name ← param v PATH true;
  match find_path_or_devt name st with
  | None => failed st
  | Some p => match mpp (wp (cs_world st) p) with
              | None => failed st
              | Some m => finish (f p m (cs_world st)) st
              end
  end.

Definition reinstate : list key -> cli_state -> result := fun v => with_path v (fun p m w =>
  let w := emit (CheckerSwitch p true) w in
  let fails := e_reinstate_fails E (trace w) in
  (if fails then 1 else 0, emit (DmReinstatePath (m_alias (wm w m)) (dev_t (wp w p))) w)).

Definition fail : list key -> cli_state -> result := fun v => with_path v (fun p m w =>
  let r := ce_fail_path K (trace w) in
  let w := emit (DmFailPath (m_alias (wm w m)) (dev_t (wp w p))) w in
  (r, if r =? 0 then emit (CheckerSwitch p false) w else w)).

Definition change_marginal (b : bool) : list key -> cli_state -> result := fun v => with_path v (fun p m w =>
  if negb (wait_for_udev (wm w m) =? 0) then (1, w)
  else reload_and_sync_map E m false (upd_path p (fun pp => pp <| marginal := b |>) w)).

(** ** Maps are added and removed *)

(** [_get_refwwid] for the name of a map. *)
Definition get_refwwid (name : cstr) (w : world) : option cstr * world :=
  let uuid := e_uuid E (trace w) in
  let w := emit (DmInfo name) w in
  let refwwid :=
    match uuid with
    | Some ((_ :: _) as id) => take (Z.to_nat (WWID_SIZE - 1)) id
    | _ =>
        match get_user_friendly_wwid (ce_io K) (ce_bindings K) name with
        | Some id => take (Z.to_nat (WWID_SIZE - 1)) id
        | None => default name (get_mpe_wwid (ce_mptable K) name)
        end
    end in
  (match refwwid with
   | [] => None
   | _ => if 0 <? filter_wwid (ce_regcomp K) (default [] (blist_wwid (ce_conf K)))
                    (default [] (elist_wwid (ce_conf K))) (Some refwwid)
          then None else Some refwwid
   end, w).

(** The name of the map in the kernel. *)
Definition map_name (name : cstr) (w : world) : option (Z * cstr) * world :=
  let numbers := ce_major_minor K (trace w) in
  let w := emit (DmGetMajorMinor name) w in
  match numbers with
  | None => (None, w)
  | Some (_, minor) =>
      let alias := e_mapname E (trace w) in
      (alias ← alias; Some (minor, alias), emit DmMapName w)
  end.

Definition create_map (name : cstr) (w : world) : world :=
  match get_refwwid name w with
  | (None, w) => w
  | (Some refwwid, w) => snd (coalesce_paths E None (Some refwwid) FORCE_RELOAD_NONE CMD_NONE w)
  end.

Definition add_map (v : list key) (st : cli_state) : result :=
  name ← param v MAP false;
  let w := cs_world st in
  if 0 <? filter_wwid (ce_regcomp K) (default [] (blist_wwid (ce_conf K))) (default [] (elist_wwid (ce_conf K))) (Some name)
  then blacklisted 1 st
  else
    let '(found, w) := map_name name w in
    let '(found, w) := match found with
                       | Some _ => (found, w)
                       | None => map_name name (create_map name w)
                       end in
    match found with
    | None => done_with 1 w st
    | Some (_, alias) => finish (ev_add_map E alias w) st
    end.

Definition del_map (v : list key) (st : cli_state) : result :=
  name ← param v MAP false;
  match map_name name (cs_world st) with
  | (None, w) => done_with 1 w st
  | (Some (minor, alias), w) => finish (ev_remove_map E alias minor w) st
  end.

(** The maps that cannot be flushed stay; how many are they? *)
Fixpoint flush_all (fuel i : nat) (ret : Z) (w : world) : option (Z * world) :=
  match fuel with
  | O => None
  | S n =>
      match mpvec w !! i with
      | None => Some (ret, w)
      | Some m =>
          let '(r, w) := flush_map E m false w in
          if negb (r =? 0) then flush_all n (S i) (ret + 1) w else flush_all n i ret w
      end
  end.

Definition del_maps (st : cli_state) : result :=
  let w := cs_world st in
  '(ret, w) ← flush_all (S (length (mpvec w))) 0 0 w;
  let r := ce_flush_maps K (trace w) in
  done_with (Z.lor ret r) (emit DmFlushMaps w) st.

(** ** Maps are changed *)

Definition with_map (v : list key) (f : ptr -> world -> Z * world) (st : cli_state) : result :=
  name ← param v MAP false;
  match find_map name st with Some m => finish (f m (cs_world st)) st | None => failed st end.

Definition with_alias (v : list key) (f : cstr -> ptr -> world -> Z * world) (st : cli_state) : result :=
  name ← param v MAP false;
  match find_alias name st with Some m => finish (f name m (cs_world st)) st | None => failed st end.

(** A map that is still being created is left alone. *)
Definition if_created (m : ptr) (f : world -> Z * world) (w : world) : Z * world :=
  if negb (wait_for_udev (wm w m) =? 0) then (1, w) else f w.

Definition reload : list key -> cli_state -> result := fun v => with_map v (fun m =>
  if_created m (reload_and_sync_map E m false)).

Definition resize_map (m : ptr) (sz : Z) (w : world) : Z * world :=
  let orig_size := m_size (wm w m) in
  let w := upd_map m (fun mm => mm <| m_size := sz |>) w in
  let fail w := (1, upd_map m (fun mm => mm <| m_size := orig_size |>) w) in
  let w := snd (update_mpp_paths m w) in
  match setup_map E m w with
  | (None, w) => fail w
  | (Some params, w) =>
      let w := upd_map m (fun mm => mm <| action := ACT_RESIZE |> <| force_udev_reload := true |>) w in
      let '(r, w) := domap E m params true w in
      if eqb r DOMAP_FAIL then fail w else (0, w)
  end.

Definition first_path (mm : multipath) : option ptr := g ← slots (pg mm) !! 0%nat; g_paths g !! 0%nat.

(** The new size is that of the first path. *)
Definition resize_to_path (m : ptr) (w : world) : Z * world :=
  match first_path (wm w m) with
  | None => (1, w)
  | Some p =>
      if negb (udev (wp w p)) then (1, w)
      else
        let answer := ce_sysfs_size K (trace w) in
        let w := emit (SysfsSize p) w in
        match answer with
        | None => (1, w)
        | Some sz =>
            if sz =? m_size (wm w m) then (0, w)
            else
              let '(r, w) := resize_map m sz w in
              if negb (r =? 0) then (1, w)
              else
                let '(gone, w) := setup_multipath E true m w in
                if gone then (1, w) else (0, sync_map_state m w)
        end
  end.

Definition resize : list key -> cli_state -> result := fun v => with_map v (fun m =>
  if_created m (resize_to_path m)).

Definition restore_map_queueing (m : ptr) (w : world) : world :=
  let w := upd_map m (fun mm =>
    let mm := mm <| disable_queueing := false |> in
    select_no_path_retry (ce_conf K) (ce_mpe K mm) (ce_hwe K mm) mm) w in
  let v := no_path_retry (wm w m) in
  if negb (v =? NO_PATH_RETRY_UNDEF) && negb (v =? NO_PATH_RETRY_FAIL) then set_no_path_retry E true m w else w.

Definition restore_queueing : list key -> cli_state -> result := fun v => with_map v (fun m w =>
  (0, restore_map_queueing m w)).

Definition restore_all_queueing (st : cli_state) : result :=
  let w := cs_world st in done_with 0 (foldl (fun w m => restore_map_queueing m w) w (mpvec w)) st.

Definition disable_map_queueing (m : ptr) (w : world) : world :=
  let w := if active_paths w m =? 0
           then upd_map m (fun mm => mm <| stat_map_failures ::= (fun n => u32 (n + 1)) |>) w else w in
  let w := upd_map m (fun mm => mm <| retry_tick := 0 |> <| no_path_retry := NO_PATH_RETRY_FAIL |>
                                   <| disable_queueing := true |>) w in
  set_no_path_retry E true m w.

Definition disable_queueing_of : list key -> cli_state -> result := fun v => with_map v (fun m w =>
  (0, disable_map_queueing m w)).

Definition disable_all_queueing (st : cli_state) : result :=
  let w := cs_world st in done_with 0 (foldl (fun w m => disable_map_queueing m w) w (mpvec w)) st.

Definition switch_group (v : list key) (st : cli_state) : result :=
  name ← param v MAP false;
  group ← get_keyparam v GROUP;
  let w := cs_world st in
  done_with (ce_switchgroup K (trace w)) (emit (DmSwitchGroup name (atoi group)) w) st.

Definition simplecmd (e : event) (m : ptr) (w : world) : Z * world :=
  let ok := ce_simplecmd K (trace w) in
  let w := emit e w in
  if negb ok then (1, w)
  else
    let info := e_dm_info E (trace w) in
    (0, emit (DmInfo (m_alias (wm w m)))
          (upd_map m (fun mm => mm <| dmi := info |>) w)).

Definition suspend : list key -> cli_state -> result := fun v => with_alias v (fun name m =>
  if_created m (simplecmd (DmSuspend name) m)).

Definition resume : list key -> cli_state -> result := fun v => with_alias v (fun name m w =>
  let flags := if skip_kpartx (wm w m) =? 0 then [] else [NO_KPARTX_FLAG] in
  if_created m (simplecmd (DmResume name flags) m) w).

Definition reassign : list key -> cli_state -> result := fun v => with_alias v (fun name m =>
  if_created m (fun w => (0, emit (DmReassign name) w))).

Definition unset_all_marginal : list key -> cli_state -> result := fun v => with_map v (fun m =>
  if_created m (fun w =>
    reload_and_sync_map E m false
      (foldl (fun w p => upd_path p (fun pp => pp <| marginal := false |>) w) w (all_paths (wm w m))))).

(** ** The daemon's own settings *)

Definition force_no_daemon_q (st : cli_state) : result :=
  Some (0, None, st <| cs_queue_without_daemon ::= (fun q => if q =? QUE_NO_DAEMON_OFF then QUE_NO_DAEMON_FORCE else q) |>).

Definition restore_no_daemon_q (st : cli_state) : result :=
  Some (0, None, st <| cs_queue_without_daemon ::= (fun q => if q =? QUE_NO_DAEMON_FORCE then QUE_NO_DAEMON_OFF else q) |>).

Definition reconfigure (st : cli_state) : result :=
  let '(rc, status) := set_config_state (fst (ce_wait K)) (snd (ce_wait K)) DAEMON_CONFIGURE (cs_status st) in
  Some (if (rc =? ETIMEDOUT) || (rc =? Checker.EINVAL) then 1 else 0, None, st <| cs_status := status |>).

Definition shutdown (st : cli_state) : result :=
  Some (0, None, st <| cs_status ::= post_config_state DAEMON_SHUTDOWN |>).

(** ** Persistent reservations *)

Definition getprstatus (v : list key) (st : cli_state) : result :=
  name ← param v MAP false;
  match find_map name st with
  | Some m => replied (if prflag (wm (cs_world st) m) then s "1" else s "0") st
  | None => failed st
  end.

Definition change_prflag (b : bool) : list key -> cli_state -> result := fun v => with_map v (fun m w =>
  (0, upd_map m (fun mm => mm <| prflag := b |>) w)).

(** The 26 bytes of the reply are cut after 19. *)
Definition prkey_reply (key flags : Z) : cstr :=
  if key =? 0 then s "none" ++ [10]
  else take 19 (s "0x" ++ ntoa 16 key ++ (if Z.land flags MPATH_F_APTPL_MASK =? 0 then [] else s ":aptpl") ++ [10]).

Definition getprkey (v : list key) (st : cli_state) : result :=
  name ← param v MAP false;
  match find_map name st with
  | Some m => let mm := wm (cs_world st) m in replied (prkey_reply (m_reservation_key mm) (m_sa_flags mm)) st
  | None => failed st
  end.

Definition reservation_of_map (mm : multipath) : reservation :=
  {| prkey_source := prkey_source_of (m_prkey_source mm); reservation_key := m_reservation_key mm; r_sa_flags := m_sa_flags mm |}.

Definition change_prkey (m : ptr) (prkey flags : Z) (st : cli_state) : result :=
  let mm := wm (cs_world st) m in
  '(rc, text, r) ← set_prkey (ce_io K) (cs_prkeys st) (m_wwid mm) (reservation_of <$> ce_mpe K mm)
    (reservation_of (opts (ce_conf K))) (reservation_of_map mm) prkey flags;
  Some (rc, None, st <| cs_prkeys := text |> <| cs_world ::= upd_map m (fun mm =>
    mm <| m_prkey_source := prkey_number (Prkey.prkey_source r) |> <| m_reservation_key := reservation_key r |>
       <| m_sa_flags := r_sa_flags r |>) |>).

Definition unsetprkey (v : list key) (st : cli_state) : result :=
  name ← param v MAP false;
  match find_map name st with Some m => change_prkey m 0 0 st | None => failed st end.

Definition setprkey (v : list key) (st : cli_state) : result :=
  name ← param v MAP false;
  match find_map name st with
  | None => failed st
  | Some m =>
      keyparam ← get_keyparam v KEY;
      match parse_prkey_flags keyparam with
      | (Some prkey, flags) => change_prkey m prkey flags st
      | (None, _) => failed st
      end
  end.

(** ** All of them *)

Definition call (f : callback) (v : list key) (st : cli_state) : result :=
  match f with
  | cli_list_paths => show_paths PRINT_PATH_CHECKER true st
  | cli_list_paths_fmt => list_paths_fmt v true st
  | cli_list_paths_raw => list_paths_fmt v false st
  | cli_list_path => list_path v st
  | cli_list_maps => show_maps PRINT_MAP_NAMES true st
  | cli_list_status => show_status st
  | cli_list_daemon => show_daemon st
  | cli_list_maps_status => show_maps PRINT_MAP_STATUS true st
  | cli_list_maps_stats => show_maps PRINT_MAP_STATS true st
  | cli_list_maps_fmt => list_maps_fmt v true st
  | cli_list_maps_raw => list_maps_fmt v false st
  | cli_list_maps_topology => show_maps_topology st
  | cli_list_maps_json => show_maps_json st
  | cli_list_map_topology => list_map_topology v st
  | cli_list_map_fmt => list_map_fmt v st
  | cli_list_map_json => list_map_json v st
  | cli_list_config_local => show_config true st
  | cli_list_config => show_config false st
  | cli_list_blacklist => show_blacklist st
  | cli_list_devices => show_devices st
  | cli_list_wildcards => list_wildcards st
  | cli_reset_maps_stats => reset_maps_stats st
  | cli_reset_map_stats => reset_map_stats v st
  | cli_add_path => add_path v st
  | cli_del_path => del_path v st
  | cli_add_map => add_map v st
  | cli_del_map => del_map v st
  | cli_del_maps => del_maps st
  | cli_switch_group => switch_group v st
  | cli_reconfigure => reconfigure st
  | cli_suspend => suspend v st
  | cli_resume => resume v st
  | cli_resize => resize v st
  | cli_reload => reload v st
  | cli_reassign => reassign v st
  | cli_reinstate => reinstate v st
  | cli_fail => fail v st
  | cli_disable_queueing => disable_queueing_of v st
  | cli_restore_queueing => restore_queueing v st
  | cli_disable_all_queueing => disable_all_queueing st
  | cli_restore_all_queueing => restore_all_queueing st
  | cli_quit => done_with 0 (cs_world st) st
  | cli_shutdown => shutdown st
  | cli_getprstatus => getprstatus v st
  | cli_setprstatus => change_prflag true v st
  | cli_unsetprstatus => change_prflag false v st
  | cli_force_no_daemon_q => force_no_daemon_q st
  | cli_restore_no_daemon_q => restore_no_daemon_q st
  | cli_getprkey => getprkey v st
  | cli_setprkey => setprkey v st
  | cli_unsetprkey => unsetprkey v st
  | cli_set_marginal => change_marginal true v st
  | cli_unset_marginal => change_marginal false v st
  | cli_unset_all_marginal => unset_all_marginal v st
  end.

(** [uxsock_trigger] on a line a client has sent. *)
Definition command (version : cstr) (lock_rc : Z) (line : cstr) (is_root : bool) (st : cli_state) : result :=
  let run f v := match call f v st with Some (r, text, _) => (r, text) | None => (1, None) end in
  let o := uxsock_trigger load_keys daemon_handlers version run lock_rc line is_root in
  match ran o with
  | Some (f, v) => '(_, st') ← call f v st; Some (rc o, reply o, st')
  | None => Some (rc o, reply o, st)
  end.
End Handlers.

(** A long key is shown without its flag, and without the end of the line. *)
Example aptpl_is_cut : prkey_reply 1311768467463790320 MPATH_F_APTPL_MASK = s "0x123456789abcdef0:".
Proof. vm_compute. reflexivity. Qed.

(** A key of at most ten digits is shown with it. *)
Example short_key : prkey_reply 171 MPATH_F_APTPL_MASK = s "0xab:aptpl" ++ [10].
Proof. vm_compute. reflexivity. Qed.
