(* ===== verification/Commands.v ===== *)
(** * The commands of the daemon keep its objects well-formed

    What [Handlers] does to the state: every command but the one that coalesces
    new maps keeps the invariant of [Safety], every command whose words are
    different keys finds its parameters and ends, and a client that is not root
    can only have maps read back from the kernel. *)

From S2P Require Import Prelude CString Util Uevent Structs File Parser Cli Conf Blacklist Alias Prkey Pgpolicies Dmparser.
From S2P Require Import World StructsVec Configure Propsel Coalesce Checker Daemon Wellformed Safety Handlers.

(** ** Reading a map back does not rename maps *)

Definition names (w w' : world) : Prop := forall m, m_alias (wm w' m) = m_alias (wm w m).

Lemma names_refl w : names w w.
Proof. done. Qed.

Lemma names_trans w1 w2 w3 : names w1 w2 -> names w2 w3 -> names w1 w3.
Proof. intros A B m. by rewrite B. Qed.

Lemma names_maps w w' : w_maps w' = w_maps w -> names w w'.
Proof. intros H m. unfold wm. by rewrite H. Qed.

Lemma names_upd_map m f w : (forall mm, m_alias (f mm) = m_alias mm) -> names w (upd_map m f w).
Proof. intros H n. rewrite wm_upd_map. destruct (decide (m = n)) as [<-|]; [apply H|done]. Qed.

Create HintDb names.
#[export] Hint Resolve names_refl : names.
#[export] Hint Extern 1 (names _ _) => apply names_maps; reflexivity : names.
#[export] Hint Extern 2 (names _ (upd_map _ _ _)) => apply names_upd_map; reflexivity : names.

(** Only the paths or the history differ. *)
Lemma names_after w w1 w2 : names w w1 -> w_maps w2 = w_maps w1 -> names w w2.
Proof. intros H Hm m. rewrite <-(H m). unfold wm. by rewrite Hm. Qed.

Lemma orphan_path_names p w : names w (orphan_path p w).
Proof.
  unfold orphan_path. cbv zeta. set (w1 := match mpp (wp w p) with Some _ => _ | None => _ end).
  apply (names_after _ w1); [|done]. unfold w1. destruct (mpp (wp w p)); [|done]. destruct (_ && _); eauto with names.
Qed.

Lemma update_mpp_paths_names m w : names w (snd (update_mpp_paths m w)).
Proof.
  unfold update_mpp_paths. destruct (pg (wm w m)); [|done]. destruct (update_paths_loop _ _ _ _). cbn [snd]. eauto with names.
Qed.

Lemma guess_names m w : names w (snd (guess_mpp_wwid m w)).
Proof. unfold guess_mpp_wwid. cbv zeta. repeat case_match; cbn [snd]; eauto with names. Qed.

Lemma extract_names m w : names w (extract_hwe_from_path m w).
Proof. unfold extract_hwe_from_path. cbv zeta. repeat case_match; eauto with names. Qed.
#[export] Hint Resolve orphan_path_names update_mpp_paths_names guess_names extract_names : names.

Section Names.
Context (E : env).

Lemma run_pathinfo_names p fl w : names w (snd (run_pathinfo E p fl w)).
Proof. unfold run_pathinfo. destruct (e_pathinfo E _ _). by apply names_maps. Qed.

Lemma check_path_wwid_names m p w : names w (snd (check_path_wwid m p w)).
Proof.
  unfold check_path_wwid. cbv zeta. repeat case_match; cbn [snd]; try done.
  match goal with |- names _ (upd_path _ _ ?w1) => apply (names_after _ w1); [|done] end.
  eapply (names_trans _ (emit _ w)); [by apply names_maps|apply orphan_path_names].
Qed.

Lemma update_dm_path_names m fl b p w : names w (snd (update_dm_path E m fl b p w)).
Proof.
  unfold update_dm_path. cbv zeta. destruct (_ && _); [by apply names_maps|].
  set (w1 := upd_path p _ w). assert (names w w1) as H1 by by apply names_maps. clearbody w1.
  assert (forall w2, names w w2 -> names w (snd (if b then check_path_wwid m p w2 else (true, w2)))) as Hfin.
  { intros w2 H2. destruct b; [|done]. eapply names_trans; [exact H2|apply check_path_wwid_names]. }
  destruct (udev (wp w1 p)).
  { apply Hfin. destruct (_ =? 0); [done|]. eapply names_trans; [exact H1|apply run_pathinfo_names]. }
  destruct (negb _); [by apply (names_after _ w1)|].
  match goal with |- context [run_pathinfo E p ?f ?w2] =>
    assert (names w (snd (run_pathinfo E p f w2))) as H2
      by (eapply names_trans; [|apply run_pathinfo_names]; by apply (names_after _ w1));
    destruct (run_pathinfo E p f w2) as [rc w3] end.
  cbn [snd] in H2. destruct rc; cbn [snd]; try (by apply (names_after _ w3)).
  apply Hfin. by apply (names_after _ w3).
Qed.

Lemma update_dm_paths_names m fl b ps : forall kept r w, names w (snd (update_dm_paths E m fl b ps kept r w)).
Proof.
  induction ps as [|p ps IH]; intros kept r w; [done|]. cbn [update_dm_paths].
  pose proof (update_dm_path_names m fl b p w) as H. destruct (update_dm_path E m fl b p w) as [keep w1].
  destruct keep; (eapply names_trans; [exact H|apply IH]).
Qed.

Lemma update_dm_groups_names m fl b gs : forall kept r w, names w (snd (update_dm_groups E m fl b gs kept r w)).
Proof.
  induction gs as [|g gs IH]; intros kept r w; [done|]. cbn [update_dm_groups].
  pose proof (update_dm_paths_names m fl b (g_paths g) [] r w) as H.
  destruct (update_dm_paths E m fl b (g_paths g) [] r w) as [[ps r1] w1].
  destruct (_ =? 0)%nat; (eapply names_trans; [exact H|apply IH]).
Qed.

Lemma update_pathvec_names m fl w : names w (snd (update_pathvec_from_dm E m fl w)).
Proof.
  unfold update_pathvec_from_dm. destruct (pg (wm w m)) as [gs|]; [|done].
  pose proof (guess_names m w) as H1. destruct (guess_mpp_wwid m w) as [b w1]. cbn [snd] in H1.
  pose proof (update_dm_groups_names m fl b gs [] false w1) as H2.
  destruct (update_dm_groups E m fl b gs [] false w1) as [[gs' r] w2]. cbn [snd] in *.
  eapply names_trans; [exact H1|]. eapply names_trans; [exact H2|]. eauto with names.
Qed.

Lemma update_table_names m fl w : Forall (fun p => p < next_ptr w)%nat (pathvec w) ->
  Forall (fun p => p < next_ptr w)%nat (all_paths (wm w m)) -> names w (snd (update_multipath_table E m fl w)).
Proof.
  intros Hpv Hps. unfold update_multipath_table. destruct (e_get_map E (trace w)) as [[r sz] params]. cbv zeta.
  destruct r; [by apply names_maps| |by apply names_maps].
  set (w1 := upd_map m _ _). assert (names w w1) as H1 by (eapply names_trans; [|apply names_upd_map; reflexivity]; by apply names_maps).
  destruct (disassemble_map (pathvec w1) params (w_paths w1) (next_ptr w1) (wm w1 m)) as [o st] eqn:Hd.
  assert (m_alias (d_map st) = m_alias (wm w1 m)) as Ha.
  { assert (Forall (fun p => p < next_ptr w1)%nat (all_paths (wm w1 m))) as Hps1 by (unfold w1; rewrite wm_upd_map_eq; exact Hps).
    destruct (disassemble_map_frame _ _ _ _ _ _ _ Hd Hpv Hps1) as (_ & _ & _ & Ha). exact Ha. }
  set (w2 := upd_map m _ _). assert (names w w2) as H2.
  { eapply names_trans; [exact H1|]. intros n. unfold w2. rewrite wm_upd_map. destruct (decide (m = n)) as [<-|]; [exact Ha|done]. }
  destruct o; [|exact H2..]. cbn [snd]. eapply names_trans; [exact H2|apply update_pathvec_names].
Qed.

Lemma update_status_names m w : names w (snd (update_multipath_status E m w)).
Proof.
  unfold update_multipath_status. destruct (e_get_status E (trace w)) as [r status]. cbv zeta.
  destruct r; [by apply names_maps| |by apply names_maps]. set (w1 := emit _ w).
  destruct (disassemble_status status (w_paths w1) (wm w1 m)) as [o st] eqn:Hd.
  apply disassemble_status_frame in Hd as [_ Ha].
  assert (names w (upd_map m (fun _ => d_map st) (w1 <| w_paths := d_heap st |>))) as H.
  { intros n. rewrite wm_upd_map. destruct (decide (m = n)) as [<-|]; [exact Ha|done]. }
  by destruct o.
Qed.

Lemma check_removed_names m ps : forall kept w, names w (check_removed_loop m ps kept w).
Proof.
  induction ps as [|p ps IH]; intros kept w; cbn [check_removed_loop]; [by apply names_maps|].
  destruct (_ || _); [apply IH|]. case_match; [apply IH|]. eapply names_trans; [|apply IH]. by apply names_maps.
Qed.

Lemma drop_ungrouped_names m ps : forall kept w, names w (drop_ungrouped m ps kept w).
Proof.
  induction ps as [|p ps IH]; intros kept w; cbn [drop_ungrouped]; [eauto with names|].
  destruct (in_pathgroups w m p); [apply IH|]. eapply names_trans; [|apply IH]. eapply names_trans; [|apply orphan_path_names].
  destruct (bool_decide _); eauto with names.
Qed.

Lemma names_foldl {A} (f : world -> A -> world) l : (forall w x, names w (f w x)) -> forall w, names w (foldl f w l).
Proof.
  intros H. induction l as [|x l IH]; intros w; [done|]. cbn. eapply names_trans; [apply H|apply IH].
Qed.

Lemma sync_paths_names m w : names w (sync_paths m w).
Proof.
  unfold sync_paths. cbv zeta. eapply names_trans; [|apply extract_names].
  eapply names_trans; [|apply names_foldl; intros ? ?; by apply names_maps].
  eapply names_trans; [|apply update_mpp_paths_names]. eapply names_trans; [|apply check_removed_names].
  apply drop_ungrouped_names.
Qed.

Lemma update_strings_names m w : Forall (fun p => p < next_ptr w)%nat (pathvec w) ->
  names w (snd (update_multipath_strings E m w)).
Proof.
  intros Hpv. unfold update_multipath_strings. cbv zeta. set (w1 := snd (update_mpp_paths m w)).
  pose proof (update_mpp_paths_names m w : names w w1) as H1. pose proof (update_mpp_paths_frame m w : frame w w1) as F1.
  set (w2 := upd_map m _ w1).
  assert (names w w2) as H2 by (eapply names_trans; [exact H1|]; apply names_upd_map; reflexivity).
  assert (Forall (fun p => p < next_ptr w2)%nat (pathvec w2)) as Hpv2.
  { change (Forall (fun p => p < next_ptr w1)%nat (pathvec w1)). rewrite (fr_pathvec _ _ F1).
    eapply Forall_impl; [exact Hpv|]. intros p. cbn beta. pose proof (fr_next _ _ F1). lia. }
  assert (all_paths (wm w2 m) = []) as Hps by (unfold w2; by rewrite wm_upd_map_eq).
  pose proof (update_table_names m 0 w2 Hpv2 ltac:(by rewrite Hps; constructor)) as H3.
  destruct (update_multipath_table E m 0 w2) as [r w3]. cbn [snd] in H3. apply (names_trans _ _ _ H2) in H3.
  destruct r; [exact H3| |exact H3]. pose proof (sync_paths_names m w3) as H4. apply (names_trans _ _ _ H3) in H4.
  pose proof (update_status_names m (sync_paths m w3)) as H5. destruct (update_multipath_status E m (sync_paths m w3)) as [r4 w4].
  cbn [snd] in H5. apply (names_trans _ _ _ H4) in H5. destruct r4; [exact H5| |exact H5]. cbn [snd].
  eapply names_trans; [exact H5|]. apply names_upd_map; reflexivity.
Qed.

Lemma enter_recovery_names m w : names w (enter_recovery_mode E m w).
Proof. unfold enter_recovery_mode. cbv zeta. destruct (_ || _); eauto with names. Qed.

Lemma leave_recovery_names m w : names w (leave_recovery_mode m w).
Proof.
  unfold leave_recovery_mode. cbv zeta. set (w1 := upd_map m _ w). assert (names w w1) as H by (apply names_upd_map; reflexivity).
  destruct (_ && _); [|exact H]. by apply (names_after _ w1).
Qed.

Lemma set_no_path_retry_names b m w : names w (set_no_path_retry E b m w).
Proof.
  unfold set_no_path_retry. cbv zeta. destruct (_ =? _); [done|].
  destruct (_ =? _); [destruct (_ || _); by apply names_maps|]. destruct (_ =? _); [destruct (_ || _); by apply names_maps|].
  destruct (0 <? _); [|apply enter_recovery_names]. eapply names_trans; [|apply leave_recovery_names].
  destruct (_ && _); by apply names_maps.
Qed.

Lemma cancel_deferred_names m w : names w (dm_cancel_deferred_remove E m w).
Proof.
  unfold dm_cancel_deferred_remove. destruct (e_deferred E (trace w)); [|done].
  apply (names_after _ (upd_map m (fun mm => if deferred_remove mm =? DEFERRED_REMOVE_IN_PROGRESS
    then mm <| deferred_remove := YNU_YES |> else mm) w)); [|done].
  apply names_upd_map. intros mm. by destruct (_ =? _).
Qed.

Lemma queue_del_names m w : names w (update_queue_mode_del_path E m w).
Proof.
  unfold update_queue_mode_del_path. destruct (_ =? 0); [|done]. cbv zeta.
  eapply names_trans; [apply (enter_recovery_names m)|]. destruct (_ =? _); eauto with names.
Qed.

Lemma mark_as_failed_names m w p : names w (mark_as_failed E m w p).
Proof.
  unfold mark_as_failed. cbv zeta. destruct (_ || _); [done|].
  match goal with |- names _ (upd_path _ _ ?w3) => apply (names_after _ w3); [|done] end.
  set (w1 := upd_map m _ w). assert (names w w1) as H1 by (apply names_upd_map; reflexivity).
  destruct (_ || _); [|by apply (names_after _ w1)].
  eapply names_trans; [|apply queue_del_names]. by apply (names_after _ w1).
Qed.
End Names.

(** ** Maps that have names *)

(** Every map of the vector has a name: [find_mp_by_alias] finds one. *)
Definition named (w : world) : Prop := forall m, m ∈ mpvec w -> m_alias (wm w m) <> [].

Definition decent (w : world) : Prop := Inv w /\ named w.

Lemma orphan_loop_names m ps : forall kept w, names w (orphan_loop m ps kept w).
Proof.
  induction ps as [|p ps IH]; intros kept w; cbn [orphan_loop]; [by apply names_maps|].
  destruct (bool_decide _); [|apply IH]. destruct (eqb _ _); (eapply names_trans; [|apply IH]); [by apply names_maps|].
  apply orphan_path_names.
Qed.

Lemma orphan_paths_names m w : names w (orphan_paths m w).
Proof.
  unfold orphan_paths. cbv zeta. eapply names_trans; [|apply orphan_loop_names]. apply names_upd_map; reflexivity.
Qed.

(** The names of the other maps stay when one is removed. *)
Lemma remove_map_alias m b w n : n <> m -> m_alias (wm (remove_map m b w) n) = m_alias (wm w n).
Proof.
  intros Hn. unfold remove_map. cbv zeta. rewrite <-(orphan_paths_names m w n).
  set (w1 := orphan_paths m w). unfold free_multipath, wm.
  assert (forall w2, w_maps w2 = w_maps w1 -> m_alias ((delete m (w_maps w2) : mheap) !!! n) = m_alias (w_maps w1 !!! n)) as H.
  { intros w2 ->. rewrite lookup_total_delete_ne; [done|congruence]. }
  destruct b; by apply H.
Qed.

Lemma removed_named m w w' : NoDup (mpvec w) -> mpvec w' = remove_first m (mpvec w) -> named w ->
  (forall n, n <> m -> m_alias (wm w' n) = m_alias (wm w n)) -> named w'.
Proof.
  intros Hnd Hv Hn Ha n Hin. rewrite Hv, remove_first_NoDup, filter_idx_elem, negb_true_iff, Nat.eqb_neq in Hin by done.
  rewrite Ha by naive_solver. apply Hn. naive_solver.
Qed.

Lemma names_named w w' : names w w' -> mpvec w' = mpvec w -> named w -> named w'.
Proof. intros H Hv Hn m. rewrite H, Hv. apply Hn. Qed.

Lemma remove_first_length m l : m ∈ l -> length l = S (length (remove_first m l)).
Proof.
  intros Hin. unfold remove_first. destruct (list_find_elem_of (m =.) l m Hin eq_refl) as [[i x] Hf]. rewrite Hf.
  apply list_find_Some in Hf as (Hl & _). pose proof (lookup_lt_Some _ _ _ Hl). rewrite length_delete by eauto. lia.
Qed.

Section Refresh.
Context (E : env) (Hsane : sane E).

(** The vector after a map was read back. *)
Lemma setup_multipath_named reset m w : decent w -> m ∈ mpvec w ->
  let '(gone, w') := setup_multipath E reset m w in
  decent w' /\ mpvec w' = if gone then remove_first m (mpvec w) else mpvec w.
Proof.
  intros [HI Hn] Hm. pose proof (setup_multipath_outcome E Hsane reset m w (conj HI Hm)) as [H1 H2].
  assert (forall w2, names w w2 -> forall n, n <> m -> m_alias (wm (remove_map_and_stop_waiter E m w2) n) = m_alias (wm w n)) as Hrm.
  { intros w2 N n Hnm. unfold remove_map_and_stop_waiter. rewrite remove_map_alias by done. rewrite <-(N n).
    destruct (c_poll_dmevents (e_conf E)); [done|]. unfold stop_waiter_thread. destruct (waiter (wm w2 m)); [|done].
    rewrite wm_emit. revert n Hnm. intros n _. revert n. change (names w2 (upd_map m (fun mm => mm <| waiter := false |>) w2)).
    apply names_upd_map; reflexivity. }
  unfold setup_multipath in *. cbv zeta in *. set (w1 := upd_map m _ _) in *.
  assert (names w w1) as N1 by (eapply names_trans; [|apply names_upd_map; reflexivity]; by apply names_maps).
  assert (forall w2, names w w2 -> Inv (remove_map_and_stop_waiter E m w2) -> mpvec (remove_map_and_stop_waiter E m w2) = remove_first m (mpvec w) ->
    decent (remove_map_and_stop_waiter E m w2)) as Hgone.
  { intros w2 N HI2 Hv. split; [done|]. eapply (removed_named m w); [apply HI|done|done|by apply Hrm]. }
  destruct (e_dm_info E (trace w)); cbn [fst snd] in *; [|by split; [apply Hgone|]].
  pose proof (update_strings_names E m w1) as N2. destruct (update_multipath_strings E m w1) as [r w2]. cbn [snd] in N2.
  assert (names w w2) as N3.
  { eapply names_trans; [exact N1|apply N2]. change (pathvec w1) with (pathvec w). change (next_ptr w1) with (next_ptr w).
    apply Forall_forall. intros q Hq. apply (wf_alive _ _ _ (proj1 HI) q Hq). }
  destruct (negb (eqb r DMP_OK)); cbn [fst snd] in *; [by split; [apply Hgone|]|].
  destruct (negb reset); cbn [fst snd] in *; [by split; [split; [|eapply names_named]|]|].
  split; [|done]. split; [done|]. eapply names_named; [|done|done]. eapply names_trans; [exact N3|].
  destruct (_ =? 0)%nat; [apply set_no_path_retry_names|]. eapply names_trans; [apply set_no_path_retry_names|apply cancel_deferred_names].
Qed.

(** A map of the vector is read back, or one is gone. *)
Lemma refresh_spec w m : decent w -> m ∈ mpvec w ->
  let '(r, w') := update_multipath E (m_alias (wm w m)) false w in
  decent w' /\ ((r = 0 /\ mpvec w' = mpvec w) \/ (r = 1 /\ length (mpvec w) = S (length (mpvec w')))).
Proof.
  intros HD Hm. unfold update_multipath.
  destruct (find_mp_by_alias (w_maps w) (mpvec w) (m_alias (wm w m))) as [m'|] eqn:Hf.
  2: { exfalso. unfold find_mp_by_alias in Hf. destruct (Z.eqb_spec (strlen (m_alias (wm w m))) 0) as [Hz|_].
       - apply (proj2 HD m Hm). unfold strlen in Hz. destruct (m_alias (wm w m)); [done|cbn in Hz; lia].
       - apply list_elem_of_In in Hm. apply (List.find_none _ _ Hf) in Hm. unfold wm in Hm.
         rewrite Z.eqb_refl in Hm. unfold strneq in Hm. by rewrite bool_decide_eq_true_2 in Hm. }
  apply find_alias_in in Hf. pose proof (setup_multipath_named false m' w HD Hf) as HS.
  destruct (setup_multipath E false m' w) as [gone w1]. destruct HS as [[HI1 Hn1] Hv]. destruct gone.
  - split; [by split|]. right. split; [done|]. rewrite Hv. by apply remove_first_length.
  - set (w2 := foldl _ w1 _). assert (frame w1 w2) as F by (apply (walk_foldl frame); apply mark_as_failed_frame).
    assert (names w1 w2) as N by (apply names_foldl; intros; apply mark_as_failed_names).
    split; [split; [by eapply frame_Inv|eapply names_named; [exact N|apply F|done]]|]. left.
    split; [done|]. rewrite <-Hv. apply F.
Qed.
End Refresh.

(** ** Handlers that list *)

(** Only maps were read back. *)
Definition refreshed (E : env) : relation world :=
  rtc (fun w w' => exists name, w' = snd (update_multipath E name false w)).

(** The call returns, with a state that satisfies [P]. *)
Definition returns (P : cli_state -> Prop) (r : option (Z * option cstr * cli_state)) : Prop :=
  exists rc text st', r = Some (rc, text, st') /\ P st'.

Lemma returns_bind {A} P (o : option A) (f : A -> option (Z * option cstr * cli_state)) :
  is_Some o -> (forall a, o = Some a -> returns P (f a)) -> returns P (o ≫= f).
Proof. intros [a Ha] H. rewrite Ha. by apply H. Qed.

Lemma returns_weaken (P Q : cli_state -> Prop) r : (forall st, P st -> Q st) -> returns P r -> returns Q r.
Proof. intros H (rc & text & st' & -> & HP). exists rc, text, st'. auto. Qed.

Section Listing.
Context (K : command_env) (Hsane : sane (ce_env K)).

Lemma refresh_ok w m : decent w -> m ∈ mpvec w -> let '(r, w') := refresh K m w in
  decent w' /\ refreshed (ce_env K) w w' /\
  ((r = 0 /\ mpvec w' = mpvec w) \/ (r = 1 /\ length (mpvec w) = S (length (mpvec w')))).
Proof using Hsane.
  intros HD Hm. unfold refresh. pose proof (refresh_spec (ce_env K) Hsane w m HD Hm) as H.
  change (E K) with (ce_env K). destruct (update_multipath (ce_env K) (m_alias (wm w m)) false w) as [r w'] eqn:Hu.
  destruct H as [H1 H2]. split; [done|]. split; [|done]. apply rtc_once. exists (m_alias (wm w m)). by rewrite Hu.
Qed.

(** The loops over the maps end. *)
Lemma each_refreshed_ok fuel : forall i f c w, decent w -> (i <= length (mpvec w) < fuel + i)%nat ->
  exists c' w', each_refreshed K fuel i f c w = Some (c', w') /\ decent w' /\ refreshed (ce_env K) w w'.
Proof using Hsane.
  induction fuel as [|n IH]; intros i f c w HD Hf; cbn [each_refreshed]; [lia|].
  destruct (mpvec w !! i) as [m|] eqn:Hi; [|by exists c, w].
  pose proof (lookup_lt_Some _ _ _ Hi). pose proof (refresh_ok w m HD (list_elem_of_lookup_2 _ _ _ Hi)) as HR.
  destruct (refresh K m w) as [r w1]. destruct HR as (HD1 & HR & [[-> Hv]|[-> Hv]]); cbn [Z.eqb negb].
  - destruct (IH (S i) f (f w1 m c) w1 HD1) as (c' & w' & -> & H1 & H2); [rewrite Hv; lia|].
    exists c', w'. split; [done|]. split; [done|]. by etrans.
  - destruct (IH i f c w1 HD1) as (c' & w' & -> & H1 & H2); [lia|].
    exists c', w'. split; [done|]. split; [done|]. by etrans.
Qed.

Lemma refresh_all_ok fuel : forall i w, decent w -> (i <= length (mpvec w) < fuel + i)%nat ->
  exists b w', refresh_all K fuel i w = Some (b, w') /\ decent w' /\ refreshed (ce_env K) w w'.
Proof using Hsane.
  induction fuel as [|n IH]; intros i w HD Hf; cbn [refresh_all]; [lia|].
  destruct (mpvec w !! i) as [m|] eqn:Hi; [|by exists false, w].
  pose proof (lookup_lt_Some _ _ _ Hi). pose proof (refresh_ok w m HD (list_elem_of_lookup_2 _ _ _ Hi)) as HR.
  destruct (refresh K m w) as [r w1]. destruct HR as (HD1 & HR & [[-> Hv]|[-> Hv]]); cbn [Z.eqb negb]; [|by exists true, w1].
  destruct (IH (S i) w1 HD1) as (b & w' & -> & H1 & H2); [rewrite Hv; lia|].
  exists b, w'. split; [done|]. split; [done|]. by etrans.
Qed.

(** A buffer that is doubled is long enough in the end. *)
Lemma grow_ok (P : world -> Prop) full final body :
  (forall n w, P w -> exists c w', body n w = Some (c, w') /\ P w') ->
  forall fuel maxlen w, P w -> (MAX_REPLY_LEN <= N.of_nat maxlen * 2 ^ N.of_nat fuel)%N ->
  exists t w', grow (S fuel) full final maxlen body w = Some (t, w') /\ P w'.
Proof using Type.
  intros Hb fuel. induction fuel as [|n IH]; intros maxlen w HP Hm.
  - cbn [grow]. destruct (Hb maxlen w HP) as (c & w' & -> & HP'). cbn [mbind option_bind].
    destruct (negb _); [by eexists _, _|]. rewrite (proj2 (N.leb_le _ _)) by (cbn in Hm; lia). by eexists _, _.
  - cbn [grow]. fold (grow (S n) full final). destruct (Hb maxlen w HP) as (c & w' & -> & HP'). cbn [mbind option_bind].
    destruct (negb _); [by eexists _, _|]. destruct (_ <=? _)%N; [by eexists _, _|]. apply IH; [done|].
    rewrite Nat2N.inj_succ, N.pow_succ_r' in Hm. lia.
Qed.

Lemma grow_fuel maxlen : (INITIAL_REPLY_LEN <= maxlen)%nat -> (MAX_REPLY_LEN <= N.of_nat maxlen * 2 ^ N.of_nat 15)%N.
Proof using Type. intros H. assert (1200 <= N.of_nat maxlen)%N by (unfold INITIAL_REPLY_LEN in H; lia).
  change (2 ^ N.of_nat 15)%N with 32768%N. unfold MAX_REPLY_LEN. lia. Qed.

(** What a handler that lists leaves behind. *)
Definition only_refreshed (st st' : cli_state) : Prop :=
  decent (cs_world st') /\ refreshed (ce_env K) (cs_world st) (cs_world st') /\ st' = st <| cs_world := cs_world st' |>.

Lemma same_refreshed st : decent (cs_world st) -> only_refreshed st st.
Proof using Type. intros H. split; [done|]. split; [done|]. by destruct st. Qed.

Lemma world_refreshed st w : decent w -> refreshed (ce_env K) (cs_world st) w -> only_refreshed st (st <| cs_world := w |>).
Proof using Type. by intros H1 H2. Qed.

Lemma reply_grow st w full final maxlen body :
  decent w -> refreshed (ce_env K) (cs_world st) w -> (INITIAL_REPLY_LEN <= maxlen)%nat ->
  (forall n w1, decent w1 -> exists c w', body n w1 = Some (c, w') /\ decent w' /\ refreshed (ce_env K) w1 w') ->
  returns (only_refreshed st) (reply_of (grow GROW_FUEL full final maxlen body w) st).
Proof using Type.
  intros HD HR Hm Hb. destruct (grow_ok (fun w' => decent w' /\ refreshed (ce_env K) (cs_world st) w') full final body) with
    (fuel := 15%nat) (maxlen := maxlen) (w := w) as (t & w' & Hg & HD' & HR').
  - intros n w1 [HD1 HR1]. destruct (Hb n w1 HD1) as (c & w' & -> & H1 & H2). exists c, w'. split; [done|]. split; [done|]. by etrans.
  - done.
  - by apply grow_fuel.
  - unfold reply_of. unfold GROW_FUEL. rewrite Hg. cbn [mbind option_bind].
    destruct t; eexists _, _, _; (split; [reflexivity|by apply world_refreshed]).
Qed.

Lemma show_text_ok full body st : decent (cs_world st) -> returns (only_refreshed st) (show_text full body st).
Proof using Type. intros HD. apply reply_grow; [done|done|done|]. intros n w HD1. by exists (body n), w. Qed.

Lemma all_refreshed_ok f c w : decent w ->
  exists c' w', all_refreshed K f c w = Some (c', w') /\ decent w' /\ refreshed (ce_env K) w w'.
Proof using Hsane. intros HD. apply each_refreshed_ok; [done|lia]. Qed.

Lemma show_paths_ok style b st : decent (cs_world st) -> returns (only_refreshed st) (show_paths K style b st).
Proof using Type. intros HD. apply reply_grow; [done|done|done|]. intros n w HD1. eexists _, w. by split. Qed.

(** One map is read back, and shown if it is still there. *)
Lemma shown_map st m show : decent (cs_world st) -> m ∈ mpvec (cs_world st) ->
  (forall w, decent w -> returns (only_refreshed (st <| cs_world := w |>)) (show w)) ->
  returns (only_refreshed st) (let '(r, w) := refresh K m (cs_world st) in if negb (r =? 0) then done_with 1 w st else show w).
Proof using Hsane.
  intros HD Hm Hs. pose proof (refresh_ok _ m HD Hm) as HR. destruct (refresh K m (cs_world st)) as [r w].
  destruct HR as (HD1 & HR & _). destruct (negb (r =? 0)).
  - eexists _, _, _. split; [reflexivity|by apply world_refreshed].
  - eapply returns_weaken; [|by apply Hs]. intros st' (H1 & H2 & H3). split; [done|]. split; [by etrans|]. by rewrite H3.
Qed.

Lemma show_map_topology_ok m st : decent (cs_world st) -> m ∈ mpvec (cs_world st) ->
  returns (only_refreshed st) (show_map_topology K m st).
Proof using Hsane. intros HD Hm. apply shown_map; [done|done|]. intros w HD1. by apply show_text_ok. Qed.

Lemma show_map_json_ok m st : decent (cs_world st) -> m ∈ mpvec (cs_world st) ->
  returns (only_refreshed st) (show_map_json K m st).
Proof using Hsane. intros HD Hm. apply shown_map; [done|done|]. intros w HD1. by apply show_text_ok. Qed.

Lemma show_maps_topology_ok st : decent (cs_world st) -> returns (only_refreshed st) (show_maps_topology K st).
Proof using Hsane.
  intros HD. apply reply_grow; [done|done|done|]. intros n w HD1.
  destruct (all_refreshed_ok (fun w m c => put n c (t_topology (T K) w m)) [] w HD1) as (c & w' & -> & H1 & H2).
  eexists _, w'. by split.
Qed.

Lemma show_maps_ok style b st : decent (cs_world st) -> returns (only_refreshed st) (show_maps K style b st).
Proof using Hsane.
  intros HD. apply reply_grow; [done|done|done|]. intros n w HD1.
  destruct (all_refreshed_ok (fun w m c => put n c (t_map (T K) w style m b)) (header b (t_map_header (T K) style) n) w HD1)
    as (c & w' & -> & H1 & H2).
  eexists _, w'. by split.
Qed.

Lemma show_maps_json_ok st : decent (cs_world st) -> returns (only_refreshed st) (show_maps_json K st).
Proof using Hsane.
  intros HD. unfold show_maps_json. cbv zeta.
  destruct (refresh_all_ok (S (length (mpvec (cs_world st)))) 0 (cs_world st) HD) as (b & w & -> & H1 & H2); [lia|].
  cbn [mbind option_bind]. destruct b; [eexists _, _, _; split; [reflexivity|by apply world_refreshed]|].
  apply reply_grow; [done|done| |].
  - destruct (0 <? _)%nat eqn:Hn; [|done]. apply Nat.ltb_lt in Hn. unfold PRINT_JSON_MULTIPLIER.
    set (n := length _) in *. clearbody n. nia.
  - intros n w1 HD1. by eexists _, w1.
Qed.

Lemma find_map_in name st m : find_map name st = Some m -> m ∈ mpvec (cs_world st).
Proof using Type.
  unfold find_map, find_mp_by_str. destruct (if prefixb _ _ then _ else None) as [[minor ?]|]; [by intros [? _]%Structs.find_in|].
  apply find_alias_in.
Qed.

Lemma find_map_ok name st r (f : ptr -> option (Z * option cstr * cli_state)) :
  decent (cs_world st) -> (forall m, m ∈ mpvec (cs_world st) -> returns (only_refreshed st) (f m)) ->
  r = failed st -> returns (only_refreshed st) (match find_map name st with Some m => f m | None => r end).
Proof using Type.
  intros HD Hf ->. destruct (find_map name st) as [m|] eqn:E; [by apply Hf, (find_map_in name)|].
  eexists _, _, _. split; [reflexivity|by apply same_refreshed].
Qed.

Lemma replied_ok text st : decent (cs_world st) -> returns (only_refreshed st) (replied text st).
Proof using Type. intros HD. eexists _, _, _. split; [reflexivity|by apply same_refreshed]. Qed.

Lemma failed_ok st : decent (cs_world st) -> returns (only_refreshed st) (failed st).
Proof using Type. intros HD. eexists _, _, _. split; [reflexivity|by apply same_refreshed]. Qed.

(** The parameters a handler reads. *)
Definition needs (f : callback) : list Z :=
  match f with
  | cli_list_paths_fmt | cli_list_paths_raw | cli_list_maps_fmt | cli_list_maps_raw => [FMT]
  | cli_list_path | cli_add_path | cli_del_path | cli_reinstate | cli_fail | cli_set_marginal | cli_unset_marginal => [PATH]
  | cli_list_map_fmt => [MAP; FMT]
  | cli_switch_group => [MAP; GROUP]
  | cli_setprkey => [MAP; KEY]
  | cli_list_map_topology | cli_list_map_json | cli_reset_map_stats | cli_add_map | cli_del_map | cli_suspend | cli_resume
  | cli_resize | cli_reload | cli_reassign | cli_disable_queueing | cli_restore_queueing | cli_getprstatus | cli_setprstatus
  | cli_unsetprstatus | cli_getprkey | cli_unsetprkey | cli_unset_all_marginal => [MAP]
  | _ => []
  end.

Definition has_params (f : callback) (v : list key) : Prop := Forall (fun c => is_Some (get_keyparam v c)) (needs f).

Lemma param_some v c b : is_Some (get_keyparam v c) -> is_Some (param v c b).
Proof using Type. intros [x Hx]. unfold param, convert_dev. rewrite Hx. by eexists. Qed.

Lemma need1 c v : Forall (fun c => is_Some (get_keyparam v c)) [c] -> is_Some (get_keyparam v c).
Proof using Type. apply Forall_inv. Qed.
Lemma need2 c d v : Forall (fun c => is_Some (get_keyparam v c)) [c; d] ->
  is_Some (get_keyparam v c) /\ is_Some (get_keyparam v d).
Proof using Type. rewrite !Forall_cons. tauto. Qed.

Lemma listing_ok f v st : f ∈ listing_callbacks -> has_params f v -> decent (cs_world st) ->
  returns (only_refreshed st) (call K f v st).
Proof using Hsane.
  intros Hf Hp HD. assert (forall (o : option cstr) (g : cstr -> option (Z * option cstr * cli_state)),
    is_Some o -> (forall a, returns (only_refreshed st) (g a)) -> returns (only_refreshed st) (o ≫= g)) as Hbind
    by (intros o g Ho Hg; apply returns_bind; [exact Ho|by intros]).
  unfold has_params in Hp. assert (bool_decide (f ∈ listing_callbacks) = true) as Hb by by apply bool_decide_eq_true.
  clear Hf. destruct f; try (vm_compute in Hb; discriminate Hb); clear Hb; cbn [needs] in Hp; cbn [call];
    unfold list_paths_fmt, list_maps_fmt, list_path, list_map_topology, list_map_fmt, list_map_json, show_config, show_status,
      show_daemon, list_wildcards, show_devices, show_blacklist;
    lazymatch goal with
    | |- returns _ (replied _ _) => by apply replied_ok
    | |- returns _ (show_paths _ _ _ _) => by apply show_paths_ok
    | |- returns _ (show_maps _ _ _ _) => by apply show_maps_ok
    | |- returns _ (show_maps_topology _ _) => by apply show_maps_topology_ok
    | |- returns _ (show_maps_json _ _) => by apply show_maps_json_ok
    | |- returns _ (show_text _ _ _) => by apply show_text_ok
    | _ => idtac
    end.
  all: try (apply Hbind; [by first [apply need1|apply param_some, need1]|intros a]).
  all: lazymatch goal with
    | |- returns _ (show_paths _ _ _ _) => by apply show_paths_ok
    | |- returns _ (show_maps _ _ _ _) => by apply show_maps_ok
    | |- returns _ (match find_path ?a ?x with _ => _ end) => destruct (find_path a x); [by apply show_text_ok|by apply failed_ok]
    | |- returns _ (match t_config _ _ _ with _ => _ end) => case_match; [by apply replied_ok|by apply failed_ok]
    | |- returns _ (match find_map _ _ with _ => _ end) => apply find_map_ok; [exact HD| |reflexivity]; intros m Hm
    | _ => idtac
    end.
  - by apply show_map_topology_ok.
  - apply need2 in Hp as [H1 H2]. apply Hbind; [by apply param_some|]. intros a. apply find_map_ok; [exact HD| |reflexivity].
    intros m Hm. apply Hbind; [exact H2|]. intros fmt. by apply show_text_ok.
  - by apply show_map_json_ok.
Qed.
End Listing.

(** ** Parameters *)

Definition from_table (keys : list key) (k : key) : Prop := exists kw, kw ∈ keys /\ code kw = code k /\ has_param kw = has_param k.
Definition complete (k : key) : Prop := has_param k = true -> is_Some (k_param k).

(** The keys read so far; the last one may still want its parameter. *)
Definition parsed_so_far (keys : list key) (get_param : bool) (acc : list key) : Prop :=
  Forall (from_table keys) acc /\
  if get_param then exists l k, acc = l ++ [k] /\ Forall complete l else Forall complete acc.

Lemma set_param_snoc l k p : set_param (l ++ [k]) p =
  l ++ [{| k_str := k_str k; k_param := Some p; code := code k; has_param := has_param k |}].
Proof. unfold set_param. rewrite last_snoc, length_app, Nat.add_sub, take_app_length. done. Qed.

Lemma cmd_words_complete keys words : forall gp acc v, cmd_words keys words gp acc = inr v -> parsed_so_far keys gp acc ->
  parsed_so_far keys false v.
Proof.
  induction words as [|[|w] words IH]; intros gp acc v H HP; cbn [cmd_words] in H.
  - destruct gp; [done|]. by injection H as <-.
  - by eapply IH.
  - destruct gp.
    + apply IH in H; [done|]. destruct HP as [HT (l & k & -> & Hc)]. rewrite set_param_snoc.
      apply Forall_app in HT as [HT Hk%Forall_inv]. split; (apply Forall_app; split; [done|apply Forall_singleton]); [exact Hk|by eexists].
    + destruct (find_key keys w) as [kw|] eqn:Hf; [|done]. apply find_key_spec in Hf as [Hin _]. apply IH in H; [done|].
      destruct HP as [HT Hc]. split.
      * apply Forall_app. split; [done|]. apply Forall_singleton. by exists kw.
      * destruct (has_param kw) eqn:Hh; [by eexists _, _|]. apply Forall_app. split; [done|]. apply Forall_singleton. by intros ?.
Qed.

(** Every parameter a handler needs is that of a key of its fingerprint. *)
Lemma handler_needs h f c : h ∈ daemon_handlers -> fn h = Some f -> c ∈ needs f ->
  exists i, 0 <= i /\ c = 2 ^ i /\ Z.testbit (h_fingerprint h) i = true.
Proof.
  assert (forallb (fun h => match fn h with
    | Some f => forallb (fun c => (c =? 2 ^ Z.log2 c) && Z.testbit (h_fingerprint h) (Z.log2 c)) (needs f)
    | None => true end) daemon_handlers = true) as H by (vm_compute; reflexivity).
  rewrite forallb_forall in H. intros Hh%list_elem_of_In Hf Hc. specialize (H h Hh). rewrite Hf, forallb_forall in H.
  apply list_elem_of_In, H in Hc. apply andb_true_iff in Hc as [Hc%Z.eqb_eq Hb]. exists (Z.log2 c).
  split; [apply Z.log2_nonneg|split; [exact Hc|exact Hb]].
Qed.

Lemma key_has_param k c f : from_table load_keys k -> code k = c -> c ∈ needs f -> has_param k = true.
Proof.
  intros (kw & Hin & Hc & Hh) <- Hn. rewrite <-Hh. rewrite <-Hc in Hn. clear Hc Hh k.
  assert (forallb (fun k => has_param k || negb (existsb (Z.eqb (code k)) [PATH; MAP; GROUP; FMT; KEY])) load_keys = true) as H
    by (vm_compute; reflexivity).
  rewrite forallb_forall in H. apply list_elem_of_In, H in Hin. clear H. apply orb_true_iff in Hin as [Hin|Hin]; [exact Hin|]. exfalso.
  apply negb_true_iff in Hin. apply not_true_iff_false in Hin. apply Hin, existsb_exists. exists (code kw). split; [|apply Z.eqb_refl].
  apply list_elem_of_In. destruct f; cbn [needs] in Hn; set_solver.
Qed.

Lemma params_present line v h f : get_cmdvec load_keys line = inr v -> NoDup (codes v) ->
  find_handler daemon_handlers (fingerprint v) = Some h -> fn h = Some f -> has_params f v.
Proof.
  intros Hv Hd Hh Hf. unfold get_cmdvec in Hv. destruct (alloc_strvec line) as [words|]; [|done].
  assert (parsed_so_far load_keys false v) as [HT Hc].
  { eapply cmd_words_complete; [exact Hv|]. split; constructor. }
  apply find_some in Hh as [Hin%list_elem_of_In Hfp%Z.eqb_eq].
  apply Forall_forall. intros c Hn. destruct (handler_needs h f c Hin Hf Hn) as (i & Hi & -> & Hb).
  assert (Forall one_bit (codes v)) as Hbits.
  { apply Forall_fmap, Forall_forall. intros k Hk. change (one_bit (code k)).
    rewrite Forall_forall in HT. destruct (HT k Hk) as (kw & Hkw & <- & _).
    pose proof load_keys_bits as Hl. rewrite Forall_forall in Hl. by apply Hl. }
  rewrite Hfp, fingerprint_bits in Hb by done. apply bool_decide_eq_true, list_elem_of_fmap in Hb as (k0 & Hk0 & Hin0).
  unfold get_keyparam. destruct (List.find (fun kw => code kw =? 2 ^ i) v) as [k|] eqn:Hfind.
  - apply find_some in Hfind as [Hk%list_elem_of_In Hcode%Z.eqb_eq]. cbn [mbind option_bind].
    rewrite Forall_forall in HT, Hc. apply Hc; [done|]. by eapply key_has_param; [apply HT|exact Hcode|exact Hn].
  - apply list_elem_of_In in Hin0. apply (List.find_none _ _ Hfind) in Hin0. rewrite <-Hk0, Z.eqb_refl in Hin0. done.
Qed.

(** ** Handlers that change something *)

Section Changing.
Context (K : command_env) (Hsane : sane (ce_env K)).
#[local] Abbreviation E := (ce_env K).

#[local] Hint Extern 1 (frame _ (snd (setup_map _ _ _))) => apply setup_map_frame; exact Hsane : frame.
#[local] Hint Resolve update_mpp_paths_frame set_no_path_retry_frame sync_map_state_frame domap_frame : frame.

Definition sound (st : cli_state) : Prop := Inv (cs_world st).

Lemma failed_sound st : sound st -> returns sound (failed st).
Proof. intros H. by eexists _, _, _. Qed.

Lemma finish_sound r st : Inv (snd r) -> returns sound (finish r st).
Proof. intros H. by eexists _, _, _. Qed.

Lemma done_sound r w st : Inv w -> returns sound (done_with r w st).
Proof. intros H. by eexists _, _, _. Qed.

Lemma blacklisted_sound r st : sound st -> returns sound (blacklisted r st).
Proof. intros H. by eexists _, _, _. Qed.

Lemma framed w w' : Inv w -> frame w w' -> Inv w'.
Proof. intros H F. by eapply frame_Inv. Qed.

Lemma with_map_sound v f st : is_Some (get_keyparam v MAP) -> sound st ->
  (forall m, at_map m (cs_world st) -> Inv (snd (f m (cs_world st)))) -> returns sound (with_map v f st).
Proof.
  intros Hp HI Hf. apply returns_bind; [by apply param_some|]. intros name _.
  destruct (find_map name st) as [m|] eqn:Hm; [|by apply failed_sound]. apply finish_sound, Hf. split; [done|].
  by eapply find_map_in.
Qed.

Lemma with_alias_sound v f st : is_Some (get_keyparam v MAP) -> sound st ->
  (forall name m, at_map m (cs_world st) -> Inv (snd (f name m (cs_world st)))) -> returns sound (with_alias v f st).
Proof.
  intros Hp HI Hf. apply returns_bind; [by apply param_some|]. intros name _.
  destruct (find_alias name st) as [m|] eqn:Hm; [|by apply failed_sound]. apply finish_sound, Hf. split; [done|].
  by eapply find_alias_in.
Qed.

Lemma with_path_sound v f st : is_Some (get_keyparam v PATH) -> sound st ->
  (forall p m, at_map m (cs_world st) -> Inv (snd (f p m (cs_world st)))) -> returns sound (with_path v f st).
Proof.
  intros Hp HI Hf. apply returns_bind; [by apply param_some|]. intros name _.
  destruct (find_path_or_devt name st) as [p|] eqn:Hpp; [|by apply failed_sound].
  destruct (mpp (wp (cs_world st) p)) as [m|] eqn:Hm; [|by apply failed_sound]. apply finish_sound, Hf. split; [done|].
  assert (p ∈ pathvec (cs_world st)) as Hin.
  { unfold find_path_or_devt, find_path in Hpp. destruct (find_path_by_dev _ _ _) as [q|] eqn:Hq.
    - injection Hpp as <-. by apply Structs.find_in in Hq as [Hq _].
    - by apply Structs.find_in in Hpp as [Hpp _]. }
  by eapply owner_in.
Qed.

Lemma if_created_Inv m f w : Inv w -> Inv (snd (f w)) -> Inv (snd (if_created m f w)).
Proof. intros H1 H2. unfold if_created. by destruct (negb _). Qed.

Lemma reload_Inv m b w : at_map m w -> Inv (snd (reload_and_sync_map E m b w)).
Proof. intros H. by apply reload_and_sync_outcome. Qed.

Lemma marginals_frame ps : forall w, frame w (foldl (fun w p => upd_path p (fun pp => pp <| marginal := false |>) w) w ps).
Proof. apply (walk_foldl frame). intros w p. apply frame_upd_path. same_fields. Qed.

Lemma restore_queueing_frame m w : frame w (restore_map_queueing K m w).
Proof.
  unfold restore_map_queueing. cbv zeta. set (w1 := upd_map m _ w). assert (frame w w1) as F1 by apply frame_upd_map.
  destruct (_ && _); [|exact F1]. eapply frame_trans; [exact F1|apply set_no_path_retry_frame].
Qed.

Lemma disable_queueing_of_frame m w : frame w (disable_map_queueing K m w).
Proof.
  unfold disable_map_queueing. cbv zeta. eapply frame_trans; [|apply set_no_path_retry_frame].
  eapply frame_trans; [|apply frame_upd_map]. destruct (_ =? 0); [apply frame_upd_map|apply frame_refl].
Qed.

Lemma simplecmd_frame e m w : frame w (snd (simplecmd K e m w)).
Proof.
  unfold simplecmd. cbv zeta. destruct (negb _); cbn [snd]; [apply frame_emit|].
  eapply frame_trans; [apply frame_emit|]. eapply frame_trans; [apply frame_upd_map|apply frame_emit].
Qed.

Lemma resize_map_frame m sz w : frame w (snd (resize_map K m sz w)).
Proof.
  unfold resize_map. cbv zeta. set (w1 := upd_map m _ w). assert (frame w w1) as F1 by apply frame_upd_map.
  pose proof (update_mpp_paths_frame m w1) as F2. apply (frame_trans _ _ _ F1) in F2.
  pose proof (setup_map_frame E Hsane m (snd (update_mpp_paths m w1))) as F3. apply (frame_trans _ _ _ F2) in F3.
  change (Handlers.E K) with E. destruct (setup_map E m _) as [[params|] w3]; cbn [snd] in *;
    [|eapply frame_trans; [exact F3|apply frame_upd_map]].
  set (w4 := upd_map m _ w3). assert (frame w w4) as F4 by (eapply frame_trans; [exact F3|apply frame_upd_map]).
  pose proof (domap_frame E m params true w4) as F5. apply (frame_trans _ _ _ F4) in F5.
  destruct (domap E m params true w4) as [r w5]. cbn [snd] in F5.
  destruct (eqb r DOMAP_FAIL); cbn [snd]; [eapply frame_trans; [exact F5|apply frame_upd_map]|exact F5].
Qed.

Lemma resize_to_path_Inv m w : at_map m w -> Inv (snd (resize_to_path K m w)).
Proof.
  intros HI. unfold resize_to_path. destruct (first_path (wm w m)) as [p|]; [|apply HI].
  destruct (negb _); [apply HI|]. cbv zeta. set (w1 := emit _ w).
  assert (at_map m w1) as H1 by (by apply (frame_at m w); [apply frame_emit|]).
  destruct (ce_sysfs_size K (trace w)) as [sz|]; [|apply H1]. destruct (sz =? _); [apply H1|].
  pose proof (frame_at m w1 _ (resize_map_frame m sz w1) H1) as H2. destruct (resize_map K m sz w1) as [r w2]. cbn [snd] in H2.
  destruct (negb (r =? 0)); [apply H2|]. change (Handlers.E K) with E.
  destruct (setup_multipath_outcome E Hsane true m w2 H2) as [H3 _]. destruct (setup_multipath E true m w2) as [gone w3].
  cbn [snd] in H3. destruct gone; [exact H3|]. cbn [snd]. eapply framed; [exact H3|apply sync_map_state_frame].
Qed.

(** *** Adding paths *)

Lemma store_pathinfo_Inv name fl w r o w' : store_pathinfo K name fl w = (r, o, w') -> Inv w -> Inv w'.
Proof.
  intros H HI. unfold store_pathinfo in H. cbv zeta in H. set (p := next_ptr w) in *.
  set (pp := alloc_path <| dev := take (FILE_NAME_SIZE - 1) name |>) in H.
  set (w1 := w <| w_paths ::= <[p := pp]> |> <| next_ptr ::= S |>) in H.
  assert (frame w w1) as F1 by apply fresh_path_frame.
  assert (forall w2, frame w w2 -> Inv (free_path p w2)) as Hfree.
  { intros w2 F2. eapply keeps_Inv; [apply free_path_keeps|by eapply frame_Inv].
    rewrite (fr_pathvec _ _ F2). by eapply wf_new_path; [apply HI|]. }
  destruct (FILE_NAME_SIZE <=? length name)%nat; [injection H as <- <- <-; by apply Hfree|].
  set (w2 := upd_path p _ w1) in H. assert (frame w w2) as F2 by (by apply frame_upd_new).
  pose proof (run_pathinfo_frame E Hsane p fl w2) as F3. change (Handlers.E K) with E in H.
  destruct (run_pathinfo E p fl w2) as [err w3]. cbn [snd] in F3.
  assert (frame w w3) as F by (by eapply frame_trans).
  destruct (negb (eqb err PATHINFO_OK)); [injection H as <- <- <-; by apply Hfree|].
  unfold store_path in H. destruct (_ && _); injection H as <- <- <-; [by apply Hfree|].
  assert (p < next_ptr w2)%nat as Hp2 by (change (p < S (next_ptr w))%nat; unfold p; lia).
  destruct (fr_paths _ _ F3 p Hp2) as (A & B & C). pose proof (frame_Inv _ _ F HI) as HI3.
  eapply framed; [|apply frame_upd_path; same_fields]. destruct HI3 as [W3 Hnd3]. split; [|exact Hnd3].
  change (mpvec (w3 <| pathvec := ?l |>)) with (mpvec w3).
  apply store_new_wf; [exact W3|..].
  - rewrite (fr_pathvec _ _ F). by apply wf_new_path with (live := mpvec w); [apply HI|].
  - apply C. unfold w2, upd_path. cbn [w_paths upd]. rewrite lookup_insert_eq. by eexists.
  - pose proof (fr_next _ _ F3). lia.
  - unfold wp. rewrite B. change (udev (wp w2 p) = true). unfold w2. by rewrite wp_upd_path_eq.
  - intros x Hx. unfold wp in Hx. rewrite A in Hx. change (mpp (wp w2 p) = Some x) in Hx. unfold w2 in Hx.
    rewrite wp_upd_path_eq in Hx. cbn [mpp upd] in Hx. unfold w1, wp in Hx. cbn [w_paths upd] in Hx.
    by rewrite lookup_total_insert_eq in Hx.
Qed.

Lemma add_unknown_sound name w st : Inv w -> returns sound (add_unknown K name w st).
Proof.
  intros HI. unfold add_unknown. cbv zeta. set (w1 := emit _ w).
  assert (Inv w1) as H1 by (eapply framed; [exact HI|apply frame_emit]).
  destruct (ce_find_device K (trace w)) as [sysname|]; [|by apply done_sound].
  destruct (store_pathinfo K sysname _ w1) as [[r o] w2] eqn:Hs. apply store_pathinfo_Inv in Hs; [|exact H1].
  destruct o as [p|], r; first [by apply finish_sound, ev_add_path_pres|by apply done_sound|by apply blacklisted_sound].
Qed.

Lemma add_removed_sound name p st : sound st -> p ∈ pathvec (cs_world st) ->
  returns sound (add_removed K name p (cs_world st) st).
Proof.
  intros HI Hp. unfold add_removed. cbv zeta. set (w := cs_world st) in *. set (w1 := upd_path p _ w).
  assert (Inv w1) as H1 by (eapply keeps_Inv; [by apply keeps_set_mpp|exact HI]).
  pose proof (run_pathinfo_frame E Hsane p (Z.lor DI_ALL DI_BLACKLIST) w1) as F2. change (Handlers.E K) with E.
  destruct (run_pathinfo E p _ w1) as [r w2]. cbn [snd] in F2. pose proof (frame_Inv _ _ F2 H1) as H2.
  destruct (mpp (wp w p)) as [m|] eqn:Hm.
  - assert (m ∈ mpvec w2) as Hin by (rewrite (fr_mpvec _ _ F2); by apply (owner_in p w)).
    set (w3 := upd_path p _ w2).
    assert (Inv w3) as H3 by (eapply keeps_Inv; [apply keeps_set_mpp; [done|by intros x [= <-]]|exact H2]).
    destruct (_ && _); [apply done_sound; eapply framed; [exact H3|apply frame_upd_path; same_fields]|].
    assert (Inv (snd (ev_remove_path E p true w3))) as H4.
    { apply ev_remove_path_Inv; [done|done|]. intros x. unfold w3. rewrite wp_upd_path_eq. by intros [= <-]. }
    destruct (ev_remove_path E p true w3) as [ret w4]. cbn [snd] in H4. destruct (ret =? 0); [by apply add_unknown_sound|].
    apply done_sound. eapply framed; [exact H4|]. walk.
  - destruct r; [by apply finish_sound, ev_add_path_pres|by apply done_sound|by apply blacklisted_sound].
Qed.

Lemma add_path_sound v st : is_Some (get_keyparam v PATH) -> sound st -> returns sound (add_path K v st).
Proof.
  intros Hp HI. apply returns_bind; [by apply param_some|]. intros name _. cbv zeta.
  destruct (0 <? _); [by apply blacklisted_sound|]. destruct (find_path name st) as [p|] eqn:Hf; [|by apply add_unknown_sound].
  apply Structs.find_in in Hf as [Hf _].
  destruct (eqb _ _); [by apply add_removed_sound|]. destruct (bool_decide _); [by apply done_sound|].
  by apply finish_sound, ev_add_path_pres.
Qed.

Lemma del_path_sound v st : is_Some (get_keyparam v PATH) -> sound st -> returns sound (del_path K v st).
Proof.
  intros Hp HI. apply returns_bind; [by apply param_some|]. intros name _.
  destruct (find_path name st) as [p|] eqn:Hf; [|by apply failed_sound]. apply Structs.find_in in Hf as [Hf _].
  apply finish_sound, ev_remove_path_Inv; [exact Hsane|done|]. intros m Hm. by eapply owner_in.
Qed.

(** *** Removing maps *)

Lemma map_name_frame name w : frame w (snd (map_name K name w)).
Proof.
  unfold map_name. cbv zeta. destruct (ce_major_minor K (trace w)) as [[? ?]|]; cbn [snd]; [|apply frame_emit].
  eapply frame_trans; [apply frame_emit|apply frame_emit].
Qed.

Lemma del_map_sound v st : is_Some (get_keyparam v MAP) -> sound st -> returns sound (del_map K v st).
Proof.
  intros Hp HI. apply returns_bind; [by apply param_some|]. intros name _.
  pose proof (framed _ _ HI (map_name_frame name (cs_world st))) as H1. destruct (map_name K name (cs_world st)) as [[[minor alias]|] w].
  - apply finish_sound, ev_remove_map_pres; [exact H1].
  - by apply done_sound.
Qed.

(** A map that is flushed leaves the vector, which has one map less. *)
Lemma flush_map_length m w : at_map m w -> let '(r, w') := flush_map E m false w in
  Inv w' /\ if r =? 0 then length (mpvec w) = S (length (mpvec w')) else mpvec w' = mpvec w.
Proof.
  intros HI. destruct (flush_map_outcome E m false w HI) as [H1 _]. unfold flush_map in *. cbv zeta in *.
  destruct (Z.eqb_spec (e_flush E (trace w)) 0) as [Hz|Hz]; cbn [negb fst snd] in *.
  - split; [done|]. rewrite Z.eqb_refl, remove_and_stop_mpvec. set (w1 := emit _ w).
    destruct HI as [[W Hnd] Hm]. destruct (orphan_paths_keeps [] (mpvec w) m w1) as (_ & M1 & _).
    { by eapply frame_wf; [apply frame_emit|]. }
    rewrite M1. change (mpvec w1) with (mpvec w). by apply remove_first_length.
  - split; [done|]. rewrite (proj2 (Z.eqb_neq _ _) Hz). by destruct (_ =? 1).
Qed.

Lemma flush_all_ok fuel : forall i ret w, Inv w -> (i <= length (mpvec w) < fuel + i)%nat ->
  exists r w', flush_all K fuel i ret w = Some (r, w') /\ Inv w'.
Proof.
  induction fuel as [|n IH]; intros i ret w HI Hf; cbn [flush_all]; [lia|].
  destruct (mpvec w !! i) as [m|] eqn:Hi; [|by exists ret, w]. pose proof (lookup_lt_Some _ _ _ Hi).
  pose proof (flush_map_length m w (conj HI (list_elem_of_lookup_2 _ _ _ Hi))) as HF. change (Handlers.E K) with E.
  destruct (flush_map E m false w) as [r w1]. destruct HF as [H1 HF].
  destruct (r =? 0); cbn [negb]; apply IH; try done; [lia|rewrite HF; lia].
Qed.

Lemma del_maps_sound st : sound st -> returns sound (del_maps K st).
Proof.
  intros HI. unfold del_maps. cbv zeta.
  destruct (flush_all_ok (S (length (mpvec (cs_world st)))) 0 0 (cs_world st) HI ltac:(lia)) as (r & w & -> & H).
  apply done_sound. eapply framed; [exact H|apply frame_emit].
Qed.

(** *** Reservation keys *)

(** The file of keys is one that the daemon wrote, and the WWIDs of the maps can
    be found in it. *)
Definition keys_ok (st : cli_state) : Prop := keys_file (cs_prkeys st) /\
  forall m, m ∈ mpvec (cs_world st) -> m_wwid (wm (cs_world st) m) = [] \/ good_key_wwid (m_wwid (wm (cs_world st) m)).

Lemma change_prkey_sound m key fl st : 0 <= key < 2 ^ 64 -> sound st -> keys_ok st -> m ∈ mpvec (cs_world st) ->
  returns sound (change_prkey K m key fl st).
Proof.
  intros Hk HI [HF HW] Hm. unfold change_prkey. cbv zeta.
  assert (exists x, set_prkey (ce_io K) (cs_prkeys st) (m_wwid (wm (cs_world st) m))
    (reservation_of <$> ce_mpe K (wm (cs_world st) m)) (reservation_of (opts (ce_conf K)))
    (reservation_of_map (wm (cs_world st) m)) key fl = Some x) as ([[rc text] r] & ->).
  { destruct (HW m Hm) as [Hw|Hw]; [unfold set_prkey; rewrite Hw; by eexists|].
    destruct (set_prkey_spec (ce_io K) (cs_prkeys st) _ (reservation_of <$> ce_mpe K (wm (cs_world st) m))
      (reservation_of (opts (ce_conf K))) (reservation_of_map (wm (cs_world st) m)) key fl HF Hw Hk) as (rc & t & mp' & -> & _).
    by eexists. }
  cbn [mbind option_bind]. eexists _, _, _. split; [reflexivity|]. unfold sound. cbn [cs_world upd].
  eapply framed; [exact HI|apply frame_upd_map].
Qed.

(** *** All of them *)

Lemma maps_sound (f : ptr -> world -> world) st : (forall m w, frame w (f m w)) -> sound st ->
  returns sound (done_with 0 (foldl (fun w m => f m w) (cs_world st) (mpvec (cs_world st))) st).
Proof.
  intros Hf HI. apply done_sound. eapply framed; [exact HI|]. apply (walk_foldl frame). intros w m. apply Hf.
Qed.

Lemma found_map_sound v f st : is_Some (get_keyparam v MAP) -> sound st ->
  (forall m, at_map m (cs_world st) -> returns sound (f m)) ->
  returns sound (name ← param v MAP false; match find_map name st with Some m => f m | None => failed st end).
Proof.
  intros Hp HI Hf. apply returns_bind; [by apply param_some|]. intros name _.
  destruct (find_map name st) as [m|] eqn:Hm; [|by apply failed_sound]. apply Hf. split; [done|]. by eapply find_map_in.
Qed.

Lemma at_frame m w w' : at_map m w -> frame w w' -> Inv w'.
Proof. intros [H _] F. by eapply framed. Qed.

Lemma change_map_sound v g st : is_Some (get_keyparam v MAP) -> sound st -> (forall m w, frame w (snd (g m w))) ->
  returns sound (with_map v g st).
Proof. intros Hp HI Hg. apply with_map_sound; [done|done|]. intros m Hm. by eapply at_frame. Qed.

Lemma named_cmd_sound v g st : is_Some (get_keyparam v MAP) -> sound st ->
  (forall name m w, frame w (snd (g name m w))) -> returns sound (with_alias v g st).
Proof. intros Hp HI Hg. apply with_alias_sound; [done|done|]. intros name m Hm. by eapply at_frame. Qed.

Lemma if_created_frame m f w : frame w (snd (f w)) -> frame w (snd (if_created m f w)).
Proof. intros H. unfold if_created. destruct (negb _); [apply frame_refl|exact H]. Qed.

(** The commands of one map. *)
Lemma map_command_sound f v st : needs f = [MAP] -> f ∉ listing_callbacks -> f <> cli_add_map -> has_params f v ->
  sound st -> keys_ok st -> returns sound (call K f v st).
Proof.
  intros Hn Hl Hf Hp HI HK. unfold has_params in Hp. rewrite Hn in Hp. apply need1 in Hp.
  destruct f; try discriminate Hn; try congruence; try (exfalso; apply Hl; clear; set_solver); clear Hn Hl Hf; cbn [call].
  - apply found_map_sound; [done|done|]. intros m Hm. apply done_sound. eapply at_frame; [exact Hm|apply frame_upd_map].
  - by apply del_map_sound.
  - apply named_cmd_sound; [done|done|]. intros name m w. apply if_created_frame, simplecmd_frame.
  - apply named_cmd_sound; [done|done|]. intros name m w. apply if_created_frame, simplecmd_frame.
  - apply with_map_sound; [done|done|]. intros m Hm. apply if_created_Inv; [apply Hm|by apply resize_to_path_Inv].
  - apply with_map_sound; [done|done|]. intros m Hm. apply if_created_Inv; [apply Hm|by apply reload_Inv].
  - apply named_cmd_sound; [done|done|]. intros name m w. apply if_created_frame, frame_emit.
  - apply change_map_sound; [done|done|]. intros m w. apply disable_queueing_of_frame.
  - apply change_map_sound; [done|done|]. intros m w. apply restore_queueing_frame.
  - apply found_map_sound; [done|done|]. intros m Hm. by eexists _, _, _.
  - apply change_map_sound; [done|done|]. intros m w. apply frame_upd_map.
  - apply change_map_sound; [done|done|]. intros m w. apply frame_upd_map.
  - apply found_map_sound; [done|done|]. intros m Hm. by eexists _, _, _.
  - apply found_map_sound; [done|done|]. intros m [_ Hm]. by apply change_prkey_sound.
  - apply with_map_sound; [done|done|]. intros m Hm. apply if_created_Inv; [apply Hm|]. apply reload_Inv.
    eapply frame_at; [apply marginals_frame|exact Hm].
Qed.

Lemma call_sound f v st : f <> cli_add_map -> has_params f v -> decent (cs_world st) -> keys_ok st ->
  returns sound (call K f v st).
Proof.
  intros Hf Hp HD HK. assert (sound st) as HI by apply HD. destruct (decide (f ∈ listing_callbacks)) as [Hl|Hl].
  { eapply returns_weaken; [|by apply listing_ok]. intros st' (H & _ & _). apply H. }
  destruct (decide (needs f = [MAP])) as [Hn|Hn]; [by apply map_command_sound|].
  unfold has_params in Hp. destruct f; cbn [needs] in Hn; try congruence; try (exfalso; apply Hl; clear; set_solver); clear Hl Hf Hn; cbn [call needs] in *.
  - apply maps_sound; [|done]. intros m w. apply frame_upd_map.
  - apply add_path_sound; [by apply need1|done].
  - apply del_path_sound; [by apply need1|done].
  - by apply del_maps_sound.
  - apply need2 in Hp as [H1 H2]. apply returns_bind; [by apply param_some|]. intros name _. apply returns_bind; [done|].
    intros g _. apply done_sound. eapply framed; [exact HI|apply frame_emit].
  - unfold reconfigure. destruct (set_config_state _ _ _ _) as [rc status]. by eexists _, _, _.
  - apply with_path_sound; [by apply need1|done|]. intros p m Hm. eapply at_frame; [exact Hm|]. cbn [snd].
    eapply frame_trans; apply frame_emit.
  - apply with_path_sound; [by apply need1|done|]. intros p m Hm. eapply at_frame; [exact Hm|]. cbn [snd].
    destruct (_ =? 0); [eapply frame_trans; apply frame_emit|apply frame_emit].
  - apply maps_sound; [|done]. apply disable_queueing_of_frame.
  - apply maps_sound; [|done]. apply restore_queueing_frame.
  - by apply done_sound.
  - by eexists _, _, _.
  - by eexists _, _, _.
  - by eexists _, _, _.
  - apply need2 in Hp as [H1 H2]. apply found_map_sound; [done|done|]. intros m [_ Hm]. apply returns_bind; [done|]. intros k _.
    unfold parse_prkey_flags. destruct (strchr 58 k) as [i|].
    + destruct (parse_prkey (Some (take i k))) as [key|] eqn:Hk; [|by apply failed_sound].
      apply change_prkey_sound; [by eapply parse_prkey_range|done..].
    + destruct (parse_prkey (Some k)) as [key|] eqn:Hk; [|by apply failed_sound].
      apply change_prkey_sound; [by eapply parse_prkey_range|done..].
  - apply with_path_sound; [by apply need1|done|]. intros p m Hm. destruct (negb _); [apply Hm|]. apply reload_Inv.
    eapply frame_at; [apply frame_upd_path; same_fields|exact Hm].
  - apply with_path_sound; [by apply need1|done|]. intros p m Hm. destruct (negb _); [apply Hm|]. apply reload_Inv.
    eapply frame_at; [apply frame_upd_path; same_fields|exact Hm].
Qed.
End Changing.

(** ** The command line of the daemon *)

(** What runs is the handler of the words' fingerprint. *)
Lemma ran_spec run version lock_rc line is_root f v :
  ran (uxsock_trigger load_keys daemon_handlers version run lock_rc line is_root) = Some (f, v) ->
  get_cmdvec load_keys line = inr v /\ exists h, find_handler daemon_handlers (fingerprint v) = Some h /\ fn h = Some f.
Proof.
  unfold uxsock_trigger. intros H.
  assert (ran (parse_cmd load_keys daemon_handlers version run lock_rc line) = Some (f, v)) as Hr.
  { destruct (negb is_root && _ && _); [discriminate|]. destruct (0 <? _); [done|]. by destruct (_ && _). }
  clear H. unfold parse_cmd in Hr. destruct (get_cmdvec load_keys line) as [e|cv].
  { unfold help in Hr. by destruct (genhelp_handler _ _ _ _ _) as [[|]|]. }
  destruct (find_handler daemon_handlers (fingerprint cv)) as [[fp lock [cb|]]|] eqn:Hf;
    [|by unfold help in Hr; destruct (genhelp_handler _ _ _ _ _) as [[|]|]..].
  destruct (lock && _); [done|]. destruct (run cb cv) as [r t]. injection Hr as <- <-. split; [done|]. by eexists.
Qed.

(** The words of the line are different keys (whatever names they have). *)
Definition plain_command (line : cstr) : Prop := forall v, get_cmdvec load_keys line = inr v -> NoDup (codes v).

Definition adds_map (line : cstr) : Prop := exists v, get_cmdvec load_keys line = inr v /\ fingerprint v = ADD + MAP.

Lemma add_map_handler h : h ∈ daemon_handlers -> fn h = Some cli_add_map -> h_fingerprint h = ADD + MAP.
Proof.
  assert (forallb (fun h => (h_fingerprint h =? ADD + MAP) || negb (bool_decide (fn h = Some cli_add_map))) daemon_handlers = true) as H
    by (vm_compute; reflexivity).
  rewrite forallb_forall in H. intros Hh%list_elem_of_In Hf. apply H in Hh. clear H. rewrite bool_decide_eq_true_2 in Hh by exact Hf.
  cbn [negb] in Hh. rewrite orb_false_r in Hh. by apply Z.eqb_eq.
Qed.

Lemma command_cases K version lock_rc line is_root st (P : cli_state -> Prop) : P st ->
  (forall f v h, get_cmdvec load_keys line = inr v -> find_handler daemon_handlers (fingerprint v) = Some h -> fn h = Some f ->
    ran (uxsock_trigger load_keys daemon_handlers version
      (fun f v => match call K f v st with Some (r, text, _) => (r, text) | None => (1, None) end) lock_rc line is_root) = Some (f, v) ->
    returns P (call K f v st)) ->
  returns P (command K version lock_rc line is_root st).
Proof.
  intros HP Hc. unfold command. cbv zeta. set (o := uxsock_trigger _ _ _ _ _ _ _) in *.
  destruct (ran o) as [[f v]|] eqn:Hr; [|by eexists _, _, _].
  destruct (ran_spec _ _ _ _ _ _ _ Hr) as (Hv & h & Hh & Hf).
  destruct (Hc f v h Hv Hh Hf eq_refl) as (rc' & text & st' & -> & HP'). cbn [mbind option_bind]. by eexists _, _, _.
Qed.

Lemma command_sound K version lock_rc line is_root st : sane (ce_env K) -> plain_command line -> ~ adds_map line ->
  decent (cs_world st) -> keys_ok st -> returns sound (command K version lock_rc line is_root st).
Proof.
  intros Hs Hp Ha HD HK. apply command_cases; [apply HD|]. intros f v h Hv Hh Hf _. apply call_sound; [done| | |done|done].
  - intros ->. apply Ha. exists v. split; [done|]. apply find_some in Hh as [Hin%list_elem_of_In Hfp%Z.eqb_eq].
    rewrite <-Hfp. by apply add_map_handler.
  - by eapply params_present; [exact Hv|apply Hp|exact Hh|exact Hf].
Qed.

(** The daemon does something on its own, or runs the line of a client. *)
Inductive served (sysname : uevent -> option cstr) : cli_state -> cli_state -> Prop :=
  | OwnStep st w : daemon_step sysname (cs_world st) w -> served sysname st (st <| cs_world := w |>)
  | ClientLine K version lock_rc line is_root st rc reply st' : sane (ce_env K) -> plain_command line -> ~ adds_map line ->
      named (cs_world st) -> keys_ok st ->
      command K version lock_rc line is_root st = Some (rc, reply, st') -> served sysname st st'.

Lemma served_sound sysname st st' : served sysname st st' -> sound st -> sound st'.
Proof.
  intros Hs HI. destruct Hs as [st w Hd|K version lock_rc line is_root st rc reply st' Hs Hp Ha Hn HK Hc].
  - by eapply daemon_step_Inv.
  - destruct (command_sound K version lock_rc line is_root st Hs Hp Ha (conj HI Hn) HK) as (rc' & text & st2 & He & H).
    rewrite Hc in He. by injection He as _ _ <-.
Qed.


(** C8: A client that is not root changes nothing: whatever line it sends, as long as its words are
    different keys, the daemon answers, and its state is either what it was or the result of reading
    maps back from the kernel, as a map event would make it; the reservation keys, the
    queueing of the daemon and its status stay. *)
Theorem clients_only_read K version lock_rc line st (Hsane : sane (ce_env K)) (Hplain : plain_command line)
    (Hwf : wellformed (cs_world st)) (Hn : named (cs_world st)) :
  exists rc reply st', command K version lock_rc line false st = Some (rc, reply, st') /\
    refreshed (ce_env K) (cs_world st) (cs_world st') /\ cs_prkeys st' = cs_prkeys st /\
    cs_queue_without_daemon st' = cs_queue_without_daemon st /\ cs_status st' = cs_status st.
Proof.
  apply wellformed_Inv in Hwf. assert (decent (cs_world st)) as HD by done.
  assert (returns (only_refreshed K st) (command K version lock_rc line false st)) as (rc & text & st' & -> & _ & H & Hst).
  { apply command_cases; [by apply same_refreshed|]. intros f v h Hv Hh Hf Hr. apply listing_ok; [done| | |done].
    - eapply only_listing; [exact Hr|by apply Hplain].
    - by eapply params_present; [exact Hv|apply Hplain|exact Hh|exact Hf]. }
  exists rc, text, st'. split; [done|]. split; [exact H|]. by rewrite Hst.
Qed.

(** ** Concrete clients *)

Definition no_texts : texts := {|
  t_path_header := fun style => style; t_path := fun w style p _ => dev (wp w p); t_foreign_paths := fun _ _ => [];
  t_map_header := fun style => style; t_map := fun w _ m _ => m_alias (wm w m); t_foreign_maps := fun _ _ => [];
  t_topology := fun w m => m_alias (wm w m); t_foreign_topology := []; t_map_json := fun w m => m_alias (wm w m);
  t_maps_json := fun _ => s "[]"; t_config := fun _ _ => None; t_status := fun _ => []; t_wildcards := []; t_blacklist := [];
  t_devices := fun _ => [] |}.

Definition calm_commands : command_env := {|
  ce_env := calm; ce_texts := no_texts; ce_conf := zero_config; ce_regcomp := fun _ => None;
  ce_mpe := fun _ => None; ce_hwe := fun _ => None; ce_mptable := []; ce_io := io_good; ce_bindings := [];
  ce_find_device := fun _ => None; ce_major_minor := fun _ => None; ce_flush_maps := fun _ => 0;
  ce_switchgroup := fun _ => 0; ce_simplecmd := fun _ => true; ce_fail_path := fun _ => 0; ce_sysfs_size := fun _ => None;
  ce_wait := (0, DAEMON_IDLE); ce_pid := 1 |}.

Definition serving (w : world) : cli_state :=
  {| cs_world := w; cs_queue_without_daemon := QUE_NO_DAEMON_OFF; cs_prkeys := PRKEYS_FILE_HEADER; cs_status := DAEMON_IDLE |}.

Lemma small_keys : keys_ok (serving small).
Proof.
  split.
  - exists (KNote <$> (notes ++ [s "#"])). split; [vm_compute; reflexivity|]. split; [|decide_closed].
    apply Forall_fmap. change (Forall (fun b => b ∈ notes) (notes ++ [s "#"])). decide_closed.
  - intros m ->%list_elem_of_singleton. right. split; (discriminate || reflexivity || decide_closed).
Defined.

Lemma small_named : named (cs_world (serving small)).
Proof. intros m ->%list_elem_of_singleton. discriminate. Defined.


Lemma clients_only_read_witness : exists rc reply st',
  command calm_commands (s "v") 0 (s "list maps") false (serving small) = Some (rc, reply, st') /\
  refreshed calm small (cs_world st').
Proof.
  destruct (clients_only_read calm_commands (s "v") 0 (s "list maps") (serving small) calm_sane) as (rc & reply & st' & H & Hr & _).
  - intros v H. vm_compute in H. injection H as <-. decide_closed.
  - exact small_wellformed.
  - exact small_named.
  - exists rc, reply, st'. split; [exact H|exact Hr].
Defined.

(** ** "add map" breaks the vectors *)

Definition readable : env := {|
  e_conf := {| c_checkint := 5; c_max_checkint := 20; c_retrigger_tries := 3;
               c_marginal_pathgroups := false; c_uev_wait_timeout := 30; c_force_sync := false;
               c_find_multipaths := 0; c_reassign_maps := false; c_delayed_reconfig := false;
               c_poll_dmevents := true |};
  e_reinstate_fails := fun _ => false; e_get_map := fun _ => (DMP_OK, 0, []);
  e_get_status := fun _ => (DMP_OK, []); e_pathinfo := fun _ pp => (PATHINFO_OK, pp);
  e_path_offline := fun _ => PATH_UP; e_select_checker := fun _ => true;
  e_checker_init := fun _ => true; e_checker_check := fun _ => PATH_UP;
  e_udev := fun _ => true; e_devname := fun _ => s "sda"; e_sysfs_dev := fun _ => Some (s "8:16");
  e_time := fun h => Z.of_nat (length h); e_tpgs_implicit := fun _ => false;
  e_io_err_thread := false; e_enqueue_fails := fun _ => false;
  e_select := {| sel_failback_policy := id; 
                 sel_selector := fun m => m <| selector := Some (s "service-time 0") |>; sel_retry_hwhandler := id;
                 sel_features := fun m => m <| features := Some (s "0") |>;
                 sel_hwhandler := fun m => m <| hwhandler := Some (s "0") |>; sel_rest := fun m => m <| pgpolicyfn := Some fn_one_group |> |};
  e_select_alias := fun m => Some (m_wwid m); e_adapter_name := fun _ => None;
  e_version_code := KERNEL_VERSION 5 4 0;
  e_map_present := fun _ => true; e_dm_info := fun _ => Some (253, 0); e_uuid := fun _ => None;
  e_is_mpath := fun _ => 1; e_dm_task := fun _ => (true, false); e_suspended := fun _ => false;
  e_rename := fun _ => true; e_flush := fun _ => 0; e_flock_blocked := fun _ => false;
  e_wwid_changed := fun _ => false; e_remember_wwid := fun _ => 0; e_in_wwids_file := fun _ => true;
  e_udev_of_map := fun _ => Some true; e_filtered := fun _ => false; e_wait_fails := fun _ => false;
  e_mapname := fun _ => None; e_get_uid := fun _ => None; e_foreign_ok := fun _ => false;
  e_keep_queueing := fun _ => true; e_queue_fails := fun _ => false;
  e_deferred := fun _ => false |}.

Definition lonely : world := {|
  w_paths := {[ 0%nat := alloc_path <| udev := true |> <| dev := s "sdb" |> <| dev_t := s "8:16" |>
                           <| wwid := s "y" |> <| initialized := INIT_OK |> <| state := PATH_UP |> <| size := 8 |> ]};
  w_maps := ∅; pathvec := [0%nat]; mpvec := []; next_ptr := 1%nat; trace := [] |}.

Definition readable_commands : command_env := {|
  ce_env := readable; ce_texts := no_texts; ce_conf := zero_config; ce_regcomp := fun _ => None;
  ce_mpe := fun _ => None; ce_hwe := fun _ => None; ce_mptable := []; ce_io := io_good; ce_bindings := [];
  ce_find_device := fun _ => None; ce_major_minor := fun _ => None; ce_flush_maps := fun _ => 0;
  ce_switchgroup := fun _ => 0; ce_simplecmd := fun _ => true; ce_fail_path := fun _ => 0; ce_sysfs_size := fun _ => None;
  ce_wait := (0, DAEMON_IDLE); ce_pid := 1 |}.

(** [cli_add_map] has no vector for the maps that [coalesce_paths] makes: the
    path belongs to a map that is nowhere, when the kernel does not know the map in the end. *)
Example add_map_leaks : exists m, match command readable_commands (s "v") 0 (s "add map y") true (serving lonely) with
  | Some (rc, _, st) => rc = 1 /\ mpp (wp (cs_world st) 0%nat) = Some m /\ mpvec (cs_world st) = []
  | None => False
  end.
Proof. eexists. vm_compute. split; [reflexivity|]. split; reflexivity. Qed.
